(* ===== verification/_CoqProject ===== *)
-Q . S2P
Prelude.v
Bytes.v
MdlTypes.v
MdlKey.v
MdlLock.v
MdlLockInv.v
MdlLockOps.v
MdlLockSpec.v
MdlLockRefine.v
MdlLockProps.v
MdlServer.v
MdlDeadlock.v
MdlContext.v
MdlContextProps.v
MdlWait.v
Decimal.v
DecimalValue.v
DecimalArith.v
DecimalMul.v
DecimalMulProps.v
DecimalInt.v
DecimalBin.v
DecimalRound.v
DecimalRoundProps.v
DecimalBinValue.v
DecimalBinProps.v
Queue.v
QueueProps.v
Hash.v
HashInv.v
HashOps.v
HashSplit.v
HashProps.v
Time.v
TimeProps.v
TimeAdd.v
TimeBin.v
Tree.v
TreeRep.v
TreeRb.v
TreeInsert.v
TreeDelete.v
TreeOps.v
TreeProps.v
TreeRemove.v
TreeSearch.v
TreeWalk.v
Utf8.v
Utf8Props.v
Utf8Strings.v
Weights.v
Collation.v
CollationAscii.v
CollationProps.v
CollationChars.v
CollationOrder.v
SortKey.v
SortKeyProps.v
SortKeyOrder.v
HashSort.v
HashSortProps.v
Wildcmp.v
WildcmpProps.v
