(* ===== verification/Prelude.v ===== *)
(** * Verification of the core of the MariaDB server

    Parts of the server in which a mistake corrupts data or stops it, translated into Rocq and
    proved: the metadata lock manager, the DECIMAL type, the heaps, hash tables and trees of mysys, the
    calendar and column formats of the temporal types, and the UTF-8 character sets with their
    collations.  Sources are named relative to src/.

    ** Metadata locks (sql/mdl.cc, sql/mdl.h)

    Every statement takes metadata locks on the objects it uses.  A lock ([MDL_lock]) has a list of
    granted and a list of waiting tickets, with a bitmap and counters of the types in each list, and
    fast lanes ([Fast_road]) that take the frequent compatible types without the lists.  A
    connection ([MDL_context]) owns tickets in three lists by duration, waits in a slot
    ([MDL_wait]), and looks for deadlocks when it has to wait.

    - [MdlTypes]: lock types, the matrices [MDL_scoped_lock], [MDL_object_lock] and
      [MDL_backup_lock] with their strategies.  The matrices equal the tables in the comments but
      for an exact list of entries, and what [has_stronger_or_equal_type] promises.
    - [MdlKey]: [MDL_key], the byte string that names a lock: round trip, equality, order.
    - [MdlLock]: every operation of [MDL_lock], [Ticket_list], [Fast_road] and its lanes.  Tickets
      are in a heap, because lists, lanes and contexts share them and types change in place.
      One function is one critical section (m_rwlock, or the mutex of a lane); a request that does
      not get into its lane is also a step of its own under m_rwlock, after steps of others.
    - [MdlLockInv], [MdlLockOps]: the invariant of a lock, and that every operation preserves it
      and does to the holders and waiters what a lock without bitmaps, counters and lanes would do.
    - [MdlLockSpec]: the steps of a lock, labelled with operation and result, the invariant of a lock
      and its users, and a simulation by a step relation on multisets of holders and waiters, from
      which mutual exclusion follows.
    - [MdlLockRefine]: an executable specification, one function for each operation on the multiset
      of holders, the queue, the count of hog locks and the wait slots; every step of the lock has the
      result and the final state that the specification computes.
    - [MdlLockProps]: for all interleavings: mutual exclusion, refinement, no lost wake-up (except by
      an upgrade to a type that admits more), the invariant, transparency of the fast lanes, the
      limit of hog locks, and what acquiring and releasing do on every branch.
    - [MdlServer], [MdlDeadlock], [MdlContext], [MdlContextProps]: the state of all contexts and
      locks ([MDL_map]), the deadlock search with its loop, and the operations of a context.  A
      reported deadlock is a circle or a chain of the maximal length, the search loop ends, its edges
      are the blocking contexts; savepoints, changes of duration and finding tickets.
    - [MdlWait]: the wait loop of [acquire_lock] interleaved with other contexts: the wait slot keeps
      ticket and status in step, except when the client is gone, and what [abort_wait] does then.

    The depth-first search recurses at most MAX_SEARCH_DEPTH (32) contexts deep; this limit of the
    code is its measure.  The loop of [find_deadlock] has the number of contexts as fuel, which
    [mdl_deadlock_resolved] proves enough.

    ** DECIMAL (strings/decimal.c, include/decimal.h, sql/my_decimal.h)

    - [Decimal]: [decimal_t] as words of nine digits; addition, subtraction, comparison, and the
      wrappers [my_decimal_add] and [my_decimal_sub] with their overflow handling.
    - [DecimalValue], [DecimalArith]: values, and that results are exact, the sum of the truncated
      operands, or an overflow, according to the return code.
    - [DecimalMul], [DecimalMulProps]: [decimal_mul], with every access outside of a buffer an
      explicit failure: it never fails, and the product is exact or that of the factors without
      their last words.
    - [DecimalRound], [DecimalRoundProps]: [decimal_round] in all modes, with the same kind of failure:
      results are rounded right for numbers that leave a word free (the fraction always, the integer part
      for negative scales), and a product that leaves none
      makes it write behind its buffer.
    - [DecimalInt]: conversion from and to 64-bit integers, with rounding and saturation.
    - [DecimalBin], [DecimalBinValue], [DecimalBinProps]: [decimal2bin] and [bin2decimal], the bytes
      of a DECIMAL column: round trip, memcmp as comparison, error codes.

    ** Heaps, hash tables and trees (mysys/queues.c, mysys/hash.c, mysys/tree.c)

    - [Queue], [QueueProps]: the binary heap with the positions stored in its elements, for every
      comparison that is a total preorder (class [TotalCompare]).
    - [Hash], [HashInv], [HashOps], [HashSplit], [HashProps]: linear hashing in one array, with the
      key, hash and comparison functions of the caller as parameters (class [KeyHash] says that equal
      keys have equal hash values).  Every operation keeps the table in order and acts on the multiset
      of its records; [my_hash_check] accepts every table in order.  [my_hash_update] of an empty table
      reads outside of the array, which is a failure of its own ([None]).
    - [Tree]: red-black trees on a heap of elements with their pointers, in a state monad whose
      failure is undefined behaviour: a bad address, the key of [null_element], a place beyond the 64
      of the array [parents].
    - [TreeRep], [TreeRb]: the tree that a heap represents, with a zipper for the path to an element,
      rules for each memory access, and the colour invariant with its bound on the height: 62 for the
      2^32 - 1 elements that the counter can count.
    - [TreeInsert], [TreeDelete]: the two loops that rebalance, on every path.
    - [TreeOps], [TreeProps], [TreeRemove]: searching for a place, freeing, and that [tree_insert] and
      [tree_delete] act on the sorted list of keys with their counts, never fail, and keep the tree
      ordered and balanced.
    - [TreeSearch], [TreeWalk]: the searches by key and mode, the cursor that moves forward and
      backward, the walks and the self-test, against the same sorted list.

    The walks along a chain have the number of records as fuel, the loops of the heap the number
    of its elements, and those of the trees the height that the array [parents] allows; the invariants
    make that enough, and the theorems state results, so that a walk that ran out of fuel would refute
    them.

    ** Dates and times (sql/sql_time.cc, sql-common/my_time.c, sql/compat56.cc)

    - [Time], [TimeProps], [TimeAdd]: day numbers and dates (a bijection that counts the days in the
      order of the calendar), [date_add_interval] as addition of microseconds or of months, and the
      packed form of [pack_time] with [my_time_compare].
    - [TimeBin]: the bytes of TIME(n) and DATETIME(n) columns: round trip, and memcmp as comparison.

    The loop over the years in [get_date_from_daynr] has a fuel of 3, since its first estimate is at
    most one year too early; what depends on one year only is evaluated for each of 9999 years.  The
    loop that counts the words of a 64-bit integer has a fuel of 3 (10^27 is more than 2^64), the one
    that counts the digits of a word a fuel of 10.

    ** Strings (strings/ctype-utf8.c, strings/ctype-mb.c, strings/strcoll.inl, strings/ctype-wildcmp.inl)

    A character set decodes and encodes characters; a collation compares strings by the weights of their
    characters, makes sort keys of them, and hashes them so that equal strings have equal hash values; LIKE
    matches them with patterns.

    - [Utf8]: the decoders, encoders and lengths of utf8mb3 and utf8mb4, and the functions on strings
      that both use: numbers and positions of characters, the well-formed prefix, the copy that replaces
      bad bytes.
    - [Utf8Props]: against the arithmetic definition of UTF-8 (class [Utf8Charset], with an instance for
      each character set): round trip, no other sequence accepted, error codes, order.
    - [Utf8Strings]: a string as a list of characters and bad bytes, which all these functions agree on.
    - [Weights]: the tables of strings/ctype-unicode300-general_ci.h and its mysql500 variant.
    - [Collation]: strings/strcoll.inl as included for general_ci, general_mysql500_ci and bin, with the
      shortcut for ASCII of strings/ctype-ascii.h as on a 64-bit platform.
    - [CollationAscii], [CollationProps], [CollationChars], [CollationOrder]: the arithmetic on eight
      bytes at once is upper case of each byte; the comparisons compare lists of weights; these are the
      weights of the characters (class [CharWeights]); the comparisons are total preorders.  The four-byte
      collations read one kind of ill-formed sequence as a character, which the theorems state and
      otherwise exclude.
    - [SortKey]: strnxfrm, the bytes that ORDER BY sorts with memcmp, with two bytes for each weight or
      three (utf8mb4_bin), padding, DESC and REVERSE.
    - [SortKeyProps], [SortKeyOrder]: a key is the weights and spaces in a fixed width (class [FixedWidth])
      up to the end of the destination, for each collation (classes [SortMacros], [KeyFunctions]); memcmp
      of keys is the comparison of the strings, and a key that is too short never misorders.
    - [HashSort], [HashSortProps]: the hash functions of the collations, and that they are compatible with
      the comparisons; for utf8mb3 this gives the instance of [KeyHash] that [HashProps] asks for.
    - [Wildcmp], [WildcmpProps]: the matcher of LIKE, and that it decides the relation [like] between the
      tokens of a pattern and a string.

    Loops over a string have its length as fuel, the comparison with padding that of both, and the
    recursion of LIKE the length of the pattern; the theorems say that the functions return.

    ** Conventions

    [Bytes] has numbers as bytes and memcmp, for the key of a lock and the column formats.

    A w-bit integer is a Z with its wrap-around written out ([u16], [u32], [u64], [s64]).  Bytes are
    Z from 0 to 255.  Failing allocations are boolean arguments.  Error codes are values.

    ** Not modelled

    In sql/mdl.cc: [acquire_locks], which sorts requests with my_qsort and then acquires them one by
    one; the notification of other threads from the wait loop, whose effect is in other connections;
    waits for a table share to be flushed (Wait_for_flush of sql/table.h) as edges of the deadlock
    search; Galera (wsrep) and performance schema calls, which are outside this code.
    In strings/decimal.c: division, shifting, and conversion from and to strings and
    doubles.  In sql/sql_time.cc and sql-common/my_time.c: parsing and printing (they
    depend on character sets and locales), weeks, periods and time zones.  In sql/compat56.cc:
    TIMESTAMP.  In mysys/tree.c: [tree_record_pos], an estimate with doubles.
    In mysys: all other files, which are memory management, files, threads and
    start-up for the most part.  In strings: conversion of case, the lengths reserved for sort
    keys, the collations general1400_as_ci, the file name character set, the hash algorithms other than
    the one of the hash tables, and all other character sets and collations (8-bit, UCA and so on), which follow other
    tables and algorithms.

    Parser, optimizer and executor, items, replication and the binary log, the storage engines, the
    plugins, the network layer and the client programs are not modelled: each is
    larger than all of the above, and most of their state is in files, sockets and threads. *)

From stdpp Require Export prelude gmap.
#[global] Open Scope Z_scope.

(** ** Machine integers

    A w-bit unsigned integer is a [Z] kept in range by an explicit wrap. *)

Definition u16 (x : Z) : Z := x mod 2 ^ 16.
Definition u32 (x : Z) : Z := x mod 2 ^ 32.
Definition u64 (x : Z) : Z := x mod 2 ^ 64.

Definition U32_MAX : Z := 2 ^ 32 - 1.

Lemma u32_small x : 0 <= x <= U32_MAX -> u32 x = x.
Proof. unfold u32, U32_MAX. intros. apply Z.mod_small. lia. Qed.

Lemma compare_shift a b p : (p + a ?= p + b) = (a ?= b).
Proof. destruct (Z.compare_spec (p + a) (p + b)), (Z.compare_spec a b); lia || done. Qed.

(** ** Development-wide automation *)

Create HintDb mdb.

(** Split a conjunction of boolean facts into its propositional parts. *)
Ltac bool_to_prop :=
  repeat match goal with
  | H : _ && _ = true |- _ => apply andb_true_iff in H; destruct H
  | H : _ || _ = true |- _ => apply orb_true_iff in H
  | H : _ || _ = false |- _ => apply orb_false_iff in H; destruct H
  | H : negb _ = true |- _ => apply negb_true_iff in H
  | H : negb _ = false |- _ => apply negb_false_iff in H
  | H : (_ =? _) = true |- _ => apply Z.eqb_eq in H
  | H : (_ =? _) = false |- _ => apply Z.eqb_neq in H
  | H : (_ <? _) = true |- _ => apply Z.ltb_lt in H
  | H : (_ <? _) = false |- _ => apply Z.ltb_ge in H
  | H : (_ <=? _) = true |- _ => apply Z.leb_le in H
  | H : (_ <=? _) = false |- _ => apply Z.leb_gt in H
  end.

(** ** Bit sets *)

(** C's truth value of [a & b]. *)
Definition bits_meet (a b : Z) : bool := negb (Z.land a b =? 0).

Lemma bits_meet_spec a b :
  bits_meet a b = true <->
  exists i, 0 <= i /\ Z.testbit a i = true /\ Z.testbit b i = true.
Proof.
  unfold bits_meet. rewrite negb_true_iff, Z.eqb_neq. split.
  - intros Hne.
    destruct (Z.eq_dec (Z.land a b) 0) as [|_]; [lia|].
    pose proof (Z.bit_log2 (Z.abs (Z.land a b))) as Hlog.
    destruct (Z.lt_ge_cases (Z.land a b) 0) as [Hneg|Hpos].
    + exists (Z.max (Z.log2 (Z.pred (- a))) (Z.log2 (Z.pred (- b))) + 1).
      apply Z.land_neg in Hneg as [Ha Hb].
      pose proof (Z.log2_nonneg (Z.pred (- a))).
      pose proof (Z.log2_nonneg (Z.pred (- b))).
      split; [lia|]. split; apply Z.bits_above_log2_neg; lia.
    + exists (Z.log2 (Z.land a b)).
      split; [apply Z.log2_nonneg|].
      assert (Z.testbit (Z.land a b) (Z.log2 (Z.land a b)) = true) as Ht
        by (apply Z.bit_log2; lia).
      rewrite Z.land_spec in Ht. apply andb_true_iff in Ht. done.
  - intros (i & Hi & Ha & Hb) H0.
    assert (Z.testbit (Z.land a b) i = true) as Ht by (rewrite Z.land_spec, Ha, Hb; done).
    rewrite H0, Z.bits_0 in Ht. done.
Qed.

(** A closed decidable fact, by evaluation. *)
Ltac by_decide := apply (bool_decide_unpack _); vm_compute; exact I.

(** ** Comparison functions *)

(** What a comparison function promises: it is the sign of a total preorder. *)
Class TotalCompare {A} (compare : A -> A -> Z) : Prop := {
  cmp_flip a b : compare a b <= 0 <-> 0 <= compare b a;
  cmp_trans a b c : compare a b <= 0 -> compare b c <= 0 -> compare a c <= 0;
}.

Section TotalCompare.
Context {A} (compare : A -> A -> Z) `{!TotalCompare compare}.

Lemma cmp_lt_le a b c : compare a b < 0 -> compare b c <= 0 -> compare a c < 0.
Proof.
  intros H1 H2. pose proof (cmp_flip a c) as Hf1. pose proof (cmp_flip c a) as Hf2.
  pose proof (cmp_flip b a) as Hf3. pose proof (cmp_trans b c a) as Ht. lia.
Qed.

Lemma cmp_le_lt a b c : compare a b <= 0 -> compare b c < 0 -> compare a c < 0.
Proof.
  intros H1 H2. pose proof (cmp_flip a c) as Hf1. pose proof (cmp_flip c a) as Hf2.
  pose proof (cmp_flip c b) as Hf3. pose proof (cmp_trans c a b) as Ht. lia.
Qed.

Lemma cmp_antisym a b : 0 < compare a b <-> compare b a < 0.
Proof. pose proof (cmp_flip a b). pose proof (cmp_flip b a). lia. Qed.
End TotalCompare.

(** ** Lists *)

(** Membership in a list filtered by a boolean function. *)
Lemma elem_of_filterb {A} (f : A -> bool) (x : A) l :
  x ∈ List.filter f l <-> x ∈ l /\ f x = true.
Proof. by rewrite !list_elem_of_In, filter_In. Qed.

Lemma neqb_true (a b : nat) : negb (Nat.eqb a b) = true <-> a ≠ b.
Proof. by rewrite negb_true_iff, Nat.eqb_neq. Qed.

(** [memcmp] of two buffers of the same length. *)
Fixpoint memcmp (a b : list Z) : Z :=
  match a, b with
  | x :: a', y :: b' => if x <? y then -1 else if y <? x then 1 else memcmp a' b'
  | _, _ => 0
  end.

Section ListHelpers.
Context {A : Type} `{EqDecision A}.

(** Unlinking one node from an intrusive list. *)
Fixpoint remove_first (x : A) (l : list A) : list A :=
  match l with
  | [] => []
  | y :: l' => if decide (x = y) then l' else y :: remove_first x l'
  end.

Lemma remove_first_not_in x l : x ∉ l -> remove_first x l = l.
Proof.
  induction l as [|y l IH]; simpl; [done|].
  intros Hx. apply not_elem_of_cons in Hx as [??].
  rewrite decide_False by done. f_equal. auto.
Qed.

Lemma remove_first_snoc x l : x ∉ l -> remove_first x (l ++ [x]) = l.
Proof.
  induction l as [|y l IH]; simpl; intros Hx; [by rewrite decide_True|].
  rewrite decide_False by set_solver. f_equal. apply IH. set_solver.
Qed.

Lemma remove_first_perm x l : x ∈ l -> l ≡ₚ x :: remove_first x l.
Proof.
  induction l as [|y l IH]; simpl; [set_solver|].
  intros Hx. destruct (decide (x = y)) as [->|Hne]; [done|].
  apply elem_of_cons in Hx as [?|Hx]; [done|].
  rewrite (IH Hx) at 1. constructor.
Qed.

Lemma remove_first_sublist x l : remove_first x l `sublist_of` l.
Proof.
  induction l as [|y l IH]; simpl; [done|].
  destruct (decide (x = y)); [by apply sublist_cons|by apply sublist_skip].
Qed.

Lemma elem_of_remove_first x y l : y ∈ remove_first x l -> y ∈ l.
Proof. induction l as [|z l IH]; simpl; [done|]. destruct (decide (x = z)); set_solver. Qed.

Lemma elem_of_remove_first_ne x y l : y ≠ x -> y ∈ l -> y ∈ remove_first x l.
Proof. intros Hne. induction l as [|z l IH]; simpl; [done|]. destruct (decide (x = z)); set_solver. Qed.

Lemma NoDup_remove_first x l : NoDup l -> NoDup (remove_first x l).
Proof. intros Hnd. eapply sublist_NoDup; [done|apply remove_first_sublist]. Qed.

Lemma elem_of_remove_first_iff x y l :
  NoDup l -> (y ∈ remove_first x l <-> y ∈ l /\ y ≠ x).
Proof.
  intros Hnd. destruct (decide (x ∈ l)) as [Hx|Hx].
  - pose proof (remove_first_perm x l Hx) as Hp.
    rewrite Hp in Hnd. apply NoDup_cons in Hnd as [Hn _].
    rewrite Hp at 2. rewrite elem_of_cons. set_solver.
  - rewrite remove_first_not_in by done. set_solver.
Qed.

(** Number of elements satisfying a boolean predicate. *)
Definition countb (P : A -> bool) (l : list A) : Z :=
  Z.of_nat (length (List.filter P l)).

Lemma countb_nil P : countb P [] = 0.
Proof. done. Qed.

Lemma countb_cons P x l : countb P (x :: l) = (if P x then 1 else 0) + countb P l.
Proof. unfold countb. simpl. destruct (P x); simpl; lia. Qed.

Lemma countb_app P l1 l2 : countb P (l1 ++ l2) = countb P l1 + countb P l2.
Proof. induction l1; simpl; rewrite ?countb_cons, ?IHl1, ?countb_nil; lia. Qed.

Lemma countb_nonneg P l : 0 <= countb P l.
Proof. unfold countb. lia. Qed.

Lemma countb_le P l : countb P l <= Z.of_nat (length l).
Proof. induction l; rewrite ?countb_cons, ?countb_nil; simpl length; try destruct (P a); lia. Qed.

Lemma countb_perm P l1 l2 : l1 ≡ₚ l2 -> countb P l1 = countb P l2.
Proof. induction 1; rewrite ?countb_cons; lia. Qed.

Lemma countb_pos P l : 0 < countb P l <-> exists x, x ∈ l /\ P x = true.
Proof.
  induction l as [|y l IH]; [rewrite countb_nil; split; [lia|set_solver]|].
  rewrite countb_cons. pose proof (countb_nonneg P l).
  destruct (P y) eqn:Hy.
  - split; [|lia]. intros _. exists y. set_solver.
  - rewrite Z.add_0_l, IH. split; [set_solver|].
    intros (x & Hx & HP). apply elem_of_cons in Hx as [->|Hx]; [congruence|eauto].
Qed.

Lemma countb_zero P l : countb P l = 0 <-> forall x, x ∈ l -> P x = false.
Proof.
  pose proof (countb_nonneg P l). pose proof (countb_pos P l) as Hp. split.
  - intros H0 x Hx. destruct (P x) eqn:HP; [|done].
    assert (0 < countb P l) by (apply Hp; eauto). lia.
  - intros Hall. destruct (Z.eq_dec (countb P l) 0) as [|Hne]; [done|].
    destruct Hp as [(x & Hx & HP) _]; [lia|]. rewrite Hall in HP; done.
Qed.

Lemma countb_ext P Q l : (forall x, x ∈ l -> P x = Q x) -> countb P l = countb Q l.
Proof.
  induction l as [|y l IH]; [done|]. intros Hext. rewrite !countb_cons.
  rewrite Hext by set_solver. rewrite IH; [done|set_solver].
Qed.

Lemma countb_remove_first P x l :
  x ∈ l -> countb P (remove_first x l) = countb P l - (if P x then 1 else 0).
Proof.
  intros Hx. rewrite (countb_perm P l _ (remove_first_perm x l Hx)), countb_cons. lia.
Qed.
End ListHelpers.
