(* ===== verification/Bytes.v ===== *)
(** * Bytes

    Buffers are lists of bytes, and a byte is a number from 0 to 255.  Big-endian integers as
    include/myisampack.h stores and reads them, and the laws of [memcmp]. *)

From S2P Require Import Prelude.

(** [mi_int1store] to [mi_int4store]: the low [n] bytes, most significant first *)
Fixpoint mi_intstore (n : nat) (x : Z) : list Z :=
  match n with
  | O => []
  | S n' => mi_intstore n' (Z.shiftr x 8) ++ [Z.land x 255]
  end.

(** A big-endian number *)
Fixpoint be256 (l : list Z) : Z :=
  match l with
  | [] => 0
  | x :: l' => x * 256 ^ Z.of_nat (length l') + be256 l'
  end.

(** [mi_sint1korr] to [mi_sint4korr]: the two's complement number *)
Definition mi_sintkorr (l : list Z) : Z :=
  if nth 0 l 0 <? 128 then be256 l else be256 l - 256 ^ Z.of_nat (length l).

(** ** [memcmp] *)

Lemma memcmp_eq a b : length a = length b -> memcmp a b = 0 -> a = b.
Proof.
  revert b. induction a as [|x a IH]; intros [|y b]; simpl; try done.
  intros [=Hl]. destruct (Z.ltb_spec x y), (Z.ltb_spec y x); try done.
  intros. f_equal; [lia|auto].
Qed.

Lemma memcmp_refl a : memcmp a a = 0.
Proof. induction a; simpl; [done|]. by rewrite Z.ltb_irrefl. Qed.

Lemma memcmp_app a b c d :
  length a = length b ->
  memcmp (a ++ c) (b ++ d) = if memcmp a b =? 0 then memcmp c d else memcmp a b.
Proof.
  revert b. induction a as [|x a IH]; intros [|y b]; simpl; try done.
  intros [=Hl]. destruct (x <? y), (y <? x); simpl; auto.
Qed.

Lemma memcmp_antisym a b : memcmp a b = - memcmp b a.
Proof.
  revert b. induction a as [|x a IH]; intros [|y b]; simpl; try done.
  destruct (Z.ltb_spec x y), (Z.ltb_spec y x); try lia. auto.
Qed.

Lemma memcmp_range a b : -1 <= memcmp a b <= 1.
Proof.
  revert b. induction a as [|x a IH]; intros [|y b]; simpl; try lia.
  destruct (x <? y), (y <? x); auto; lia.
Qed.

Lemma memcmp_take n a b :
  (length a <= n \/ length b <= n)%nat -> memcmp (take n a) (take n b) = memcmp a b.
Proof.
  revert a b. induction n as [|n IH]; intros [|x a] [|y b]; simpl; try done; try lia.
  intros Hl. rewrite IH by lia. done.
Qed.

Lemma memcmp_trans a b c : memcmp a b = -1 -> memcmp b c = -1 -> memcmp a c = -1.
Proof.
  revert b c. induction a as [|x a IH]; intros [|y b] [|z c]; simpl; try done.
  destruct (Z.ltb_spec x y), (Z.ltb_spec y x), (Z.ltb_spec y z), (Z.ltb_spec z y),
    (Z.ltb_spec x z), (Z.ltb_spec z x); try done; try lia. eauto.
Qed.

(** ** Numbers as bytes *)

Definition bpow (n : nat) : Z := 256 ^ Z.of_nat n.

Lemma bpow_2 n : bpow n = 2 ^ (8 * Z.of_nat n).
Proof. unfold bpow. rewrite Z.pow_mul_r by lia. reflexivity. Qed.

Lemma bpow_pos n : 0 < bpow n.
Proof. apply Z.pow_pos_nonneg; lia. Qed.

Lemma bpow_S n : bpow (S n) = 256 * bpow n.
Proof. unfold bpow. rewrite Nat2Z.inj_succ, Z.pow_succ_r by lia. reflexivity. Qed.

Lemma bpow_add n m : bpow (n + m) = bpow n * bpow m.
Proof. unfold bpow. rewrite Nat2Z.inj_add. apply Z.pow_add_r; lia. Qed.

(** ** Big-endian bytes *)

Lemma mi_intstore_length n x : length (mi_intstore n x) = n.
Proof.
  revert x. induction n as [|n IH]; intros x; simpl; [done|]. rewrite length_app, IH. simpl. lia.
Qed.

Lemma mi_intstore_app a b x :
  mi_intstore (a + b) x = mi_intstore a (Z.shiftr x (8 * Z.of_nat b)) ++ mi_intstore b x.
Proof.
  revert x. induction b as [|b IH]; intros x.
  - rewrite Nat.add_0_r, Z.shiftr_0_r. simpl. by rewrite app_nil_r.
  - rewrite Nat.add_succ_r. simpl. rewrite IH, Z.shiftr_shiftr by lia.
    rewrite <- app_assoc. do 3 f_equal. lia.
Qed.

Lemma land_255 x : Z.land x 255 = x mod 256.
Proof. change 255 with (Z.ones 8). apply Z.land_ones. lia. Qed.

(** Only the low bytes are stored. *)
Lemma mi_intstore_mod n x y : x mod bpow n = y mod bpow n -> mi_intstore n x = mi_intstore n y.
Proof.
  revert x y. induction n as [|n IH]; intros x y H; simpl; [done|].
  rewrite bpow_S in H. pose proof (bpow_pos n).
  rewrite !Z.rem_mul_r in H by lia. rewrite !land_255.
  pose proof (Z.mod_pos_bound x 256). pose proof (Z.mod_pos_bound y 256).
  f_equal; [|f_equal; lia]. apply IH. rewrite !Z.shiftr_div_pow2 by lia. change (2 ^ 8) with 256. lia.
Qed.

Lemma be256_app l1 l2 : be256 (l1 ++ l2) = be256 l1 * bpow (length l2) + be256 l2.
Proof.
  induction l1 as [|x l1 IH]; simpl; [done|].
  rewrite IH, length_app. fold (bpow (length l1 + length l2)) (bpow (length l1)).
  rewrite bpow_add. ring.
Qed.

Lemma be256_store n x : be256 (mi_intstore n x) = x mod bpow n.
Proof.
  revert x. induction n as [|n IH]; intros x; simpl; [by rewrite Z.mod_1_r|].
  rewrite be256_app, IH. change (bpow (length _)) with 256. simpl be256.
  rewrite land_255, Z.shiftr_div_pow2, bpow_S by lia. pose proof (bpow_pos n).
  rewrite Z.rem_mul_r by lia. change (2 ^ 8) with 256. lia.
Qed.

Definition byte_ok (x : Z) : Prop := 0 <= x < 256.

Lemma mi_intstore_bytes n x : Forall byte_ok (mi_intstore n x).
Proof.
  revert x. induction n as [|n IH]; intros x; simpl; [constructor|].
  apply Forall_app. split; [done|]. constructor; [|constructor].
  rewrite land_255. by apply Z.mod_pos_bound.
Qed.

Lemma be256_bound l : Forall byte_ok l -> 0 <= be256 l < bpow (length l).
Proof.
  induction l as [|x l IH]; intros H; simpl; [by vm_compute|].
  apply Forall_cons in H as [Hx Hl]. specialize (IH Hl). fold (bpow (length l)).
  rewrite bpow_S. unfold byte_ok in Hx. nia.
Qed.

(** [memcmp] compares big-endian numbers. *)
Lemma memcmp_be256 l1 l2 :
  Forall byte_ok l1 -> Forall byte_ok l2 -> length l1 = length l2 ->
  memcmp l1 l2 = match be256 l1 ?= be256 l2 with Lt => -1 | Eq => 0 | Gt => 1 end.
Proof.
  revert l2. induction l1 as [|x l1 IH]; intros [|y l2] H1 H2 Hl; simplify_eq; [done|].
  apply Forall_cons in H1 as [Hx H1], H2 as [Hy H2]. simpl. rewrite <- Hl.
  fold (bpow (length l1)).
  pose proof (be256_bound _ H1). pose proof (be256_bound _ H2) as Hb. rewrite <- Hl in Hb.
  destruct (Z.ltb_spec x y).
  { assert (x * bpow (length l1) + be256 l1 < y * bpow (length l1) + be256 l2)
      as ->%Z.compare_lt_iff by nia. done. }
  destruct (Z.ltb_spec y x).
  { assert (y * bpow (length l1) + be256 l2 < x * bpow (length l1) + be256 l1)
      as ->%Z.compare_gt_iff by nia. done. }
  replace y with x by lia. rewrite compare_shift. by apply IH.
Qed.
