(* ===== verification/MdlTypes.v ===== *)
(** * Metadata locks: types, bitmaps and compatibility matrices

    The data of sql/mdl.h and the static tables of sql/mdl.cc: the lock types,
    the lock keys, the three locking strategies with their incompatibility
    matrices, and the order between lock types the tables induce. *)

From S2P Require Import Prelude.

(** ** Lock types

    [enum enum_mdl_type]; the backup lock types are #define'd casts of the same
    small integers, so a type is an integer. *)

Definition enum_mdl_type := Z.

Definition MDL_NOT_INITIALIZED : enum_mdl_type := -1.
Definition MDL_INTENTION_EXCLUSIVE : enum_mdl_type := 0.
Definition MDL_SHARED : enum_mdl_type := 1.
Definition MDL_SHARED_HIGH_PRIO : enum_mdl_type := 2.
Definition MDL_SHARED_READ : enum_mdl_type := 3.
Definition MDL_SHARED_WRITE : enum_mdl_type := 4.
Definition MDL_SHARED_UPGRADABLE : enum_mdl_type := 5.
Definition MDL_SHARED_READ_ONLY : enum_mdl_type := 6.
Definition MDL_SHARED_NO_WRITE : enum_mdl_type := 7.
Definition MDL_SHARED_NO_READ_WRITE : enum_mdl_type := 8.
Definition MDL_EXCLUSIVE : enum_mdl_type := 9.
Definition MDL_TYPE_END : enum_mdl_type := 10.

Definition MDL_BACKUP_START : enum_mdl_type := 0.
Definition MDL_BACKUP_FLUSH : enum_mdl_type := 1.
Definition MDL_BACKUP_WAIT_FLUSH : enum_mdl_type := 2.
Definition MDL_BACKUP_WAIT_DDL : enum_mdl_type := 3.
Definition MDL_BACKUP_WAIT_COMMIT : enum_mdl_type := 4.
Definition MDL_BACKUP_FTWRL1 : enum_mdl_type := 5.
Definition MDL_BACKUP_FTWRL2 : enum_mdl_type := 6.
Definition MDL_BACKUP_DML : enum_mdl_type := 7.
Definition MDL_BACKUP_TRANS_DML : enum_mdl_type := 8.
Definition MDL_BACKUP_SYS_DML : enum_mdl_type := 9.
Definition MDL_BACKUP_DDL : enum_mdl_type := 10.
Definition MDL_BACKUP_BLOCK_DDL : enum_mdl_type := 11.
Definition MDL_BACKUP_ALTER_COPY : enum_mdl_type := 12.
Definition MDL_BACKUP_COMMIT : enum_mdl_type := 13.
Definition MDL_BACKUP_END : enum_mdl_type := 14.

(** [mdl_bitmap_t] is an unsigned short. *)
Definition mdl_bitmap_t := Z.

Definition MDL_BIT (A : enum_mdl_type) : mdl_bitmap_t := u16 (u32 (Z.shiftl 1 A)).

(** [bitmaps[type]]. *)
Definition bitmap_at (a : list mdl_bitmap_t) (type : enum_mdl_type) : mdl_bitmap_t :=
  nth (Z.to_nat type) a 0.

Inductive enum_mdl_duration :=
| MDL_STATEMENT
| MDL_TRANSACTION
| MDL_EXPLICIT.

#[export] Instance enum_mdl_duration_eq_dec : EqDecision enum_mdl_duration.
Proof. solve_decision. Defined.

Inductive enum_mdl_namespace :=
| BACKUP
| SCHEMA
| TABLE
| FUNCTION
| PROCEDURE
| PACKAGE_BODY
| TRIGGER
| EVENT
| USER_LOCK.

#[export] Instance enum_mdl_namespace_eq_dec : EqDecision enum_mdl_namespace.
Proof. solve_decision. Defined.

(** [MDL_BIT(a) | MDL_BIT(b) | ...]. *)
Definition bits (l : list enum_mdl_type) : mdl_bitmap_t :=
  fold_right Z.lor 0 (map MDL_BIT l).

(** ** Locking strategies

    [MDL_lock_strategy] is an abstract class: its virtual methods are the fields
    of a record, its three subclasses the three records below. *)

Record MDL_lock_strategy := {
  incompatible_granted_types_bitmap : list mdl_bitmap_t;
  incompatible_waiting_types_bitmap : list mdl_bitmap_t;
  needs_notification : enum_mdl_type -> bool;
  conflicting_locks : enum_mdl_type -> bool;
  hog_lock_types_bitmap : mdl_bitmap_t;
}.

Definition scoped_granted_incompatible : list mdl_bitmap_t :=
  [ bits [MDL_EXCLUSIVE; MDL_SHARED];
    bits [MDL_EXCLUSIVE; MDL_INTENTION_EXCLUSIVE];
    0; 0; 0; 0; 0; 0; 0;
    bits [MDL_EXCLUSIVE; MDL_SHARED; MDL_INTENTION_EXCLUSIVE] ].

Definition scoped_waiting_incompatible : list mdl_bitmap_t :=
  [ bits [MDL_EXCLUSIVE; MDL_SHARED];
    bits [MDL_EXCLUSIVE]; 0; 0; 0; 0; 0; 0; 0; 0 ].

Definition MDL_scoped_lock : MDL_lock_strategy := {|
  incompatible_granted_types_bitmap := scoped_granted_incompatible;
  incompatible_waiting_types_bitmap := scoped_waiting_incompatible;
  needs_notification type := type =? MDL_SHARED;
  conflicting_locks type := type =? MDL_INTENTION_EXCLUSIVE;
  hog_lock_types_bitmap := 0;
|}.

Definition object_granted_incompatible : list mdl_bitmap_t :=
  [ 0;
    bits [MDL_EXCLUSIVE];
    bits [MDL_EXCLUSIVE];
    bits [MDL_EXCLUSIVE; MDL_SHARED_NO_READ_WRITE];
    bits [MDL_EXCLUSIVE; MDL_SHARED_NO_READ_WRITE;
          MDL_SHARED_NO_WRITE; MDL_SHARED_READ_ONLY];
    bits [MDL_EXCLUSIVE; MDL_SHARED_NO_READ_WRITE;
          MDL_SHARED_NO_WRITE; MDL_SHARED_UPGRADABLE];
    bits [MDL_EXCLUSIVE; MDL_SHARED_NO_READ_WRITE;
          MDL_SHARED_WRITE];
    bits [MDL_EXCLUSIVE; MDL_SHARED_NO_READ_WRITE;
          MDL_SHARED_NO_WRITE; MDL_SHARED_UPGRADABLE;
          MDL_SHARED_WRITE];
    bits [MDL_EXCLUSIVE; MDL_SHARED_NO_READ_WRITE;
          MDL_SHARED_NO_WRITE; MDL_SHARED_READ_ONLY;
          MDL_SHARED_UPGRADABLE; MDL_SHARED_WRITE;
          MDL_SHARED_READ];
    bits [MDL_EXCLUSIVE; MDL_SHARED_NO_READ_WRITE;
          MDL_SHARED_NO_WRITE; MDL_SHARED_READ_ONLY;
          MDL_SHARED_UPGRADABLE; MDL_SHARED_WRITE;
          MDL_SHARED_READ; MDL_SHARED_HIGH_PRIO;
          MDL_SHARED] ].

Definition object_waiting_incompatible : list mdl_bitmap_t :=
  [ 0;
    bits [MDL_EXCLUSIVE];
    0;
    bits [MDL_EXCLUSIVE; MDL_SHARED_NO_READ_WRITE];
    bits [MDL_EXCLUSIVE; MDL_SHARED_NO_READ_WRITE;
          MDL_SHARED_NO_WRITE];
    bits [MDL_EXCLUSIVE];
    bits [MDL_EXCLUSIVE; MDL_SHARED_NO_READ_WRITE;
          MDL_SHARED_WRITE];
    bits [MDL_EXCLUSIVE];
    bits [MDL_EXCLUSIVE];
    0 ].

Definition MDL_object_lock : MDL_lock_strategy := {|
  incompatible_granted_types_bitmap := object_granted_incompatible;
  incompatible_waiting_types_bitmap := object_waiting_incompatible;
  needs_notification type :=
    bits_meet (MDL_BIT type)
      (bits [MDL_SHARED_NO_WRITE; MDL_SHARED_NO_READ_WRITE; MDL_EXCLUSIVE]);
  conflicting_locks type := type <? MDL_SHARED_UPGRADABLE;
  hog_lock_types_bitmap :=
    bits [MDL_SHARED_NO_WRITE; MDL_SHARED_NO_READ_WRITE; MDL_EXCLUSIVE];
|}.

Definition backup_granted_incompatible : list mdl_bitmap_t :=
  [ bits [MDL_BACKUP_START; MDL_BACKUP_FLUSH; MDL_BACKUP_WAIT_FLUSH;
          MDL_BACKUP_WAIT_DDL; MDL_BACKUP_WAIT_COMMIT; MDL_BACKUP_BLOCK_DDL];
    bits [MDL_BACKUP_START];
    bits [MDL_BACKUP_START; MDL_BACKUP_DML];
    bits [MDL_BACKUP_START; MDL_BACKUP_DML; MDL_BACKUP_DDL];
    bits [MDL_BACKUP_START; MDL_BACKUP_DML; MDL_BACKUP_SYS_DML;
          MDL_BACKUP_DDL; MDL_BACKUP_COMMIT];
    bits [MDL_BACKUP_DML; MDL_BACKUP_TRANS_DML; MDL_BACKUP_SYS_DML;
          MDL_BACKUP_DDL; MDL_BACKUP_ALTER_COPY];
    bits [MDL_BACKUP_DML; MDL_BACKUP_TRANS_DML; MDL_BACKUP_SYS_DML;
          MDL_BACKUP_DDL; MDL_BACKUP_ALTER_COPY; MDL_BACKUP_COMMIT];
    bits [MDL_BACKUP_FLUSH; MDL_BACKUP_WAIT_FLUSH; MDL_BACKUP_WAIT_DDL;
          MDL_BACKUP_WAIT_COMMIT; MDL_BACKUP_FTWRL1; MDL_BACKUP_FTWRL2];
    bits [MDL_BACKUP_FTWRL1; MDL_BACKUP_FTWRL2];
    bits [MDL_BACKUP_WAIT_COMMIT; MDL_BACKUP_FTWRL1; MDL_BACKUP_FTWRL2];
    bits [MDL_BACKUP_WAIT_DDL; MDL_BACKUP_WAIT_COMMIT; MDL_BACKUP_FTWRL1;
          MDL_BACKUP_FTWRL2; MDL_BACKUP_BLOCK_DDL];
    bits [MDL_BACKUP_START; MDL_BACKUP_FLUSH; MDL_BACKUP_WAIT_FLUSH;
          MDL_BACKUP_WAIT_DDL; MDL_BACKUP_WAIT_COMMIT; MDL_BACKUP_BLOCK_DDL;
          MDL_BACKUP_DDL];
    bits [MDL_BACKUP_FTWRL1; MDL_BACKUP_FTWRL2];
    bits [MDL_BACKUP_WAIT_COMMIT; MDL_BACKUP_FTWRL2] ].

Definition backup_waiting_incompatible : list mdl_bitmap_t :=
  [ bits [MDL_BACKUP_FLUSH; MDL_BACKUP_WAIT_FLUSH; MDL_BACKUP_WAIT_DDL;
          MDL_BACKUP_WAIT_COMMIT; MDL_BACKUP_BLOCK_DDL];
    0;
    0;
    0;
    0;
    0;
    0;
    bits [MDL_BACKUP_FLUSH; MDL_BACKUP_WAIT_FLUSH; MDL_BACKUP_WAIT_DDL;
          MDL_BACKUP_WAIT_COMMIT; MDL_BACKUP_FTWRL1; MDL_BACKUP_FTWRL2];
    bits [MDL_BACKUP_FTWRL1; MDL_BACKUP_FTWRL2];
    bits [MDL_BACKUP_WAIT_COMMIT; MDL_BACKUP_FTWRL1; MDL_BACKUP_FTWRL2];
    bits [MDL_BACKUP_WAIT_DDL; MDL_BACKUP_WAIT_COMMIT; MDL_BACKUP_FTWRL1;
          MDL_BACKUP_FTWRL2; MDL_BACKUP_BLOCK_DDL];
    bits [MDL_BACKUP_START];
    bits [MDL_BACKUP_FTWRL1; MDL_BACKUP_FTWRL2];
    bits [MDL_BACKUP_WAIT_COMMIT; MDL_BACKUP_FTWRL2] ].

Definition MDL_backup_lock : MDL_lock_strategy := {|
  incompatible_granted_types_bitmap := backup_granted_incompatible;
  incompatible_waiting_types_bitmap := backup_waiting_incompatible;
  needs_notification type := bits_meet (MDL_BIT type) (MDL_BIT MDL_BACKUP_FTWRL1);
  conflicting_locks type :=
    bits_meet (MDL_BIT type) (bits [MDL_BACKUP_DML; MDL_BACKUP_TRANS_DML]);
  hog_lock_types_bitmap := 0;
|}.

(** The lock types the constructor of the backup lock passes to
    [Fast_road::enable]. *)
Definition backup_fast_types : mdl_bitmap_t :=
  bits [MDL_BACKUP_DML; MDL_BACKUP_TRANS_DML; MDL_BACKUP_SYS_DML;
        MDL_BACKUP_DDL; MDL_BACKUP_ALTER_COPY; MDL_BACKUP_COMMIT].

(** Methods of [MDL_ticket] that only look at the ticket's type. *)

Definition has_stronger_or_equal_type
    (s : MDL_lock_strategy) (m_type type : enum_mdl_type) : bool :=
  let granted_incompat_map := incompatible_granted_types_bitmap s in
  negb (bits_meet (bitmap_at granted_incompat_map type)
                  (Z.lnot (bitmap_at granted_incompat_map m_type))).

Definition is_incompatible_when_granted
    (s : MDL_lock_strategy) (m_type type : enum_mdl_type) : bool :=
  bits_meet (MDL_BIT m_type) (bitmap_at (incompatible_granted_types_bitmap s) type).

Definition is_incompatible_when_waiting
    (s : MDL_lock_strategy) (m_type type : enum_mdl_type) : bool :=
  bits_meet (MDL_BIT m_type) (bitmap_at (incompatible_waiting_types_bitmap s) type).

(** ** The matrices as documented

    The comments above the tables print each matrix with "+" where a request can
    be satisfied and "-" where it has to wait; rows are requests, columns the
    granted (pending) types.  [p] and [m] below transcribe them. *)

Local Notation p := false (only parsing).
Local Notation m := true (only parsing).

(** Request and column order of the object tables: S SH SR SW SU SRO SNW SNRW X. *)
Definition object_doc_order : list enum_mdl_type :=
  [MDL_SHARED; MDL_SHARED_HIGH_PRIO; MDL_SHARED_READ; MDL_SHARED_WRITE;
   MDL_SHARED_UPGRADABLE; MDL_SHARED_READ_ONLY; MDL_SHARED_NO_WRITE;
   MDL_SHARED_NO_READ_WRITE; MDL_EXCLUSIVE].

Definition object_doc_granted : list (list bool) :=
  [ [p; p; p; p; p; p; p; p; m];
    [p; p; p; p; p; p; p; p; m];
    [p; p; p; p; p; p; p; m; m];
    [p; p; p; p; p; m; m; m; m];
    [p; p; p; p; m; p; m; m; m];
    [p; p; p; m; p; p; p; m; m];
    [p; p; p; m; m; p; m; m; m];
    [p; p; m; m; m; m; m; m; m];
    [m; m; m; m; m; m; m; m; m] ].

Definition object_doc_waiting : list (list bool) :=
  [ [p; p; p; p; p; p; p; p; m];
    [p; p; p; p; p; p; p; p; p];
    [p; p; p; p; p; p; p; m; m];
    [p; p; p; p; p; p; m; m; m];
    [p; p; p; p; p; p; p; p; m];
    [p; p; p; m; p; p; p; m; m];
    [p; p; p; p; p; p; p; p; m];
    [p; p; p; p; p; p; p; p; m];
    [p; p; p; p; p; p; p; p; p] ].

(** Scoped tables, without the unimplemented IS: IX S X. *)
Definition scoped_doc_order : list enum_mdl_type :=
  [MDL_INTENTION_EXCLUSIVE; MDL_SHARED; MDL_EXCLUSIVE].

Definition scoped_doc_granted : list (list bool) :=
  [ [p; m; m];
    [m; p; m];
    [m; m; m] ].

Definition scoped_doc_waiting : list (list bool) :=
  [ [p; m; m];
    [p; p; m];
    [p; p; p] ].

(** Backup tables: S0 S1 S2 S3 S4 F1 F2 D TD SD DD BL AC C. *)
Definition backup_doc_order : list enum_mdl_type :=
  [MDL_BACKUP_START; MDL_BACKUP_FLUSH; MDL_BACKUP_WAIT_FLUSH; MDL_BACKUP_WAIT_DDL;
   MDL_BACKUP_WAIT_COMMIT; MDL_BACKUP_FTWRL1; MDL_BACKUP_FTWRL2; MDL_BACKUP_DML;
   MDL_BACKUP_TRANS_DML; MDL_BACKUP_SYS_DML; MDL_BACKUP_DDL; MDL_BACKUP_BLOCK_DDL;
   MDL_BACKUP_ALTER_COPY; MDL_BACKUP_COMMIT].

Definition backup_doc_granted : list (list bool) :=
  [ [m; m; m; m; m; p; p; p; p; p; p; p; p; p];
    [m; p; p; p; p; p; p; p; p; p; p; p; p; p];
    [m; p; p; p; p; p; p; m; p; p; p; p; p; p];
    [m; p; p; p; p; p; p; m; p; p; m; p; p; p];
    [m; p; p; p; p; p; p; m; p; m; m; p; p; m];
    [p; p; p; p; p; p; p; m; m; m; m; p; m; p];
    [p; p; p; p; p; p; p; m; m; m; m; p; m; m];
    [p; m; m; m; m; m; m; p; p; p; p; p; p; p];
    [p; p; p; p; p; m; m; p; p; p; p; p; p; p];
    [p; p; p; p; m; m; m; p; p; p; p; p; p; p];
    [p; p; p; m; m; m; m; p; p; p; p; m; p; p];
    [m; p; p; p; p; p; p; p; p; p; m; p; p; p];
    [p; p; p; p; p; m; m; p; p; p; p; p; p; p];
    [p; p; p; p; m; p; m; p; p; p; p; p; p; p] ].

Definition backup_doc_waiting : list (list bool) :=
  [ [p; m; m; m; m; p; p; p; p; p; p; p; p; p];
    [p; p; p; p; p; p; p; p; p; p; p; p; p; p];
    [p; p; p; p; p; p; p; p; p; p; p; p; p; p];
    [p; p; p; p; p; p; p; p; p; p; p; p; p; p];
    [p; p; p; p; p; p; p; p; p; p; p; p; p; p];
    [p; p; p; p; p; p; p; p; p; p; p; p; p; p];
    [p; p; p; p; p; p; p; p; p; p; p; p; p; p];
    [p; m; m; m; m; m; m; p; p; p; p; p; p; p];
    [p; p; p; p; p; m; m; p; p; p; p; p; p; p];
    [p; p; p; p; m; m; m; p; p; p; p; p; p; p];
    [p; p; p; m; m; m; m; p; p; p; p; m; p; p];
    [p; p; p; p; p; p; p; p; p; p; p; p; p; p];
    [p; p; p; p; p; m; m; p; p; p; p; p; p; p];
    [p; p; p; p; m; p; m; p; p; p; p; p; p; p] ].

(** The cells, as (request, column), where code and documentation differ. *)
Definition doc_differences (incompat : enum_mdl_type -> enum_mdl_type -> bool)
    (order : list enum_mdl_type) (doc : list (list bool)) :
    list (enum_mdl_type * enum_mdl_type) :=
  flat_map (fun '(request, row) =>
    flat_map (fun '(column, cell) =>
      if Bool.eqb (incompat column request) cell then [] else [(request, column)])
      (zip order row)) (zip order doc).

(** ** What the lock manager relies on

    The laws of the tables that the code of [MDL_lock] depends on, as an
    interface: the theorems on locks are proved against it, and the three
    strategies discharge it by evaluation. *)

Definition valid_type (t : enum_mdl_type) : Prop := 0 <= t < MDL_BACKUP_END.

Class LawfulStrategy (s : MDL_lock_strategy) : Prop := {
  (** a pending request that takes precedence would conflict once granted *)
  waiting_then_granted a b :
    valid_type a -> valid_type b ->
    is_incompatible_when_waiting s a b = true ->
    is_incompatible_when_granted s a b = true;
  (** a pending request does not block itself *)
  waiting_irrefl a :
    valid_type a -> is_incompatible_when_waiting s a a = false;
}.

Class SymmetricStrategy (s : MDL_lock_strategy) : Prop :=
  incompatible_sym a b :
    valid_type a -> valid_type b ->
    is_incompatible_when_granted s a b = is_incompatible_when_granted s b a.

(** "Fast lane lock types must be fully compatible between each other." *)
Class FastTypes (s : MDL_lock_strategy) (supported : mdl_bitmap_t) : Prop := {
  fast_granted a b :
    valid_type a -> valid_type b ->
    bits_meet (MDL_BIT a) supported = true -> bits_meet (MDL_BIT b) supported = true ->
    is_incompatible_when_granted s a b = false;
  fast_waiting a b :
    valid_type a -> valid_type b ->
    bits_meet (MDL_BIT a) supported = true -> bits_meet (MDL_BIT b) supported = true ->
    is_incompatible_when_waiting s a b = false;
  (** only a non-fast ticket is strong enough to be cloned to a non-fast type *)
  fast_not_stronger a b :
    valid_type a -> valid_type b ->
    bits_meet (MDL_BIT a) supported = true -> bits_meet (MDL_BIT b) supported = false ->
    has_stronger_or_equal_type s a b = false;
  (** where there are fast types there are no hog types *)
  fast_hog a : valid_type a -> bits_meet (MDL_BIT a) supported = true -> hog_lock_types_bitmap s = 0;
}.

(** *** Deciding a statement about all lock types *)

Definition all_types : list enum_mdl_type := seqZ 0 14.

Lemma all_types_spec t : valid_type t -> In t all_types.
Proof.
  intros Ht. apply list_elem_of_In, elem_of_seqZ. unfold valid_type, MDL_BACKUP_END in Ht. lia.
Qed.

Lemma forall_types1 (P : enum_mdl_type -> bool) :
  forallb P all_types = true -> forall a, valid_type a -> P a = true.
Proof. rewrite forallb_forall. auto using all_types_spec. Qed.

Lemma forall_types2 (P : enum_mdl_type -> enum_mdl_type -> bool) :
  forallb (fun a => forallb (P a) all_types) all_types = true ->
  forall a b, valid_type a -> valid_type b -> P a b = true.
Proof.
  intros H a b Ha Hb. revert b Hb. apply forall_types1.
  revert a Ha. by apply forall_types1.
Qed.

(** *** Checkers, with their soundness *)

Definition lawful_check (s : MDL_lock_strategy) : bool :=
  forallb (fun a => forallb (fun b =>
      implb (is_incompatible_when_waiting s a b) (is_incompatible_when_granted s a b))
    all_types) all_types &&
  forallb (fun a => negb (is_incompatible_when_waiting s a a)) all_types.

Lemma lawful_check_sound s : lawful_check s = true -> LawfulStrategy s.
Proof.
  unfold lawful_check. intros Hc. bool_to_prop. split.
  - intros a b Ha Hb Hw.
    pose proof (forall_types2 _ H a b Ha Hb) as Hi. simpl in Hi. by rewrite Hw in Hi.
  - intros a Ha. pose proof (forall_types1 _ H0 a Ha) as Hi. by apply negb_true_iff.
Qed.

Definition symmetric_check (s : MDL_lock_strategy) : bool :=
  forallb (fun a => forallb (fun b =>
      Bool.eqb (is_incompatible_when_granted s a b) (is_incompatible_when_granted s b a))
    all_types) all_types.

Lemma symmetric_check_sound s : symmetric_check s = true -> SymmetricStrategy s.
Proof.
  unfold symmetric_check. intros Hc a b Ha Hb. apply Bool.eqb_prop.
  exact (forall_types2 _ Hc a b Ha Hb).
Qed.

Definition fast_check (s : MDL_lock_strategy) (supported : mdl_bitmap_t) : bool :=
  let fast a := bits_meet (MDL_BIT a) supported in
  forallb (fun a => forallb (fun b =>
      implb (fast a && fast b)
        (negb (is_incompatible_when_granted s a b) &&
         negb (is_incompatible_when_waiting s a b)) &&
      implb (fast a && negb (fast b)) (negb (has_stronger_or_equal_type s a b)) &&
      implb (fast a) (hog_lock_types_bitmap s =? 0))
    all_types) all_types.

Lemma fast_check_sound s supported : fast_check s supported = true -> FastTypes s supported.
Proof.
  unfold fast_check. intros Hc. split.
  4: { intros a Ha Hfa. pose proof (forall_types2 _ Hc a a Ha Ha) as Hi. simpl in Hi.
       rewrite Hfa in Hi. simpl in Hi. bool_to_prop. done. }
  all: intros a b Ha Hb Hfa Hfb;
    pose proof (forall_types2 _ Hc a b Ha Hb) as Hi; simpl in Hi;
    rewrite Hfa, Hfb in Hi; simpl in Hi; bool_to_prop; done.
Qed.

#[export] Instance scoped_lawful : LawfulStrategy MDL_scoped_lock.
Proof. apply lawful_check_sound. vm_compute. reflexivity. Qed.
#[export] Instance object_lawful : LawfulStrategy MDL_object_lock.
Proof. apply lawful_check_sound. vm_compute. reflexivity. Qed.
#[export] Instance backup_lawful : LawfulStrategy MDL_backup_lock.
Proof. apply lawful_check_sound. vm_compute. reflexivity. Qed.

#[export] Instance scoped_symmetric : SymmetricStrategy MDL_scoped_lock.
Proof. apply symmetric_check_sound. vm_compute. reflexivity. Qed.
#[export] Instance object_symmetric : SymmetricStrategy MDL_object_lock.
Proof. apply symmetric_check_sound. vm_compute. reflexivity. Qed.

#[export] Instance backup_fast : FastTypes MDL_backup_lock backup_fast_types.
Proof. apply fast_check_sound. vm_compute. reflexivity. Qed.

(** No type at all is served by lanes that are not enabled. *)
#[export] Instance no_fast s : FastTypes s 0.
Proof.
  assert (forall a, bits_meet a 0 = false) as Hn
    by (intros; unfold bits_meet; by rewrite Z.land_0_r).
  split; intros *; rewrite Hn; done.
Qed.

(** *** Bits of a lock type *)

Lemma MDL_BIT_testbit t i :
  valid_type t -> 0 <= i -> Z.testbit (MDL_BIT t) i = (i =? t).
Proof.
  intros Ht Hi. unfold MDL_BIT, u16, u32. unfold valid_type, MDL_BACKUP_END in Ht.
  rewrite Z.shiftl_1_l.
  assert (Hp : 0 < 2 ^ t) by (apply Z.pow_pos_nonneg; lia).
  assert (Hl : 2 ^ t < 2 ^ 16) by (apply Z.pow_lt_mono_r; lia).
  change (2 ^ 16) with 65536 in *. change (2 ^ 32) with 4294967296.
  rewrite (Z.mod_small (2 ^ t) 4294967296), (Z.mod_small (2 ^ t) 65536) by lia.
  rewrite Z.pow2_bits_eqb by lia. apply Z.eqb_sym.
Qed.

Lemma bits_meet_MDL_BIT t b :
  valid_type t -> bits_meet (MDL_BIT t) b = Z.testbit b t.
Proof.
  intros Ht. apply eq_true_iff_eq. rewrite bits_meet_spec. split.
  - intros (i & Hi & Hb & Hm). rewrite MDL_BIT_testbit in Hb by done.
    apply Z.eqb_eq in Hb. congruence.
  - intros Hb. exists t. unfold valid_type in Ht.
    rewrite MDL_BIT_testbit by (done || exact (proj1 Ht)).
    rewrite Z.eqb_refl. split; [exact (proj1 Ht)|done].
Qed.

(** The request a stronger ticket can serve: whatever the weaker type conflicts
    with, the stronger one conflicts with too. *)
Lemma stronger_spec s a b c :
  valid_type c ->
  has_stronger_or_equal_type s a b = true ->
  is_incompatible_when_granted s c b = true ->
  is_incompatible_when_granted s c a = true.
Proof.
  unfold has_stronger_or_equal_type, is_incompatible_when_granted. intros Hc Hs.
  rewrite !bits_meet_MDL_BIT by done. intros Hb.
  destruct (Z.testbit (bitmap_at _ a) c) eqn:Ha; [done|]. exfalso.
  apply negb_true_iff in Hs. revert Hs. apply eq_true_false_abs.
  apply bits_meet_spec. exists c. destruct Hc as [Hc _].
  rewrite Z.lnot_spec, Ha by exact Hc. done.
Qed.

(** ** The tables *)

(** C10: the matrices of the scoped and object locks are the documented ones.  Those
    of the backup lock are too, but for the entries of BLOCK_DDL: a request for
    START waits for an active or pending BLOCK_DDL, and one for BLOCK_DDL for an
    active stage of a backup or an active BLOCK_DDL, where the comment has a plus
    (and a pending START keeps BLOCK_DDL waiting).
    A lock of a "stronger or equal" type keeps out, and is kept out by, whatever
    the weaker one keeps out and is kept out by, for scoped and object locks.  For
    backup locks only the second half holds: BLOCK_DDL counts as stronger than
    START, but START keeps out FLUSH and BLOCK_DDL does not. *)
Theorem mdl_documented_tables :
  (doc_differences (is_incompatible_when_granted MDL_scoped_lock)
     scoped_doc_order scoped_doc_granted = [] /\
   doc_differences (is_incompatible_when_waiting MDL_scoped_lock)
     scoped_doc_order scoped_doc_waiting = [] /\
   doc_differences (is_incompatible_when_granted MDL_object_lock)
     object_doc_order object_doc_granted = [] /\
   doc_differences (is_incompatible_when_waiting MDL_object_lock)
     object_doc_order object_doc_waiting = [] /\
   doc_differences (is_incompatible_when_granted MDL_backup_lock)
     backup_doc_order backup_doc_granted =
     [(MDL_BACKUP_START, MDL_BACKUP_BLOCK_DDL); (MDL_BACKUP_BLOCK_DDL, MDL_BACKUP_FLUSH);
      (MDL_BACKUP_BLOCK_DDL, MDL_BACKUP_WAIT_FLUSH); (MDL_BACKUP_BLOCK_DDL, MDL_BACKUP_WAIT_DDL);
      (MDL_BACKUP_BLOCK_DDL, MDL_BACKUP_WAIT_COMMIT);
      (MDL_BACKUP_BLOCK_DDL, MDL_BACKUP_BLOCK_DDL)] /\
   doc_differences (is_incompatible_when_waiting MDL_backup_lock)
     backup_doc_order backup_doc_waiting =
     [(MDL_BACKUP_START, MDL_BACKUP_BLOCK_DDL); (MDL_BACKUP_BLOCK_DDL, MDL_BACKUP_START)]) /\
  (forall s a b c, s = MDL_scoped_lock \/ s = MDL_object_lock ->
     valid_type a -> valid_type b -> valid_type c ->
     has_stronger_or_equal_type s a b = true ->
     (is_incompatible_when_granted s c b = true -> is_incompatible_when_granted s c a = true) /\
     (is_incompatible_when_granted s b c = true -> is_incompatible_when_granted s a c = true)) /\
  (forall a b c, valid_type c -> has_stronger_or_equal_type MDL_backup_lock a b = true ->
     is_incompatible_when_granted MDL_backup_lock c b = true ->
     is_incompatible_when_granted MDL_backup_lock c a = true) /\
  has_stronger_or_equal_type MDL_backup_lock MDL_BACKUP_BLOCK_DDL MDL_BACKUP_START = true /\
  is_incompatible_when_granted MDL_backup_lock MDL_BACKUP_START MDL_BACKUP_FLUSH = true /\
  is_incompatible_when_granted MDL_backup_lock MDL_BACKUP_BLOCK_DDL MDL_BACKUP_FLUSH = false.
Proof.
  split; [split_and!; vm_compute; reflexivity|].
  split; [|split; [intros a b c; apply (stronger_spec MDL_backup_lock)|]];
    [|split_and!; vm_compute; reflexivity].
  intros s a b c Hs Ha Hb Hc Hst. assert (SymmetricStrategy s) as Hsym
    by (destruct Hs as [->| ->]; apply _).
  split; [by apply stronger_spec|].
  rewrite (incompatible_sym (s:=s) b c), (incompatible_sym (s:=s) a c) by done.
  by apply stronger_spec.
Qed.

Lemma mdl_documented_tables_witness :
  is_incompatible_when_granted MDL_object_lock MDL_SHARED_WRITE MDL_EXCLUSIVE = true /\
  is_incompatible_when_granted MDL_backup_lock MDL_BACKUP_START MDL_BACKUP_FLUSH = true.
Proof.
  destruct mdl_documented_tables as (_ & Ho & _ & _ & Hf & _). split; [|exact Hf].
  apply (Ho MDL_object_lock MDL_EXCLUSIVE MDL_SHARED_NO_WRITE MDL_SHARED_WRITE);
    [by right|done..| |]; vm_compute; reflexivity.
Defined.
