(* ===== verification/MdlKey.v ===== *)
(** * Metadata lock keys

    [MDL_key] of sql/mdl.h: the byte buffer a lock is looked up by, its
    construction from a (namespace, database, name) triple, equality and order. *)

From S2P Require Import Prelude Bytes MdlTypes.

(** NAME_LEN = NAME_CHAR_LEN * SYSTEM_CHARSET_MBMAXLEN *)
Definition NAME_LEN : nat := 64 * 3.

Definition namespace_code (ns : enum_mdl_namespace) : Z :=
  match ns with
  | BACKUP => 0 | SCHEMA => 1 | TABLE => 2 | FUNCTION => 3 | PROCEDURE => 4
  | PACKAGE_BODY => 5 | TRIGGER => 6 | EVENT => 7 | USER_LOCK => 8
  end.

(** The characters [strmake(dst, src, length)] copies before the closing NUL: at
    most [length] of them, and none from the first NUL of [src] on. *)
Fixpoint strmake (src : list Z) (length : nat) : list Z :=
  match length, src with
  | S n, c :: src' => if c =? 0 then [] else c :: strmake src' n
  | _, _ => []
  end.

(** The first [m_length] bytes of the buffer; the rest is never read. *)
Record MDL_key := {
  m_ptr : list Z;
  m_db_name_length : Z;
}.

Definition m_length (k : MDL_key) : Z := Z.of_nat (length (m_ptr k)).

Definition mdl_key_init (mdl_namespace_arg : enum_mdl_namespace)
    (db name_arg : list Z) : MDL_key :=
  let d := strmake db NAME_LEN in
  let n := strmake name_arg NAME_LEN in
  {| m_ptr := namespace_code mdl_namespace_arg :: d ++ [0] ++ n ++ [0];
     m_db_name_length := Z.of_nat (length d) |}.

Definition mdl_namespace (k : MDL_key) : Z := nth 0 (m_ptr k) 0.

Definition db_name (k : MDL_key) : list Z :=
  take (Z.to_nat (m_db_name_length k)) (drop 1 (m_ptr k)).

Definition name_length (k : MDL_key) : Z := m_length k - m_db_name_length k - 3.

Definition name (k : MDL_key) : list Z :=
  take (Z.to_nat (name_length k)) (drop (Z.to_nat (m_db_name_length k) + 2) (m_ptr k)).

Definition is_equal (k rhs : MDL_key) : bool :=
  (m_length k =? m_length rhs) && (memcmp (m_ptr k) (m_ptr rhs) =? 0).

Definition cmp (k rhs : MDL_key) : Z :=
  let n := Z.to_nat (Z.min (m_length k) (m_length rhs)) in
  memcmp (take n (m_ptr k)) (take n (m_ptr rhs)).

(** ** Properties of the buffer *)

(** Bytes of an identifier: unsigned, no NUL, not longer than NAME_LEN. *)
Definition is_identifier (s : list Z) : Prop :=
  Forall (fun c => 0 < c < 256) s /\ (length s <= NAME_LEN)%nat.

Lemma strmake_identifier s : is_identifier s -> strmake s NAME_LEN = s.
Proof.
  intros [Hc Hl]. revert Hl. generalize NAME_LEN as n.
  induction Hc as [|c s Hc _ IH]; intros [|n] Hl; simpl in *; try done; try lia.
  rewrite (proj2 (Z.eqb_neq c 0)) by lia. rewrite IH by lia. done.
Qed.

(** A NUL-terminated string is never a proper prefix of another one. *)
Lemma nul_string_cmp s1 s2 r1 r2 n :
  Forall (fun c => 0 < c < 256) s1 -> Forall (fun c => 0 < c < 256) s2 ->
  memcmp (take n (s1 ++ 0 :: r1)) (take n (s2 ++ 0 :: r2)) = 0 ->
  (length s1 < n)%nat -> (length s2 < n)%nat ->
  s1 = s2 /\ memcmp (take (n - S (length s1)) r1) (take (n - S (length s2)) r2) = 0.
Proof.
  intros H1. revert s2 n. induction H1 as [|c s1 Hc _ IH]; intros s2 [|n] H2; simpl; try lia.
  - destruct H2 as [|c' s2 Hc' H2]; simpl.
    + rewrite Nat.sub_0_r. auto.
    + replace (0 <? c') with true by (symmetry; apply Z.ltb_lt; lia). done.
  - destruct H2 as [|c' s2 Hc' H2]; simpl.
    + replace (c <? 0) with false by (symmetry; apply Z.ltb_ge; lia).
      replace (0 <? c) with true by (symmetry; apply Z.ltb_lt; lia). done.
    + destruct (Z.ltb_spec c c'), (Z.ltb_spec c' c); try done.
      intros Hm L1 L2. destruct (IH s2 n) as [-> Hr]; try done; try lia.
      split; [f_equal; lia|done].
Qed.

Lemma cmp_memcmp k1 k2 : cmp k1 k2 = memcmp (m_ptr k1) (m_ptr k2).
Proof. unfold cmp, m_length. apply memcmp_take. lia. Qed.

Lemma namespace_code_inj : Inj (=) (=) namespace_code.
Proof. intros [] []; done. Qed.

Lemma mdl_key_prefix_free ns1 d1 n1 ns2 d2 n2 :
  is_identifier d1 -> is_identifier n1 -> is_identifier d2 -> is_identifier n2 ->
  memcmp (m_ptr (mdl_key_init ns1 d1 n1)) (m_ptr (mdl_key_init ns2 d2 n2)) = 0 ->
  (ns1, d1, n1) = (ns2, d2, n2).
Proof.
  intros Hd1 Hn1 Hd2 Hn2. unfold mdl_key_init. simpl m_ptr.
  rewrite !strmake_identifier by done. simpl.
  destruct (Z.ltb_spec (namespace_code ns1) (namespace_code ns2)); [done|].
  destruct (Z.ltb_spec (namespace_code ns2) (namespace_code ns1)); [done|].
  assert (ns1 = ns2) as -> by (apply namespace_code_inj; lia).
  intros Hm.
  set (n := (length d1 + length d2 + length n1 + length n2 + 2)%nat).
  rewrite <- (memcmp_take (n + n)%nat) in Hm
    by (rewrite !length_app; simpl; rewrite !length_app; simpl; lia).
  apply nul_string_cmp in Hm as [-> Hm]; [|apply Hd1|apply Hd2|lia|lia].
  apply nul_string_cmp in Hm as [-> _]; [done|apply Hn1|apply Hn2|lia|lia].
Qed.

(** Reading the namespace, database and object name back from a key gives the
    triple the key was built from. *)
Lemma mdl_key_read ns d n :
  is_identifier d -> is_identifier n ->
  let k := mdl_key_init ns d n in
  mdl_namespace k = namespace_code ns /\ db_name k = d /\ name k = n.
Proof.
  intros Hd Hn k. unfold k, mdl_namespace, db_name, name, name_length, m_length,
    mdl_key_init. simpl m_ptr. simpl m_db_name_length.
  rewrite !strmake_identifier by done. simpl.
  split_and!; [done| |].
  - rewrite Nat2Z.id, drop_0. apply take_app_length.
  - replace (Z.to_nat (Z.of_nat (length d)) + 2)%nat with (S (length d + 1)) by lia.
    simpl. rewrite <- drop_drop, drop_app_length. simpl. rewrite drop_0.
    replace (Z.to_nat _) with (length n)
      by (rewrite !length_app; simpl; rewrite !length_app; simpl; lia).
    apply take_app_length.
Qed.

(** C9: the keys built from two triples are equal as keys (same buffer) exactly
    when the triples are the same, and compare as 0 exactly then although [cmp]
    only looks at the shorter of the two lengths; the order is antisymmetric and
    transitive, so sorting lock requests by it puts requests for the same object
    together and orders distinct objects totally; and the namespace, database and
    object name are read back from a key. *)
Theorem mdl_key_order ns1 d1 n1 ns2 d2 n2 ns3 d3 n3 :
  is_identifier d1 -> is_identifier n1 -> is_identifier d2 -> is_identifier n2 ->
  is_identifier d3 -> is_identifier n3 ->
  let k1 := mdl_key_init ns1 d1 n1 in
  let k2 := mdl_key_init ns2 d2 n2 in
  let k3 := mdl_key_init ns3 d3 n3 in
  (is_equal k1 k2 = true <-> (ns1, d1, n1) = (ns2, d2, n2)) /\
  (cmp k1 k2 = 0 <-> (ns1, d1, n1) = (ns2, d2, n2)) /\
  cmp k1 k2 = - cmp k2 k1 /\
  (cmp k1 k2 < 0 -> cmp k2 k3 < 0 -> cmp k1 k3 < 0) /\
  (mdl_namespace k1 = namespace_code ns1 /\ db_name k1 = d1 /\ name k1 = n1).
Proof.
  intros Hd1 Hn1 Hd2 Hn2 Hd3 Hn3 k1 k2 k3. rewrite !cmp_memcmp.
  split_and!.
  - unfold is_equal. rewrite andb_true_iff, !Z.eqb_eq. split.
    + intros [_ Hm]. by apply mdl_key_prefix_free in Hm.
    + intros [= <- <- <-]. split; [done|apply memcmp_refl].
  - split; [by apply mdl_key_prefix_free|].
    intros [= <- <- <-]. apply memcmp_refl.
  - apply memcmp_antisym.
  - intros H12 H23.
    rewrite (memcmp_trans _ (m_ptr k2)); [lia|..].
    + pose proof (memcmp_range (m_ptr k1) (m_ptr k2)). lia.
    + pose proof (memcmp_range (m_ptr k2) (m_ptr k3)). lia.
  - by apply mdl_key_read.
  - by apply mdl_key_read.
  - by apply mdl_key_read.
Qed.

Lemma mdl_key_order_witness :
  cmp (mdl_key_init TABLE [116] [97]) (mdl_key_init TABLE [116] [97; 98]) < 0 /\
  is_equal (mdl_key_init SCHEMA [116] []) (mdl_key_init TABLE [116] []) = false.
Proof.
  assert (is_identifier [116] /\ is_identifier [97] /\ is_identifier [97; 98] /\
          is_identifier []) as (H1 & H2 & H3 & H4)
    by (unfold is_identifier, NAME_LEN; repeat split; repeat constructor; simpl; lia).
  destruct (mdl_key_order TABLE [116] [97] TABLE [116] [97; 98] TABLE [116] [97]
              H1 H2 H1 H3 H1 H2) as (_ & _ & Ha & _).
  destruct (mdl_key_order SCHEMA [116] [] TABLE [116] [] TABLE [116] []
              H1 H4 H1 H4 H1 H4) as ((He & _) & _).
  split; [vm_compute; done|].
  destruct (is_equal _ _); [|done]. discriminate (He eq_refl).
Defined.
