(* ===== verification/MdlLock.v ===== *)
(** * The metadata lock object

    [MDL_lock] of sql/mdl.cc: the ticket lists with their type bitmaps, the fast
    lanes, and every operation that changes a lock.  Tickets live in a heap,
    because the lists, the lanes and the owning contexts share them and the code
    updates a ticket's type and lane in place.  An operation runs under the lock's
    m_rwlock (or a lane's mutex) and is one function here. *)

From S2P Require Import Prelude MdlTypes MdlKey.

(** ** Tickets and wait slots *)

Notation ptr := nat.
Notation ctx_id := nat.

Record MDL_ticket := mk_ticket {
  m_type : enum_mdl_type;
  m_ctx : ctx_id;
  (** key of the lock the ticket points to *)
  m_lock : option (list Z);
  (** index of the lane the ticket is registered in *)
  m_fast_lane : option nat;
}.

Notation heap := (gmap ptr MDL_ticket).

Definition get_type (h : heap) (t : ptr) : enum_mdl_type :=
  from_option m_type MDL_NOT_INITIALIZED (h !! t).
Definition get_ctx (h : heap) (t : ptr) : ctx_id := from_option m_ctx 0%nat (h !! t).
Definition fast_lane (h : heap) (t : ptr) : option nat := h !! t ≫= m_fast_lane.

Definition set_type (type : enum_mdl_type) (tk : MDL_ticket) : MDL_ticket :=
  mk_ticket type (m_ctx tk) (m_lock tk) (m_fast_lane tk).
Definition set_lock (k : option (list Z)) (tk : MDL_ticket) : MDL_ticket :=
  mk_ticket (m_type tk) (m_ctx tk) k (m_fast_lane tk).
Definition set_fast_lane (l : option nat) (tk : MDL_ticket) : MDL_ticket :=
  mk_ticket (m_type tk) (m_ctx tk) (m_lock tk) l.

Inductive enum_wait_status := EMPTY | GRANTED | VICTIM | TIMEOUT | KILLED.

#[export] Instance enum_wait_status_eq_dec : EqDecision enum_wait_status.
Proof. solve_decision. Defined.

(** The wait slots of all contexts, [MDL_context::m_wait]. *)
Notation wait_slots := (gmap ctx_id enum_wait_status).

Definition get_status (w : wait_slots) (c : ctx_id) : enum_wait_status :=
  default EMPTY (w !! c).

(** [MDL_wait::set_status]: set the slot unless it is already set; the result
    tells whether it was occupied. *)
Definition set_status (w : wait_slots) (c : ctx_id) (status_arg : enum_wait_status) :
    bool * wait_slots :=
  if decide (get_status w c = EMPTY) then (false, <[c := status_arg]> w) else (true, w).

Definition reset_status (w : wait_slots) (c : ctx_id) : wait_slots := <[c := EMPTY]> w.

(** ** Ticket lists *)

Record Ticket_list := mk_tl {
  m_list : list ptr;
  m_bitmap : mdl_bitmap_t;
  m_type_counters : list Z;
}.

Definition empty_Ticket_list : Ticket_list :=
  mk_tl [] 0 (replicate (Z.to_nat MDL_BACKUP_END) 0).

Definition type_index (type : enum_mdl_type) : nat := Z.to_nat type.

Definition Ticket_list_add_ticket (h : heap) (tl : Ticket_list) (ticket : ptr) : Ticket_list :=
  mk_tl (m_list tl ++ [ticket])
        (Z.lor (m_bitmap tl) (MDL_BIT (get_type h ticket)))
        (alter (fun c => u32 (c + 1)) (type_index (get_type h ticket)) (m_type_counters tl)).

Definition Ticket_list_remove_ticket (h : heap) (tl : Ticket_list) (ticket : ptr) : Ticket_list :=
  let type := get_type h ticket in
  let counters := alter (fun c => u32 (c - 1)) (type_index type) (m_type_counters tl) in
  mk_tl (remove_first ticket (m_list tl))
        (if nth (type_index type) counters 0 =? 0
         then Z.land (m_bitmap tl) (Z.lnot (MDL_BIT type))
         else m_bitmap tl)
        counters.

(** ** Fast lanes *)

Record Lane := mk_lane {
  lane_list : list ptr;
  m_close_count : Z;
}.

Definition Lane_is_open (l : Lane) : bool := m_close_count l =? 0.

(** Lane number [i] registers the ticket when it is open. *)
Definition Lane_try_acquire_lock (h : heap) (i : nat) (l : Lane) (ticket : ptr) :
    bool * heap * Lane :=
  if Lane_is_open l
  then (true, alter (set_fast_lane (Some i)) ticket h,
        mk_lane (lane_list l ++ [ticket]) (m_close_count l))
  else (false, h, l).

(** upgrade/downgrade/release helper: the ticket's lane is checked again under
    the mutex, since the lane may have been closed meanwhile. *)
Definition Lane_ticket_action (h : heap) (l : Lane) (ticket : ptr)
    (action : heap -> Lane -> heap * Lane) : bool * heap * Lane :=
  match fast_lane h ticket with
  | Some _ => let '(h', l') := action h l in (true, h', l')
  | None => (false, h, l)
  end.

Definition Lane_release (h : heap) (l : Lane) (ticket : ptr) : bool * heap * Lane :=
  Lane_ticket_action h l ticket
    (fun h l => (h, mk_lane (remove_first ticket (lane_list l)) (m_close_count l))).

Definition Lane_change_ticket_type (h : heap) (l : Lane) (ticket : ptr)
    (type : enum_mdl_type) : bool * heap * Lane :=
  Lane_ticket_action h l ticket (fun h l => (alter (set_type type) ticket h, l)).

(** The loop of [Lane::close]: pop the tickets and append them to m_granted. *)
Fixpoint Lane_drain (h : heap) (granted : Ticket_list) (l : list ptr) : heap * Ticket_list :=
  match l with
  | [] => (h, granted)
  | ticket :: l' =>
      Lane_drain (alter (set_fast_lane None) ticket h)
                 (Ticket_list_add_ticket h granted ticket) l'
  end.

Definition Lane_close (h : heap) (granted : Ticket_list) (l : Lane) :
    heap * Ticket_list * Lane :=
  let '(h', granted') := Lane_drain h granted (lane_list l) in
  (h', granted', mk_lane [] (u32 (m_close_count l + 1))).

Definition Lane_reopen (l : Lane) : Lane :=
  mk_lane (lane_list l) (u32 (m_close_count l - 1)).

Record Fast_road := mk_road {
  (** the lanes; none when fast lanes are not enabled *)
  m_lanes : list Lane;
  m_supported_types : mdl_bitmap_t;
}.

Definition Fast_road_init : Fast_road := mk_road [] 0.

(** [alloc] tells whether the array of lanes could be allocated. *)
Definition Fast_road_enable (mdl_instances : Z) (alloc : bool)
    (supported_types : mdl_bitmap_t) : Fast_road :=
  if (1 <? mdl_instances) && alloc
  then mk_road (replicate (Z.to_nat mdl_instances) (mk_lane [] 0)) supported_types
  else Fast_road_init.

Definition is_enabled (fr : Fast_road) : bool :=
  match m_lanes fr with [] => false | _ => true end.

Definition supported_type (fr : Fast_road) (type : enum_mdl_type) : bool :=
  bits_meet (MDL_BIT type) (m_supported_types fr).

(** Run [action] on the lane the ticket is registered in, if any. *)
Definition lane_action (h : heap) (fr : Fast_road) (ticket : ptr)
    (action : Lane -> bool * heap * Lane) : bool * heap * Fast_road :=
  match fast_lane h ticket with
  | Some i =>
      match m_lanes fr !! i with
      | Some l =>
          let '(res, h', l') := action l in
          (res, h', mk_road (<[i := l']> (m_lanes fr)) (m_supported_types fr))
      | None => (false, h, fr)
      end
  | None => (false, h, fr)
  end.

Definition Fast_road_try_release (h : heap) (fr : Fast_road) (ticket : ptr) :=
  lane_action h fr ticket (fun l => Lane_release h l ticket).

Definition Fast_road_try_change_ticket_type (h : heap) (fr : Fast_road) (ticket : ptr)
    (type : enum_mdl_type) :=
  lane_action h fr ticket (fun l => Lane_change_ticket_type h l ticket type).

(** [all_lanes_action] for closing: every lane in turn. *)
Fixpoint close_lanes (h : heap) (granted : Ticket_list) (lanes : list Lane) :
    heap * Ticket_list * list Lane :=
  match lanes with
  | [] => (h, granted, [])
  | l :: lanes' =>
      let '(h1, granted1, l1) := Lane_close h granted l in
      let '(h2, granted2, lanes2) := close_lanes h1 granted1 lanes' in
      (h2, granted2, l1 :: lanes2)
  end.

Definition Fast_road_close (h : heap) (granted : Ticket_list) (fr : Fast_road)
    (type : enum_mdl_type) : heap * Ticket_list * Fast_road :=
  if supported_type fr type then (h, granted, fr)
  else
    let '(h', granted', lanes) := close_lanes h granted (m_lanes fr) in
    (h', granted', mk_road lanes (m_supported_types fr)).

Definition Fast_road_reopen (fr : Fast_road) (type : enum_mdl_type) : Fast_road :=
  if supported_type fr type then fr
  else mk_road (map Lane_reopen (m_lanes fr)) (m_supported_types fr).

(** ** The lock *)

Record MDL_lock := mk_lock {
  key : MDL_key;
  m_granted : Ticket_list;
  m_waiting : Ticket_list;
  m_hog_lock_count : Z;
  m_fast_road : Fast_road;
  (** nullptr once the lock is being removed from the map *)
  m_strategy : option MDL_lock_strategy;
}.

(** What an operation on a lock reads and writes: the tickets, the lock itself
    and the wait slots. *)
Record world := mk_world {
  w_heap : heap;
  w_lock : MDL_lock;
  w_waits : wait_slots;
}.

Inductive tal_status := TAL_ERROR | TAL_ACQUIRED | TAL_WAIT | TAL_NOWAIT.

Definition lock_is_empty (lk : MDL_lock) : bool :=
  match m_list (m_granted lk), m_list (m_waiting lk) with
  | [], [] => true
  | _, _ => false
  end.

(** The lock created for a key: by the constructor for the BACKUP namespace, by
    the initializer of the hash otherwise. *)
Definition MDL_lock_init (mdl_instances : Z) (alloc : bool) (k : MDL_key) : MDL_lock :=
  if mdl_namespace k =? namespace_code BACKUP
  then mk_lock k empty_Ticket_list empty_Ticket_list 0
         (Fast_road_enable mdl_instances alloc backup_fast_types) (Some MDL_backup_lock)
  else mk_lock k empty_Ticket_list empty_Ticket_list 0 Fast_road_init
         (Some (if mdl_namespace k =? namespace_code SCHEMA
                then MDL_scoped_lock else MDL_object_lock)).

Definition can_grant_lock (h : heap) (lk : MDL_lock) (s : MDL_lock_strategy)
    (type_arg : enum_mdl_type) (requestor_ctx : ctx_id) (ignore_lock_priority : bool) : bool :=
  let waiting_incompat_map := bitmap_at (incompatible_waiting_types_bitmap s) type_arg in
  let granted_incompat_map := bitmap_at (incompatible_granted_types_bitmap s) type_arg in
  if negb ignore_lock_priority && bits_meet (m_bitmap (m_waiting lk)) waiting_incompat_map
  then false
  else if bits_meet (m_bitmap (m_granted lk)) granted_incompat_map
  then negb (existsb (fun ticket =>
         negb (Nat.eqb (get_ctx h ticket) requestor_ctx) &&
         is_incompatible_when_granted s (get_type h ticket) type_arg)
         (m_list (m_granted lk)))
  else true.

Definition set_lists (lk : MDL_lock) (granted waiting : Ticket_list) : MDL_lock :=
  mk_lock (key lk) granted waiting (m_hog_lock_count lk) (m_fast_road lk) (m_strategy lk).

(** A pointer to one of the two list members, [Ticket_list MDL_lock::*]. *)
Inductive ticket_queue := queue_granted | queue_waiting.

Definition get_list (lk : MDL_lock) (q : ticket_queue) : Ticket_list :=
  match q with queue_granted => m_granted lk | queue_waiting => m_waiting lk end.
Definition set_list (lk : MDL_lock) (q : ticket_queue) (tl : Ticket_list) : MDL_lock :=
  match q with
  | queue_granted => set_lists lk tl (m_waiting lk)
  | queue_waiting => set_lists lk (m_granted lk) tl
  end.

Definition other_queue (q : ticket_queue) : ticket_queue :=
  match q with queue_granted => queue_waiting | queue_waiting => queue_granted end.

(** [ilist::remove] takes a ticket out of the list it is linked in, also when it is called for
    another list; this is what happens to the list [q] then. *)
Definition ilist_unlink (lk : MDL_lock) (q : ticket_queue) (ticket : ptr) : MDL_lock :=
  let tl := get_list lk q in
  set_list lk q (mk_tl (remove_first ticket (m_list tl)) (m_bitmap tl) (m_type_counters tl)).

Definition set_hog (lk : MDL_lock) (n : Z) : MDL_lock :=
  mk_lock (key lk) (m_granted lk) (m_waiting lk) n (m_fast_road lk) (m_strategy lk).
Definition set_road (lk : MDL_lock) (fr : Fast_road) : MDL_lock :=
  mk_lock (key lk) (m_granted lk) (m_waiting lk) (m_hog_lock_count lk) fr (m_strategy lk).
Definition set_strategy (lk : MDL_lock) (s : option MDL_lock_strategy) : MDL_lock :=
  mk_lock (key lk) (m_granted lk) (m_waiting lk) (m_hog_lock_count lk) (m_fast_road lk) s.

(** Body of the loop of [reschedule_waiters] for the ticket [it] points to. *)
Definition reschedule_step (s : MDL_lock_strategy) (skip_high_priority : bool) (h : heap)
    (it : ptr) (lk : MDL_lock) (w : wait_slots) : MDL_lock * wait_slots :=
  let hog_lock_types := hog_lock_types_bitmap s in
  let type := get_type h it in
  if skip_high_priority && bits_meet (MDL_BIT type) hog_lock_types then (lk, w)
  else if can_grant_lock h lk s type (get_ctx h it) skip_high_priority then
    let '(was_occupied, w') := set_status w (get_ctx h it) GRANTED in
    if was_occupied then (lk, w)
    else
      let lk1 := set_list lk queue_waiting (Ticket_list_remove_ticket h (m_waiting lk) it) in
      let lk' := set_list lk1 queue_granted (Ticket_list_add_ticket h (m_granted lk1) it) in
      (if bits_meet (MDL_BIT type) hog_lock_types
       then set_hog lk' (u64 (m_hog_lock_count lk' + 1)) else lk', w')
  else (lk, w).

(** The loop: a granted ticket leaves the waiting list and the iteration goes on
    with its successor, so the tickets are visited in the order of the list. *)
Fixpoint reschedule_loop (s : MDL_lock_strategy) (skip_high_priority : bool) (h : heap)
    (its : list ptr) (lk : MDL_lock) (w : wait_slots) : MDL_lock * wait_slots :=
  match its with
  | [] => (lk, w)
  | it :: its' =>
      let '(lk', w') := reschedule_step s skip_high_priority h it lk w in
      reschedule_loop s skip_high_priority h its' lk' w'
  end.

Section Operations.
Context (max_write_lock_count : Z) (mdl_instances : Z) (thread_id : ctx_id -> Z).

Definition skip_high_priority (lk : MDL_lock) (s : MDL_lock_strategy) : bool :=
  (max_write_lock_count <=? m_hog_lock_count lk) &&
  bits_meet (m_bitmap (m_waiting lk)) (Z.lnot (hog_lock_types_bitmap s)).

Definition reschedule_waiters (h : heap) (lk : MDL_lock) (s : MDL_lock_strategy)
    (w : wait_slots) : MDL_lock * wait_slots :=
  let '(lk', w') :=
    reschedule_loop s (skip_high_priority lk s) h (m_list (m_waiting lk)) lk w in
  (if bits_meet (m_bitmap (m_waiting lk')) (Z.lnot (hog_lock_types_bitmap s))
   then lk' else set_hog lk' 0, w').

(** The contexts [notify_conflicting_locks] notifies. *)
Definition notify_conflicting_locks (h : heap) (lk : MDL_lock) (s : MDL_lock_strategy)
    (ctx : ctx_id) : list ctx_id :=
  map (get_ctx h) (List.filter (fun t =>
    negb (Nat.eqb (get_ctx h t) ctx) && conflicting_locks s (get_type h t))
    (m_list (m_granted lk))).

Definition Fast_road_try_acquire_lock (h : heap) (fr : Fast_road) (ticket : ptr) :
    bool * heap * Fast_road :=
  if is_enabled fr && supported_type fr (get_type h ticket) then
    let lane := Z.to_nat (thread_id (get_ctx h ticket) mod mdl_instances) in
    match m_lanes fr !! lane with
    | Some l =>
        let '(res, h', l') := Lane_try_acquire_lock h lane l ticket in
        (res, h', mk_road (<[lane := l']> (m_lanes fr)) (m_supported_types fr))
    | None => (false, h, fr)
    end
  else (false, h, fr).

(** The part of [MDL_lock::try_acquire_lock] under m_rwlock; the last component lists the contexts
    that were notified. *)
Definition acquire_conventional (wd : world) (ticket : ptr) (wait : bool) :
    tal_status * world * list ctx_id :=
  let h1 := w_heap wd in
  let lk := w_lock wd in
  match m_strategy lk with
  | None => (TAL_ERROR, wd, [])
  | Some s =>
      let type := get_type h1 ticket in
      let ctx := get_ctx h1 ticket in
      let '(h2, granted2, fr2) := Fast_road_close h1 (m_granted lk) (m_fast_road lk) type in
      let lk2 := set_road (set_list lk queue_granted granted2) fr2 in
      if can_grant_lock h2 lk2 s type ctx false then
        (TAL_ACQUIRED,
         mk_world h2 (set_list lk2 queue_granted
                        (Ticket_list_add_ticket h2 (m_granted lk2) ticket)) (w_waits wd), [])
      else if wait then
        (TAL_WAIT,
         mk_world h2 (set_list lk2 queue_waiting
                        (Ticket_list_add_ticket h2 (m_waiting lk2) ticket)) (w_waits wd),
         if needs_notification s type then notify_conflicting_locks h2 lk2 s ctx else [])
      else
        (TAL_NOWAIT, mk_world h2 (set_road lk2 (Fast_road_reopen fr2 type)) (w_waits wd), [])
  end.

(** [MDL_lock::try_acquire_lock] *)
Definition MDL_lock_try_acquire_lock (wd : world) (ticket : ptr) (wait : bool) :
    tal_status * world * list ctx_id :=
  let h0 := alter (set_lock (Some (m_ptr (key (w_lock wd))))) ticket (w_heap wd) in
  let lk := w_lock wd in
  let '(fast, h1, fr1) := Fast_road_try_acquire_lock h0 (m_fast_road lk) ticket in
  if fast then (TAL_ACQUIRED, mk_world h1 (set_road lk fr1) (w_waits wd), [])
  else acquire_conventional (mk_world h1 lk (w_waits wd)) ticket wait.

(** [MDL_lock::remove_ticket]; the boolean tells that the lock became empty and
    has to be removed from the map ([mdl_locks.remove]). *)
Definition MDL_lock_remove_ticket (wd : world) (list : ticket_queue) (ticket : ptr) :
    bool * world :=
  let h := w_heap wd in
  let lk := w_lock wd in
  let lk1 := set_list (ilist_unlink lk (other_queue list) ticket) list
               (Ticket_list_remove_ticket h (get_list lk list) ticket) in
  let reopen lk := set_road lk (Fast_road_reopen (m_fast_road lk) (get_type h ticket)) in
  if lock_is_empty lk1 then
    if mdl_namespace (key lk1) =? namespace_code BACKUP
    then (false, mk_world h (reopen lk1) (w_waits wd))
    else (true, mk_world h (set_strategy lk1 None) (w_waits wd))
  else
    match m_strategy lk1 with
    | Some s =>
        let '(lk2, w2) := reschedule_waiters h lk1 s (w_waits wd) in
        (false, mk_world h (reopen lk2) w2)
    | None => (false, mk_world h lk1 (w_waits wd))
    end.

Definition MDL_lock_release (wd : world) (ticket : ptr) : bool * world :=
  let '(fast, h, fr) := Fast_road_try_release (w_heap wd) (m_fast_road (w_lock wd)) ticket in
  if fast then (false, mk_world h (set_road (w_lock wd) fr) (w_waits wd))
  else MDL_lock_remove_ticket wd queue_granted ticket.

Definition abort_wait (wd : world) (ticket : ptr) : bool * world :=
  MDL_lock_remove_ticket wd queue_waiting ticket.

Definition add_cloned_ticket (wd : world) (ticket : ptr) : world :=
  let lk := w_lock wd in
  let '(h, granted, fr) :=
    Fast_road_close (w_heap wd) (m_granted lk) (m_fast_road lk)
      (get_type (w_heap wd) ticket) in
  let lk1 := set_road (set_list lk queue_granted granted) fr in
  mk_world h (set_list lk1 queue_granted (Ticket_list_add_ticket h (m_granted lk1) ticket))
    (w_waits wd).

(** Take the ticket out of m_granted, change its type, put it back. *)
Definition requeue (wd : world) (ticket : ptr) (type : enum_mdl_type) : world :=
  let lk := w_lock wd in
  let lk1 := set_list lk queue_granted
               (Ticket_list_remove_ticket (w_heap wd) (m_granted lk) ticket) in
  let h := alter (set_type type) ticket (w_heap wd) in
  mk_world h (set_list lk1 queue_granted (Ticket_list_add_ticket h (m_granted lk1) ticket))
    (w_waits wd).

Definition try_fast_upgrade (wd : world) (ticket : ptr) (type : enum_mdl_type) :
    bool * world :=
  let '(fast, h, fr) :=
    Fast_road_try_change_ticket_type (w_heap wd) (m_fast_road (w_lock wd)) ticket type in
  (fast, mk_world h (set_road (w_lock wd) fr) (w_waits wd)).

Definition downgrade (wd : world) (ticket : ptr) (type : enum_mdl_type) : world :=
  let '(fast, wd1) := try_fast_upgrade wd ticket type in
  if fast then wd1
  else
    let wd2 := requeue wd1 ticket type in
    match m_strategy (w_lock wd2) with
    | Some s =>
        let '(lk, w) := reschedule_waiters (w_heap wd2) (w_lock wd2) s (w_waits wd2) in
        mk_world (w_heap wd2) lk w
    | None => wd2
    end.

(** The part of [upgrade] that takes out the ticket acquired for it. *)
Definition upgrade_remove (wd : world) (r : ptr) : world :=
  let '(fast, h, fr) := Fast_road_try_release (w_heap wd) (m_fast_road (w_lock wd)) r in
  if fast then mk_world h (set_road (w_lock wd) fr) (w_waits wd)
  else
    let lk := w_lock wd in
    let lk1 := set_road lk (Fast_road_reopen (m_fast_road lk) (get_type (w_heap wd) r)) in
    mk_world (w_heap wd)
      (set_list lk1 queue_granted (Ticket_list_remove_ticket (w_heap wd) (m_granted lk1) r))
      (w_waits wd).

Definition upgrade (wd : world) (ticket : ptr) (type : enum_mdl_type)
    (remove : option ptr) : world :=
  requeue (match remove with None => wd | Some r => upgrade_remove wd r end) ticket type.

(** [m_waiting.bitmap() & incompatible_granted_types_bitmap()[type]] *)
Definition has_pending_conflicting_lock (lk : MDL_lock) (s : MDL_lock_strategy)
    (type : enum_mdl_type) : bool :=
  bits_meet (m_bitmap (m_waiting lk))
    (bitmap_at (incompatible_granted_types_bitmap s) type).

(** Thread id of the owner of the first granted ticket, 0 when there is none. *)
Definition get_lock_owner (h : heap) (lk : MDL_lock) : Z :=
  match m_list (m_granted lk) with
  | [] => 0
  | t :: _ => thread_id (get_ctx h t)
  end.
End Operations.
