(* ===== verification/MdlLockInv.v ===== *)
(** * Invariants of the metadata lock object

    The type bitmaps and counters of the ticket lists describe the tickets in
    them, the fast lanes are open exactly when no ticket of a non-fast type is
    granted or waiting, and every operation of [MDL_lock] preserves this. *)

From S2P Require Import Prelude MdlTypes MdlKey MdlLock.

(** ** Reading the heap *)

Lemma get_type_alter h t t' f :
  (forall tk, m_type (f tk) = m_type tk) -> get_type (alter f t h) t' = get_type h t'.
Proof.
  intros Hf. unfold get_type. rewrite lookup_alter.
  case_decide as E; [subst|done]. destruct (h !! t'); simpl; auto.
Qed.

Lemma get_ctx_alter h t t' f :
  (forall tk, m_ctx (f tk) = m_ctx tk) -> get_ctx (alter f t h) t' = get_ctx h t'.
Proof.
  intros Hf. unfold get_ctx. rewrite lookup_alter.
  case_decide as E; [subst|done]. destruct (h !! t'); simpl; auto.
Qed.

Lemma fast_lane_alter h t t' f :
  (forall tk, m_fast_lane (f tk) = m_fast_lane tk) ->
  fast_lane (alter f t h) t' = fast_lane h t'.
Proof.
  intros Hf. unfold fast_lane. rewrite lookup_alter.
  case_decide as E; [subst|done]. destruct (h !! t'); simpl; auto.
Qed.

Lemma get_type_set_type h t t' type :
  is_Some (h !! t) ->
  get_type (alter (set_type type) t h) t' = if decide (t = t') then type else get_type h t'.
Proof.
  intros [tk Htk]. unfold get_type. rewrite lookup_alter.
  case_decide as E; [subst|done]. by rewrite Htk.
Qed.

Lemma get_type_set_type_ne h t t' type :
  t ≠ t' -> get_type (alter (set_type type) t h) t' = get_type h t'.
Proof. intros. unfold get_type. by rewrite lookup_alter_ne. Qed.

Lemma fast_lane_set h t t' l :
  is_Some (h !! t) ->
  fast_lane (alter (set_fast_lane l) t h) t' = if decide (t = t') then l else fast_lane h t'.
Proof.
  intros [tk Htk]. unfold fast_lane. rewrite lookup_alter.
  case_decide as E; [subst|done]. by rewrite Htk.
Qed.

Lemma fast_lane_set_ne h t t' l :
  t ≠ t' -> fast_lane (alter (set_fast_lane l) t h) t' = fast_lane h t'.
Proof. intros. unfold fast_lane. by rewrite lookup_alter_ne. Qed.

Lemma valid_type_alive h t : valid_type (get_type h t) -> is_Some (h !! t).
Proof.
  unfold get_type, valid_type. destruct (h !! t); [by eauto|].
  simpl. unfold MDL_NOT_INITIALIZED. lia.
Qed.

(** Two heaps that agree on the tickets' types, respectively contexts. *)
Definition same_types (h h' : heap) : Prop := forall t, get_type h' t = get_type h t.
Definition same_ctxs (h h' : heap) : Prop := forall t, get_ctx h' t = get_ctx h t.

(** ** Ticket lists *)

Definition has_type (h : heap) (type : enum_mdl_type) (t : ptr) : bool :=
  get_type h t =? type.

Record tl_ok (h : heap) (tl : Ticket_list) : Prop := {
  tl_valid t : t ∈ m_list tl -> valid_type (get_type h t);
  tl_nodup : NoDup (m_list tl);
  tl_counters type :
    valid_type type ->
    m_type_counters tl !! type_index type = Some (countb (has_type h type) (m_list tl));
  tl_bitmap type :
    0 <= type -> Z.testbit (m_bitmap tl) type = (0 <? countb (has_type h type) (m_list tl));
}.

Lemma tl_bit_iff h tl type :
  tl_ok h tl -> 0 <= type ->
  Z.testbit (m_bitmap tl) type = true <-> exists t, t ∈ m_list tl /\ get_type h t = type.
Proof.
  intros Hok Ht. rewrite (tl_bitmap h tl Hok) by done.
  rewrite Z.ltb_lt, countb_pos. unfold has_type. by setoid_rewrite Z.eqb_eq.
Qed.

(** The bitmap meets a set of types iff a ticket of one of them is in the list. *)
Lemma tl_bitmap_meet h tl b :
  tl_ok h tl ->
  bits_meet (m_bitmap tl) b = true <->
  exists t, t ∈ m_list tl /\ bits_meet (MDL_BIT (get_type h t)) b = true.
Proof.
  intros Hok. rewrite bits_meet_spec. split.
  - intros (i & Hi & Ha & Hb). apply (tl_bit_iff h) in Ha as (t & Ht & <-); [|done..].
    exists t. rewrite bits_meet_MDL_BIT by eauto using tl_valid. done.
  - intros (t & Ht & Hb). pose proof (tl_valid h tl Hok t Ht) as Hv.
    rewrite bits_meet_MDL_BIT in Hb by done.
    exists (get_type h t). split; [exact (proj1 Hv)|]. split; [|done].
    apply (tl_bit_iff h); [done|exact (proj1 Hv)|eauto].
Qed.

Lemma type_index_inj a b : valid_type a -> valid_type b -> type_index a = type_index b -> a = b.
Proof. unfold valid_type, type_index. lia. Qed.

Lemma has_type_eq h type t : has_type h type t = true <-> get_type h t = type.
Proof. apply Z.eqb_eq. Qed.

Lemma tl_ok_ext h h' tl :
  (forall t, t ∈ m_list tl -> get_type h' t = get_type h t) -> tl_ok h tl -> tl_ok h' tl.
Proof.
  intros Hs Hok.
  assert (forall type, countb (has_type h' type) (m_list tl) =
                       countb (has_type h type) (m_list tl)) as Hc
    by (intros; apply countb_ext; intros; unfold has_type; by rewrite Hs).
  split; intros; rewrite ?Hc; [rewrite Hs by done|..]; by apply Hok.
Qed.

Lemma empty_tl_ok h : tl_ok h empty_Ticket_list.
Proof.
  split; [simpl; set_solver|constructor| |].
  - intros type Ht. unfold type_index, empty_Ticket_list, m_type_counters.
    apply lookup_replicate_2. unfold valid_type in Ht. lia.
  - intros. by rewrite Z.bits_0.
Qed.

Lemma add_ticket_ok h tl t :
  tl_ok h tl -> t ∉ m_list tl -> valid_type (get_type h t) ->
  Z.of_nat (length (m_list tl)) < U32_MAX ->
  tl_ok h (Ticket_list_add_ticket h tl t).
Proof.
  intros Hok Hnin Hv Hlen. split; simpl.
  - intros t'. rewrite elem_of_app, list_elem_of_singleton.
    intros [?| ->]; [by apply Hok|done].
  - apply NoDup_app. split_and!; [apply Hok|set_solver|apply NoDup_singleton].
  - intros type Ht. rewrite countb_app, countb_cons, countb_nil.
    pose proof (tl_counters h tl Hok type Ht) as Hc.
    pose proof (countb_le (has_type h type) (m_list tl)).
    pose proof (countb_nonneg (has_type h type) (m_list tl)).
    destruct (has_type h type t) eqn:E.
    + apply has_type_eq in E. rewrite E, list_lookup_alter_eq, Hc. simpl.
      rewrite u32_small by lia. f_equal; lia.
    + rewrite list_lookup_alter_ne, Hc; [f_equal; lia|].
      intros Hi. apply type_index_inj in Hi; [|done..].
      apply has_type_eq in Hi. congruence.
  - intros type Ht. rewrite countb_app, countb_cons, countb_nil.
    rewrite Z.lor_spec, (tl_bitmap h tl Hok), MDL_BIT_testbit by done.
    pose proof (countb_nonneg (has_type h type) (m_list tl)).
    rewrite (Z.eqb_sym type). change (get_type h t =? type) with (has_type h type t).
    destruct (has_type h type t); simpl; rewrite ?orb_true_r, ?orb_false_r.
    + symmetry. apply Z.ltb_lt. lia.
    + by rewrite Z.add_0_r.
Qed.

Lemma nth_counter h tl type :
  tl_ok h tl -> valid_type type ->
  nth (type_index type) (m_type_counters tl) 0 = countb (has_type h type) (m_list tl).
Proof.
  intros Hok Hv. pose proof (tl_counters h tl Hok type Hv) as Hc.
  rewrite nth_lookup, Hc. done.
Qed.

Lemma remove_ticket_ok h tl t :
  tl_ok h tl -> t ∈ m_list tl -> Z.of_nat (length (m_list tl)) <= U32_MAX ->
  tl_ok h (Ticket_list_remove_ticket h tl t).
Proof.
  intros Hok Hin Hlen.
  pose proof (tl_valid h tl Hok t Hin) as Hv.
  assert (0 < countb (has_type h (get_type h t)) (m_list tl)) as Hpos
    by (apply countb_pos; exists t; split; [done|by apply has_type_eq]).
  pose proof (countb_le (has_type h (get_type h t)) (m_list tl)).
  assert (Hcnt : forall type, countb (has_type h type) (remove_first t (m_list tl)) =
    countb (has_type h type) (m_list tl) - (if has_type h type t then 1 else 0))
    by (intros; by apply countb_remove_first).
  unfold Ticket_list_remove_ticket.
  rewrite nth_lookup, list_lookup_alter_eq, (tl_counters h tl Hok) by done. simpl.
  rewrite u32_small by lia.
  split; simpl.
  - intros t' Ht'. apply Hok. by eapply elem_of_remove_first.
  - apply NoDup_remove_first, Hok.
  - intros type Ht. rewrite Hcnt.
    pose proof (tl_counters h tl Hok type Ht) as Hc.
    destruct (has_type h type t) eqn:E.
    + apply has_type_eq in E. rewrite E, list_lookup_alter_eq, Hc. simpl. subst type.
      rewrite u32_small by lia. done.
    + rewrite list_lookup_alter_ne, Hc; [f_equal; lia|].
      intros Hi. apply type_index_inj in Hi; [|done..].
      apply has_type_eq in Hi. congruence.
  - intros type Ht. rewrite Hcnt.
    pose proof (tl_bitmap h tl Hok type Ht) as Hb.
    destruct (has_type h type t) eqn:E.
    + apply has_type_eq in E. subst type. case_match eqn:Hz.
      * rewrite Z.land_spec, Z.lnot_spec, MDL_BIT_testbit, Z.eqb_refl by done.
        rewrite andb_false_r. symmetry. apply Z.ltb_ge. bool_to_prop. lia.
      * rewrite Hb. bool_to_prop.
        rewrite (proj2 (Z.ltb_lt _ _)) by done. symmetry. apply Z.ltb_lt. lia.
    + rewrite Z.sub_0_r. case_match; [|done].
      rewrite Z.land_spec, Z.lnot_spec, MDL_BIT_testbit, Hb by done.
      unfold has_type in E. rewrite (Z.eqb_sym type), E. by rewrite andb_true_r.
Qed.

(** ** Granting *)

(** A ticket of another context that is granted and conflicts with [type]. *)
Definition granted_conflict (h : heap) (s : MDL_lock_strategy) (l : list ptr)
    (type : enum_mdl_type) (ctx : ctx_id) : Prop :=
  exists t, t ∈ l /\ get_ctx h t ≠ ctx /\
            is_incompatible_when_granted s (get_type h t) type = true.

(** A waiting ticket that takes precedence over a request for [type]. *)
Definition waiting_conflict (h : heap) (s : MDL_lock_strategy) (l : list ptr)
    (type : enum_mdl_type) : Prop :=
  exists t, t ∈ l /\ is_incompatible_when_waiting s (get_type h t) type = true.

Lemma can_grant_iff h lk s type ctx ignore :
  tl_ok h (m_granted lk) -> tl_ok h (m_waiting lk) ->
  can_grant_lock h lk s type ctx ignore = true <->
  (ignore = true \/ ~ waiting_conflict h s (m_list (m_waiting lk)) type) /\
  ~ granted_conflict h s (m_list (m_granted lk)) type ctx.
Proof.
  intros Hg Hw. unfold can_grant_lock.
  pose proof (tl_bitmap_meet h _ (bitmap_at (incompatible_waiting_types_bitmap s) type) Hw) as Bw.
  pose proof (tl_bitmap_meet h _ (bitmap_at (incompatible_granted_types_bitmap s) type) Hg) as Bg.
  assert (existsb (fun ticket => negb (Nat.eqb (get_ctx h ticket) ctx) &&
            is_incompatible_when_granted s (get_type h ticket) type) (m_list (m_granted lk)) = true
          <-> granted_conflict h s (m_list (m_granted lk)) type ctx) as He.
  { rewrite existsb_exists. unfold granted_conflict.
    setoid_rewrite andb_true_iff. setoid_rewrite negb_true_iff.
    setoid_rewrite Nat.eqb_neq. setoid_rewrite list_elem_of_In. done. }
  destruct (negb ignore && _) eqn:E1.
  { apply andb_true_iff in E1 as [Ei Eb]. apply negb_true_iff in Ei. subst ignore.
    split; [done|]. intros [[?|Hnw] _]; [done|]. exfalso. by apply Hnw, Bw. }
  assert (ignore = true \/ ~ waiting_conflict h s (m_list (m_waiting lk)) type) as Hprio.
  { destruct ignore; [by left|right]. intros Hwc. simpl in E1.
    rewrite (proj2 Bw Hwc) in E1. done. }
  destruct (bits_meet (m_bitmap (m_granted lk)) _) eqn:E2.
  - rewrite negb_true_iff, <- not_true_iff_false, He. tauto.
  - split; [intros _|done]. split; [done|].
    intros (t & Ht & _ & Hi). destruct Bg as [_ Bg]. discriminate Bg. eauto.
Qed.

(** ** Lanes *)

Definition lane_tickets (lanes : list Lane) : list ptr := concat (map lane_list lanes).

Lemma elem_of_lane_tickets lanes t :
  t ∈ lane_tickets lanes <-> exists i l, lanes !! i = Some l /\ t ∈ lane_list l.
Proof.
  unfold lane_tickets. rewrite list_elem_of_In, in_concat. split.
  - intros (x & Hx & Ht). apply in_map_iff in Hx as (l & <- & Hl).
    apply list_elem_of_In, list_elem_of_lookup in Hl as [i Hi].
    exists i, l. split; [done|]. by apply list_elem_of_In.
  - intros (i & l & Hi & Ht). exists (lane_list l). rewrite <- !list_elem_of_In.
    split; [|done]. apply list_elem_of_In, in_map, list_elem_of_In.
    by eapply list_elem_of_lookup_2.
Qed.

Record drained (h : heap) (granted : Ticket_list) (l : list ptr)
    (h' : heap) (granted' : Ticket_list) : Prop := {
  dr_ok : tl_ok h' granted';
  dr_list : m_list granted' = m_list granted ++ l;
  dr_types : same_types h h';
  dr_ctxs : same_ctxs h h';
  dr_lane t : fast_lane h' t = if decide (t ∈ l) then None else fast_lane h t;
}.

Lemma Lane_drain_spec l h granted h' granted' :
  tl_ok h granted -> NoDup (m_list granted ++ l) ->
  (forall t, t ∈ l -> valid_type (get_type h t)) ->
  Z.of_nat (length (m_list granted ++ l)) <= U32_MAX ->
  Lane_drain h granted l = (h', granted') ->
  drained h granted l h' granted'.
Proof.
  revert h granted. induction l as [|t l IH]; simpl; intros h granted Hok Hnd Hv Hlen E.
  { simplify_eq. split; rewrite ?app_nil_r; done. }
  set (h1 := alter (set_fast_lane None) t h) in *.
  assert (Ht1 : same_types h h1) by (intros ?; by apply get_type_alter).
  assert (Hc1 : same_ctxs h h1) by (intros ?; by apply get_ctx_alter).
  assert (Hvt : valid_type (get_type h t)) by (apply Hv; set_solver).
  rewrite cons_middle, app_assoc in Hnd. rewrite length_app in Hlen. simpl in Hlen.
  apply IH in E; simpl.
  - destruct E as [H1 H2 H3 H4 H5]. split.
    + done.
    + rewrite H2. simpl. by rewrite <- app_assoc.
    + intros t'. by rewrite H3, Ht1.
    + intros t'. by rewrite H4, Hc1.
    + intros t'. rewrite H5. unfold h1.
      rewrite fast_lane_set by by apply valid_type_alive.
      repeat case_decide; subst; set_solver.
  - apply tl_ok_ext with h; [intros; apply Ht1|].
    apply add_ticket_ok; [done| |done|lia].
    apply NoDup_app in Hnd as (Hnd & _). apply NoDup_app in Hnd as (_ & Hd & _).
    intros Hin. apply (Hd t); [done|set_solver].
  - done.
  - intros t' Ht'. rewrite Ht1. apply Hv. set_solver.
  - rewrite !length_app. simpl. lia.
Qed.

Definition closed_lane (l : Lane) : Lane := mk_lane [] (u32 (m_close_count l + 1)).

Lemma close_lanes_spec lanes h granted h' granted' lanes' :
  tl_ok h granted -> NoDup (m_list granted ++ lane_tickets lanes) ->
  (forall t, t ∈ lane_tickets lanes -> valid_type (get_type h t)) ->
  Z.of_nat (length (m_list granted ++ lane_tickets lanes)) <= U32_MAX ->
  close_lanes h granted lanes = (h', granted', lanes') ->
  drained h granted (lane_tickets lanes) h' granted' /\ lanes' = map closed_lane lanes.
Proof.
  revert h granted h' granted' lanes'.
  induction lanes as [|l lanes IH]; simpl; intros h granted h' granted' lanes' Hok Hnd Hv Hlen E.
  { simplify_eq. split; [|done]. split; rewrite ?app_nil_r; done. }
  change (lane_tickets (l :: lanes)) with (lane_list l ++ lane_tickets lanes) in *.
  unfold Lane_close in E.
  destruct (Lane_drain h granted (lane_list l)) as [h1 g1] eqn:E1.
  destruct (close_lanes h1 g1 lanes) as [[h2 g2] lanes2] eqn:E2. simplify_eq.
  rewrite app_assoc in Hnd, Hlen.
  apply Lane_drain_spec in E1 as [D1 D2 D3 D4 D5]; cycle 1.
  { done. } { by apply NoDup_app in Hnd as (? & _). } { intros; apply Hv; set_solver. }
  { rewrite length_app in Hlen. lia. }
  rewrite <- D2 in Hnd, Hlen.
  apply IH in E2 as [[F1 F2 F3 F4 F5] ->]; [|done..| |done]; cycle 1.
  { intros t Ht. rewrite D3. apply Hv. set_solver. }
  split; [|done]. split.
  - done.
  - by rewrite F2, D2, app_assoc.
  - intros t. by rewrite F3, D3.
  - intros t. by rewrite F4, D4.
  - intros t. rewrite F5, D5. repeat case_decide; set_solver.
Qed.

(** ** The lock invariant *)

Definition lock_tickets (lk : MDL_lock) : list ptr :=
  m_list (m_granted lk) ++ m_list (m_waiting lk) ++ lane_tickets (m_lanes (m_fast_road lk)).

(** 1 for a ticket whose type the lanes do not serve, 0 otherwise. *)
Definition slow (h : heap) (lk : MDL_lock) (t : ptr) : bool :=
  negb (supported_type (m_fast_road lk) (get_type h t)).

Definition slow1 (h : heap) (lk : MDL_lock) (t : ptr) : Z := if slow h lk t then 1 else 0.

Definition slow_count (h : heap) (lk : MDL_lock) : Z :=
  countb (slow h lk) (m_list (m_granted lk) ++ m_list (m_waiting lk)).

(** The invariant, with [d] closings of the lanes not (or no longer) accounted
    for by a registered ticket: [d] is 0 between operations. *)
Record lock_okd (d : Z) (h : heap) (lk : MDL_lock) (s : MDL_lock_strategy) : Prop := {
  lo_strategy : m_strategy lk = Some s;
  lo_fast : FastTypes s (m_supported_types (m_fast_road lk));
  lo_granted : tl_ok h (m_granted lk);
  lo_waiting : tl_ok h (m_waiting lk);
  lo_nodup : NoDup (lock_tickets lk);
  lo_room : Z.of_nat (length (lock_tickets lk)) <= U32_MAX;
  lo_lane i l t :
    m_lanes (m_fast_road lk) !! i = Some l -> t ∈ lane_list l ->
    valid_type (get_type h t) /\ supported_type (m_fast_road lk) (get_type h t) = true /\
    fast_lane h t = Some i;
  lo_off_lane t :
    t ∈ m_list (m_granted lk) ++ m_list (m_waiting lk) -> fast_lane h t = None;
  lo_close i l :
    m_lanes (m_fast_road lk) !! i = Some l -> m_close_count l = slow_count h lk + d;
  lo_closed i l :
    m_lanes (m_fast_road lk) !! i = Some l -> m_close_count l ≠ 0 -> lane_list l = [];
}.

Notation lock_ok := (lock_okd 0).

Lemma lock_okd_ext d h h' lk s :
  (forall t, t ∈ lock_tickets lk ->
     get_type h' t = get_type h t /\ fast_lane h' t = fast_lane h t) ->
  lock_okd d h lk s -> lock_okd d h' lk s.
Proof.
  unfold lock_tickets. intros He Hok.
  assert (slow_count h' lk = slow_count h lk) as Hsc.
  { apply countb_ext. intros t Ht. unfold slow.
    rewrite (proj1 (He t ltac:(set_solver))). done. }
  destruct Hok as [? ? Hg Hw ? ? Hl Ho Hc ?]. split; try done.
  - eapply tl_ok_ext; [|exact Hg]. intros. apply He. set_solver.
  - eapply tl_ok_ext; [|exact Hw]. intros. apply He. set_solver.
  - intros i l t Hi Ht. assert (t ∈ lane_tickets (m_lanes (m_fast_road lk)))
      by (apply elem_of_lane_tickets; eauto).
    destruct (He t) as [-> ->]; [set_solver|eauto].
  - intros t Ht. rewrite (proj2 (He t ltac:(set_solver))). auto.
  - intros. rewrite Hsc. eauto.
Qed.

(** Adding a ticket to, or removing it from, one of the two lists. *)

Lemma list_lt_room lk q :
  (length (m_list (get_list lk q)) <= length (lock_tickets lk))%nat.
Proof. unfold lock_tickets. destruct q; simpl; rewrite !length_app; lia. Qed.

Lemma slow_count_bound h lk : 0 <= slow_count h lk <= Z.of_nat (length (lock_tickets lk)).
Proof.
  unfold slow_count. split; [apply countb_nonneg|].
  etransitivity; [apply countb_le|]. unfold lock_tickets. rewrite !length_app. lia.
Qed.

Lemma lock_tickets_add h lk q t :
  lock_tickets (set_list lk q (Ticket_list_add_ticket h (get_list lk q) t))
  ≡ₚ t :: lock_tickets lk.
Proof.
  unfold lock_tickets. destruct q; simpl; rewrite <- !app_assoc; simpl; solve_Permutation.
Qed.

Lemma add_ticket_okd d h lk s q t :
  lock_okd (d + slow1 h lk t) h lk s ->
  t ∉ lock_tickets lk -> valid_type (get_type h t) -> fast_lane h t = None ->
  Z.of_nat (length (lock_tickets lk)) < U32_MAX ->
  lock_okd d h (set_list lk q (Ticket_list_add_ticket h (get_list lk q) t)) s.
Proof.
  intros Hok Hnin Hv Hfl Hroom. pose proof (list_lt_room lk q) as Hlq.
  pose proof (lock_tickets_add h lk q t) as Hp.
  destruct Hok as [Hs Hf Hg Hw Hnd Hr Hl Ho Hc Hcl].
  assert (tl_ok h (Ticket_list_add_ticket h (get_list lk q) t)) as Hadd.
  { unfold lock_tickets in Hnin.
    apply add_ticket_ok; [by destruct q|destruct q; simpl; set_solver|done|lia]. }
  split; try (destruct q; done).
  - rewrite Hp. by constructor.
  - rewrite (Permutation_length Hp). simpl. lia.
  - intros t' Ht'. destruct (decide (t' = t)) as [->|]; [done|].
    apply Ho. destruct q; simpl in Ht'; set_solver.
  - intros i l Hi. replace (m_close_count l) with (slow_count h lk + (d + slow1 h lk t))
      by (symmetry; apply (Hc i); by destruct q).
    unfold slow_count, slow1.
    destruct q; simpl; rewrite !countb_app, countb_cons, countb_nil; unfold slow; simpl; lia.
Qed.

Lemma lock_tickets_remove h lk q t :
  t ∈ m_list (get_list lk q) ->
  lock_tickets lk ≡ₚ
  t :: lock_tickets (set_list lk q (Ticket_list_remove_ticket h (get_list lk q) t)).
Proof.
  intros Hin. unfold lock_tickets.
  destruct q; simpl in *; rewrite (remove_first_perm t _ Hin) at 1; simpl; solve_Permutation.
Qed.

Lemma remove_ticket_okd d h lk s q t :
  lock_okd d h lk s -> t ∈ m_list (get_list lk q) ->
  lock_okd (d + slow1 h lk t) h
    (set_list lk q (Ticket_list_remove_ticket h (get_list lk q) t)) s.
Proof.
  intros Hok Hin. pose proof (list_lt_room lk q) as Hlq.
  pose proof (lock_tickets_remove h lk q t Hin) as Hp.
  destruct Hok as [Hs Hf Hg Hw Hnd Hr Hl Ho Hc Hcl].
  assert (tl_ok h (Ticket_list_remove_ticket h (get_list lk q) t)) as Hrem
    by (apply remove_ticket_ok; [by destruct q|done|lia]).
  rewrite Hp in Hnd. rewrite (Permutation_length Hp) in Hr. simpl in Hr.
  split; try (destruct q; done).
  - by apply NoDup_cons in Hnd as [_ ?].
  - lia.
  - intros t' Ht'. apply Ho.
    destruct q; simpl in *; rewrite elem_of_app in *; naive_solver eauto using elem_of_remove_first.
  - intros i l Hi. replace (m_close_count l) with (slow_count h lk + d)
      by (symmetry; apply (Hc i); by destruct q).
    unfold slow_count, slow1.
    destruct q; simpl in *; rewrite !countb_app, countb_remove_first by done;
      unfold slow; simpl; lia.
Qed.

Lemma removed_not_in h lk q t :
  NoDup (lock_tickets lk) -> t ∈ m_list (get_list lk q) ->
  t ∉ lock_tickets (set_list lk q (Ticket_list_remove_ticket h (get_list lk q) t)).
Proof.
  intros Hnd Hin. rewrite (lock_tickets_remove h lk q t Hin) in Hnd.
  by apply NoDup_cons in Hnd as [? _].
Qed.

(** ** Lanes and the invariant *)

Lemma reopen_okd h lk s t :
  lock_okd (slow1 h lk t) h lk s ->
  lock_ok h (set_road lk (Fast_road_reopen (m_fast_road lk) (get_type h t))) s.
Proof.
  intros Hok. pose proof (slow_count_bound h lk) as Hb.
  unfold slow1, slow in Hok. unfold Fast_road_reopen.
  destruct (supported_type (m_fast_road lk) (get_type h t)); simpl in Hok.
  { destruct lk as [? ? ? ? [] ?]. exact Hok. }
  destruct Hok as [Hs Hf Hg Hw Hnd Hr Hl Ho Hc Hcl].
  assert (lane_tickets (map Lane_reopen (m_lanes (m_fast_road lk))) =
          lane_tickets (m_lanes (m_fast_road lk))) as Hlt
    by (unfold lane_tickets; by rewrite map_map).
  split; simpl; unfold lock_tickets in *; simpl; rewrite ?Hlt; try done.
  - intros i l t' Hi. rewrite list_lookup_fmap in Hi.
    destruct (m_lanes (m_fast_road lk) !! i) as [l0|] eqn:E; simplify_eq/=. by apply Hl.
  - intros i l Hi. rewrite list_lookup_fmap in Hi.
    destruct (m_lanes (m_fast_road lk) !! i) as [l0|] eqn:E; simplify_eq/=.
    rewrite (Hc i l0 E), u32_small by lia.
    change (slow_count h (set_road lk _)) with (slow_count h lk). lia.
  - intros i l Hi Hne. rewrite list_lookup_fmap in Hi.
    destruct (m_lanes (m_fast_road lk) !! i) as [l0|] eqn:E; simplify_eq/=.
    apply (Hcl i l0 E). rewrite (Hc i l0 E).
    pose proof (slow_count_bound h lk). lia.
Qed.

Lemma NoDup_lanes lk : NoDup (lock_tickets lk) ->
  NoDup (m_list (m_granted lk) ++ lane_tickets (m_lanes (m_fast_road lk))).
Proof.
  intros Hnd. eapply sublist_NoDup; [exact Hnd|]. unfold lock_tickets.
  apply sublist_app; [done|]. by apply sublist_inserts_l.
Qed.

Lemma lane_tickets_closed lanes : lane_tickets (map closed_lane lanes) = [].
Proof. induction lanes; simpl; done. Qed.

(** What [Fast_road::close] does to a lock in a good state. *)
Record closing (type : enum_mdl_type) (h : heap) (lk : MDL_lock) (s : MDL_lock_strategy)
    (h' : heap) (lk' : MDL_lock) : Prop := {
  cl_ok : lock_okd (if supported_type (m_fast_road lk) type then 0 else 1) h' lk' s;
  cl_types : same_types h h';
  cl_ctxs : same_ctxs h h';
  cl_tickets : lock_tickets lk' ≡ₚ lock_tickets lk;
  cl_lane t : t ∉ lock_tickets lk -> fast_lane h' t = fast_lane h t;
  cl_waiting : m_waiting lk' = m_waiting lk;
  cl_supported : m_supported_types (m_fast_road lk') = m_supported_types (m_fast_road lk);
  (** with the lanes closed, every granted ticket is in m_granted *)
  cl_granted :
    supported_type (m_fast_road lk) type = false ->
    m_list (m_granted lk') =
      m_list (m_granted lk) ++ lane_tickets (m_lanes (m_fast_road lk)) /\
    lane_tickets (m_lanes (m_fast_road lk')) = [];
}.

Lemma close_okd h lk s type h' granted' fr' :
  lock_ok h lk s -> Z.of_nat (length (lock_tickets lk)) < U32_MAX ->
  Fast_road_close h (m_granted lk) (m_fast_road lk) type = (h', granted', fr') ->
  closing type h lk s h' (set_road (set_list lk queue_granted granted') fr').
Proof.
  intros Hok Hroom. unfold Fast_road_close.
  destruct (supported_type (m_fast_road lk) type) eqn:Hsup.
  { intros [= <- <- <-]. destruct lk as [? ? ? ? [] ?].
    split; rewrite ?Hsup; simpl; done. }
  destruct (close_lanes _ _ _) as [[h2 g2] lanes2] eqn:E. intros [= <- <- <-].
  pose proof (slow_count_bound h lk) as Hb.
  pose proof Hok as [Hs Hf Hg Hw Hnd Hr Hl Ho Hc Hcl].
  apply close_lanes_spec in E as [[D1 D2 D3 D4 D5] ->]; cycle 1.
  { done. } { by apply NoDup_lanes. }
  { intros t (i & l & Hi & Ht)%elem_of_lane_tickets. by apply (Hl i l). }
  { unfold lock_tickets in Hr. rewrite !length_app in *. lia. }
  set (lk' := set_road _ _).
  assert (lock_tickets lk' ≡ₚ lock_tickets lk) as Hp.
  { unfold lock_tickets. simpl. rewrite D2, lane_tickets_closed, app_nil_r.
    rewrite <- app_assoc. f_equiv. apply Permutation_app_comm. }
  assert (slow_count h2 lk' = slow_count h lk) as Hsc.
  { unfold slow_count. simpl. rewrite D2, !countb_app.
    rewrite (countb_ext (slow h2 lk') (slow h lk)) by (intros; unfold slow; by rewrite D3).
    rewrite (countb_ext (slow h2 lk') (slow h lk)) by (intros; unfold slow; by rewrite D3).
    rewrite (countb_ext (slow h2 lk') (slow h lk)) by (intros; unfold slow; by rewrite D3).
    replace (countb (slow h lk) (lane_tickets _)) with 0; [lia|].
    symmetry. apply countb_zero. intros t (i & l & Hi & Ht)%elem_of_lane_tickets.
    unfold slow. destruct (Hl i l t Hi Ht) as (_ & -> & _). done. }
  split; rewrite ?Hsup; try done.
  - split; simpl; try done.
    + eapply tl_ok_ext; [|exact Hw]. auto.
    + by rewrite Hp.
    + rewrite (Permutation_length Hp). done.
    + intros i l t Hi. rewrite list_lookup_fmap in Hi.
      destruct (m_lanes (m_fast_road lk) !! i) eqn:E; simplify_eq/=. set_solver.
    + intros t Ht. rewrite D2 in Ht. rewrite D5. case_decide; [done|].
      apply Ho. set_solver.
    + intros i l Hi. rewrite list_lookup_fmap in Hi.
      destruct (m_lanes (m_fast_road lk) !! i) as [l0|] eqn:E; simplify_eq/=.
      rewrite (Hc i l0 E), Hsc, u32_small by lia. lia.
    + intros i l Hi. rewrite list_lookup_fmap in Hi.
      destruct (m_lanes (m_fast_road lk) !! i) as [l0|] eqn:E; simplify_eq/=. done.
  - intros t Ht. rewrite D5. case_decide; [|done].
    unfold lock_tickets in Ht. set_solver.
  - intros _. split; [done|]. apply lane_tickets_closed.
Qed.

(** Replacing one lane. *)
Lemma lane_tickets_insert lanes i l l' :
  lanes !! i = Some l ->
  exists r, lane_tickets lanes ≡ₚ lane_list l ++ r /\
            lane_tickets (<[i := l']> lanes) ≡ₚ lane_list l' ++ r.
Proof.
  intros Hi. exists (lane_tickets (take i lanes) ++ lane_tickets (drop (S i) lanes)).
  unfold lane_tickets. split.
  - rewrite <- (take_drop_middle lanes i l Hi) at 1.
    rewrite map_app, concat_app. simpl. solve_Permutation.
  - rewrite insert_take_drop by (eapply lookup_lt_Some; eauto).
    rewrite map_app, concat_app. simpl. solve_Permutation.
Qed.

Definition put_lane (lk : MDL_lock) (i : nat) (l : Lane) : MDL_lock :=
  set_road lk (mk_road (<[i := l]> (m_lanes (m_fast_road lk)))
                       (m_supported_types (m_fast_road lk))).

(** Is lane number [j] of the updated road the new one or an old one? *)
Ltac lane_cases Hj :=
  match type of Hj with
  | <[?i := _]> _ !! ?j = Some _ =>
      destruct (decide (i = j)) as [<-|];
      [rewrite list_lookup_insert_eq in Hj by (eapply lookup_lt_Some; eauto); simplify_eq/=
      |rewrite list_lookup_insert_ne in Hj by done]
  end.

Lemma lane_acquire_ok h lk s t i l :
  lock_ok h lk s ->
  m_lanes (m_fast_road lk) !! i = Some l -> m_close_count l = 0 ->
  t ∉ lock_tickets lk -> valid_type (get_type h t) ->
  supported_type (m_fast_road lk) (get_type h t) = true ->
  Z.of_nat (length (lock_tickets lk)) < U32_MAX ->
  lock_ok (alter (set_fast_lane (Some i)) t h)
    (put_lane lk i (mk_lane (lane_list l ++ [t]) (m_close_count l))) s.
Proof.
  intros Hok Hi Hop Hnin Hv Hsup Hroom.
  set (h' := alter _ t h). set (l' := mk_lane _ _).
  assert (Hext : lock_ok h' lk s).
  { eapply lock_okd_ext; [|exact Hok]. intros t' Ht'. split; [by apply get_type_alter|].
    apply fast_lane_set_ne. set_solver. }
  assert (Hty : forall t', get_type h' t' = get_type h t') by (intros; by apply get_type_alter).
  assert (Hfl : fast_lane h' t = Some i).
  { unfold h'. rewrite fast_lane_set by by apply valid_type_alive. by case_decide. }
  destruct (lane_tickets_insert _ i l l' Hi) as (r & Hr1 & Hr2).
  assert (lock_tickets (put_lane lk i l') ≡ₚ t :: lock_tickets lk) as Hp.
  { unfold lock_tickets. simpl. rewrite Hr1, Hr2. unfold l'. simpl. solve_Permutation. }
  destruct Hext as [Hs Hf Hg Hw Hnd Hr Hl Ho Hc Hcl].
  split; try done; simpl.
  - rewrite Hp. by constructor.
  - rewrite (Permutation_length Hp). simpl. lia.
  - intros j lj t' Hj Ht'. lane_cases Hj.
    + apply elem_of_app in Ht' as [?|?%list_elem_of_singleton]; [eauto|].
      subst t'. rewrite Hty. done.
    + eauto.
  - intros j lj Hj. change (slow_count h' (put_lane lk i l')) with (slow_count h' lk).
    lane_cases Hj; eauto.
  - intros j lj Hj Hne0. lane_cases Hj; eauto.
Qed.

Lemma lane_release_ok h lk s t i l :
  lock_ok h lk s ->
  m_lanes (m_fast_road lk) !! i = Some l -> t ∈ lane_list l ->
  lock_ok h (put_lane lk i (mk_lane (remove_first t (lane_list l)) (m_close_count l))) s /\
  lock_tickets lk ≡ₚ
  t :: lock_tickets (put_lane lk i (mk_lane (remove_first t (lane_list l)) (m_close_count l))).
Proof.
  intros Hok Hi Hin. set (l' := mk_lane _ _).
  destruct (lane_tickets_insert _ i l l' Hi) as (r & Hr1 & Hr2).
  assert (lock_tickets lk ≡ₚ t :: lock_tickets (put_lane lk i l')) as Hp.
  { unfold lock_tickets. simpl. rewrite Hr1, Hr2. unfold l'. simpl.
    rewrite (remove_first_perm t (lane_list l) Hin) at 1. solve_Permutation. }
  split; [|done].
  destruct Hok as [Hs Hf Hg Hw Hnd Hr Hl Ho Hc Hcl].
  rewrite Hp in Hnd. apply NoDup_cons in Hnd as [_ Hnd].
  rewrite (Permutation_length Hp) in Hr. simpl in Hr.
  split; try done; simpl.
  - lia.
  - intros j lj t' Hj Ht'. lane_cases Hj; eauto using elem_of_remove_first.
  - intros j lj Hj. change (slow_count h (put_lane lk i l')) with (slow_count h lk).
    lane_cases Hj; eauto.
  - intros j lj Hj Hne0. lane_cases Hj.
    + by rewrite (Hcl i l Hi Hne0) in Hin; apply elem_of_nil in Hin.
    + eauto.
Qed.

Lemma set_type_ok h lk s t i l type :
  lock_ok h lk s ->
  m_lanes (m_fast_road lk) !! i = Some l -> t ∈ lane_list l ->
  valid_type type -> supported_type (m_fast_road lk) type = true ->
  lock_ok (alter (set_type type) t h) lk s.
Proof.
  intros [Hs Hf Hg Hw Hnd Hr Hl Ho Hc Hcl] Hi Hin Hv Hsup.
  set (h' := alter _ t h).
  assert (Hne : forall t', t' ∈ m_list (m_granted lk) ++ m_list (m_waiting lk) -> t ≠ t').
  { intros t' Ht' <-. unfold lock_tickets in Hnd. rewrite app_assoc in Hnd.
    apply NoDup_app in Hnd as (_ & Hd & _). apply (Hd t Ht').
    apply elem_of_lane_tickets. eauto. }
  assert (Hfl : forall t', fast_lane h' t' = fast_lane h t')
    by (intros; by apply fast_lane_alter).
  assert (Hty : forall t', get_type h' t' = if decide (t = t') then type else get_type h t')
    by (intros; apply get_type_set_type, valid_type_alive; by eapply (Hl i l)).
  assert (Hold : forall t', t' ∈ m_list (m_granted lk) ++ m_list (m_waiting lk) ->
                 get_type h' t' = get_type h t')
    by (intros t' Ht'; apply get_type_set_type_ne; auto).
  assert (slow_count h' lk = slow_count h lk) as Hsc
    by (apply countb_ext; intros t' Ht'; unfold slow; by rewrite Hold).
  split; try done.
  - eapply tl_ok_ext; [|exact Hg]. intros. apply Hold. set_solver.
  - eapply tl_ok_ext; [|exact Hw]. intros. apply Hold. set_solver.
  - intros j lj t' Hj Ht'. rewrite Hfl, Hty. case_decide; [subst t'|by eauto].
    split_and!; [done..|]. by eapply (Hl j lj).
  - intros t' Ht'. rewrite Hfl. auto.
  - intros. rewrite Hsc. eauto.
Qed.

(** ** Rescheduling *)

Lemma set_hog_okd d h lk s n : lock_okd d h lk s -> lock_okd d h (set_hog lk n) s.
Proof. intros []. split; done. Qed.

Lemma move_okd d h lk s t :
  lock_okd d h lk s -> t ∈ m_list (m_waiting lk) ->
  let lk1 := set_list lk queue_waiting (Ticket_list_remove_ticket h (m_waiting lk) t) in
  lock_okd d h (set_list lk1 queue_granted (Ticket_list_add_ticket h (m_granted lk1) t)) s.
Proof.
  intros Hok Hin lk1.
  pose proof (remove_ticket_okd d h lk s queue_waiting t Hok Hin) as Hok1.
  pose proof (lock_tickets_remove h lk queue_waiting t Hin) as Hp.
  apply (add_ticket_okd d h lk1 s queue_granted t).
  - exact Hok1.
  - apply removed_not_in; [apply Hok|done].
  - exact (tl_valid h _ (lo_waiting d h lk s Hok) t Hin).
  - eapply (lo_off_lane d h lk s Hok). set_solver.
  - pose proof (lo_room d h lk s Hok) as Hr.
    rewrite (Permutation_length Hp) in Hr.
    change (Z.of_nat (S (length (lock_tickets lk1))) <= U32_MAX) in Hr. lia.
Qed.

Lemma reschedule_step_okd d h lk s skip it w lk' w' :
  lock_okd d h lk s -> it ∈ m_list (m_waiting lk) ->
  reschedule_step s skip h it lk w = (lk', w') -> lock_okd d h lk' s.
Proof.
  intros Hok Hin. unfold reschedule_step, set_status.
  repeat case_match; intros; simplify_eq; try done;
    [apply set_hog_okd|]; by apply move_okd.
Qed.

(** A step removes at most the ticket it looks at from the waiting list. *)
Lemma reschedule_step_waiting s skip h it lk w lk' w' t :
  reschedule_step s skip h it lk w = (lk', w') ->
  t ≠ it -> t ∈ m_list (m_waiting lk) -> NoDup (m_list (m_waiting lk)) ->
  t ∈ m_list (m_waiting lk').
Proof.
  unfold reschedule_step, set_status. intros E Hne Hin Hnd.
  repeat case_match; simplify_eq; simpl; try done;
    apply elem_of_remove_first_iff; auto.
Qed.

Lemma reschedule_loop_okd d h s skip its lk w lk' w' :
  lock_okd d h lk s -> NoDup its -> (forall t, t ∈ its -> t ∈ m_list (m_waiting lk)) ->
  reschedule_loop s skip h its lk w = (lk', w') -> lock_okd d h lk' s.
Proof.
  revert lk w. induction its as [|it its IH]; simpl; intros lk w Hok Hnd Hin E;
    [by simplify_eq|].
  destruct (reschedule_step s skip h it lk w) as [lk1 w1] eqn:E1.
  apply NoDup_cons in Hnd as [Hnin Hnd].
  eapply (IH lk1 w1); [|done| |done].
  - eapply reschedule_step_okd; [done| |done]. apply Hin. set_solver.
  - intros t Ht. eapply reschedule_step_waiting; [done|set_solver|apply Hin; set_solver|].
    apply Hok.
Qed.

Lemma reschedule_waiters_okd d h lk s max w lk' w' :
  lock_okd d h lk s -> reschedule_waiters max h lk s w = (lk', w') -> lock_okd d h lk' s.
Proof.
  unfold reschedule_waiters. intros Hok E.
  destruct (reschedule_loop _ _ _ _ _ _) as [lk1 w1] eqn:E1.
  assert (lock_okd d h lk1 s) as Hok1.
  { eapply reschedule_loop_okd; [done| | |done]; [apply Hok|done]. }
  case_match; simplify_eq; [done|]. by apply set_hog_okd.
Qed.

(** ** Changing the type of a granted ticket *)

Lemma alter_ext_okd d h lk s f t :
  t ∉ lock_tickets lk -> lock_okd d h lk s -> lock_okd d (alter f t h) lk s.
Proof.
  intros Hnin. apply lock_okd_ext. intros t' Ht'.
  assert (t ≠ t') by set_solver.
  unfold get_type, fast_lane. by rewrite !lookup_alter_ne.
Qed.

Lemma requeue_okd d h lk s w t type :
  lock_okd d h lk s -> t ∈ m_list (m_granted lk) -> valid_type type ->
  supported_type (m_fast_road lk) type = supported_type (m_fast_road lk) (get_type h t) ->
  lock_okd d (alter (set_type type) t h) (w_lock (requeue (mk_world h lk w) t type)) s.
Proof.
  intros Hok Hin Hv Hsup. unfold requeue. simpl.
  set (lk1 := set_lists lk (Ticket_list_remove_ticket _ _ _) _). set (h' := alter _ _ _).
  pose proof (remove_ticket_okd d h lk s queue_granted t Hok Hin) as Hok1.
  pose proof (removed_not_in h lk queue_granted t (lo_nodup _ _ _ _ Hok) Hin) as Hnin.
  pose proof (lock_tickets_remove h lk queue_granted t Hin) as Hp.
  pose proof (lo_room _ _ _ _ Hok) as Hr. rewrite (Permutation_length Hp) in Hr.
  change (Z.of_nat (S (length (lock_tickets lk1))) <= U32_MAX) in Hr.
  assert (get_type h' t = type) as Hty.
  { unfold h'. rewrite get_type_set_type; [by case_decide|].
    eapply valid_type_alive, tl_valid; [apply Hok|done]. }
  apply (add_ticket_okd d h' lk1 s queue_granted t).
  - replace (slow1 h' lk1 t) with (slow1 h lk t).
    + by apply alter_ext_okd.
    + unfold slow1, slow. rewrite Hty. simpl. by rewrite Hsup.
  - done.
  - by rewrite Hty.
  - unfold h'. rewrite fast_lane_alter by done. apply (lo_off_lane _ _ _ _ Hok). set_solver.
  - lia.
Qed.

(** ** Shape

    No operation changes the key of a lock or the number of its lanes; locks
    outside the BACKUP namespace have none. *)
Record lock_shape (mdl_instances : Z) (lk : MDL_lock) : Prop := {
  ls_lanes : m_lanes (m_fast_road lk) = [] \/
    1 < mdl_instances /\ length (m_lanes (m_fast_road lk)) = Z.to_nat mdl_instances;
  ls_backup : mdl_namespace (key lk) ≠ namespace_code BACKUP -> m_lanes (m_fast_road lk) = [];
}.

Definition road_shape (fr : Fast_road) : nat * mdl_bitmap_t := (length (m_lanes fr), m_supported_types fr).

Definition same_shape (lk lk' : MDL_lock) : Prop :=
  key lk' = key lk /\ road_shape (m_fast_road lk') = road_shape (m_fast_road lk).

#[export] Instance same_shape_preorder : PreOrder same_shape.
Proof. split; unfold same_shape; [done|]. intros ??? [] []. split; congruence. Qed.

Lemma lock_shape_same n lk lk' : same_shape lk lk' -> lock_shape n lk -> lock_shape n lk'.
Proof.
  intros [Hk [= Hl _]] [H1 H2]. split; rewrite ?Hk, ?Hl.
  - destruct H1 as [E|H1]; [left|by right]. rewrite E in Hl. by apply nil_length_inv.
  - intros Hn. rewrite (H2 Hn) in Hl. by apply nil_length_inv.
Qed.

Lemma close_lanes_length h granted lanes h' granted' lanes' :
  close_lanes h granted lanes = (h', granted', lanes') -> length lanes' = length lanes.
Proof.
  revert h granted h' granted' lanes'. induction lanes as [|l lanes IH]; simpl; intros;
    [by simplify_eq|]. repeat case_match; simplify_eq/=. f_equal. eauto.
Qed.

Lemma Fast_road_close_shape h granted lk type h' granted' fr' :
  Fast_road_close h granted (m_fast_road lk) type = (h', granted', fr') ->
  road_shape fr' = road_shape (m_fast_road lk).
Proof.
  unfold Fast_road_close, road_shape. repeat case_match; intros; simplify_eq/=; [done|].
  f_equal. eauto using close_lanes_length.
Qed.

Lemma Fast_road_reopen_shape fr type :
  road_shape (Fast_road_reopen fr type) = road_shape fr.
Proof. unfold Fast_road_reopen, road_shape. case_match; simpl; rewrite ?length_map; done. Qed.

(** Rescheduling does not touch the lanes. *)
Lemma reschedule_step_road s skip h it lk w lk' w' :
  reschedule_step s skip h it lk w = (lk', w') ->
  key lk' = key lk /\ m_fast_road lk' = m_fast_road lk.
Proof. unfold reschedule_step, set_status. repeat case_match; intros; by simplify_eq. Qed.

Lemma reschedule_loop_road s skip h its lk w lk' w' :
  reschedule_loop s skip h its lk w = (lk', w') ->
  key lk' = key lk /\ m_fast_road lk' = m_fast_road lk.
Proof.
  revert lk w. induction its as [|it its IH]; simpl; intros lk w E; [by simplify_eq|].
  destruct (reschedule_step s skip h it lk w) as [lk2 w2] eqn:E2.
  apply reschedule_step_road in E2 as [<- <-]. eauto.
Qed.

Lemma reschedule_waiters_road max h lk s w lk' w' :
  reschedule_waiters max h lk s w = (lk', w') ->
  key lk' = key lk /\ m_fast_road lk' = m_fast_road lk.
Proof.
  unfold reschedule_waiters. intros E.
  destruct (reschedule_loop _ _ _ _ _ _) as [lk1 w1] eqn:E1.
  apply reschedule_loop_road in E1. case_match; by simplify_eq.
Qed.
