(* ===== verification/MdlLockOps.v ===== *)
(** * What the operations of the metadata lock do

    A lock is seen as two lists, the granted tickets (those in m_granted and those
    in a fast lane) and the waiting ones.  For every operation of [MDL_lock]: the
    invariant of MdlLockInv is preserved, and the effect on the two lists is the
    one a lock without bitmaps, counters and fast lanes would have. *)

From S2P Require Import Prelude MdlTypes MdlKey MdlLock MdlLockInv.

Definition granted_tickets (lk : MDL_lock) : list ptr :=
  m_list (m_granted lk) ++ lane_tickets (m_lanes (m_fast_road lk)).

Lemma granted_in_lock lk t : t ∈ granted_tickets lk -> t ∈ lock_tickets lk.
Proof. unfold granted_tickets, lock_tickets. set_solver. Qed.

Lemma waiting_in_lock lk t : t ∈ m_list (m_waiting lk) -> t ∈ lock_tickets lk.
Proof. unfold lock_tickets. set_solver. Qed.

#[export] Hint Resolve granted_in_lock waiting_in_lock : mdb.

Lemma lock_ticket_valid d h lk s t :
  lock_okd d h lk s -> t ∈ lock_tickets lk -> valid_type (get_type h t).
Proof.
  intros Hok. unfold lock_tickets. rewrite !elem_of_app.
  intros [Ht|[Ht|(i & l & Hi & Ht)%elem_of_lane_tickets]].
  - by eapply tl_valid; [eapply lo_granted|].
  - by eapply tl_valid; [eapply lo_waiting|].
  - by eapply (lo_lane _ _ _ _ Hok i l).
Qed.

(** A ticket no lock knows of yet. *)
Record fresh (h : heap) (lk : MDL_lock) (t : ptr) : Prop := {
  fr_nin : t ∉ lock_tickets lk;
  fr_valid : valid_type (get_type h t);
  fr_lane : fast_lane h t = None;
}.

Definition room (lk : MDL_lock) : Prop := Z.of_nat (length (lock_tickets lk)) < U32_MAX.

(** ** The lanes do not hide a conflict *)

Lemma lanes_quiet d h lk s :
  lock_okd d h lk s -> slow_count h lk + d ≠ 0 -> lane_tickets (m_lanes (m_fast_road lk)) = [].
Proof.
  intros Hok Hne. destruct (lane_tickets _) as [|t l] eqn:E; [done|].
  assert (t ∈ lane_tickets (m_lanes (m_fast_road lk))) as Ht by (rewrite E; set_solver).
  apply elem_of_lane_tickets in Ht as (i & la & Hi & Ht).
  rewrite (lo_closed _ _ _ _ Hok i la Hi) in Ht; [set_solver|].
  by rewrite (lo_close _ _ _ _ Hok i la Hi).
Qed.

Lemma slow_ticket_count h lk t :
  t ∈ m_list (m_granted lk) ++ m_list (m_waiting lk) ->
  supported_type (m_fast_road lk) (get_type h t) = false -> 0 < slow_count h lk.
Proof.
  intros Hin Hs. apply countb_pos. exists t. split; [done|]. unfold slow. by rewrite Hs.
Qed.

(** A type that may be asked for while tickets are in the lanes. *)
Definition lanes_allow (d : Z) (h : heap) (lk : MDL_lock) (type : enum_mdl_type) : Prop :=
  supported_type (m_fast_road lk) type = true \/ slow_count h lk + d ≠ 0.

Lemma lanes_no_conflict d h lk s type t :
  lock_okd d h lk s -> valid_type type -> lanes_allow d h lk type ->
  t ∈ lane_tickets (m_lanes (m_fast_road lk)) ->
  is_incompatible_when_granted s (get_type h t) type = false.
Proof.
  intros Hok Hv [Hs|Hc] Ht.
  - apply elem_of_lane_tickets in Ht as (i & l & Hi & Ht).
    destruct (lo_lane _ _ _ _ Hok i l t Hi Ht) as (Hvt & Hst & _).
    by apply (@fast_granted _ _ (lo_fast _ _ _ _ Hok)).
  - rewrite (lanes_quiet _ _ _ _ Hok Hc) in Ht. set_solver.
Qed.

Lemma can_grant_lock_iff d h lk s type ctx ignore :
  lock_okd d h lk s -> valid_type type -> lanes_allow d h lk type ->
  can_grant_lock h lk s type ctx ignore = true <->
  (ignore = true \/ ~ waiting_conflict h s (m_list (m_waiting lk)) type) /\
  ~ granted_conflict h s (granted_tickets lk) type ctx.
Proof.
  intros Hok Hv Ha.
  rewrite (can_grant_iff h lk s) by (eapply lo_granted || eapply lo_waiting; eauto).
  assert (granted_conflict h s (granted_tickets lk) type ctx <->
          granted_conflict h s (m_list (m_granted lk)) type ctx) as ->; [|done].
  unfold granted_conflict, granted_tickets. split; intros (t & Ht & Hc & Hi).
  - apply elem_of_app in Ht as [Ht|Ht]; [eauto|].
    by rewrite (lanes_no_conflict _ _ _ _ _ _ Hok Hv Ha Ht) in Hi.
  - exists t. set_solver.
Qed.

Lemma waiting_lanes_allow d h lk s t :
  lock_okd d h lk s -> 0 <= d -> t ∈ m_list (m_waiting lk) -> lanes_allow d h lk (get_type h t).
Proof.
  intros Hok Hd Ht. destruct (supported_type (m_fast_road lk) (get_type h t)) eqn:E;
    [by left|right].
  pose proof (slow_ticket_count h lk t ltac:(set_solver) E). lia.
Qed.

(** ** Acquiring *)

(** The effect of a request on the two lists, by its result. *)
Inductive acquire_outcome (h : heap) (lk : MDL_lock) (s : MDL_lock_strategy) (t : ptr)
    (wait : bool) (lk' : MDL_lock) : tal_status -> Prop :=
| ao_acquired :
    ~ waiting_conflict h s (m_list (m_waiting lk)) (get_type h t) ->
    ~ granted_conflict h s (granted_tickets lk) (get_type h t) (get_ctx h t) ->
    granted_tickets lk' ≡ₚ t :: granted_tickets lk ->
    m_list (m_waiting lk') = m_list (m_waiting lk) ->
    acquire_outcome h lk s t wait lk' TAL_ACQUIRED
| ao_wait :
    wait = true ->
    waiting_conflict h s (m_list (m_waiting lk)) (get_type h t) \/
    granted_conflict h s (granted_tickets lk) (get_type h t) (get_ctx h t) ->
    granted_tickets lk' ≡ₚ granted_tickets lk ->
    m_list (m_waiting lk') = m_list (m_waiting lk) ++ [t] ->
    acquire_outcome h lk s t wait lk' TAL_WAIT
| ao_nowait :
    wait = false ->
    waiting_conflict h s (m_list (m_waiting lk)) (get_type h t) \/
    granted_conflict h s (granted_tickets lk) (get_type h t) (get_ctx h t) ->
    granted_tickets lk' ≡ₚ granted_tickets lk ->
    m_list (m_waiting lk') = m_list (m_waiting lk) ->
    acquire_outcome h lk s t wait lk' TAL_NOWAIT.

(** What an operation leaves alone: the tickets' types and contexts, the shape. *)
Record framed (h : heap) (lk : MDL_lock) (h' : heap) (lk' : MDL_lock) : Prop := {
  fm_types : same_types h h';
  fm_ctxs : same_ctxs h h';
  fm_shape : same_shape lk lk';
}.

Lemma granted_conflict_ext h h' s l l' type ctx :
  same_types h h' -> same_ctxs h h' -> l' ≡ₚ l ->
  granted_conflict h' s l' type ctx <-> granted_conflict h s l type ctx.
Proof.
  unfold same_types, same_ctxs, granted_conflict. intros Ht Hc Hp.
  split; intros (t & Hin & Hi); exists t; [rewrite <- Ht, <- Hc, <- Hp|rewrite Ht, Hc, Hp]; done.
Qed.

Lemma waiting_conflict_ext h h' s l type :
  same_types h h' -> waiting_conflict h' s l type <-> waiting_conflict h s l type.
Proof.
  unfold same_types, waiting_conflict. intros Ht.
  split; intros (t & Hin & Hi); exists t; [rewrite <- Ht|rewrite Ht]; done.
Qed.

(** With no ticket of a non-fast type around, a fast type meets no conflict. *)
Lemma all_fast_no_conflict h lk s type ctx :
  lock_ok h lk s -> slow_count h lk = 0 -> valid_type type ->
  supported_type (m_fast_road lk) type = true ->
  ~ waiting_conflict h s (m_list (m_waiting lk)) type /\
  ~ granted_conflict h s (granted_tickets lk) type ctx.
Proof.
  intros Hok Hsc Hv Hs.
  assert (forall t, t ∈ lock_tickets lk ->
            supported_type (m_fast_road lk) (get_type h t) = true) as Hall.
  { intros t. unfold lock_tickets. rewrite app_assoc, elem_of_app.
    intros [Ht|(i & l & Hi & Ht)%elem_of_lane_tickets].
    - destruct (supported_type _ (get_type h t)) eqn:E; [done|].
      pose proof (slow_ticket_count h lk t Ht E). lia.
    - by eapply (lo_lane _ _ _ _ Hok i l). }
  split; [intros (t & Ht & Hi)|intros (t & Ht & _ & Hi)].
  - rewrite (@fast_waiting _ _ (lo_fast _ _ _ _ Hok)) in Hi;
      [done|eauto using lock_ticket_valid with mdb..].
  - rewrite (@fast_granted _ _ (lo_fast _ _ _ _ Hok)) in Hi;
      [done|eauto using lock_ticket_valid with mdb..].
Qed.

Lemma fast_acquire_spec n tid h lk s t wait h' fr' :
  lock_ok h lk s -> fresh h lk t -> room lk ->
  Fast_road_try_acquire_lock n tid h (m_fast_road lk) t = (true, h', fr') ->
  lock_ok h' (set_road lk fr') s /\ framed h lk h' (set_road lk fr') /\
  acquire_outcome h lk s t wait (set_road lk fr') TAL_ACQUIRED.
Proof.
  intros Hok [Hnin Hv Hfl] Hroom. unfold Fast_road_try_acquire_lock.
  destruct (_ && _) eqn:E; [|done]. apply andb_true_iff in E as [_ Hs].
  set (i := Z.to_nat _). destruct (m_lanes (m_fast_road lk) !! i) as [l|] eqn:Hi; [|done].
  unfold Lane_try_acquire_lock, Lane_is_open.
  destruct (m_close_count l =? 0) eqn:Hop; [|done]. intros [= <- <-]. bool_to_prop.
  pose proof (lane_acquire_ok h lk s t i l Hok Hi Hop Hnin Hv Hs Hroom) as Hok'.
  split; [exact Hok'|split].
  - split; [intros ?; by apply get_type_alter|intros ?; by apply get_ctx_alter|].
    split; [done|]. unfold road_shape. simpl. by rewrite length_insert.
  - pose proof (lo_close _ _ _ _ Hok i l Hi).
    destruct (all_fast_no_conflict h lk s (get_type h t) (get_ctx h t)) as [H1 H2]; [done|lia|done..|].
    constructor; [done..| |done]. unfold granted_tickets. simpl.
    destruct (lane_tickets_insert _ i l (mk_lane (lane_list l ++ [t]) (m_close_count l)) Hi)
      as (r & Hr1 & Hr2).
    rewrite Hr1, Hr2. simpl. solve_Permutation.
Qed.

Lemma fast_acquire_noop n tid h fr t h' fr' :
  Fast_road_try_acquire_lock n tid h fr t = (false, h', fr') -> h' = h.
Proof.
  unfold Fast_road_try_acquire_lock, Lane_try_acquire_lock.
  repeat case_match; intros; by simplify_eq.
Qed.

Lemma lock_tickets_split lk : lock_tickets lk ≡ₚ m_list (m_waiting lk) ++ granted_tickets lk.
Proof. unfold lock_tickets, granted_tickets. solve_Permutation. Qed.

Lemma granted_perm lk lk' :
  lock_tickets lk' ≡ₚ lock_tickets lk -> m_list (m_waiting lk') = m_list (m_waiting lk) ->
  granted_tickets lk' ≡ₚ granted_tickets lk.
Proof.
  rewrite !lock_tickets_split. intros Hp Hw. rewrite Hw in Hp. by apply Permutation_app_inv_l in Hp.
Qed.

Lemma granted_tickets_add h lk t :
  granted_tickets (set_list lk queue_granted (Ticket_list_add_ticket h (m_granted lk) t))
  ≡ₚ t :: granted_tickets lk.
Proof. unfold granted_tickets. simpl. solve_Permutation. Qed.

(** Closing the lanes for a ticket keeps it fresh and accounts for its type. *)
Lemma closing_fresh h lk s t h' lk' :
  closing (get_type h t) h lk s h' lk' -> fresh h lk t -> room lk ->
  lock_okd (slow1 h' lk' t) h' lk' s /\ fresh h' lk' t /\ room lk' /\
  lanes_allow (slow1 h' lk' t) h' lk' (get_type h' t) /\
  granted_tickets lk' ≡ₚ granted_tickets lk.
Proof.
  intros [C1 C2 C3 C4 C5 C6 C7 _] [F1 F2 F3] Hroom.
  assert (supported_type (m_fast_road lk') (get_type h' t) =
          supported_type (m_fast_road lk) (get_type h t)) as Hs
    by (unfold supported_type; by rewrite C2, C7).
  pose proof (slow_count_bound h' lk') as Hb.
  unfold lanes_allow, slow1, slow. rewrite Hs. split_and!.
  - by destruct (supported_type _ _).
  - split; [by rewrite C4|by rewrite C2|by rewrite C5].
  - unfold room. by rewrite C4.
  - destruct (supported_type _ _); [by left|right; simpl; lia].
  - apply granted_perm; [done|by rewrite C6].
Qed.

#[export] Instance granted_conflict_dec h s l type ctx :
  Decision (granted_conflict h s l type ctx).
Proof.
  refine (cast_if (decide (Exists (fun t => get_ctx h t ≠ ctx /\
            is_incompatible_when_granted s (get_type h t) type = true) l)));
    unfold granted_conflict; by rewrite <- Exists_exists.
Defined.

#[export] Instance waiting_conflict_dec h s l type :
  Decision (waiting_conflict h s l type).
Proof.
  refine (cast_if (decide (Exists (fun t =>
            is_incompatible_when_waiting s (get_type h t) type = true) l)));
    unfold waiting_conflict; by rewrite <- Exists_exists.
Defined.

(** Once the lanes are closed for the request, the decision of can_grant_lock is
    the one on the lists before. *)
Lemma closing_can_grant h lk s t h' lk' :
  closing (get_type h t) h lk s h' lk' -> fresh h lk t -> room lk ->
  can_grant_lock h' lk' s (get_type h t) (get_ctx h t) false = true <->
  ~ waiting_conflict h s (m_list (m_waiting lk)) (get_type h t) /\
  ~ granted_conflict h s (granted_tickets lk) (get_type h t) (get_ctx h t).
Proof.
  intros Hcl Hf Hroom.
  destruct (closing_fresh _ _ _ _ _ _ Hcl Hf Hroom) as (Hok2 & Hf2 & Hroom2 & Ha & Hp).
  destruct Hcl as [_ C2 C3 _ _ C6 _ _].
  pose proof (can_grant_lock_iff _ _ _ _ _ (get_ctx h t) false Hok2 (fr_valid _ _ _ Hf2) Ha) as Hcg.
  rewrite (waiting_conflict_ext h h'), (granted_conflict_ext h h' s (granted_tickets lk)) in Hcg
    by done.
  rewrite C6, C2 in Hcg. naive_solver.
Qed.

(** The conventional path, from the state in which the lanes are closed. *)
Lemma conventional_acquire h lk s t (wait : bool) h2 g2 fr2 :
  let lk2 := set_road (set_list lk queue_granted g2) fr2 in
  closing (get_type h t) h lk s h2 lk2 -> fresh h lk t -> room lk ->
  road_shape fr2 = road_shape (m_fast_road lk) ->
  let add q := set_list lk2 q (Ticket_list_add_ticket h2 (get_list lk2 q) t) in
  let reopened := set_road lk2 (Fast_road_reopen fr2 (get_type h t)) in
  let '(lk3, st) :=
    if can_grant_lock h2 lk2 s (get_type h t) (get_ctx h t) false then (add queue_granted, TAL_ACQUIRED)
    else if wait then (add queue_waiting, TAL_WAIT) else (reopened, TAL_NOWAIT) in
  lock_ok h2 lk3 s /\ framed h lk h2 lk3 /\ acquire_outcome h lk s t wait lk3 st.
Proof.
  intros lk2 Hcl Hf Hroom Hlen add reopened.
  pose proof (closing_can_grant _ _ _ _ _ _ Hcl Hf Hroom) as Hcg.
  destruct (closing_fresh _ _ _ _ _ _ Hcl Hf Hroom) as (Hok2 & [N1 N2 N3] & Hroom2 & _ & Hp).
  destruct Hcl as [_ C2 C3 _ _ C6 _ _].
  assert (forall q, lock_ok h2 (add q) s) as Hadd
    by (intros q; by apply (add_ticket_okd 0)).
  assert (m_list (m_waiting lk2) = m_list (m_waiting lk)) as Hw by done.
  destruct (can_grant_lock _ _ _ _ _ _).
  - split_and!; [done|by split|]. destruct Hcg as [Hcg _]. destruct (Hcg eq_refl).
    constructor; [done..| |done]. rewrite <- Hp. apply granted_tickets_add.
  - assert (waiting_conflict h s (m_list (m_waiting lk)) (get_type h t) \/
      granted_conflict h s (granted_tickets lk) (get_type h t) (get_ctx h t)) as Hc.
    { destruct (decide (waiting_conflict h s (m_list (m_waiting lk)) (get_type h t)));
        [by left|].
      destruct (decide (granted_conflict h s (granted_tickets lk) (get_type h t) (get_ctx h t)));
        [by right|]. destruct Hcg as [_ Hcg]. by discriminate (Hcg (conj n n0)). }
    destruct wait; (split_and!; [|split; [done..|split; [done|]]|]).
    + done.
    + done.
    + by constructor.
    + unfold reopened. rewrite <- C2. by apply (reopen_okd h2 lk2).
    + simpl. by rewrite Fast_road_reopen_shape.
    + constructor; [done..| |done]. rewrite <- Hp. unfold reopened, granted_tickets. simpl.
      unfold Fast_road_reopen, lane_tickets. case_match; simpl; by rewrite ?map_map.
Qed.

Lemma outcome_transport h0 h lk s t wait lk' st :
  same_types h0 h -> same_ctxs h0 h ->
  acquire_outcome h lk s t wait lk' st -> acquire_outcome h0 lk s t wait lk' st.
Proof.
  intros Ht Hc. destruct 1 as [H1 H2 ? ?|? H1 ? ?|? H1 ? ?]; rewrite Ht, ?Hc in *;
    constructor; try done;
    rewrite <- ?(waiting_conflict_ext h0 h), <- ?(granted_conflict_ext h0 h s _ (granted_tickets lk));
    done.
Qed.

Lemma framed_heap h0 h lk h' lk' :
  same_types h0 h -> same_ctxs h0 h -> framed h lk h' lk' -> framed h0 lk h' lk'.
Proof.
  unfold same_types, same_ctxs. intros Ht Hc [F1 F2 F3].
  split; [..|done]; intros t; [by rewrite F1, Ht|by rewrite F2, Hc].
Qed.

Lemma acquire_conventional_spec wd s t wait st wd' ns :
  lock_ok (w_heap wd) (w_lock wd) s -> fresh (w_heap wd) (w_lock wd) t -> room (w_lock wd) ->
  acquire_conventional wd t wait = (st, wd', ns) ->
  lock_ok (w_heap wd') (w_lock wd') s /\
  framed (w_heap wd) (w_lock wd) (w_heap wd') (w_lock wd') /\
  acquire_outcome (w_heap wd) (w_lock wd) s t wait (w_lock wd') st /\
  w_waits wd' = w_waits wd /\ m_hog_lock_count (w_lock wd') = m_hog_lock_count (w_lock wd).
Proof.
  destruct wd as [h lk w]. simpl. intros Hok Hf Hroom.
  unfold acquire_conventional. cbn [w_heap w_lock w_waits]. rewrite (lo_strategy _ _ _ _ Hok).
  destruct (Fast_road_close _ _ _ _) as [[h2 g2] fr2] eqn:Ec.
  pose proof (conventional_acquire h lk s t wait h2 g2 fr2
    (close_okd _ _ _ _ _ _ _ Hok Hroom Ec) Hf Hroom
    (Fast_road_close_shape _ _ lk _ _ _ _ Ec)) as Hsp. simpl in Hsp |- *.
  repeat case_match; intros; simplify_eq/=; destruct Hsp as (? & ? & ?); by split_and!.
Qed.

(** The request as a whole.  (The heap after [ticket->m_lock= this] has the
    tickets' types, contexts and lanes of the one before.) *)
Lemma try_acquire_spec n tid wd s t wait st wd' ns :
  lock_ok (w_heap wd) (w_lock wd) s -> fresh (w_heap wd) (w_lock wd) t -> room (w_lock wd) ->
  MDL_lock_try_acquire_lock n tid wd t wait = (st, wd', ns) ->
  lock_ok (w_heap wd') (w_lock wd') s /\
  framed (w_heap wd) (w_lock wd) (w_heap wd') (w_lock wd') /\
  acquire_outcome (w_heap wd) (w_lock wd) s t wait (w_lock wd') st /\
  w_waits wd' = w_waits wd /\ m_hog_lock_count (w_lock wd') = m_hog_lock_count (w_lock wd).
Proof.
  destruct wd as [h0 lk w]. simpl. intros Hok Hf Hroom.
  unfold MDL_lock_try_acquire_lock. cbn [w_heap w_lock w_waits]. set (h := alter _ t h0).
  assert (lock_ok h lk s) as Hokh by (apply alter_ext_okd; [apply Hf|done]).
  assert (same_types h0 h) as Hty by (intros ?; by apply get_type_alter).
  assert (same_ctxs h0 h) as Hcx by (intros ?; by apply get_ctx_alter).
  assert (fresh h lk t) as Hfh.
  { destruct Hf. split; [done|by rewrite Hty|]. unfold h. by rewrite fast_lane_alter. }
  destruct (Fast_road_try_acquire_lock _ _ h _ t) as [[fast h1] fr1] eqn:E. destruct fast.
  - intros [= <- <- <-].
    destruct (fast_acquire_spec n tid h lk s t wait h1 fr1) as (? & Hfm & Ho); [done..|].
    split_and!; eauto using outcome_transport, framed_heap.
  - apply fast_acquire_noop in E as ->. intros E.
    destruct (acquire_conventional_spec (mk_world h lk w) s t wait st wd' ns Hokh Hfh Hroom E)
      as (? & ? & ? & ? & ?).
    split_and!; eauto using outcome_transport, framed_heap.
Qed.

(** ** Waking up *)

(** A pending request that has to go on waiting. *)
Definition blocked (h : heap) (s : MDL_lock_strategy) (G W : list ptr) (t : ptr) : Prop :=
  waiting_conflict h s W (get_type h t) \/ granted_conflict h s G (get_type h t) (get_ctx h t).

(** [wakes h s G W w G' W' w']: a sequence of waiting tickets without a conflict
    among the granted ones, each of a context whose wait slot is free, has moved
    from the waiting to the granted tickets, setting the slot to GRANTED. *)
Inductive wakes (h : heap) (s : MDL_lock_strategy) (G W : list ptr) (w : wait_slots) :
    list ptr -> list ptr -> wait_slots -> Prop :=
| wakes_refl G' : G' ≡ₚ G -> wakes h s G W w G' W w
| wakes_step t G1 W1 w1 G2 :
    wakes h s G W w G1 W1 w1 ->
    t ∈ W1 -> get_status w1 (get_ctx h t) = EMPTY ->
    ~ granted_conflict h s G1 (get_type h t) (get_ctx h t) ->
    G2 ≡ₚ t :: G1 ->
    wakes h s G W w G2 (remove_first t W1) (<[get_ctx h t := GRANTED]> w1).

Lemma granted_tickets_move h lk t :
  let lk1 := set_list lk queue_waiting (Ticket_list_remove_ticket h (m_waiting lk) t) in
  granted_tickets (set_list lk1 queue_granted (Ticket_list_add_ticket h (m_granted lk1) t))
  ≡ₚ t :: granted_tickets lk.
Proof. apply (granted_tickets_add h (set_list lk queue_waiting _) t). Qed.

Definition is_hog (s : MDL_lock_strategy) (type : enum_mdl_type) : bool :=
  bits_meet (MDL_BIT type) (hog_lock_types_bitmap s).

(** What one iteration of the loop does. *)
Record rescheduled (h : heap) (s : MDL_lock_strategy) (skip : bool) (it : ptr)
    (lk : MDL_lock) (w : wait_slots) (lk' : MDL_lock) (w' : wait_slots) : Prop := {
  rs_free : get_status w (get_ctx h it) = EMPTY;
  rs_slot : w' = <[get_ctx h it := GRANTED]> w;
  rs_compatible :
    ~ granted_conflict h s (granted_tickets lk) (get_type h it) (get_ctx h it);
  rs_priority : skip = true \/ ~ waiting_conflict h s (m_list (m_waiting lk)) (get_type h it);
  rs_granted : granted_tickets lk' ≡ₚ it :: granted_tickets lk;
  rs_waiting : m_list (m_waiting lk') = remove_first it (m_list (m_waiting lk));
  rs_skip : skip = true -> is_hog s (get_type h it) = false;
  rs_hogs : m_hog_lock_count lk' =
    if is_hog s (get_type h it) then u64 (m_hog_lock_count lk + 1) else m_hog_lock_count lk;
}.

Lemma reschedule_step_spec d h lk s skip it w lk' w' :
  lock_okd d h lk s -> 0 <= d -> it ∈ m_list (m_waiting lk) ->
  reschedule_step s skip h it lk w = (lk', w') ->
  rescheduled h s skip it lk w lk' w' \/
  lk' = lk /\ w' = w /\
  (skip = true /\ is_hog s (get_type h it) = true \/
   get_status w (get_ctx h it) ≠ EMPTY \/
   skip = false /\ waiting_conflict h s (m_list (m_waiting lk)) (get_type h it) \/
   granted_conflict h s (granted_tickets lk) (get_type h it) (get_ctx h it)).
Proof.
  intros Hok Hd Hin. unfold reschedule_step, set_status. fold (is_hog s (get_type h it)).
  destruct (skip && _) eqn:Eh; [apply andb_true_iff in Eh; intros; simplify_eq; naive_solver|].
  pose proof (can_grant_lock_iff _ _ _ _ (get_type h it) (get_ctx h it) skip Hok
    ltac:(eauto using lock_ticket_valid with mdb) (waiting_lanes_allow _ _ _ _ _ Hok Hd Hin)) as Hcg.
  destruct (can_grant_lock _ _ _ _ _ _).
  - destruct Hcg as [Hcg _]. destruct (Hcg eq_refl) as [Hp Hg].
    case_decide as Hst; [|intros; simplify_eq; naive_solver].
    intros E. left. pose proof (granted_tickets_move h lk it).
    assert (skip = true -> is_hog s (get_type h it) = false) by (by intros ->).
    destruct (is_hog s (get_type h it)) eqn:Eg; simplify_eq; constructor; rewrite ?Eg; try done; naive_solver.
  - intros; simplify_eq. right. split_and!; [done..|]. right. right.
    destruct (decide (granted_conflict h s (granted_tickets lk') (get_type h it) (get_ctx h it)));
      [by right|left]. destruct Hcg as [_ Hcg].
    destruct skip; [by discriminate Hcg; auto|split; [done|]].
    destruct (decide (waiting_conflict h s (m_list (m_waiting lk')) (get_type h it)));
      [done|]. by discriminate Hcg; auto.
Qed.

Lemma wakes_app h s G W w G1 W1 w1 G2 W2 w2 :
  wakes h s G W w G1 W1 w1 -> wakes h s G1 W1 w1 G2 W2 w2 -> wakes h s G W w G2 W2 w2.
Proof.
  intros H1 H2. induction H2 as [G' Hp|]; [|by econstructor].
  destruct H1; [|econstructor]; try done; [constructor|]; by rewrite Hp.
Qed.

Lemma reschedule_loop_spec d h s skip its lk w lk' w' :
  lock_okd d h lk s -> 0 <= d -> NoDup its ->
  (forall t, t ∈ its -> t ∈ m_list (m_waiting lk)) ->
  reschedule_loop s skip h its lk w = (lk', w') ->
  wakes h s (granted_tickets lk) (m_list (m_waiting lk)) w
    (granted_tickets lk') (m_list (m_waiting lk')) w'.
Proof.
  revert lk w. induction its as [|it its IH]; simpl; intros lk w Hok Hd Hnd Hin E.
  { simplify_eq. by constructor. }
  destruct (reschedule_step s skip h it lk w) as [lk1 w1] eqn:E1.
  assert (it ∈ m_list (m_waiting lk)) as Hit by (apply Hin; set_solver).
  apply NoDup_cons in Hnd as [Hnin Hnd].
  apply wakes_app with (granted_tickets lk1) (m_list (m_waiting lk1)) w1.
  - destruct (reschedule_step_spec _ _ _ _ _ _ _ _ _ Hok Hd Hit E1) as [[R1 R2 R3 _ R5 R6 _ _]|(-> & -> & _)].
    + rewrite R2, R6. econstructor; try done. by constructor.
    + by constructor.
  - eapply (IH lk1 w1); [|done|done| |done].
    + by eapply reschedule_step_okd.
    + intros t Ht. eapply reschedule_step_waiting; [done|set_solver|apply Hin; set_solver|].
      apply Hok.
Qed.

(** Without hog types nothing is counted. *)
Lemma reschedule_waiters_hogs max h lk s w lk' w' :
  reschedule_waiters max h lk s w = (lk', w') ->
  hog_lock_types_bitmap s = 0 -> m_hog_lock_count lk = 0 -> m_hog_lock_count lk' = 0.
Proof.
  unfold reschedule_waiters. intros E Hb H0.
  destruct (reschedule_loop _ _ _ _ _ _) as [lk1 w1] eqn:E1.
  assert (m_hog_lock_count lk1 = 0) as H1; [|case_match; by simplify_eq].
  clear E. revert E1 H0. generalize (skip_high_priority max lk s). intros skip.
  generalize (m_list (m_waiting lk)). intros its. revert lk w.
  induction its as [|it its IH]; simpl; intros lk w E H0; [by simplify_eq|].
  destruct (reschedule_step s skip h it lk w) as [lk2 w2] eqn:E2. apply (IH lk2 w2 E).
  unfold reschedule_step, bits_meet in E2. rewrite Hb, Z.land_0_r in E2. simpl in E2.
  repeat case_match; by simplify_eq.
Qed.

(** *** No wakeup is lost *)

(** Each context waits for at most one ticket. *)
Definition one_wait_each (h : heap) (W : list ptr) : Prop :=
  forall t1 t2, t1 ∈ W -> t2 ∈ W -> get_ctx h t1 = get_ctx h t2 -> t1 = t2.

(** The requests still waiting, with a free wait slot, have to wait; [all] tells
    whether requests of a hog type count. *)
Definition settled (h : heap) (s : MDL_lock_strategy) (all : bool) (w : wait_slots)
    (G W : list ptr) : Prop :=
  forall t, t ∈ W -> all = true \/ is_hog s (get_type h t) = false ->
            get_status w (get_ctx h t) = EMPTY -> blocked h s G W t.

Lemma blocked_mono h s G W G' W' t :
  (forall x, x ∈ G -> x ∈ G') -> (forall x, x ∈ W -> x ∈ W') ->
  blocked h s G W t -> blocked h s G' W' t.
Proof.
  intros HG HW [(x & Hx & Hi)|(x & Hx & Hc & Hi)]; [left|right]; exists x; auto.
Qed.

(** Granting the request another one waited behind does not unblock the other. *)
Lemma blocked_wake h s `{!LawfulStrategy s} G W it t :
  valid_type (get_type h it) -> valid_type (get_type h t) -> get_ctx h it ≠ get_ctx h t ->
  blocked h s G W t -> blocked h s (it :: G) (remove_first it W) t.
Proof.
  intros Hv1 Hv2 Hc [(x & Hx & Hi)|(x & Hx & Hcx & Hi)].
  - destruct (decide (x = it)) as [->|Hne].
    + right. exists it. split_and!; [set_solver|done|]. by apply waiting_then_granted.
    + left. exists x. split; [|done]. by apply elem_of_remove_first_ne.
  - right. exists x. set_solver.
Qed.

Lemma get_status_insert_ne w c c' st :
  c ≠ c' -> get_status (<[c := st]> w) c' = get_status w c'.
Proof. intros. unfold get_status. by rewrite lookup_insert_ne. Qed.

Lemma reschedule_step_settled d h lk s `{!LawfulStrategy s} skip it its w lk' w' :
  lock_okd d h lk s -> 0 <= d -> it ∈ m_list (m_waiting lk) -> it ∉ its ->
  one_wait_each h (m_list (m_waiting lk)) ->
  reschedule_step s skip h it lk w = (lk', w') ->
  let pending l w lk := forall t, t ∈ m_list (m_waiting lk) -> t ∉ l ->
    negb skip = true \/ is_hog s (get_type h t) = false ->
    get_status w (get_ctx h t) = EMPTY ->
    blocked h s (granted_tickets lk) (m_list (m_waiting lk)) t in
  pending (it :: its) w lk -> pending its w' lk'.
Proof.
  intros Hok Hd Hit Hnin H1 E pending Hp t Ht Hti Hh Hst.
  destruct (reschedule_step_spec _ _ _ _ _ _ _ _ _ Hok Hd Hit E)
    as [[R1 R2 R3 R4 R5 R6 _ _]|(-> & -> & Hb)].
  - rewrite R6 in *. assert (t ∈ m_list (m_waiting lk)) as Htw
      by (by eapply elem_of_remove_first).
    assert (t ≠ it) as Hne.
    { intros ->. rewrite elem_of_remove_first_iff in Ht by apply Hok. naive_solver. }
    assert (get_ctx h it ≠ get_ctx h t) as Hcx by (intros Hc; by apply Hne, H1).
    rewrite R2, get_status_insert_ne in Hst by done.
    eapply (blocked_mono _ _ (it :: granted_tickets lk)); [by intros x; rewrite R5|done|].
    apply blocked_wake; eauto using lock_ticket_valid with mdb.
    apply Hp; [done|set_solver|done..].
  - destruct (decide (t = it)) as [->|]; [|apply Hp; [done|set_solver|done..]].
    destruct Hb as [[-> Hh']|[?|[[_ ?]|?]]]; [|done|by left|by right].
    destruct Hh as [?|Hh]; [done|]. by rewrite Hh in Hh'.
Qed.

Lemma reschedule_loop_settled d h s `{!LawfulStrategy s} skip its lk w lk' w' :
  lock_okd d h lk s -> 0 <= d -> NoDup its ->
  (forall t, t ∈ its -> t ∈ m_list (m_waiting lk)) ->
  one_wait_each h (m_list (m_waiting lk)) ->
  (forall t, t ∈ m_list (m_waiting lk) -> t ∉ its ->
     negb skip = true \/ is_hog s (get_type h t) = false ->
     get_status w (get_ctx h t) = EMPTY ->
     blocked h s (granted_tickets lk) (m_list (m_waiting lk)) t) ->
  reschedule_loop s skip h its lk w = (lk', w') ->
  settled h s (negb skip) w' (granted_tickets lk') (m_list (m_waiting lk')).
Proof.
  revert lk w. induction its as [|it its IH]; simpl; intros lk w Hok Hd Hnd Hin H1 Hp E.
  { simplify_eq. intros t Ht. apply Hp; [done|set_solver]. }
  destruct (reschedule_step s skip h it lk w) as [lk1 w1] eqn:E1.
  assert (it ∈ m_list (m_waiting lk)) as Hit by (apply Hin; set_solver).
  apply NoDup_cons in Hnd as [Hnin Hnd].
  apply (IH lk1 w1); try done.
  - by eapply reschedule_step_okd.
  - intros t Ht. eapply reschedule_step_waiting; [done|set_solver|apply Hin; set_solver|].
    apply Hok.
  - assert (forall t, t ∈ m_list (m_waiting lk1) -> t ∈ m_list (m_waiting lk)) as Hsub.
    { destruct (reschedule_step_spec _ _ _ _ _ _ _ _ _ Hok Hd Hit E1)
        as [[? ? ? ? ? R6 _ _]|(-> & _)]; [|done].
      intros t. rewrite R6. apply elem_of_remove_first. }
    intros t1 t2 Ht1 Ht2. apply H1; auto.
  - by eapply reschedule_step_settled.
Qed.

Lemma reschedule_waiters_spec d max h lk s `{!LawfulStrategy s} w lk' w' :
  lock_okd d h lk s -> 0 <= d -> one_wait_each h (m_list (m_waiting lk)) ->
  reschedule_waiters max h lk s w = (lk', w') ->
  wakes h s (granted_tickets lk) (m_list (m_waiting lk)) w
    (granted_tickets lk') (m_list (m_waiting lk')) w' /\
  settled h s (negb (skip_high_priority max lk s)) w'
    (granted_tickets lk') (m_list (m_waiting lk')).
Proof.
  intros Hok Hd H1 E. unfold reschedule_waiters in E.
  destruct (reschedule_loop _ _ _ _ _ _) as [lk1 w1] eqn:E1.
  assert (granted_tickets lk' = granted_tickets lk1 /\ m_waiting lk' = m_waiting lk1 /\ w' = w1)
    as (-> & -> & ->) by (case_match; by simplify_eq).
  pose proof (tl_nodup _ _ (lo_waiting _ _ _ _ Hok)) as Hnd.
  split; [by eapply reschedule_loop_spec|].
  eapply reschedule_loop_settled; eauto. done.
Qed.

(** ** Releasing and aborting *)

(** The lock with a ticket taken out of one of its lists. *)
Definition unlist (h : heap) (lk : MDL_lock) (q : ticket_queue) (t : ptr) : MDL_lock :=
  set_list lk q (Ticket_list_remove_ticket h (get_list lk q) t).

Lemma unlist_granted h lk t :
  t ∈ m_list (m_granted lk) -> granted_tickets lk ≡ₚ t :: granted_tickets (unlist h lk queue_granted t).
Proof.
  intros Hin. unfold granted_tickets. simpl. rewrite (remove_first_perm t _ Hin) at 1. done.
Qed.

Lemma settled_weaken h s all w G W :
  settled h s true w G W -> settled h s all w G W.
Proof. intros Hs t Ht _. apply Hs; auto. Qed.

Lemma reopen_granted lk type :
  granted_tickets (set_road lk (Fast_road_reopen (m_fast_road lk) type)) = granted_tickets lk.
Proof.
  unfold granted_tickets, Fast_road_reopen, lane_tickets. simpl.
  case_match; simpl; by rewrite ?map_map.
Qed.

(** Removing a registered ticket: the waiting requests are looked at again, unless
    the lock is empty. *)
Record removed (max : Z) (h : heap) (lk0 : MDL_lock) (s : MDL_lock_strategy)
    (w : wait_slots) (lk' : MDL_lock) (w' : wait_slots) : Prop := {
  rm_ok : lock_ok h lk' s;
  rm_shape : same_shape lk0 lk';
  rm_wakes :
    wakes h s (granted_tickets lk0) (m_list (m_waiting lk0)) w
      (granted_tickets lk') (m_list (m_waiting lk')) w';
  rm_settled :
    settled h s (m_hog_lock_count lk0 <? max) w' (granted_tickets lk') (m_list (m_waiting lk'));
  rm_hogs : hog_lock_types_bitmap s = 0 -> m_hog_lock_count lk0 = 0 -> m_hog_lock_count lk' = 0;
}.

Lemma reschedule_removed max d h lk s `{!LawfulStrategy s} w lk' w' t :
  lock_okd d h lk s -> 0 <= d -> one_wait_each h (m_list (m_waiting lk)) ->
  d = slow1 h lk t ->
  reschedule_waiters max h lk s w = (lk', w') ->
  removed max h lk s w (set_road lk' (Fast_road_reopen (m_fast_road lk') (get_type h t))) w'.
Proof.
  intros Hok Hd H1 -> E.
  pose proof (reschedule_waiters_road _ _ _ _ _ _ _ E) as [Hk Hfr].
  destruct (reschedule_waiters_spec _ _ _ _ _ _ _ _ Hok Hd H1 E) as [Hw Hs].
  split; simpl; rewrite ?reopen_granted.
  - apply reopen_okd.
    replace (slow1 h lk' t) with (slow1 h lk t) by (unfold slow1, slow; by rewrite Hfr).
    by eapply reschedule_waiters_okd.
  - split; simpl; [done|]. by rewrite Fast_road_reopen_shape, Hfr.
  - done.
  - intros t' Ht' Ha. apply Hs; [done|]. destruct Ha as [Ha|]; [left|by right].
    unfold skip_high_priority. bool_to_prop. by rewrite (proj2 (Z.leb_gt _ _)).
  - by eapply reschedule_waiters_hogs.
Qed.

Lemma slow1_nonneg h lk t : 0 <= slow1 h lk t.
Proof. unfold slow1. case_match; lia. Qed.

(** The lock was emptied: it is marked and has to leave the map. *)
Record destroyed (lk : MDL_lock) (t : ptr) (lk' : MDL_lock) : Prop := {
  ds_last : lock_tickets lk ≡ₚ [t];
  ds_empty : lock_tickets lk' = [];
  ds_marked : m_strategy lk' = None;
  ds_not_backup : mdl_namespace (key lk) ≠ namespace_code BACKUP;
}.

Lemma lock_is_empty_iff lk :
  lock_is_empty lk = true <-> m_list (m_granted lk) = [] /\ m_list (m_waiting lk) = [].
Proof. unfold lock_is_empty. repeat case_match; naive_solver. Qed.

(** A ticket that is in one of the lists is in no other. *)
Lemma unlink_other h lk q t :
  NoDup (lock_tickets lk) -> t ∈ m_list (get_list lk q) ->
  set_list (ilist_unlink lk (other_queue q) t) q (Ticket_list_remove_ticket h (get_list lk q) t) =
  unlist h lk q t.
Proof.
  unfold lock_tickets. intros (_ & Hd & _)%NoDup_app Hin.
  assert (t ∉ m_list (get_list lk (other_queue q))) as Hn.
  { destruct q; simpl in *; [intros Hw; apply (Hd t Hin); set_solver|intros Hg; apply (Hd t Hg); set_solver]. }
  unfold unlist. f_equal. unfold ilist_unlink. rewrite remove_first_not_in by done.
  destruct lk as [k [] [] ? ? ?], q; done.
Qed.

Lemma remove_ticket_spec n max wd q t s `{!LawfulStrategy s} b wd' :
  lock_ok (w_heap wd) (w_lock wd) s -> lock_shape n (w_lock wd) ->
  t ∈ m_list (get_list (w_lock wd) q) ->
  one_wait_each (w_heap wd) (m_list (m_waiting (w_lock wd))) ->
  MDL_lock_remove_ticket max wd q t = (b, wd') ->
  w_heap wd' = w_heap wd /\
  if b then destroyed (w_lock wd) t (w_lock wd') /\ w_waits wd' = w_waits wd
  else (lock_tickets (w_lock wd) ≡ₚ [t] -> mdl_namespace (key (w_lock wd)) = namespace_code BACKUP) /\
       removed max (w_heap wd) (unlist (w_heap wd) (w_lock wd) q t) s (w_waits wd)
         (w_lock wd') (w_waits wd').
Proof.
  destruct wd as [h lk w]. simpl. intros Hok Hsh Hin H1. unfold MDL_lock_remove_ticket.
  cbn [w_heap w_lock w_waits]. rewrite (unlink_other h lk q t) by (done || apply Hok).
  set (lk1 := unlist h lk q t).
  pose proof (remove_ticket_okd 0 h lk s q t Hok Hin) as Hok1. fold (unlist h lk q t) in Hok1.
  fold lk1 in Hok1. simpl in Hok1.
  assert (slow1 h lk1 t = slow1 h lk t) as Hs1 by (unfold slow1, slow; by destruct q).
  assert (one_wait_each h (m_list (m_waiting lk1))) as H11.
  { intros t1 t2 Ht1 Ht2. apply H1; by destruct q; simpl in *; eauto using elem_of_remove_first. }
  pose proof (slow1_nonneg h lk t) as Hnn.
  assert (same_shape lk lk1) as Hss by by destruct q.
  destruct (lock_is_empty lk1) eqn:Ee.
  - apply lock_is_empty_iff in Ee as [Eg Ew]. case_match eqn:Ek; intros; simplify_eq/=.
    + split; [done|]. split; [intros _; rewrite <- (proj1 Hss); by bool_to_prop|].
      split; rewrite ?reopen_granted; simpl; rewrite ?Ew.
      * apply reopen_okd. by rewrite Hs1.
      * split; simpl; [done|]. by rewrite Fast_road_reopen_shape.
      * by constructor.
      * by intros ? ?%elem_of_nil.
      * done.
    + split; [done|]. split; [|done]. bool_to_prop.
      destruct (lock_shape_same _ _ _ Hss Hsh) as [_ Hl].
      assert (lock_tickets lk1 = []) as Hnil
        by (unfold lock_tickets; by rewrite Eg, Ew, (Hl Ek)).
      split; [|exact Hnil|done|].
      * rewrite (lock_tickets_remove h lk q t Hin). fold (unlist h lk q t). fold lk1.
        by rewrite Hnil.
      * by rewrite <- (proj1 Hss).
  - rewrite (lo_strategy _ _ _ _ Hok1).
    destruct (reschedule_waiters _ _ _ _ _) as [lk2 w2] eqn:Er.
    intros [= <- <-]. split; [done|]. split; [|by eapply reschedule_removed].
    intros Hp. exfalso. rewrite (lock_tickets_remove h lk q t Hin) in Hp.
    fold (unlist h lk q t) in Hp. fold lk1 in Hp. apply Permutation_cons_inv, Permutation_nil_r in Hp.
    unfold lock_tickets in Hp. apply not_true_iff_false in Ee. apply Ee, lock_is_empty_iff.
    by destruct (m_list (m_granted lk1)), (m_list (m_waiting lk1)).
Qed.

(** Releasing a ticket that is in a lane. *)
Lemma fast_action h lk s t :
  lock_ok h lk s -> t ∈ granted_tickets lk ->
  t ∈ m_list (m_granted lk) /\ fast_lane h t = None \/
  exists i l, fast_lane h t = Some i /\ m_lanes (m_fast_road lk) !! i = Some l /\
              t ∈ lane_list l /\ slow_count h lk = 0.
Proof.
  intros Hok. unfold granted_tickets. rewrite elem_of_app.
  intros [Ht|(i & l & Hi & Ht)%elem_of_lane_tickets].
  - left. split; [done|]. apply (lo_off_lane _ _ _ _ Hok). set_solver.
  - right. exists i, l. destruct (lo_lane _ _ _ _ Hok i l t Hi Ht) as (_ & _ & Hf).
    split_and!; [done..|].
    destruct (decide (slow_count h lk + 0 = 0)) as [|Hne]; [lia|].
    pose proof (lanes_quiet _ _ _ _ Hok Hne) as Hq.
    assert (t ∈ lane_tickets (m_lanes (m_fast_road lk))) as Htl
      by (apply elem_of_lane_tickets; eauto).
    rewrite Hq in Htl. set_solver.
Qed.

(** While the lanes are open, nobody with a free wait slot is waiting. *)
Definition quiet (h : heap) (lk : MDL_lock) (w : wait_slots) : Prop :=
  slow_count h lk = 0 -> forall t, t ∈ m_list (m_waiting lk) -> get_status w (get_ctx h t) ≠ EMPTY.

Lemma waiting_supported h lk t :
  slow_count h lk = 0 -> t ∈ m_list (m_waiting lk) -> supported_type (m_fast_road lk) (get_type h t) = true.
Proof.
  intros Hsc Ht. destruct (supported_type _ _) eqn:E; [done|].
  pose proof (slow_ticket_count h lk t ltac:(set_solver) E). lia.
Qed.

Lemma settled_quiet h lk s w :
  lock_ok h lk s -> settled h s false w (granted_tickets lk) (m_list (m_waiting lk)) -> quiet h lk w.
Proof.
  intros Hok Hs Hsc t Ht He. pose proof (waiting_supported h lk t Hsc Ht) as Hst.
  assert (valid_type (get_type h t)) as Hv by eauto using lock_ticket_valid with mdb.
  destruct (all_fast_no_conflict h lk s (get_type h t) (get_ctx h t)) as [H1 H2]; try done.
  assert (is_hog s (get_type h t) = false) as Hh.
  { unfold is_hog, bits_meet. rewrite (@fast_hog _ _ (lo_fast _ _ _ _ Hok) _ Hv Hst). by rewrite Z.land_0_r. }
  by destruct (Hs t Ht (or_intror Hh) He).
Qed.

Lemma quiet_settled h lk s all w G :
  quiet h lk w -> slow_count h lk = 0 -> settled h s all w G (m_list (m_waiting lk)).
Proof. intros Hq Hsc t Ht _ He. by destruct (Hq Hsc t Ht). Qed.

(** The state after a ticket left the granted ([q = queue_granted]) or the waiting
    tickets.  Requests are only ever left waiting for a reason; for requests of a
    hog type this takes that the limit on hog locks is not reached. *)
Record left_lock (max : Z) (h : heap) (lk : MDL_lock) (s : MDL_lock_strategy) (q : ticket_queue)
    (t : ptr) (w : wait_slots) (lk' : MDL_lock) (w' : wait_slots) : Prop := {
  ll_ok : lock_ok h lk' s;
  ll_shape : same_shape lk lk';
  ll_wakes : exists G0 W0,
    match q with
    | queue_granted => granted_tickets lk ≡ₚ t :: G0 /\ W0 = m_list (m_waiting lk)
    | queue_waiting => G0 = granted_tickets lk /\ W0 = remove_first t (m_list (m_waiting lk))
    end /\
    wakes h s G0 W0 w (granted_tickets lk') (m_list (m_waiting lk')) w';
  ll_settled all :
    (all = true -> m_hog_lock_count lk < max) ->
    settled h s all w' (granted_tickets lk') (m_list (m_waiting lk'));
  ll_hogs : hog_lock_types_bitmap s = 0 -> m_hog_lock_count lk = 0 -> m_hog_lock_count lk' = 0;
}.

Lemma removed_left max h lk s q t w lk' w' :
  t ∈ m_list (get_list lk q) ->
  removed max h (unlist h lk q t) s w lk' w' -> left_lock max h lk s q t w lk' w'.
Proof.
  intros Hin [R1 R2 R3 R4 R5]. split.
  - done.
  - etransitivity; [|exact R2]. by destruct q.
  - exists (granted_tickets (unlist h lk q t)), (m_list (m_waiting (unlist h lk q t))).
    split; [|done]. destruct q; [|done]. split; [by apply unlist_granted|done].
  - intros all Ha t' Ht' Hh. apply R4; [done|].
    destruct Hh as [->|]; [left|by right]. specialize (Ha eq_refl).
    destruct q; by apply Z.ltb_lt.
  - by destruct q.
Qed.

Lemma lane_release_granted h lk s t i l :
  lock_ok h lk s -> m_lanes (m_fast_road lk) !! i = Some l -> t ∈ lane_list l ->
  granted_tickets lk ≡ₚ
  t :: granted_tickets (put_lane lk i (mk_lane (remove_first t (lane_list l)) (m_close_count l))).
Proof.
  intros Hok Hi Ht. destruct (lane_release_ok h lk s t i l Hok Hi Ht) as [_ Hp].
  apply (Permutation_app_inv_l (m_list (m_waiting lk))).
  rewrite <- Permutation_middle, <- lock_tickets_split, Hp. constructor.
  apply (lock_tickets_split (put_lane lk i _)).
Qed.

Lemma release_spec n max wd t s `{!LawfulStrategy s} b wd' :
  lock_ok (w_heap wd) (w_lock wd) s -> lock_shape n (w_lock wd) ->
  t ∈ granted_tickets (w_lock wd) ->
  one_wait_each (w_heap wd) (m_list (m_waiting (w_lock wd))) ->
  quiet (w_heap wd) (w_lock wd) (w_waits wd) ->
  MDL_lock_release max wd t = (b, wd') ->
  w_heap wd' = w_heap wd /\
  if b then destroyed (w_lock wd) t (w_lock wd') /\ w_waits wd' = w_waits wd
  else (lock_tickets (w_lock wd) ≡ₚ [t] -> mdl_namespace (key (w_lock wd)) = namespace_code BACKUP) /\
       left_lock max (w_heap wd) (w_lock wd) s queue_granted t (w_waits wd)
         (w_lock wd') (w_waits wd').
Proof.
  destruct wd as [h lk w]. intros Hok Hsh Hin H1 Hq. simpl in Hok, Hsh, Hin, Hq.
  unfold MDL_lock_release, Fast_road_try_release, lane_action. simpl.
  destruct (fast_action h lk s t Hok Hin) as [[Hg ->]|(i & l & Hf & Hi & Ht & Hsc)].
  - intros E. destruct (remove_ticket_spec n max (mk_world h lk w) queue_granted t s b wd' Hok Hsh Hg H1 E) as [Hh Hb].
    simpl in *. split; [done|]. destruct b; [done|]. destruct Hb. split; [done|]. by apply removed_left.
  - rewrite Hf, Hi. unfold Lane_release, Lane_ticket_action. rewrite Hf.
    intros [= <- <-]. split; [done|]. simpl. split.
    { intros _. destruct (decide (mdl_namespace (key lk) = namespace_code BACKUP)) as [|Hn]; [done|].
      by rewrite (ls_backup _ _ Hsh Hn) in Hi. }
    destruct (lane_release_ok h lk s t i l Hok Hi Ht) as [Hok' Hp].
    split; [exact Hok'| | | |done].
    + split; [done|]. unfold road_shape. simpl. by rewrite length_insert.
    + eexists _, _. split; [split; [by eapply lane_release_granted|done]|by constructor].
    + intros all _. by apply (quiet_settled h lk).
Qed.

Lemma abort_wait_spec n max wd t s `{!LawfulStrategy s} b wd' :
  lock_ok (w_heap wd) (w_lock wd) s -> lock_shape n (w_lock wd) ->
  t ∈ m_list (m_waiting (w_lock wd)) ->
  one_wait_each (w_heap wd) (m_list (m_waiting (w_lock wd))) ->
  abort_wait max wd t = (b, wd') ->
  w_heap wd' = w_heap wd /\
  if b then destroyed (w_lock wd) t (w_lock wd') /\ w_waits wd' = w_waits wd
  else (lock_tickets (w_lock wd) ≡ₚ [t] -> mdl_namespace (key (w_lock wd)) = namespace_code BACKUP) /\
       left_lock max (w_heap wd) (w_lock wd) s queue_waiting t (w_waits wd)
         (w_lock wd') (w_waits wd').
Proof.
  intros Hok Hsh Hin H1 E.
  destruct (remove_ticket_spec n max wd queue_waiting t s b wd' Hok Hsh Hin H1 E) as [? Hb].
  split; [done|]. destruct b; [done|]. destruct Hb. split; [done|]. by apply removed_left.
Qed.

(** ** Cloning, upgrading and downgrading *)

Lemma add_cloned_ticket_spec wd t s :
  lock_ok (w_heap wd) (w_lock wd) s -> fresh (w_heap wd) (w_lock wd) t -> room (w_lock wd) ->
  let wd' := add_cloned_ticket wd t in
  lock_ok (w_heap wd') (w_lock wd') s /\
  framed (w_heap wd) (w_lock wd) (w_heap wd') (w_lock wd') /\
  granted_tickets (w_lock wd') ≡ₚ t :: granted_tickets (w_lock wd) /\
  m_waiting (w_lock wd') = m_waiting (w_lock wd) /\ w_waits wd' = w_waits wd.
Proof.
  destruct wd as [h lk w]. simpl. intros Hok Hf Hroom. unfold add_cloned_ticket. simpl.
  destruct (Fast_road_close _ _ _ _) as [[h2 g2] fr2] eqn:Ec. simpl.
  pose proof (close_okd _ _ _ _ _ _ _ Hok Hroom Ec) as Hcl.
  pose proof (Fast_road_close_shape _ _ lk _ _ _ _ Ec) as Hlen.
  destruct (closing_fresh _ _ _ _ _ _ Hcl Hf Hroom) as (Hok2 & [N1 N2 N3] & Hroom2 & _ & Hp).
  set (lk2 := set_road _ fr2) in *.
  split_and!; [by apply (add_ticket_okd 0 h2 lk2 s queue_granted)|split; [apply Hcl..|by split]| |done..].
  rewrite <- Hp. apply (granted_tickets_add h2 lk2).
Qed.

Lemma wakes_perm h s G G0 W w G' W' w' :
  G0 ≡ₚ G -> wakes h s G0 W w G' W' w' -> wakes h s G W w G' W' w'.
Proof.
  intros Hp. induction 1; [constructor|by econstructor]. by rewrite <- Hp.
Qed.

Lemma requeue_granted h lk w t type :
  t ∈ m_list (m_granted lk) ->
  granted_tickets (w_lock (requeue (mk_world h lk w) t type)) ≡ₚ granted_tickets lk.
Proof.
  intros Hin. rewrite (unlist_granted h lk t Hin).
  apply (granted_tickets_add _ (unlist h lk queue_granted t)).
Qed.

(** [lk'] has the tickets of [lk], one of them with another type, and possibly some
    of the waiting ones woken up. *)
Record retyped (max : Z) (h : heap) (lk : MDL_lock) (s : MDL_lock_strategy) (w : wait_slots)
    (h' : heap) (lk' : MDL_lock) (w' : wait_slots) : Prop := {
  rt_ok : lock_ok h' lk' s;
  rt_shape : same_shape lk lk';
  rt_wakes : wakes h' s (granted_tickets lk) (m_list (m_waiting lk)) w
               (granted_tickets lk') (m_list (m_waiting lk')) w';
  rt_settled all :
    (all = true -> m_hog_lock_count lk < max) ->
    settled h' s all w' (granted_tickets lk') (m_list (m_waiting lk'));
  rt_hogs : hog_lock_types_bitmap s = 0 -> m_hog_lock_count lk = 0 -> m_hog_lock_count lk' = 0;
}.

Lemma one_wait_each_ext h h' W :
  same_ctxs h h' -> one_wait_each h W -> one_wait_each h' W.
Proof. unfold same_ctxs. intros Hc H1 t1 t2. rewrite !Hc. apply H1. Qed.

Lemma granted_not_waiting d h lk s t :
  lock_okd d h lk s -> t ∈ granted_tickets lk -> t ∉ m_list (m_waiting lk).
Proof.
  intros Hok Hg Hw. pose proof (lo_nodup _ _ _ _ Hok) as Hnd.
  rewrite lock_tickets_split in Hnd. apply NoDup_app in Hnd as (_ & Hd & _). by apply (Hd t).
Qed.

Lemma fast_change_type h lk s t i l type :
  lock_ok h lk s -> fast_lane h t = Some i -> m_lanes (m_fast_road lk) !! i = Some l ->
  Fast_road_try_change_ticket_type h (m_fast_road lk) t type =
  (true, alter (set_type type) t h, m_fast_road lk).
Proof.
  intros Hok Hf Hi. unfold Fast_road_try_change_ticket_type, lane_action.
  rewrite Hf, Hi. unfold Lane_change_ticket_type, Lane_ticket_action. rewrite Hf.
  rewrite list_insert_id by done. by destruct (m_fast_road lk).
Qed.

Lemma set_road_id lk : set_road lk (m_fast_road lk) = lk.
Proof. by destruct lk. Qed.

Lemma requeue_reschedule max h lk s `{!LawfulStrategy s} w t type lk' w' :
  lock_ok h lk s -> t ∈ m_list (m_granted lk) -> valid_type type ->
  supported_type (m_fast_road lk) type = supported_type (m_fast_road lk) (get_type h t) ->
  one_wait_each h (m_list (m_waiting lk)) ->
  let h' := alter (set_type type) t h in
  reschedule_waiters max h' (w_lock (requeue (mk_world h lk w) t type)) s w = (lk', w') ->
  retyped max h lk s w h' lk' w'.
Proof.
  intros Hok Hg Hv Hsup H1 h' E. set (lk2 := w_lock _) in E.
  pose proof (requeue_okd 0 h lk s w t type Hok Hg Hv Hsup) as Hok2.
  fold h' lk2 in Hok2.
  assert (one_wait_each h' (m_list (m_waiting lk2))) as H2
    by (eapply one_wait_each_ext; [intros ?; by apply get_ctx_alter|done]).
  destruct (reschedule_waiters_spec 0 max h' lk2 s w lk' w' Hok2 ltac:(lia) H2 E) as [Hw Hs].
  pose proof (reschedule_waiters_road _ _ _ _ _ _ _ E) as [Hk Hfr].
  split.
  - by eapply reschedule_waiters_okd.
  - split; [by rewrite Hk|by rewrite Hfr].
  - eapply wakes_perm; [|exact Hw]. by apply requeue_granted.
  - intros all Ha t' Ht' Hh. apply Hs; [done|]. destruct Hh as [->|]; [left|by right].
    unfold skip_high_priority. specialize (Ha eq_refl).
    by rewrite (proj2 (Z.leb_gt _ _)).
  - intros Hb H0. by apply (reschedule_waiters_hogs _ _ _ _ _ _ _ E Hb).
Qed.

Lemma downgrade_spec max wd t type s `{!LawfulStrategy s} :
  lock_ok (w_heap wd) (w_lock wd) s -> t ∈ granted_tickets (w_lock wd) ->
  valid_type type ->
  supported_type (m_fast_road (w_lock wd)) type =
  supported_type (m_fast_road (w_lock wd)) (get_type (w_heap wd) t) ->
  one_wait_each (w_heap wd) (m_list (m_waiting (w_lock wd))) ->
  quiet (w_heap wd) (w_lock wd) (w_waits wd) ->
  let wd' := downgrade max wd t type in
  w_heap wd' = alter (set_type type) t (w_heap wd) /\
  retyped max (w_heap wd) (w_lock wd) s (w_waits wd) (w_heap wd') (w_lock wd') (w_waits wd').
Proof.
  intros Hok Hin Hv Hsup H1 Hq. unfold downgrade, try_fast_upgrade.
  set (h := w_heap wd) in *. set (lk := w_lock wd) in *. set (w := w_waits wd) in *.
  destruct (fast_action h lk s t Hok Hin) as [[Hg Hf]|(i & l & Hf & Hi & Ht & Hsc)].
  - unfold Fast_road_try_change_ticket_type, lane_action. rewrite Hf, set_road_id.
    rewrite (lo_strategy _ _ _ _ (requeue_okd 0 h lk s w t type Hok Hg Hv Hsup)).
    destruct (reschedule_waiters _ _ _ _ _) as [lk' w'] eqn:E.
    split; [done|]. simpl. by eapply requeue_reschedule.
  - rewrite (fast_change_type h lk s t i l type Hok Hf Hi), set_road_id. simpl.
    split; [done|].
    destruct (lo_lane _ _ _ _ Hok i l t Hi Ht) as (_ & Hst & _). rewrite Hst in Hsup.
    split; [by eapply set_type_ok|done|by constructor| |done].
    intros all Ha t' Ht' Hh He. exfalso. rewrite get_ctx_alter in He by done.
    by apply (Hq Hsc t').
Qed.

(** Taking the ticket acquired for an upgrade out again. *)
Lemma upgrade_remove_spec wd s r :
  lock_ok (w_heap wd) (w_lock wd) s -> r ∈ granted_tickets (w_lock wd) ->
  let wd' := upgrade_remove wd r in
  w_heap wd' = w_heap wd /\ w_waits wd' = w_waits wd /\
  lock_ok (w_heap wd) (w_lock wd') s /\ same_shape (w_lock wd) (w_lock wd') /\
  granted_tickets (w_lock wd) ≡ₚ r :: granted_tickets (w_lock wd') /\
  m_list (m_waiting (w_lock wd')) = m_list (m_waiting (w_lock wd)) /\
  m_supported_types (m_fast_road (w_lock wd')) = m_supported_types (m_fast_road (w_lock wd)).
Proof.
  destruct wd as [h lk w]. simpl. intros Hok Hin.
  unfold upgrade_remove, Fast_road_try_release, lane_action. simpl.
  destruct (fast_action h lk s r Hok Hin) as [[Hg ->]|(i & l & Hf & Hi & Ht & Hsc)]; simpl.
  - split_and!; [done..| | | |done|].
    + apply (reopen_okd h (unlist h lk queue_granted r) s r).
      apply (remove_ticket_okd 0 h lk s queue_granted r Hok Hg).
    + split; [done|]. apply Fast_road_reopen_shape.
    + rewrite (unlist_granted h lk r Hg). f_equiv.
      by rewrite <- (reopen_granted (unlist h lk queue_granted r) (get_type h r)).
    + unfold Fast_road_reopen. by case_match.
  - rewrite Hf, Hi. unfold Lane_release, Lane_ticket_action. rewrite Hf. simpl.
    split_and!; [done|done|by eapply lane_release_ok| |by eapply lane_release_granted|done|done].
    split; [done|]. unfold road_shape. simpl. by rewrite length_insert.
Qed.

(** The ticket to upgrade stays, with the new type; the one acquired for the
    upgrade goes. *)
Lemma upgrade_spec wd s t type remove :
  lock_ok (w_heap wd) (w_lock wd) s ->
  t ∈ granted_tickets (w_lock wd) -> fast_lane (w_heap wd) t = None ->
  valid_type type ->
  supported_type (m_fast_road (w_lock wd)) type =
  supported_type (m_fast_road (w_lock wd)) (get_type (w_heap wd) t) ->
  (forall r, remove = Some r -> r ≠ t /\ r ∈ granted_tickets (w_lock wd)) ->
  let wd' := upgrade wd t type remove in
  w_heap wd' = alter (set_type type) t (w_heap wd) /\ w_waits wd' = w_waits wd /\
  lock_ok (w_heap wd') (w_lock wd') s /\ same_shape (w_lock wd) (w_lock wd') /\
  granted_tickets (w_lock wd) ≡ₚ option_list remove ++ granted_tickets (w_lock wd') /\
  m_list (m_waiting (w_lock wd')) = m_list (m_waiting (w_lock wd)).
Proof.
  intros Hok Hin Hfl Hv Hsup Hrem. unfold upgrade.
  assert (exists h1 lk1 w1, (match remove with None => wd | Some r => upgrade_remove wd r end)
    = mk_world h1 lk1 w1 /\ h1 = w_heap wd /\ w1 = w_waits wd /\ lock_ok h1 lk1 s /\
    same_shape (w_lock wd) lk1 /\
    granted_tickets (w_lock wd) ≡ₚ option_list remove ++ granted_tickets lk1 /\
    m_list (m_waiting lk1) = m_list (m_waiting (w_lock wd)) /\
    m_supported_types (m_fast_road lk1) = m_supported_types (m_fast_road (w_lock wd)))
    as (h1 & lk1 & w1 & -> & -> & -> & Hok1 & Hsh & Hp & Hw & Hst).
  { destruct remove as [r|].
    - destruct (upgrade_remove_spec wd s r Hok) as (? & ? & ? & ? & ? & ? & ?);
        [by apply Hrem|].
      destruct (upgrade_remove wd r). simpl in *. subst. by eexists _, _, _.
    - destruct wd. by eexists _, _, _. }
  assert (t ∈ granted_tickets lk1) as Hin1.
  { rewrite Hp in Hin. apply elem_of_app in Hin as [Hr|]; [|done].
    destruct remove as [r|]; [|by apply elem_of_nil in Hr].
    apply list_elem_of_singleton in Hr as ->. by destruct (Hrem r). }
  destruct (fast_action _ _ _ _ Hok1 Hin1) as [[Hg _]|(i & l & Hf & _)]; [|congruence].
  split_and!; [done..| | | |done].
  - apply (requeue_okd 0); [done..|]. unfold supported_type. by rewrite Hst.
  - by etransitivity.
  - by rewrite requeue_granted.
Qed.

(** An upgrade inside a lane: the lanes are open, so every type they serve can be
    granted. *)
Lemma try_fast_upgrade_spec wd s t type wd' :
  lock_ok (w_heap wd) (w_lock wd) s -> t ∈ granted_tickets (w_lock wd) -> valid_type type ->
  supported_type (m_fast_road (w_lock wd)) type = true ->
  try_fast_upgrade wd t type = (true, wd') ->
  wd' = mk_world (alter (set_type type) t (w_heap wd)) (w_lock wd) (w_waits wd) /\
  lock_ok (w_heap wd') (w_lock wd) s /\ slow_count (w_heap wd) (w_lock wd) = 0.
Proof.
  destruct wd as [h lk w]. simpl. intros Hok Hin Hv Hsup. unfold try_fast_upgrade. simpl.
  destruct (fast_action h lk s t Hok Hin) as [[Hg Hf]|(i & l & Hf & Hi & Ht & Hsc)].
  - unfold Fast_road_try_change_ticket_type, lane_action. by rewrite Hf.
  - rewrite (fast_change_type h lk s t i l type Hok Hf Hi), set_road_id.
    intros [= <-]. split_and!; [done|by eapply set_type_ok|done].
Qed.

(** ** The limit on hog locks

    While the requests of a hog type are passed over, every other request that
    no granted ticket stands against is granted. *)
Lemma reschedule_loop_skip d h s its lk w lk' w' :
  lock_okd d h lk s -> 0 <= d -> NoDup its ->
  (forall t, t ∈ its -> t ∈ m_list (m_waiting lk)) ->
  one_wait_each h (m_list (m_waiting lk)) ->
  let passed l w lk := forall t, t ∈ m_list (m_waiting lk) -> t ∉ l ->
    is_hog s (get_type h t) = false -> get_status w (get_ctx h t) = EMPTY ->
    granted_conflict h s (granted_tickets lk) (get_type h t) (get_ctx h t) in
  passed its w lk ->
  reschedule_loop s true h its lk w = (lk', w') ->
  passed [] w' lk' /\
  (forall t, t ∈ m_list (m_waiting lk) -> is_hog s (get_type h t) = true ->
     t ∈ m_list (m_waiting lk')).
Proof.
  intros Hok Hd. revert lk w Hok.
  induction its as [|it its IH]; simpl; intros lk w Hok Hnd Hin H1 Hp E; [by simplify_eq|].
  destruct (reschedule_step s true h it lk w) as [lk1 w1] eqn:E1.
  assert (it ∈ m_list (m_waiting lk)) as Hit by (apply Hin; set_solver).
  apply NoDup_cons in Hnd as [Hnin Hnd].
  pose proof (tl_nodup _ _ (lo_waiting _ _ _ _ Hok)) as Hndw.
  assert (forall t, t ∈ its -> t ∈ m_list (m_waiting lk1)) as Hin1.
  { intros t Ht. eapply reschedule_step_waiting; [done|set_solver|apply Hin; set_solver|done]. }
  destruct (reschedule_step_spec _ _ _ _ _ _ _ _ _ Hok Hd Hit E1)
    as [[R1 R2 R3 R4 R5 R6 R7 _]|(-> & -> & Hb)].
  - edestruct (IH lk1 w1) as [IH1 IH2]; [by eapply reschedule_step_okd|done|done| | |done|].
    + intros t1 t2. rewrite R6. intros ?%elem_of_remove_first ?%elem_of_remove_first. by apply H1.
    + intros t Ht Hni Hh He. rewrite R6, elem_of_remove_first_iff in Ht by done.
      destruct Ht as [Ht Hne]. rewrite R2, get_status_insert_ne in He by (intros ?; by apply Hne, H1).
      eapply granted_conflict_ext; [done..|exact R5|].
      destruct (Hp t Ht ltac:(set_solver) Hh He) as (x & Hx & Hc). exists x.
      split; [by apply elem_of_cons; right|done].
    + split; [done|]. intros t Ht Hh. apply IH2; [|done]. rewrite R6.
      apply elem_of_remove_first_ne; [|done]. intros ->. rewrite R7 in Hh; done.
  - apply (IH lk w); try done. intros t Ht Hni Hh He.
    destruct (decide (t = it)) as [->|]; [|apply Hp; [done|set_solver|done..]].
    destruct Hb as [[_ Hh']|[?|[[? _]|?]]]; [by rewrite Hh in Hh'|done..].
Qed.

(** The requests [W] were looked at with those of a hog type passed over. *)
Definition hogs_passed (h : heap) (s : MDL_lock_strategy) (W : list ptr) (lk' : MDL_lock) (w' : wait_slots) : Prop :=
  (forall t, t ∈ W -> is_hog s (get_type h t) = true -> t ∈ m_list (m_waiting lk')) /\
  (forall t, t ∈ m_list (m_waiting lk') -> is_hog s (get_type h t) = false ->
     get_status w' (get_ctx h t) = EMPTY ->
     granted_conflict h s (granted_tickets lk') (get_type h t) (get_ctx h t)).

Lemma reschedule_waiters_skip d max h lk s w lk' w' :
  lock_okd d h lk s -> 0 <= d -> one_wait_each h (m_list (m_waiting lk)) ->
  max <= m_hog_lock_count lk ->
  (exists t, t ∈ m_list (m_waiting lk) /\ is_hog s (get_type h t) = false) ->
  reschedule_waiters max h lk s w = (lk', w') -> hogs_passed h s (m_list (m_waiting lk)) lk' w'.
Proof.
  intros Hok Hd H1 Hmax (t0 & Ht0 & Hh0) E. pose proof (lo_waiting _ _ _ _ Hok) as Hwl.
  assert (skip_high_priority max lk s = true) as Hskip.
  { unfold skip_high_priority. rewrite (proj2 (Z.leb_le _ _) Hmax). simpl.
    apply (tl_bitmap_meet h _ _ Hwl). exists t0. split; [done|].
    pose proof (tl_valid _ _ Hwl t0 Ht0) as Hv. unfold is_hog in Hh0.
    rewrite bits_meet_MDL_BIT in Hh0 |- * by done.
    rewrite Z.lnot_spec by apply Hv. by rewrite Hh0. }
  unfold reschedule_waiters in E. rewrite Hskip in E.
  destruct (reschedule_loop _ _ _ _ _ _) as [lk1 w1] eqn:E1. unfold hogs_passed.
  assert (granted_tickets lk' = granted_tickets lk1 /\ m_waiting lk' = m_waiting lk1 /\ w' = w1)
    as (-> & -> & ->) by (case_match; by simplify_eq).
  edestruct (reschedule_loop_skip d) as [Hp Hg];
    [exact Hok|done|exact (tl_nodup _ _ Hwl)|done|exact H1| |exact E1|]; [done|].
  split; [done|]. intros t Ht. apply Hp; [done|]. by intros ?%elem_of_nil.
Qed.

Lemma remove_ticket_skip max wd q t s b wd' :
  lock_ok (w_heap wd) (w_lock wd) s -> t ∈ m_list (get_list (w_lock wd) q) ->
  one_wait_each (w_heap wd) (m_list (m_waiting (w_lock wd))) -> max <= m_hog_lock_count (w_lock wd) ->
  let W := m_list (m_waiting (unlist (w_heap wd) (w_lock wd) q t)) in
  (exists t0, t0 ∈ W /\ is_hog s (get_type (w_heap wd) t0) = false) ->
  MDL_lock_remove_ticket max wd q t = (b, wd') ->
  b = false /\ w_heap wd' = w_heap wd /\ hogs_passed (w_heap wd) s W (w_lock wd') (w_waits wd').
Proof.
  destruct wd as [h lk w]. intros Hok Hin H1 Hmax W Hlow. cbn [w_heap w_lock w_waits] in *.
  unfold MDL_lock_remove_ticket. cbn [w_heap w_lock w_waits].
  rewrite (unlink_other h lk q t) by (done || apply Hok). set (lk1 := unlist h lk q t) in *.
  pose proof (remove_ticket_okd 0 h lk s q t Hok Hin) as Hok1. fold (unlist h lk q t) in Hok1. fold lk1 in Hok1.
  simpl in Hok1. destruct (lock_is_empty lk1) eqn:Ee.
  { apply lock_is_empty_iff in Ee as [_ Ee]. destruct Hlow as (t0 & Ht0 & _). unfold W in Ht0.
    rewrite Ee in Ht0. by apply elem_of_nil in Ht0. }
  rewrite (lo_strategy _ _ _ _ Hok1). destruct (reschedule_waiters _ _ _ _ _) as [lk2 w2] eqn:E.
  intros [= <- <-]. split_and!; [done..|]. unfold hogs_passed. simpl. rewrite reopen_granted.
  eapply (reschedule_waiters_skip (slow1 h lk t)); [exact Hok1|apply slow1_nonneg| | |exact Hlow|exact E].
  - intros t1 t2 Ht1 Ht2. apply H1; by destruct q; simpl in *; eauto using elem_of_remove_first.
  - by destruct q.
Qed.
