(* ===== verification/MdlLockSpec.v ===== *)
(** * The steps of a metadata lock

    [mdl_step] is what may happen to a lock and the contexts that use it, each step with its operation
    and result; [world_ok] holds in all reachable states.  An abstract lock without tickets, bitmaps,
    counters and fast lanes, the multisets of the holders and of the waiters, simulates these steps
    ([astep], used for mutual exclusion; the exact results and states are in MdlLockRefine).  Then:
    which steps leave no request waiting without a reason, and the limit on hog locks. *)

From stdpp Require Import gmultiset.
From S2P Require Import Prelude MdlTypes MdlKey MdlLock MdlLockInv MdlLockOps.

Notation holder := (ctx_id * enum_mdl_type)%type.

Record alock := mk_alock {
  a_granted : gmultiset holder;
  a_waiting : gmultiset holder;
}.

(** Another context holds a lock that [x] is incompatible with. *)
Definition a_conflict (s : MDL_lock_strategy) (G : gmultiset holder) (x : holder) : Prop :=
  exists y, y ∈ G /\ y.1 ≠ x.1 /\ is_incompatible_when_granted s y.2 x.2 = true.

(** A pending request has priority over [x]. *)
Definition a_priority (s : MDL_lock_strategy) (W : gmultiset holder) (x : holder) : Prop :=
  exists y, y ∈ W /\ is_incompatible_when_waiting s y.2 x.2 = true.

Inductive astep (s : MDL_lock_strategy) : alock -> alock -> Prop :=
| as_grant x G W :
    ~ a_conflict s G x -> ~ a_priority s W x -> valid_type x.2 ->
    astep s (mk_alock G W) (mk_alock ({[+ x +]} ⊎ G) W)
| as_queue x G W :
    a_conflict s G x \/ a_priority s W x -> valid_type x.2 ->
    astep s (mk_alock G W) (mk_alock G ({[+ x +]} ⊎ W))
| as_wake x G W :
    ~ a_conflict s G x ->
    astep s (mk_alock G ({[+ x +]} ⊎ W)) (mk_alock ({[+ x +]} ⊎ G) W)
| as_leave x G W :
    astep s (mk_alock ({[+ x +]} ⊎ G) W) (mk_alock G W)
| as_abort x G W :
    astep s (mk_alock G ({[+ x +]} ⊎ W)) (mk_alock G W)
| as_dup x y G W :
    x ∈ G -> y.1 = x.1 -> has_stronger_or_equal_type s x.2 y.2 = true -> valid_type y.2 ->
    astep s (mk_alock G W) (mk_alock ({[+ y +]} ⊎ G) W).

(** ** Mutual exclusion on the abstract lock *)

Record a_ok (s : MDL_lock_strategy) (a : alock) : Prop := {
  ao_valid x : x ∈ a_granted a ⊎ a_waiting a -> valid_type x.2;
  ao_excl x y :
    x ∈ a_granted a -> y ∈ a_granted a -> x.1 ≠ y.1 ->
    is_incompatible_when_granted s x.2 y.2 = false;
}.

Lemma a_ok_add s `{!SymmetricStrategy s} G W x :
  a_ok s (mk_alock G W) -> valid_type x.2 -> ~ a_conflict s G x ->
  a_ok s (mk_alock ({[+ x +]} ⊎ G) W).
Proof.
  intros [Hv He] Hx Hc. simpl in *.
  assert (forall y, y ∈ G -> y.1 ≠ x.1 -> is_incompatible_when_granted s y.2 x.2 = false) as Hn.
  { intros y Hy Hne. destruct (is_incompatible_when_granted s y.2 x.2) eqn:E; [|done].
    exfalso. apply Hc. by exists y. }
  split; simpl.
  - intros y Hy. destruct (decide (y = x)) as [->|]; [done|]. apply Hv. multiset_solver.
  - intros y z Hy Hz Hne.
    assert (forall u, u ∈ {[+ x +]} ⊎ G -> u = x \/ u ∈ G) as Hcase by multiset_solver.
    destruct (Hcase y Hy) as [->|Hy'], (Hcase z Hz) as [->|Hz']; [done| | |by apply He].
    + rewrite (incompatible_sym (s:=s)); [by apply Hn|done|]. apply Hv. multiset_solver.
    + by apply Hn.
Qed.

(** A lock type is at most as restricted as a stronger one its context holds. *)
Lemma a_dup_no_conflict s G W x y :
  a_ok s (mk_alock G W) -> x ∈ G -> y.1 = x.1 ->
  has_stronger_or_equal_type s x.2 y.2 = true -> ~ a_conflict s G y.
Proof.
  intros [Hv He] Hx Hc Hs (z & Hz & Hne & Hi). simpl in *.
  assert (valid_type z.2) as Hvz by (apply Hv; multiset_solver).
  pose proof (stronger_spec s x.2 y.2 z.2 Hvz Hs Hi) as Hi'.
  rewrite He in Hi'; [done..|by rewrite <- Hc].
Qed.

Lemma astep_ok s `{!SymmetricStrategy s} a a' : a_ok s a -> astep s a a' -> a_ok s a'.
Proof.
  intros Hok. destruct 1 as [x G W Hc Hp Hx|x G W Hc Hx|x G W Hc|x G W|x G W|x y G W Hx Hxy Hs Hy].
  - by apply a_ok_add.
  - destruct Hok as [Hv He]. split; simpl in *; [|done].
    intros y Hy. destruct (decide (y = x)) as [->|]; [done|]. apply Hv. multiset_solver.
  - apply a_ok_add; [done| | |done].
    + destruct Hok as [Hv He]. split; simpl in *; [|done]. intros y Hy. apply Hv. multiset_solver.
    + apply Hok. simpl. multiset_solver.
  - destruct Hok as [Hv He]. split; simpl in *.
    + intros y Hy. apply Hv. multiset_solver.
    + intros y z Hy Hz. apply He; multiset_solver.
  - destruct Hok as [Hv He]. split; simpl in *; [|done]. intros y Hy. apply Hv. multiset_solver.
  - apply a_ok_add; try done. by eapply a_dup_no_conflict.
Qed.

Lemma asteps_ok s `{!SymmetricStrategy s} a a' : rtc (astep s) a a' -> a_ok s a -> a_ok s a'.
Proof. induction 1; eauto using astep_ok. Qed.

(** ** Abstraction *)

Definition holder_of (h : heap) (t : ptr) : holder := (get_ctx h t, get_type h t).

Definition holders (h : heap) (l : list ptr) : gmultiset holder :=
  list_to_set_disj (map (holder_of h) l).

Definition abs (h : heap) (lk : MDL_lock) : alock :=
  mk_alock (holders h (granted_tickets lk)) (holders h (m_list (m_waiting lk))).

#[export] Instance holders_perm h : Proper ((≡ₚ) ==> (=)) (holders h).
Proof. intros l l' Hp. unfold holders. apply list_to_set_disj_perm. by rewrite Hp. Qed.

Lemma holders_cons h t l : holders h (t :: l) = {[+ holder_of h t +]} ⊎ holders h l.
Proof. done. Qed.

Lemma holders_ext h h' l :
  (forall t, t ∈ l -> holder_of h' t = holder_of h t) -> holders h' l = holders h l.
Proof.
  intros He. unfold holders. f_equal. apply map_ext_in. intros t Ht.
  apply He. by apply list_elem_of_In.
Qed.

Lemma elem_of_holders h l x : x ∈ holders h l <-> exists t, t ∈ l /\ x = holder_of h t.
Proof.
  unfold holders. rewrite elem_of_list_to_set_disj, list_elem_of_fmap. naive_solver.
Qed.

Lemma holders_take h l t :
  t ∈ l -> holders h l = {[+ holder_of h t +]} ⊎ holders h (remove_first t l).
Proof. intros Hin. by rewrite (remove_first_perm t l Hin) at 1. Qed.

Lemma framed_holder h lk h' lk' t : framed h lk h' lk' -> holder_of h' t = holder_of h t.
Proof. intros [Ht Hc _]. unfold holder_of. by rewrite Ht, Hc. Qed.

Lemma conflict_abs h s l t :
  a_conflict s (holders h l) (holder_of h t) <->
  granted_conflict h s l (get_type h t) (get_ctx h t).
Proof.
  unfold a_conflict, granted_conflict. setoid_rewrite elem_of_holders.
  split; [intros (? & (u & Hu & ->) & H)|intros (u & Hu & H)]; eauto.
Qed.

Lemma priority_abs h s l t :
  a_priority s (holders h l) (holder_of h t) <-> waiting_conflict h s l (get_type h t).
Proof.
  unfold a_priority, waiting_conflict. setoid_rewrite elem_of_holders.
  split; [intros (? & (u & Hu & ->) & H)|intros (u & Hu & H)]; eauto.
Qed.

Lemma wakes_sim h s G W w G' W' w' :
  wakes h s G W w G' W' w' ->
  rtc (astep s) (mk_alock (holders h G) (holders h W)) (mk_alock (holders h G') (holders h W')).
Proof.
  induction 1 as [G' Hp|t G1 W1 w1 G2 _ IH Hin _ Hc Hp]; [by rewrite Hp|].
  eapply rtc_r; [exact IH|]. rewrite (holders_take h W1 t Hin), Hp.
  apply as_wake. by rewrite conflict_abs.
Qed.

(** A ticket changes its type: its context duplicates what it holds and drops the
    old lock. *)
Lemma retype_sim h s G W t type :
  NoDup G -> t ∈ G -> t ∉ W -> is_Some (h !! t) -> valid_type type ->
  (exists x, x ∈ G /\ get_ctx h x = get_ctx h t /\
             has_stronger_or_equal_type s (get_type h x) type = true) ->
  let h' := alter (set_type type) t h in
  rtc (astep s) (mk_alock (holders h G) (holders h W)) (mk_alock (holders h' G) (holders h' W)).
Proof.
  intros Hnd Hin Hnw Hal Hv (x & Hx & Hc & Hs) h'.
  assert (forall l, t ∉ l -> holders h' l = holders h l) as Hext.
  { intros l Hl. apply holders_ext. intros u Hu. unfold holder_of, h'.
    rewrite get_ctx_alter, get_type_set_type_ne; [done|by intros ->|done]. }
  assert (holder_of h' t = (get_ctx h t, type)) as Hh'.
  { unfold holder_of, h'. rewrite get_ctx_alter, get_type_set_type by done. by case_decide. }
  rewrite (Hext W Hnw), (holders_take h' G t Hin), Hext, Hh';
    [|rewrite elem_of_remove_first_iff by done; tauto].
  eapply rtc_l.
  - apply (as_dup s (holder_of h x) (get_ctx h t, type)); [|done..].
    apply elem_of_holders. eauto.
  - rewrite (holders_take h G t Hin).
    replace (_ ⊎ (_ ⊎ _)) with ({[+ holder_of h t +]} ⊎
      ({[+ (get_ctx h t, type) +]} ⊎ holders h (remove_first t G))) by multiset_solver.
    apply rtc_once, as_leave.
Qed.

(** ** Steps of a lock *)

(** What a step does, by the operation, the holder or request it is for, and the result. *)
Inductive mdl_op :=
| op_new
| op_acquire (x : holder) (wait : bool)
| op_release (x : holder)
| op_abort (x : holder)
| op_clone (x : holder)
| op_downgrade (x : holder) (type : enum_mdl_type)
| op_upgrade (x : holder) (type : enum_mdl_type) (remove : option holder)
| op_fast_upgrade (x : holder) (type : enum_mdl_type)
| op_signal (c : ctx_id) (status : enum_wait_status)
| op_reset (c : ctx_id).

Inductive mdl_result := r_done | r_status (st : tal_status) | r_removed.

#[export] Instance tal_status_eq_dec : EqDecision tal_status.
Proof. solve_decision. Defined.
#[export] Instance mdl_result_eq_dec : EqDecision mdl_result.
Proof. solve_decision. Defined.

(** [b] tells that the lock was emptied and has to leave the map. *)
Definition leave_result (b : bool) : mdl_result := if b then r_removed else r_done.

(** A lock together with the contexts that use it: the operations of [MDL_lock] in
    the states in which [MDL_context] calls them, the allocation of tickets, and
    what happens to wait slots meanwhile.  A request tries a lane under the mutex of
    the lane and then, if that failed, goes on under m_rwlock; other steps may come
    in between ([st_acquire_late]). *)
Inductive mdl_step (max n : Z) (tid : ctx_id -> Z) (s : MDL_lock_strategy) :
    mdl_op -> mdl_result -> world -> world -> Prop :=
| st_new h lk w t type c :
    h !! t = None -> valid_type type ->
    mdl_step max n tid s op_new r_done
      (mk_world h lk w) (mk_world (<[t := mk_ticket type c None None]> h) lk w)
| st_acquire wd t wait st wd' ns :
    fresh (w_heap wd) (w_lock wd) t -> room (w_lock wd) ->
    (forall t', t' ∈ m_list (m_waiting (w_lock wd)) ->
       get_ctx (w_heap wd) t' ≠ get_ctx (w_heap wd) t) ->
    MDL_lock_try_acquire_lock n tid wd t wait = (st, wd', ns) ->
    mdl_step max n tid s (op_acquire (holder_of (w_heap wd) t) wait) (r_status st) wd wd'
| st_acquire_late wd t wait st wd' ns :
    fresh (w_heap wd) (w_lock wd) t -> room (w_lock wd) ->
    (forall t', t' ∈ m_list (m_waiting (w_lock wd)) ->
       get_ctx (w_heap wd) t' ≠ get_ctx (w_heap wd) t) ->
    acquire_conventional wd t wait = (st, wd', ns) ->
    mdl_step max n tid s (op_acquire (holder_of (w_heap wd) t) wait) (r_status st) wd wd'
| st_release wd t b wd' :
    t ∈ granted_tickets (w_lock wd) -> MDL_lock_release max wd t = (b, wd') ->
    mdl_step max n tid s (op_release (holder_of (w_heap wd) t)) (leave_result b) wd wd'
| st_abort wd t b wd' :
    t ∈ m_list (m_waiting (w_lock wd)) -> abort_wait max wd t = (b, wd') ->
    mdl_step max n tid s (op_abort (holder_of (w_heap wd) t)) (leave_result b) wd wd'
| st_clone wd t t0 :
    fresh (w_heap wd) (w_lock wd) t -> room (w_lock wd) ->
    t0 ∈ granted_tickets (w_lock wd) ->
    get_ctx (w_heap wd) t = get_ctx (w_heap wd) t0 ->
    has_stronger_or_equal_type s (get_type (w_heap wd) t0) (get_type (w_heap wd) t) = true ->
    mdl_step max n tid s (op_clone (holder_of (w_heap wd) t)) r_done wd (add_cloned_ticket wd t)
| st_downgrade wd t type :
    t ∈ granted_tickets (w_lock wd) -> valid_type type ->
    has_stronger_or_equal_type s (get_type (w_heap wd) t) type = true ->
    supported_type (m_fast_road (w_lock wd)) type =
    supported_type (m_fast_road (w_lock wd)) (get_type (w_heap wd) t) ->
    mdl_step max n tid s (op_downgrade (holder_of (w_heap wd) t) type) r_done
      wd (downgrade max wd t type)
| st_upgrade wd t type x remove :
    t ∈ granted_tickets (w_lock wd) -> fast_lane (w_heap wd) t = None -> valid_type type ->
    supported_type (m_fast_road (w_lock wd)) type =
    supported_type (m_fast_road (w_lock wd)) (get_type (w_heap wd) t) ->
    x ∈ granted_tickets (w_lock wd) -> x ≠ t ->
    get_ctx (w_heap wd) x = get_ctx (w_heap wd) t ->
    has_stronger_or_equal_type s (get_type (w_heap wd) x) type = true ->
    remove = None \/ remove = Some x /\ get_type (w_heap wd) x = type ->
    mdl_step max n tid s
      (op_upgrade (holder_of (w_heap wd) t) type (holder_of (w_heap wd) <$> remove)) r_done
      wd (upgrade wd t type remove)
| st_fast_upgrade wd t type wd' :
    t ∈ granted_tickets (w_lock wd) -> valid_type type ->
    supported_type (m_fast_road (w_lock wd)) type = true ->
    try_fast_upgrade wd t type = (true, wd') ->
    mdl_step max n tid s (op_fast_upgrade (holder_of (w_heap wd) t) type) r_done wd wd'
| st_signal h lk w c status :
    status ≠ EMPTY ->
    mdl_step max n tid s (op_signal c status) r_done
      (mk_world h lk w) (mk_world h lk (set_status w c status).2)
| st_reset h lk w c :
    (forall t, t ∈ m_list (m_waiting lk) -> get_ctx h t ≠ c) ->
    mdl_step max n tid s (op_reset c) r_done (mk_world h lk w) (mk_world h lk (reset_status w c)).

(** ** The invariant of a lock and its users *)

Record world_ok (n : Z) (s : MDL_lock_strategy) (wd : world) : Prop := {
  wo_lock : lock_ok (w_heap wd) (w_lock wd) s;
  wo_shape : lock_shape n (w_lock wd);
  wo_waits : one_wait_each (w_heap wd) (m_list (m_waiting (w_lock wd)));
  wo_quiet : quiet (w_heap wd) (w_lock wd) (w_waits wd);
  (** where there are no hog types there is nothing to count *)
  wo_hogs : hog_lock_types_bitmap s = 0 -> m_hog_lock_count (w_lock wd) = 0;
}.

Lemma wakes_waiting h s G W w G' W' w' t : wakes h s G W w G' W' w' -> t ∈ W' -> t ∈ W.
Proof. induction 1; [done|]. intros Ht%elem_of_remove_first. auto. Qed.

Lemma one_wait_sub h W W' :
  (forall t, t ∈ W' -> t ∈ W) -> one_wait_each h W -> one_wait_each h W'.
Proof. intros Hs H1 t1 t2 Ht1 Ht2. apply H1; auto. Qed.

(** *** Nobody with a free wait slot waits while the lanes are open *)

Lemma slow_zero h lk s :
  lock_ok h lk s ->
  slow_count h lk = 0 <->
  forall t, t ∈ lock_tickets lk -> supported_type (m_fast_road lk) (get_type h t) = true.
Proof.
  intros Hok. split.
  - intros Hsc t. unfold lock_tickets. rewrite app_assoc, elem_of_app.
    intros [Ht|(i & l & Hi & Ht)%elem_of_lane_tickets].
    + destruct (supported_type _ (get_type h t)) eqn:E; [done|].
      pose proof (slow_ticket_count h lk t Ht E). lia.
    + by eapply (lo_lane _ _ _ _ Hok i l).
  - intros Hall. apply countb_zero. intros t Ht. unfold slow. rewrite Hall; [done|].
    unfold lock_tickets. rewrite app_assoc. set_solver.
Qed.

Definition all_fast (h : heap) (lk : MDL_lock) : Prop :=
  forall t, t ∈ m_list (m_waiting lk) ++ granted_tickets lk ->
            supported_type (m_fast_road lk) (get_type h t) = true.

Lemma quiet_iff h lk s w :
  lock_ok h lk s ->
  quiet h lk w <->
  (all_fast h lk -> forall t, t ∈ m_list (m_waiting lk) -> get_status w (get_ctx h t) ≠ EMPTY).
Proof.
  intros Hok. unfold quiet, all_fast. rewrite (slow_zero h lk s Hok). by setoid_rewrite lock_tickets_split.
Qed.

Lemma supported_same lk lk' type :
  same_shape lk lk' -> supported_type (m_fast_road lk') type = supported_type (m_fast_road lk) type.
Proof. intros [_ [= _ E]]. unfold supported_type. by rewrite E. Qed.

Lemma left_world_ok n max wd s q t lk' w' :
  world_ok n s wd ->
  left_lock max (w_heap wd) (w_lock wd) s q t (w_waits wd) lk' w' ->
  world_ok n s (mk_world (w_heap wd) lk' w').
Proof.
  intros [Hok Hsh H1 _ Hh] [L1 L2 (G0 & W0 & Hq & Hw) L4 L5]. split; simpl.
  - done.
  - by eapply lock_shape_same.
  - eapply one_wait_sub; [|exact H1]. intros t' Ht'.
    apply (wakes_waiting _ _ _ _ _ _ _ _ _ Hw) in Ht'.
    destruct q, Hq as [_ ->]; eauto using elem_of_remove_first.
  - eapply settled_quiet; [done|]. by apply L4.
  - auto.
Qed.

Lemma acquire_world_ok n wd s t wait st wd' :
  world_ok n s wd -> fresh (w_heap wd) (w_lock wd) t ->
  (forall t', t' ∈ m_list (m_waiting (w_lock wd)) ->
     get_ctx (w_heap wd) t' ≠ get_ctx (w_heap wd) t) ->
  lock_ok (w_heap wd') (w_lock wd') s ->
  framed (w_heap wd) (w_lock wd) (w_heap wd') (w_lock wd') ->
  acquire_outcome (w_heap wd) (w_lock wd) s t wait (w_lock wd') st ->
  w_waits wd' = w_waits wd -> m_hog_lock_count (w_lock wd') = m_hog_lock_count (w_lock wd) ->
  world_ok n s wd'.
Proof.
  intros [Hok Hsh H1 Hq Hhog] Hf Hc Hok' [F1 F2 F3] Ho Ew Eh.
  split; [done|by eapply lock_shape_same| | |by rewrite Eh].
  - eapply one_wait_each_ext; [exact F2|].
    destruct Ho as [_ _ _ ->|_ _ _ ->|_ _ _ ->]; [done| |done].
    intros t1 t2. rewrite !elem_of_app, !list_elem_of_singleton.
    intros [Ht1| ->] [Ht2| ->] Heq; [by apply H1| | |done].
    + by destruct (Hc t1).
    + by destruct (Hc t2).
  - rewrite Ew. apply (quiet_iff _ _ _ _ Hok'). rewrite (quiet_iff _ _ _ _ Hok) in Hq.
    unfold all_fast in *. intros Hall.
    assert (forall u, u ∈ m_list (m_waiting (w_lock wd)) ++ granted_tickets (w_lock wd) ->
      supported_type (m_fast_road (w_lock wd)) (get_type (w_heap wd) u) = true) as Hall0.
    { intros u Hu. rewrite <- F1, <- (supported_same _ _ _ F3). apply Hall.
      destruct Ho as [_ _ Hp Hw|_ _ Hp Hw|_ _ Hp Hw];
        rewrite Hp, Hw, !elem_of_app, ?elem_of_cons; rewrite elem_of_app in Hu; tauto. }
    intros u Hu. rewrite F2. destruct Ho as [_ _ Hp Hw|_ Hcf Hp Hw|_ _ Hp Hw]; rewrite Hw in Hu;
      [by apply Hq| |by apply Hq].
    apply elem_of_app in Hu as [Hu|Hu%list_elem_of_singleton]; [by apply Hq|subst u].
    exfalso. destruct (all_fast_no_conflict (w_heap wd) (w_lock wd) s (get_type (w_heap wd) t)
      (get_ctx (w_heap wd) t)) as [N1 N2]; [done| |apply Hf| |by destruct Hcf].
    + apply (slow_zero _ _ _ Hok). intros v. rewrite lock_tickets_split. apply Hall0.
    + rewrite <- F1, <- (supported_same _ _ _ F3). apply Hall. rewrite Hw, !elem_of_app, list_elem_of_singleton. auto.
Qed.

Lemma new_ticket_heap d h lk s t tk :
  lock_okd d h lk s -> h !! t = None ->
  (forall t', t' ∈ lock_tickets lk -> <[t := tk]> h !! t' = h !! t').
Proof.
  intros Hok Hn t' Ht'. apply lookup_insert_ne. intros <-.
  destruct (valid_type_alive h t (lock_ticket_valid _ _ _ _ _ Hok Ht')) as [? E].
  by rewrite Hn in E.
Qed.

Lemma new_world_ok n s h lk w t type c :
  world_ok n s (mk_world h lk w) -> h !! t = None ->
  world_ok n s (mk_world (<[t := mk_ticket type c None None]> h) lk w).
Proof.
  intros [Hok Hsh H1 Hq Hh] Hn. simpl in *.
  pose proof (new_ticket_heap _ _ _ _ _ (mk_ticket type c None None) Hok Hn) as Hl.
  assert (lock_ok (<[t := mk_ticket type c None None]> h) lk s) as Hok'.
  { eapply lock_okd_ext; [|exact Hok]. intros t' Ht'. unfold get_type, fast_lane. by rewrite Hl. }
  split; simpl; [done|done| | |done].
  - intros t1 t2 Ht1 Ht2. unfold get_ctx. rewrite !Hl by auto with mdb. by apply H1.
  - rewrite quiet_iff in Hq |- * by done. intros Hall u Hu. unfold get_ctx. rewrite Hl by auto with mdb.
    apply Hq; [|done]. intros v Hv. specialize (Hall v Hv). unfold get_type in Hall.
    rewrite Hl in Hall; [done|]. by rewrite lock_tickets_split.
Qed.

(** A step that leaves the waiting requests and the wait slots alone. *)
Lemma quiet_same n s wd wd' :
  world_ok n s wd -> lock_ok (w_heap wd') (w_lock wd') s -> same_shape (w_lock wd) (w_lock wd') ->
  m_list (m_waiting (w_lock wd')) = m_list (m_waiting (w_lock wd)) -> w_waits wd' = w_waits wd ->
  same_ctxs (w_heap wd) (w_heap wd') ->
  (all_fast (w_heap wd') (w_lock wd') -> all_fast (w_heap wd) (w_lock wd)) ->
  quiet (w_heap wd') (w_lock wd') (w_waits wd').
Proof.
  intros [Hok _ _ Hq _] Hok' Hsh HW Ew Hc Hall. rewrite quiet_iff in Hq |- * by done.
  rewrite HW, Ew. intros H u Hu. rewrite (Hc u). by apply Hq; [apply Hall|].
Qed.

Lemma set_status_empty w c st c' :
  st ≠ EMPTY -> get_status (set_status w c st).2 c' = EMPTY -> get_status w c' = EMPTY.
Proof.
  intros Hst. unfold set_status. case_decide; [|done]. simpl.
  destruct (decide (c = c')) as [<-|]; [done|]. by rewrite get_status_insert_ne.
Qed.

Lemma add_cloned_hogs wd t : m_hog_lock_count (w_lock (add_cloned_ticket wd t)) = m_hog_lock_count (w_lock wd).
Proof. unfold add_cloned_ticket. by destruct (Fast_road_close _ _ _ _) as [[? ?] ?]. Qed.

Lemma upgrade_hogs wd t type remove :
  m_hog_lock_count (w_lock (upgrade wd t type remove)) = m_hog_lock_count (w_lock wd).
Proof.
  unfold upgrade, upgrade_remove. destruct remove as [r|]; [|done].
  by destruct (Fast_road_try_release _ _ _) as [[[] ?] ?].
Qed.

(** Changing a type to one that the lanes serve if they serve the old one. *)
Lemma retype_fast fr h t type u :
  is_Some (h !! t) -> supported_type fr type = supported_type fr (get_type h t) ->
  supported_type fr (get_type (alter (set_type type) t h) u) = supported_type fr (get_type h u).
Proof. intros Hal Hs. rewrite get_type_set_type by done. case_decide; [by subst|done]. Qed.

Lemma upgrade_world_ok n s `{!LawfulStrategy s} wd t type x rem :
  world_ok n s wd ->
  t ∈ granted_tickets (w_lock wd) -> fast_lane (w_heap wd) t = None -> valid_type type ->
  supported_type (m_fast_road (w_lock wd)) type =
  supported_type (m_fast_road (w_lock wd)) (get_type (w_heap wd) t) ->
  x ∈ granted_tickets (w_lock wd) -> x ≠ t ->
  rem = None \/ rem = Some x /\ get_type (w_heap wd) x = type ->
  world_ok n s (upgrade wd t type rem).
Proof.
  intros Hw Hin Hfl Hv Hsup Hx Hne Hrem. pose proof Hw as [Hok Hsh H1 Hq Hh].
  destruct (upgrade_spec wd s t type rem Hok Hin Hfl Hv Hsup) as (Eh & Ew & Hok' & Hsh' & Hp & HW).
  { intros r ->. destruct Hrem as [?|[[= ->] _]]; done. }
  assert (same_ctxs (w_heap wd) (w_heap (upgrade wd t type rem))) as Hc
    by (rewrite Eh; intros ?; by apply get_ctx_alter).
  assert (is_Some (w_heap wd !! t)) as Hal
    by eauto using valid_type_alive, lock_ticket_valid with mdb.
  split; [done|by eapply lock_shape_same| |eapply quiet_same; eauto|by rewrite upgrade_hogs].
  - rewrite HW. by eapply one_wait_each_ext.
  - intros Hall u Hu. rewrite elem_of_app, Hp, elem_of_app in Hu.
    assert (forall v, v ∈ m_list (m_waiting (w_lock wd)) ++ granted_tickets (w_lock (upgrade wd t type rem)) ->
      supported_type (m_fast_road (w_lock wd)) (get_type (w_heap wd) v) = true) as Hall'.
    { intros v Hv'. rewrite <- (retype_fast _ _ t type v), <- Eh, <- (supported_same _ _ _ Hsh') by done.
      apply Hall. by rewrite HW. }
    destruct Hu as [Hu|[Hu|Hu]]; [apply Hall'; set_solver| |apply Hall'; set_solver].
    destruct Hrem as [->|[-> E]]; [by apply elem_of_nil in Hu|].
    apply list_elem_of_singleton in Hu as ->. rewrite E, Hsup. apply Hall'.
    rewrite elem_of_app. right. rewrite Hp in Hin. apply elem_of_app in Hin as [Hin|]; [|done].
    by apply list_elem_of_singleton in Hin.
Qed.

Lemma clone_world_ok n s wd t :
  world_ok n s wd -> fresh (w_heap wd) (w_lock wd) t -> room (w_lock wd) ->
  world_ok n s (add_cloned_ticket wd t).
Proof.
  intros Hw Hf Hr. pose proof Hw as [Hok Hsh H1 Hq Hh].
  destruct (add_cloned_ticket_spec wd t s Hok Hf Hr) as (Hok' & [F1 F2 F3] & Hp & HW & Ew).
  split; [done|by eapply lock_shape_same| |eapply quiet_same; eauto; [by rewrite HW|]|by rewrite add_cloned_hogs].
  - rewrite HW. by eapply one_wait_each_ext.
  - intros Hall u Hu. rewrite <- F1, <- (supported_same _ _ _ F3). apply Hall.
    rewrite HW, elem_of_app, Hp, elem_of_cons. rewrite elem_of_app in Hu. tauto.
Qed.

Lemma mdl_step_ok max n tid s `{!LawfulStrategy s} op r wd wd' :
  world_ok n s wd -> r ≠ r_removed -> mdl_step max n tid s op r wd wd' -> world_ok n s wd'.
Proof.
  intros Hw Hres Hst. pose proof Hw as [Hok Hsh H1 Hq Hh].
  destruct Hst as [ |wd t wait st wd' ns Hf Hr Hc E|wd t wait st wd' ns Hf Hr Hc E
    |wd t b [h' lk' w'] Hin E|wd t b [h' lk' w'] Hin E|wd t t0 Hf Hr _ _ _
    |wd t type Hin Hv _ Hsup|wd t type x rem Hin Hfl Hv Hsup Hx Hne _ _ Hrem
    |wd t type wd' Hin Hv Hsup E|h lk w c st Hst|h lk w c Hc].
  - by apply new_world_ok.
  - destruct (try_acquire_spec n tid wd s t wait st wd' ns Hok Hf Hr E) as (? & ? & ? & ? & ?).
    by eapply acquire_world_ok.
  - destruct (acquire_conventional_spec wd s t wait st wd' ns Hok Hf Hr E) as (? & ? & ? & ? & ?).
    by eapply acquire_world_ok.
  - destruct (release_spec n max wd t s _ _ Hok Hsh Hin H1 Hq E) as [Eh Hl]. simpl in *. subst h'.
    destruct b; [done|]. by eapply left_world_ok; [|apply Hl].
  - destruct (abort_wait_spec n max wd t s _ _ Hok Hsh Hin H1 E) as [Eh Hl]. simpl in *. subst h'.
    destruct b; [done|]. by eapply left_world_ok; [|apply Hl].
  - by apply clone_world_ok.
  - destruct (downgrade_spec max wd t type s Hok Hin Hv Hsup H1 Hq) as [Eh [R1 R2 R3 R4 R5]].
    split; [done|by eapply lock_shape_same| |eapply settled_quiet; [done|by apply R4]|auto]. rewrite Eh.
    eapply one_wait_sub; [intros t'; by eapply wakes_waiting|].
    eapply one_wait_each_ext; [intros ?; by apply get_ctx_alter|done].
  - by eapply upgrade_world_ok.
  - destruct (try_fast_upgrade_spec wd s t type wd' Hok Hin Hv Hsup E) as (-> & Hok' & Hsc).
    split; [done..| |intros _ u Hu; simpl; rewrite get_ctx_alter by done; by apply Hq|done].
    eapply one_wait_each_ext; [intros ?; by apply get_ctx_alter|done].
  - split; simpl; [done..| |done]. intros Hsc u Hu He. apply (Hq Hsc u Hu).
    by eapply set_status_empty.
  - split; simpl; [done..| |done]. intros Hsc u Hu He. apply (Hq Hsc u Hu).
    unfold reset_status in He. simpl in *. rewrite get_status_insert_ne in He; [done|].
    intros Ec. by apply (Hc u).
Qed.

(** ** Simulation *)

Definition wabs (wd : world) : alock := abs (w_heap wd) (w_lock wd).

Lemma holders_framed h lk h' lk' l : framed h lk h' lk' -> holders h' l = holders h l.
Proof. intros Hf. apply holders_ext. intros. by eapply framed_holder. Qed.

Lemma acquire_sim h lk s t wait h' lk' st :
  framed h lk h' lk' -> valid_type (get_type h t) ->
  acquire_outcome h lk s t wait lk' st -> rtc (astep s) (abs h lk) (abs h' lk').
Proof.
  intros Hf Hv Ho. unfold abs. rewrite !(holders_framed _ _ _ _ _ Hf).
  destruct Ho as [H1 H2 Hp Hw|_ Hc Hp Hw|_ _ Hp Hw]; rewrite Hp, Hw.
  - rewrite holders_cons. apply rtc_once, as_grant; [| |done].
    + by rewrite conflict_abs.
    + by rewrite priority_abs.
  - rewrite <- Permutation_cons_append, holders_cons. apply rtc_once, as_queue; [|done].
    rewrite conflict_abs, priority_abs. tauto.
  - done.
Qed.

Lemma left_sim max h lk s q t w lk' w' :
  t ∈ m_list (m_waiting lk) \/ q = queue_granted ->
  left_lock max h lk s q t w lk' w' -> rtc (astep s) (abs h lk) (abs h lk').
Proof.
  intros Hin [_ _ (G0 & W0 & Hq & Hw) _]. etransitivity; [|by eapply wakes_sim].
  apply rtc_once. unfold abs. destruct q, Hq as [Hp Hp'].
  - rewrite Hp, Hp'. apply as_leave.
  - destruct Hin as [Hin|?]; [|done].
    rewrite Hp, Hp', (holders_take h _ t Hin). apply as_abort.
Qed.

Lemma granted_nodup d h lk s : lock_okd d h lk s -> NoDup (granted_tickets lk).
Proof.
  intros Hok. pose proof (lo_nodup _ _ _ _ Hok) as Hnd. rewrite lock_tickets_split in Hnd.
  by apply NoDup_app in Hnd as (_ & _ & ?).
Qed.

Lemma fast_upgrade_sim h lk s t type :
  lock_ok h lk s -> t ∈ granted_tickets lk -> valid_type type ->
  supported_type (m_fast_road lk) type = true -> slow_count h lk = 0 ->
  rtc (astep s) (abs h lk) (abs (alter (set_type type) t h) lk).
Proof.
  intros Hok Hin Hv Hsup Hsc. set (h' := alter _ t h).
  pose proof (granted_not_waiting _ _ _ _ _ Hok Hin) as Hnw.
  pose proof (granted_nodup _ _ _ _ Hok) as Hnd.
  destruct (all_fast_no_conflict h lk s type (get_ctx h t) Hok Hsc Hv Hsup) as [Hw Hg].
  assert (forall l, t ∉ l -> holders h' l = holders h l) as Hext.
  { intros l Hl. apply holders_ext. intros u Hu. unfold holder_of, h'.
    rewrite get_ctx_alter, get_type_set_type_ne; [done|by intros ->|done]. }
  unfold abs. rewrite (Hext _ Hnw), (holders_take h' _ t Hin), Hext, (holders_take h _ t Hin);
    [|rewrite elem_of_remove_first_iff by done; tauto].
  eapply rtc_l; [apply as_leave|]. apply rtc_once.
  assert (holder_of h' t = (get_ctx h t, type)) as ->.
  { unfold holder_of, h'. rewrite get_ctx_alter, get_type_set_type by
      eauto using valid_type_alive, lock_ticket_valid with mdb. by case_decide. }
  apply as_grant; [..|done].
  - intros (y & (u & Hu & ->)%elem_of_holders & Hc). apply Hg. exists u.
    split; [by eapply elem_of_remove_first|done].
  - intros (y & (u & Hu & ->)%elem_of_holders & Hc). apply Hw. by exists u.
Qed.

(** What is dropped in an upgrade. *)
Lemma drop_sim s h W (rem : option ptr) G :
  rtc (astep s) (mk_alock (holders h (option_list rem ++ G)) W) (mk_alock (holders h G) W).
Proof. destruct rem; [|done]. apply rtc_once. simpl. rewrite holders_cons. apply as_leave. Qed.

Lemma mdl_step_sim max n tid s `{!LawfulStrategy s} op r wd wd' :
  world_ok n s wd -> r ≠ r_removed -> mdl_step max n tid s op r wd wd' ->
  rtc (astep s) (wabs wd) (wabs wd').
Proof.
  intros [Hok Hsh H1 Hq _] Hres Hst. unfold wabs.
  destruct Hst as [h lk w t type c Hn Hv|wd t wait st wd' ns Hf Hr Hc E|wd t wait st wd' ns Hf Hr Hc E
    |wd t b [h' lk' w'] Hin E|wd t b [h' lk' w'] Hin E|wd t t0 Hf Hr Hin Hc Hs
    |wd t type Hin Hv Hs Hsup|wd t type x rem Hin Hfl Hv Hsup Hx Hne Hc Hs Hrem
    |wd t type wd' Hin Hv Hsup E| | ].
  - simpl in *. replace (abs (<[t:=_]> h) lk) with (abs h lk); [done|].
    pose proof (new_ticket_heap _ _ _ _ _ (mk_ticket type c None None) Hok Hn) as Hh.
    unfold abs. f_equal; symmetry; apply holders_ext; intros; unfold holder_of, get_ctx, get_type;
      rewrite Hh; auto with mdb.
  - destruct (try_acquire_spec n tid wd s t wait st wd' ns Hok Hf Hr E) as (_ & Hfm & Ho & _).
    eapply acquire_sim; [done|apply Hf|done].
  - destruct (acquire_conventional_spec wd s t wait st wd' ns Hok Hf Hr E) as (_ & Hfm & Ho & _).
    eapply acquire_sim; [done|apply Hf|done].
  - destruct (release_spec n max wd t s _ _ Hok Hsh Hin H1 Hq E) as [Hh Hl]. simpl in *. subst h'.
    destruct b; [done|]. eapply left_sim; [by right|apply Hl].
  - destruct (abort_wait_spec n max wd t s _ _ Hok Hsh Hin H1 E) as [Hh Hl]. simpl in *. subst h'.
    destruct b; [done|]. eapply left_sim; [by left|apply Hl].
  - destruct (add_cloned_ticket_spec wd t s Hok Hf Hr) as (_ & Hfm & Hp & HW & _).
    unfold abs. rewrite !(holders_framed _ _ _ _ _ Hfm), Hp, HW. rewrite holders_cons.
    apply rtc_once, (as_dup s (holder_of (w_heap wd) t0)); [|done|done|apply Hf].
    apply elem_of_holders. eauto.
  - destruct (downgrade_spec max wd t type s Hok Hin Hv Hsup H1 Hq) as [Hh [_ _ R3 _]].
    rewrite Hh in *. etransitivity; [|by eapply wakes_sim].
    apply retype_sim; eauto using granted_nodup, granted_not_waiting, valid_type_alive,
      lock_ticket_valid with mdb.
  - destruct (upgrade_spec wd s t type rem Hok Hin Hfl Hv Hsup) as (Hh & _ & _ & _ & Hp & HW).
    { intros r ->. destruct Hrem as [?|[[= ->] _]]; done. }
    rewrite Hh. unfold abs at 2. rewrite HW.
    etransitivity; [|apply (drop_sim s _ _ rem)]. rewrite <- Hp.
    apply retype_sim; eauto using granted_nodup, granted_not_waiting, valid_type_alive,
      lock_ticket_valid with mdb.
  - destruct (try_fast_upgrade_spec wd s t type wd' Hok Hin Hv Hsup E) as (-> & _ & Hsc).
    by apply fast_upgrade_sim.
  - done.
  - done.
Qed.

(** ** Waiting for a reason *)

Definition wsettled (s : MDL_lock_strategy) (all : bool) (wd : world) : Prop :=
  settled (w_heap wd) s all (w_waits wd) (granted_tickets (w_lock wd))
    (m_list (m_waiting (w_lock wd))).

Lemma blocked_ext h h' s G W t :
  (forall u, u ∈ t :: G ++ W -> holder_of h' u = holder_of h u) ->
  blocked h s G W t -> blocked h' s G W t.
Proof.
  intros He.
  assert (forall u, u ∈ t :: G ++ W -> get_type h' u = get_type h u /\ get_ctx h' u = get_ctx h u)
    as Hu by (intros u Hu; specialize (He u Hu); unfold holder_of in He; by simplify_eq).
  destruct (Hu t) as [Ht Hc]; [set_solver|].
  intros [(x & Hx & Hi)|(x & Hx & Hcx & Hi)]; (destruct (Hu x) as [Htx Hcx']; [set_solver|]);
    [left|right]; exists x; rewrite ?Htx, ?Hcx', ?Ht, ?Hc; done.
Qed.

Lemma settled_ext h h' s all w G W :
  (forall u, u ∈ G ++ W -> holder_of h' u = holder_of h u) ->
  settled h s all w G W -> settled h' s all w G W.
Proof.
  intros He Hs t Ht. pose proof (He t ltac:(set_solver)) as Hht. unfold holder_of in Hht.
  injection Hht as -> ->. intros Hh Hst. apply (blocked_ext h); [|by apply Hs].
  intros u Hu. apply He. set_solver.
Qed.

Lemma acquire_settled h lk s all w t wait h' lk' st :
  framed h lk h' lk' -> acquire_outcome h lk s t wait lk' st ->
  settled h s all w (granted_tickets lk) (m_list (m_waiting lk)) ->
  settled h' s all w (granted_tickets lk') (m_list (m_waiting lk')).
Proof.
  intros Hf Ho Hs. eapply settled_ext; [intros; by eapply framed_holder|].
  destruct Ho as [_ _ Hp Hw|_ Hc Hp Hw|_ _ Hp Hw]; rewrite Hw.
  - intros t' Ht' Hh He. eapply blocked_mono; [|done|by apply Hs].
    intros x Hx. rewrite Hp. set_solver.
  - intros t' Ht' Hh He. eapply (blocked_mono _ _ (granted_tickets lk) (m_list (m_waiting lk)));
      [intros x; by rewrite Hp|set_solver|].
    apply elem_of_app in Ht' as [?|Hx%list_elem_of_singleton]; [by apply Hs|by subst t'].
  - intros t' Ht' Hh He. eapply blocked_mono; [|done|by apply Hs].
    intros x Hx. by rewrite Hp.
Qed.

Lemma upgrade_settled h s all w G G' W t type x rem :
  t ∈ G' -> t ∉ W -> is_Some (h !! t) ->
  (forall u, u ∈ W -> is_incompatible_when_granted s (get_type h t) (get_type h u) = true ->
     is_incompatible_when_granted s type (get_type h u) = true) ->
  G ≡ₚ option_list rem ++ G' ->
  rem = None \/ rem = Some x /\ get_type h x = type -> get_ctx h x = get_ctx h t ->
  settled h s all w G W -> settled (alter (set_type type) t h) s all w G' W.
Proof.
  intros Ht Hnw Hal Hcov Hp Hrem Hcx Hs t' Ht'. set (h' := alter _ t h).
  assert (forall u, get_ctx h' u = get_ctx h u) as Hc by (intros; by apply get_ctx_alter).
  assert (forall u, u ≠ t -> get_type h' u = get_type h u) as Hty
    by (intros; apply get_type_set_type_ne; congruence).
  assert (get_type h' t = type) as Htt
    by (unfold h'; rewrite get_type_set_type by done; by case_decide).
  assert (t' ≠ t) as Hne by (intros ->; done).
  rewrite Hc, Hty by done. intros Hh He.
  destruct (Hs t' Ht' Hh He) as [(y & Hy & Hi)|(y & Hy & Hcy & Hi)].
  - left. exists y. rewrite !Hty by (intros ->; done). done.
  - right. destruct (decide (get_ctx h y = get_ctx h t /\ (y = t \/ y ∉ G'))) as [[Hcyt Hy']|Hy'].
    + exists t. rewrite Hc, Htt, <- Hcyt, (Hty t'), Hc by done. split_and!; [done..|].
      destruct Hy' as [->|Hny]; [by apply Hcov; auto|].
      rewrite Hp in Hy. destruct Hrem as [->|[-> <-]]; [done|].
      apply elem_of_cons in Hy as [->|]; done.
    + assert (y ∈ G' /\ y ≠ t) as [HyG Hyt].
      { rewrite Hp in Hy. destruct Hrem as [->|[-> _]]; simpl in Hy.
        - split; [done|]. intros ->. apply Hy'. auto.
        - destruct (decide (y ∈ G')); [split; [done|intros ->; apply Hy'; auto]|].
          apply elem_of_cons in Hy as [->|]; [|done]. destruct Hy'. auto. }
      exists y. by rewrite !Hc, !Hty.
Qed.

(** An upgrade to a type that keeps out the requests that are waiting for the old one.  [upgrade] does
    not look at the waiting requests again. *)
Definition upgrade_ok (s : MDL_lock_strategy) (wd : world) (op : mdl_op) : Prop :=
  match op with
  | op_upgrade x type _ =>
      forall u, u ∈ m_list (m_waiting (w_lock wd)) ->
        is_incompatible_when_granted s x.2 (get_type (w_heap wd) u) = true ->
        is_incompatible_when_granted s type (get_type (w_heap wd) u) = true
  | _ => True
  end.

(** The operations that look at the waiting requests again. *)
Definition reschedules (op : mdl_op) : bool :=
  match op with op_release _ | op_abort _ | op_downgrade _ _ => true | _ => false end.

Lemma rescheduled_settled max n tid s `{!LawfulStrategy s} all op r wd wd' :
  world_ok n s wd -> (all = true -> m_hog_lock_count (w_lock wd) < max) -> reschedules op = true ->
  r ≠ r_removed -> mdl_step max n tid s op r wd wd' -> wsettled s all wd'.
Proof.
  intros [Hok Hsh H1 Hq _] Hhog Hre Hres Hst. unfold wsettled.
  destruct Hst as [| | |wd t b [h' lk' w'] Hin E|wd t b [h' lk' w'] Hin E|
    |wd t type Hin Hv Hst Hsup| | | |]; try done.
  - destruct (release_spec n max wd t s _ _ Hok Hsh Hin H1 Hq E) as [Hh Hl]. simpl in *. subst h'.
    destruct b; [done|]. by apply Hl.
  - destruct (abort_wait_spec n max wd t s _ _ Hok Hsh Hin H1 E) as [Hh Hl]. simpl in *. subst h'.
    destruct b; [done|]. by apply Hl.
  - destruct (downgrade_spec max wd t type s Hok Hin Hv Hsup H1 Hq) as [Hh [_ _ _ R _]]. by apply R.
Qed.

Lemma mdl_step_settled max n tid s `{!LawfulStrategy s} all op r wd wd' :
  world_ok n s wd -> (all = true -> m_hog_lock_count (w_lock wd) < max) -> upgrade_ok s wd op ->
  r ≠ r_removed -> mdl_step max n tid s op r wd wd' -> wsettled s all wd -> wsettled s all wd'.
Proof.
  intros Hw Hhog Hup Hres Hst Hs.
  destruct (reschedules op) eqn:Hre; [by eapply rescheduled_settled|].
  destruct Hw as [Hok Hsh H1 Hq _]. unfold wsettled in *.
  destruct Hst as [h lk w t type c Hn Hv|wd t wait st wd' ns Hf Hr Hc E|wd t wait st wd' ns Hf Hr Hc E
    |wd t b [h' lk' w'] Hin E|wd t b [h' lk' w'] Hin E|wd t t0 Hf Hr Hin Hc Hst
    |wd t type Hin Hv Hst Hsup|wd t type x rem Hin Hfl Hv Hsup Hx Hne Hc Hst Hrem
    |wd t type wd' Hin Hv Hsup E|h lk w c st Hst|h lk w c Hc]; try done.
  - simpl in *. eapply settled_ext; [|exact Hs]. intros u Hu. unfold holder_of, get_ctx, get_type.
    rewrite (new_ticket_heap _ _ _ _ _ _ Hok Hn); [done|]. rewrite lock_tickets_split. set_solver.
  - destruct (try_acquire_spec n tid wd s t wait st wd' ns Hok Hf Hr E) as (_ & Hfm & Ho & -> & _).
    by eapply acquire_settled.
  - destruct (acquire_conventional_spec wd s t wait st wd' ns Hok Hf Hr E) as (_ & Hfm & Ho & -> & _).
    by eapply acquire_settled.
  - destruct (add_cloned_ticket_spec wd t s Hok Hf Hr) as (_ & Hfm & Hp & HW & ->).
    eapply settled_ext; [intros; by eapply framed_holder|]. rewrite HW.
    intros t' Ht' Hh He. eapply blocked_mono; [|done|by apply Hs].
    intros y Hy. rewrite Hp. set_solver.
  - destruct (upgrade_spec wd s t type rem Hok Hin Hfl Hv Hsup) as (Hh & -> & _ & _ & Hp & HW).
    { intros r ->. destruct Hrem as [?|[[= ->] _]]; done. }
    rewrite Hh, HW. eapply upgrade_settled; eauto using granted_not_waiting, valid_type_alive,
      lock_ticket_valid with mdb.
    rewrite Hp in Hin. apply elem_of_app in Hin as [Hr|]; [|done].
    destruct Hrem as [->|[-> _]]; simpl in Hr; [by apply elem_of_nil in Hr|].
    apply list_elem_of_singleton in Hr. done.
  - destruct (try_fast_upgrade_spec wd s t type wd' Hok Hin Hv Hsup E) as (-> & _ & Hsc). simpl.
    intros t' Ht' Hh He. rewrite get_ctx_alter in He by done. by destruct (Hq Hsc t').
  - intros t Ht Hh He. apply Hs; [done..|]. by eapply set_status_empty.
  - intros t Ht Hh He. apply Hs; [done..|]. simpl in *. unfold reset_status in He.
    rewrite get_status_insert_ne in He; [done|]. by intros ->; apply (Hc t).
Qed.

(** *** The limit on hog locks *)

Lemma holder_ne_ticket h (t u : ptr) op : op = op_abort (holder_of h t) -> op ≠ op_abort (holder_of h u) -> u ≠ t.
Proof. intros -> Hne ->. done. Qed.

(** While the lanes are open there is nobody to pass over. *)
Lemma quiet_hogs_passed h lk s w lk' h' :
  quiet h lk w -> slow_count h lk = 0 -> m_waiting lk' = m_waiting lk -> same_ctxs h h' ->
  hogs_passed h' s (m_list (m_waiting lk)) lk' w.
Proof.
  intros Hq Hsc HW Hc. split; rewrite HW; [done|]. intros t Ht _ He. rewrite (Hc t) in He.
  by destruct (Hq Hsc t Ht).
Qed.

Lemma release_skip max n wd t s b wd' :
  world_ok n s wd -> t ∈ granted_tickets (w_lock wd) -> max <= m_hog_lock_count (w_lock wd) ->
  (exists t0, t0 ∈ m_list (m_waiting (w_lock wd)) /\ is_hog s (get_type (w_heap wd) t0) = false) ->
  MDL_lock_release max wd t = (b, wd') ->
  b = false /\ w_heap wd' = w_heap wd /\
  hogs_passed (w_heap wd) s (m_list (m_waiting (w_lock wd))) (w_lock wd') (w_waits wd').
Proof.
  intros [Hok _ H1 Hq _] Hin Hmax Hlow. unfold MDL_lock_release, Fast_road_try_release, lane_action.
  destruct (fast_action _ _ _ t Hok Hin) as [[Hg ->]|(i & l & Hf & Hi & Ht & Hsc)].
  - by apply (remove_ticket_skip max wd queue_granted t s).
  - rewrite Hf, Hi. unfold Lane_release, Lane_ticket_action. rewrite Hf. intros [= <- <-].
    split_and!; [done..|]. by apply (quiet_hogs_passed (w_heap wd) (w_lock wd)).
Qed.

Lemma downgrade_skip max n wd t type s :
  world_ok n s wd -> t ∈ granted_tickets (w_lock wd) -> valid_type type ->
  supported_type (m_fast_road (w_lock wd)) type =
  supported_type (m_fast_road (w_lock wd)) (get_type (w_heap wd) t) ->
  max <= m_hog_lock_count (w_lock wd) ->
  (exists t0, t0 ∈ m_list (m_waiting (w_lock wd)) /\ is_hog s (get_type (w_heap wd) t0) = false) ->
  let wd' := downgrade max wd t type in
  hogs_passed (w_heap wd') s (m_list (m_waiting (w_lock wd))) (w_lock wd') (w_waits wd').
Proof.
  intros [Hok _ H1 Hq _] Hin Hv Hsup Hmax (t0 & Ht0 & Hh0). unfold downgrade, try_fast_upgrade.
  destruct wd as [h lk w]. cbn [w_heap w_lock w_waits] in *.
  assert (same_ctxs h (alter (set_type type) t h)) as Hc by (intros ?; by apply get_ctx_alter).
  destruct (fast_action h lk s t Hok Hin) as [[Hg Hf]|(i & l & Hf & Hi & Ht & Hsc)].
  - unfold Fast_road_try_change_ticket_type, lane_action. rewrite Hf, set_road_id.
    pose proof (requeue_okd 0 h lk s w t type Hok Hg Hv Hsup) as Hok2. rewrite (lo_strategy _ _ _ _ Hok2).
    destruct (reschedule_waiters _ _ _ _ _) as [lk' w'] eqn:E. cbn [w_heap w_lock w_waits].
    apply (reschedule_waiters_skip 0 max _ _ _ w _ _ Hok2); [lia|by eapply one_wait_each_ext|done| |exact E].
    exists t0. split; [done|]. rewrite get_type_set_type_ne; [done|].
    intros <-. by apply (granted_not_waiting _ _ _ _ _ Hok Hin).
  - rewrite (fast_change_type h lk s t i l type Hok Hf Hi), set_road_id. by apply (quiet_hogs_passed h lk).
Qed.

Lemma rescheduled_hogs max n tid s `{!LawfulStrategy s} op r wd wd' :
  world_ok n s wd -> reschedules op = true -> mdl_step max n tid s op r wd wd' ->
  max <= m_hog_lock_count (w_lock wd) ->
  (exists t, t ∈ m_list (m_waiting (w_lock wd)) /\ op ≠ op_abort (holder_of (w_heap wd) t) /\
     is_hog s (get_type (w_heap wd) t) = false) ->
  r = r_done /\
  (forall t, t ∈ m_list (m_waiting (w_lock wd)) -> op ≠ op_abort (holder_of (w_heap wd) t) ->
     is_hog s (get_type (w_heap wd) t) = true -> t ∈ m_list (m_waiting (w_lock wd'))) /\
  (forall t, t ∈ m_list (m_waiting (w_lock wd')) -> is_hog s (get_type (w_heap wd') t) = false ->
     get_status (w_waits wd') (get_ctx (w_heap wd') t) = EMPTY ->
     granted_conflict (w_heap wd') s (granted_tickets (w_lock wd'))
       (get_type (w_heap wd') t) (get_ctx (w_heap wd') t)).
Proof.
  intros Hw Hre Hst Hmax (t0 & Ht0 & Hne0 & Hh0). pose proof Hw as [Hok _ H1 Hq _].
  destruct Hst as [| | |wd t b wd' Hin E|wd t b wd' Hin E| |wd t type Hin Hv Hst Hsup| | | |]; try done.
  - destruct (release_skip max n wd t s b wd' Hw Hin Hmax) as (-> & -> & Hp1 & Hp2); [by exists t0|done|].
    split_and!; [done|by auto|done].
  - pose proof (lo_waiting _ _ _ _ Hok) as Hwl.
    destruct (remove_ticket_skip max wd queue_waiting t s b wd' Hok Hin H1 Hmax) as (-> & -> & Hp1 & Hp2); [|done|].
    { exists t0. split; [|done]. simpl. apply elem_of_remove_first_ne; [|done]. by eapply holder_ne_ticket. }
    split_and!; [done| |done]. intros u Hu Hne Hh. apply Hp1; [|done]. simpl.
    apply elem_of_remove_first_ne; [|done]. by eapply holder_ne_ticket.
  - destruct (downgrade_skip max n wd t type s Hw Hin Hv Hsup Hmax) as [Hp1 Hp2]; [by exists t0|].
    destruct (downgrade_spec max wd t type s Hok Hin Hv Hsup H1 Hq) as [Eh _].
    split_and!; [done| |done]. intros u Hu _ Hh. apply Hp1; [done|]. rewrite Eh, get_type_set_type_ne; [done|].
    intros <-. by apply (granted_not_waiting _ _ _ _ _ Hok Hin).
Qed.

(** ** Reachable states *)

(** A lock as it is put into the map, before anybody uses it. *)
Definition init_world (n : Z) (alloc : bool) (k : MDL_key) : world :=
  mk_world ∅ (MDL_lock_init n alloc k) ∅.

(** The strategy of the locks of a key. *)
Definition strategy_of (k : MDL_key) : MDL_lock_strategy :=
  if mdl_namespace k =? namespace_code BACKUP then MDL_backup_lock
  else if mdl_namespace k =? namespace_code SCHEMA then MDL_scoped_lock else MDL_object_lock.

#[export] Instance strategy_of_lawful k : LawfulStrategy (strategy_of k).
Proof. unfold strategy_of. repeat case_match; apply _. Qed.

Lemma strategy_of_symmetric k :
  mdl_namespace k ≠ namespace_code BACKUP -> SymmetricStrategy (strategy_of k).
Proof. intros Hk. unfold strategy_of. repeat case_match; bool_to_prop; [done|apply _..]. Qed.

Lemma empty_lock_ok h k fr s :
  FastTypes s (m_supported_types fr) ->
  (forall i l, m_lanes fr !! i = Some l -> l = mk_lane [] 0) ->
  lock_ok h (mk_lock k empty_Ticket_list empty_Ticket_list 0 fr (Some s)) s.
Proof.
  intros Hf Hl.
  assert (lane_tickets (m_lanes fr) = []) as Hn.
  { destruct (lane_tickets _) as [|t l] eqn:E; [done|].
    assert (t ∈ lane_tickets (m_lanes fr)) as (i & la & Hi & Ht)%elem_of_lane_tickets
      by (rewrite E; set_solver).
    rewrite (Hl i la Hi) in Ht. by apply elem_of_nil in Ht. }
  split; unfold lock_tickets; simpl; rewrite ?Hn; try done.
  - apply empty_tl_ok.
  - apply empty_tl_ok.
  - constructor.
  - intros i l t Hi. rewrite (Hl i l Hi). simpl. set_solver.
  - set_solver.
  - intros i l Hi. by rewrite (Hl i l Hi).
  - intros i l Hi. by rewrite (Hl i l Hi).
Qed.

(** The lanes are open but nobody is there. *)
Lemma init_quiet n alloc k : quiet ∅ (MDL_lock_init n alloc k) ∅.
Proof. intros _ t. unfold MDL_lock_init. case_match; by intros ?%elem_of_nil. Qed.

Lemma init_world_ok n alloc k : world_ok n (strategy_of k) (init_world n alloc k).
Proof.
  split; [| | |apply init_quiet|]; unfold init_world, MDL_lock_init, strategy_of, Fast_road_enable; cbn [w_heap w_lock w_waits].
  - case_match; [case_match eqn:En|]; apply empty_lock_ok; try apply _; try done.
    intros i l Hi. simpl in Hi. by apply lookup_replicate in Hi as [-> _].
  - case_match eqn:Ek; bool_to_prop; [|split; simpl; auto].
    case_match eqn:En; split; simpl; auto; [|done]. apply andb_true_iff in En as [En _]. bool_to_prop.
    right. by rewrite length_replicate.
  - case_match; by intros ? ? ?%elem_of_nil.
  - by case_match.
Qed.

(** Some step of a lock that stays in the map; a lock that was removed takes no further step. *)
Definition mdl_any_step (max n : Z) (tid : ctx_id -> Z) (s : MDL_lock_strategy)
    (wd wd' : world) : Prop :=
  exists op r, r ≠ r_removed /\ mdl_step max n tid s op r wd wd'.

Lemma reach_ok max n tid s `{!LawfulStrategy s} wd wd' :
  rtc (mdl_any_step max n tid s) wd wd' -> world_ok n s wd -> world_ok n s wd'.
Proof. induction 1 as [|? ? ? (op & r & Hr & Hst)]; eauto using mdl_step_ok. Qed.

Lemma reach_sim max n tid s `{!LawfulStrategy s} wd wd' :
  rtc (mdl_any_step max n tid s) wd wd' -> world_ok n s wd ->
  rtc (astep s) (wabs wd) (wabs wd').
Proof.
  induction 1 as [|? ? ? (op & r & Hr & Hst)]; [done|]. intros Hw.
  etransitivity; [by eapply mdl_step_sim|]. eauto using mdl_step_ok.
Qed.

(** ** The outcome of a request, abstractly *)

Inductive a_outcome (s : MDL_lock_strategy) (a : alock) (x : holder) (wait : bool) :
    tal_status -> alock -> Prop :=
| aout_acquired :
    ~ (a_conflict s (a_granted a) x \/ a_priority s (a_waiting a) x) ->
    a_outcome s a x wait TAL_ACQUIRED (mk_alock ({[+ x +]} ⊎ a_granted a) (a_waiting a))
| aout_wait :
    wait = true -> a_conflict s (a_granted a) x \/ a_priority s (a_waiting a) x ->
    a_outcome s a x wait TAL_WAIT (mk_alock (a_granted a) ({[+ x +]} ⊎ a_waiting a))
| aout_nowait :
    wait = false -> a_conflict s (a_granted a) x \/ a_priority s (a_waiting a) x ->
    a_outcome s a x wait TAL_NOWAIT a.

Lemma a_outcome_fun s a x wait st1 a1 st2 a2 :
  a_outcome s a x wait st1 a1 -> a_outcome s a x wait st2 a2 -> st1 = st2 /\ a1 = a2.
Proof. destruct 1, 1; naive_solver. Qed.

Lemma outcome_abs h lk s t wait h' lk' st :
  framed h lk h' lk' -> acquire_outcome h lk s t wait lk' st ->
  a_outcome s (abs h lk) (holder_of h t) wait st (abs h' lk').
Proof.
  intros Hf Ho. unfold abs at 2. rewrite !(holders_framed _ _ _ _ _ Hf).
  destruct Ho as [H1 H2 Hp Hw|Hwt Hc Hp Hw|Hwt Hc Hp Hw]; rewrite Hp, Hw.
  - rewrite holders_cons. apply (aout_acquired s (abs h lk)). simpl.
    rewrite conflict_abs, priority_abs. tauto.
  - rewrite <- Permutation_cons_append, holders_cons. apply (aout_wait s (abs h lk)); [done|].
    simpl. rewrite conflict_abs, priority_abs. tauto.
  - apply (aout_nowait s (abs h lk)); [done|]. simpl. rewrite conflict_abs, priority_abs. tauto.
Qed.
