(* ===== verification/MdlLockRefine.v ===== *)
(** * The metadata lock refines a simple scheduler

    The lock without tickets, bitmaps, counters of types and fast lanes: the multiset of the holders, the
    queue of the waiting requests, the number of hog locks granted in a row, and the wait slots.  Each
    operation is a function on this state.  The operations of [MDL_lock] compute the same results and
    lead to the same states. *)

From stdpp Require Import gmultiset.
From S2P Require Import Prelude MdlTypes MdlKey MdlLock MdlLockInv MdlLockOps MdlLockSpec.

(** ** The specification *)

Record slock := mk_slock {
  s_granted : gmultiset holder;
  s_waiting : list holder;
  s_hogs : Z;
  s_slots : wait_slots;
}.

Definition s_init : slock := mk_slock ∅ [] 0 ∅.

Definition conflicts (s : MDL_lock_strategy) (G : gmultiset holder) (x : holder) : bool :=
  existsb (fun y => negb (Nat.eqb y.1 x.1) && is_incompatible_when_granted s y.2 x.2) (elements G).

Definition outranked (s : MDL_lock_strategy) (W : list holder) (x : holder) : bool :=
  existsb (fun y => is_incompatible_when_waiting s y.2 x.2) W.

Definition low_waiting (s : MDL_lock_strategy) (W : list holder) : bool :=
  existsb (fun y => negb (is_hog s y.2)) W.

(** A waiting request is looked at: it is granted if nothing stands against it and its wait slot is
    free.  With [skip] requests of hog types are passed over and the others go before them. *)
Definition wake_one (s : MDL_lock_strategy) (skip : bool) (a : slock) (x : holder) : slock :=
  if skip && is_hog s x.2 then a
  else if conflicts s (s_granted a) x || (negb skip && outranked s (s_waiting a) x) then a
  else if decide (get_status (s_slots a) x.1 = EMPTY) then
    mk_slock ({[+ x +]} ⊎ s_granted a) (remove_first x (s_waiting a))
      (if is_hog s x.2 then u64 (s_hogs a + 1) else s_hogs a) (<[x.1 := GRANTED]> (s_slots a))
  else a.

Definition set_hogs (a : slock) (n : Z) : slock := mk_slock (s_granted a) (s_waiting a) n (s_slots a).

Section Exec.
Context (max : Z) (s : MDL_lock_strategy) (backup : bool).

(** All waiting requests, the oldest first; after [max] hog locks the others have their turn. *)
Definition s_reschedule (a : slock) : slock :=
  let skip := (max <=? s_hogs a) && low_waiting s (s_waiting a) in
  let a' := fold_left (wake_one s skip) (s_waiting a) a in
  if low_waiting s (s_waiting a') then a' else set_hogs a' 0.

(** After a holder or a request is gone: a lock nobody uses is removed, unless it is the backup lock. *)
Definition s_leave (a : slock) : mdl_result * slock :=
  if bool_decide (s_granted a = ∅ /\ s_waiting a = [])
  then (if backup then r_done else r_removed, a) else (r_done, s_reschedule a).

Definition s_retype (a : slock) (x : holder) (type : enum_mdl_type) (remove : gmultiset holder) : slock :=
  mk_slock ({[+ (x.1, type) +]} ⊎ (s_granted a ∖ remove ∖ {[+ x +]})) (s_waiting a) (s_hogs a) (s_slots a).

Definition s_exec (a : slock) (op : mdl_op) : mdl_result * slock :=
  match op with
  | op_new => (r_done, a)
  | op_acquire x wait =>
      if conflicts s (s_granted a) x || outranked s (s_waiting a) x then
        if wait then (r_status TAL_WAIT, mk_slock (s_granted a) (s_waiting a ++ [x]) (s_hogs a) (s_slots a))
        else (r_status TAL_NOWAIT, a)
      else (r_status TAL_ACQUIRED, mk_slock ({[+ x +]} ⊎ s_granted a) (s_waiting a) (s_hogs a) (s_slots a))
  | op_release x => s_leave (mk_slock (s_granted a ∖ {[+ x +]}) (s_waiting a) (s_hogs a) (s_slots a))
  | op_abort x => s_leave (mk_slock (s_granted a) (remove_first x (s_waiting a)) (s_hogs a) (s_slots a))
  | op_clone x => (r_done, mk_slock ({[+ x +]} ⊎ s_granted a) (s_waiting a) (s_hogs a) (s_slots a))
  | op_downgrade x type => (r_done, s_reschedule (s_retype a x type ∅))
  | op_upgrade x type remove =>
      (r_done, s_retype a x type (match remove with Some y => {[+ y +]} | None => ∅ end))
  | op_fast_upgrade x type => (r_done, s_retype a x type ∅)
  | op_signal c status =>
      (r_done, mk_slock (s_granted a) (s_waiting a) (s_hogs a) (set_status (s_slots a) c status).2)
  | op_reset c => (r_done, mk_slock (s_granted a) (s_waiting a) (s_hogs a) (reset_status (s_slots a) c))
  end.

(** A sequence of operations with their results. *)
Fixpoint s_run (a : slock) (ops : list mdl_op) : list mdl_result * slock :=
  match ops with
  | [] => ([], a)
  | op :: ops => let '(r, a') := s_exec a op in let '(rs, a'') := s_run a' ops in (r :: rs, a'')
  end.
End Exec.

(** ** Abstraction *)

Definition sabs_of (h : heap) (lk : MDL_lock) (w : wait_slots) : slock :=
  mk_slock (holders h (granted_tickets lk)) (map (holder_of h) (m_list (m_waiting lk)))
    (m_hog_lock_count lk) w.
Definition sabs (wd : world) : slock := sabs_of (w_heap wd) (w_lock wd) (w_waits wd).

Lemma conflicts_abs h s l t :
  conflicts s (holders h l) (holder_of h t) =
  bool_decide (granted_conflict h s l (get_type h t) (get_ctx h t)).
Proof.
  apply Bool.eq_iff_eq_true. rewrite bool_decide_eq_true, <- conflict_abs. unfold conflicts, a_conflict.
  rewrite existsb_exists. setoid_rewrite andb_true_iff. setoid_rewrite neqb_true.
  setoid_rewrite <- list_elem_of_In. by setoid_rewrite gmultiset_elem_of_elements.
Qed.

Lemma outranked_abs h s l t :
  outranked s (map (holder_of h) l) (holder_of h t) = bool_decide (waiting_conflict h s l (get_type h t)).
Proof.
  apply Bool.eq_iff_eq_true. rewrite bool_decide_eq_true. unfold outranked, waiting_conflict.
  rewrite existsb_exists. setoid_rewrite in_map_iff. setoid_rewrite list_elem_of_In. naive_solver.
Qed.

Lemma low_waiting_abs d h lk s :
  lock_okd d h lk s ->
  bits_meet (m_bitmap (m_waiting lk)) (Z.lnot (hog_lock_types_bitmap s)) =
  low_waiting s (map (holder_of h) (m_list (m_waiting lk))).
Proof.
  intros Hok. pose proof (lo_waiting _ _ _ _ Hok) as Hw. apply Bool.eq_iff_eq_true.
  rewrite (tl_bitmap_meet h _ _ Hw). unfold low_waiting. rewrite existsb_exists.
  setoid_rewrite in_map_iff. setoid_rewrite <- list_elem_of_In.
  assert (forall t, t ∈ m_list (m_waiting lk) ->
    bits_meet (MDL_BIT (get_type h t)) (Z.lnot (hog_lock_types_bitmap s)) = negb (is_hog s (get_type h t))) as Hb.
  { intros t Ht. pose proof (tl_valid _ _ Hw t Ht) as Hv. unfold is_hog.
    rewrite !bits_meet_MDL_BIT by done. by rewrite Z.lnot_spec by apply Hv. }
  split.
  - intros (t & Ht & E). exists (holder_of h t). split; [eauto|]. simpl. by rewrite <- Hb.
  - intros (? & (t & <- & Ht) & E). exists t. split; [done|]. by rewrite Hb.
Qed.

Lemma map_remove_first h t l :
  t ∈ l -> one_wait_each h l -> map (holder_of h) (remove_first t l) = remove_first (holder_of h t) (map (holder_of h) l).
Proof.
  induction l as [|u l IH]; intros Ht H1; [by apply elem_of_nil in Ht|]. simpl.
  destruct (decide (t = u)) as [->|Hne]; [by rewrite decide_True|].
  assert (t ∈ l) by (apply elem_of_cons in Ht as [?|?]; done).
  rewrite decide_False.
  - simpl. f_equal. apply IH; [done|]. intros t1 t2 ? ?. apply H1; by apply elem_of_cons; right.
  - intros [= Hc _]. apply Hne, H1; [by apply elem_of_cons; right|by apply elem_of_cons; left|done].
Qed.

(** ** Rescheduling *)

Lemma wake_one_abs d h lk s skip it w lk' w' :
  lock_okd d h lk s -> 0 <= d -> it ∈ m_list (m_waiting lk) -> one_wait_each h (m_list (m_waiting lk)) ->
  reschedule_step s skip h it lk w = (lk', w') ->
  sabs_of h lk' w' = wake_one s skip (sabs_of h lk w) (holder_of h it).
Proof.
  intros Hok Hd Hit H1 E. unfold wake_one. cbn [sabs_of s_granted s_waiting s_hogs s_slots].
  rewrite conflicts_abs, outranked_abs. cbn [holder_of fst snd].
  destruct (reschedule_step_spec _ _ _ _ _ _ _ _ _ Hok Hd Hit E)
    as [[R1 R2 R3 R4 R5 R6 R7 R8]|(-> & -> & Hb)].
  - assert (skip && is_hog s (get_type h it) = false) as -> by (destruct skip; [by apply R7|done]).
    rewrite (bool_decide_eq_false_2 (granted_conflict _ _ _ _ _)) by done.
    assert (negb skip && bool_decide (waiting_conflict h s (m_list (m_waiting lk)) (get_type h it)) = false) as ->.
    { destruct R4 as [->|R4]; [done|]. rewrite bool_decide_eq_false_2 by done. apply andb_false_r. }
    simpl. rewrite decide_True by done. unfold sabs_of. rewrite R5, holders_cons, R6, R8, R2.
    by rewrite map_remove_first.
  - destruct Hb as [[-> ->]|[Hne|[[-> Hw]|Hg]]]; [done| | |].
    + repeat case_match; done.
    + rewrite (bool_decide_eq_true_2 (waiting_conflict _ _ _ _)), orb_true_r by done. done.
    + rewrite (bool_decide_eq_true_2 (granted_conflict _ _ _ _ _)) by done. by case_match.
Qed.

Lemma wake_loop_abs d h s skip its lk w lk' w' :
  lock_okd d h lk s -> 0 <= d -> NoDup its -> (forall t, t ∈ its -> t ∈ m_list (m_waiting lk)) ->
  one_wait_each h (m_list (m_waiting lk)) ->
  reschedule_loop s skip h its lk w = (lk', w') ->
  sabs_of h lk' w' = fold_left (wake_one s skip) (map (holder_of h) its) (sabs_of h lk w).
Proof.
  revert lk w. induction its as [|it its IH]; simpl; intros lk w Hok Hd Hnd Hin H1 E; [by simplify_eq|].
  destruct (reschedule_step s skip h it lk w) as [lk1 w1] eqn:E1.
  assert (it ∈ m_list (m_waiting lk)) as Hit by (apply Hin; set_solver).
  apply NoDup_cons in Hnd as [Hnin Hnd].
  rewrite <- (wake_one_abs _ _ _ _ _ _ _ _ _ Hok Hd Hit H1 E1). apply IH; try done.
  - by eapply reschedule_step_okd.
  - intros t Ht. eapply reschedule_step_waiting; [done|set_solver|apply Hin; set_solver|]. apply Hok.
  - eapply one_wait_sub; [|exact H1]. intros t.
    destruct (reschedule_step_spec _ _ _ _ _ _ _ _ _ Hok Hd Hit E1) as [R|(-> & _)]; [|done].
    rewrite (rs_waiting _ _ _ _ _ _ _ _ R). apply elem_of_remove_first.
Qed.

Lemma reschedule_abs d max h lk s w lk' w' :
  lock_okd d h lk s -> 0 <= d -> one_wait_each h (m_list (m_waiting lk)) ->
  reschedule_waiters max h lk s w = (lk', w') ->
  sabs_of h lk' w' = s_reschedule max s (sabs_of h lk w).
Proof.
  intros Hok Hd H1 E. unfold reschedule_waiters, skip_high_priority in E. unfold s_reschedule.
  cbn [sabs_of s_waiting s_hogs]. rewrite <- (low_waiting_abs _ _ _ _ Hok).
  destruct (reschedule_loop _ _ _ _ _ _) as [lk1 w1] eqn:E1.
  pose proof (tl_nodup _ _ (lo_waiting _ _ _ _ Hok)) as Hnd.
  assert (lock_okd d h lk1 s) as Hok1 by (eapply reschedule_loop_okd; [done|done| |done]; done).
  rewrite <- (wake_loop_abs d h s _ _ lk w lk1 w1) by done.
  cbn [sabs_of s_waiting]. rewrite <- (low_waiting_abs _ _ _ _ Hok1). case_match; by simplify_eq.
Qed.

(** Nothing happens when no waiting request has a free slot and no hog lock is counted. *)
Lemma reschedule_idle max s a :
  (forall x, x ∈ s_waiting a -> get_status (s_slots a) x.1 ≠ EMPTY) -> s_hogs a = 0 ->
  s_reschedule max s a = a.
Proof.
  intros Hw H0. unfold s_reschedule. set (skip := _ && _).
  assert (forall l, (forall x, x ∈ l -> x ∈ s_waiting a) -> fold_left (wake_one s skip) l a = a) as Hf.
  { induction l as [|x l IH]; [done|]. intros Hl. simpl.
    assert (wake_one s skip a x = a) as ->; [|apply IH; set_solver].
    unfold wake_one. rewrite decide_False; [by repeat case_match|]. apply Hw, Hl. set_solver. }
  rewrite Hf by done. case_match; [done|]. unfold set_hogs. rewrite <- H0. by destruct a.
Qed.

(** A ticket in a lane: the lanes are open, nobody can be woken up and hog locks do not exist. *)
Lemma lane_idle n max s wd i l t a :
  world_ok n s wd -> m_lanes (m_fast_road (w_lock wd)) !! i = Some l -> t ∈ lane_list l ->
  s_waiting a = s_waiting (sabs wd) -> s_slots a = w_waits wd -> s_hogs a = m_hog_lock_count (w_lock wd) ->
  s_reschedule max s a = a.
Proof.
  intros [Hok Hsh H1 Hq Hh] Hi Ht Ew Es Eh. destruct (lo_lane _ _ _ _ Hok i l t Hi Ht) as (Hv & Hs & Hf).
  apply reschedule_idle.
  - rewrite Ew, Es. intros x (u & -> & Hu)%list_elem_of_fmap. simpl. apply Hq; [|done].
    destruct (decide (slow_count (w_heap wd) (w_lock wd) + 0 = 0)) as [|Hne]; [lia|].
    pose proof (lanes_quiet _ _ _ _ Hok Hne) as Hn.
    assert (t ∈ lane_tickets (m_lanes (m_fast_road (w_lock wd)))) as Htl
      by (apply elem_of_lane_tickets; eauto).
    rewrite Hn in Htl. by apply elem_of_nil in Htl.
  - rewrite Eh. apply Hh. by eapply (@fast_hog _ _ (lo_fast _ _ _ _ Hok)).
Qed.

(** ** Leaving *)

Definition is_backup (k : MDL_key) : bool := mdl_namespace k =? namespace_code BACKUP.

Lemma holders_nil h l : holders h l = ∅ <-> l = [].
Proof. unfold holders. destruct l; simpl; [done|]. split; [|done]. multiset_solver. Qed.

Lemma sabs_reopen h lk w type : sabs_of h (set_road lk (Fast_road_reopen (m_fast_road lk) type)) w = sabs_of h lk w.
Proof. unfold sabs_of. by rewrite reopen_granted. Qed.

(** A lock with tickets in its lanes only: there is nobody to wake up. *)
Lemma lanes_only_idle d max s h lk w :
  lock_okd d h lk s -> (hog_lock_types_bitmap s = 0 -> m_hog_lock_count lk = 0) ->
  m_list (m_waiting lk) = [] -> lane_tickets (m_lanes (m_fast_road lk)) ≠ [] ->
  s_reschedule max s (sabs_of h lk w) = sabs_of h lk w.
Proof.
  intros Hok Hh Hw Hl. apply reschedule_idle; simpl.
  - rewrite Hw. by intros ? ?%elem_of_nil.
  - apply Hh. destruct (lane_tickets _) as [|t r] eqn:E; [done|].
    assert (t ∈ lane_tickets (m_lanes (m_fast_road lk))) as (i & l & Hi & Ht)%elem_of_lane_tickets
      by (rewrite E; set_solver).
    destruct (lo_lane _ _ _ _ Hok i l t Hi Ht) as (Hv & Hs & _).
    by eapply (@fast_hog _ _ (lo_fast _ _ _ _ Hok)).
Qed.

Lemma remove_ticket_abs n max wd q t s b wd' :
  world_ok n s wd -> t ∈ m_list (get_list (w_lock wd) q) ->
  MDL_lock_remove_ticket max wd q t = (b, wd') ->
  s_leave max s (is_backup (key (w_lock wd)))
    (sabs_of (w_heap wd) (unlist (w_heap wd) (w_lock wd) q t) (w_waits wd)) = (leave_result b, sabs wd').
Proof.
  intros [Hok Hsh H1 _ Hh] Hin. unfold MDL_lock_remove_ticket.
  rewrite (unlink_other (w_heap wd) (w_lock wd) q t) by (done || apply Hok).
  set (h := w_heap wd) in *. set (lk := w_lock wd) in *. set (lk1 := unlist h lk q t).
  assert (lock_okd (slow1 h lk t) h lk1 s) as Hok1 by apply (remove_ticket_okd 0 h lk s q t Hok Hin).
  assert (same_shape lk lk1) as Hss by by destruct q.
  assert (is_backup (key lk) = is_backup (key lk1)) as -> by (by rewrite (proj1 Hss)). fold (is_backup (key lk1)).
  assert (one_wait_each h (m_list (m_waiting lk1))) as H11.
  { eapply one_wait_sub; [|exact H1]. intros u Hu. destruct q; simpl in *; eauto using elem_of_remove_first. }
  assert (hog_lock_types_bitmap s = 0 -> m_hog_lock_count lk1 = 0) as Hh1 by (by destruct q).
  unfold s_leave. cbn [sabs_of s_granted s_waiting]. destruct (lock_is_empty lk1) eqn:Ee.
  - apply lock_is_empty_iff in Ee as [Eg Ew]. case_bool_decide as Hc.
    + case_match; intros [= <- <-]; unfold sabs; simpl; by rewrite ?sabs_reopen.
    + assert (lane_tickets (m_lanes (m_fast_road lk1)) ≠ []) as Hl.
      { intros El. apply Hc. rewrite holders_nil, Ew. unfold granted_tickets. by rewrite Eg, El. }
      fold (sabs_of h lk1 (w_waits wd)). rewrite (lanes_only_idle _ _ _ _ _ _ Hok1) by done.
      unfold is_backup. case_match eqn:Ek; intros [= <- <-]; unfold sabs; simpl; [by rewrite sabs_reopen|].
      bool_to_prop. exfalso. apply Hl. destruct (lock_shape_same _ _ _ Hss Hsh) as [_ Hn]. by rewrite Hn.
  - rewrite (lo_strategy _ _ _ _ Hok1), bool_decide_eq_false_2.
    + destruct (reschedule_waiters _ _ _ _ _) as [lk2 w2] eqn:Er. intros [= <- <-].
      unfold sabs. simpl. rewrite sabs_reopen. f_equal. symmetry.
      by eapply reschedule_abs; [|apply slow1_nonneg| |].
    + rewrite holders_nil. unfold granted_tickets. intros [[Eg _]%app_nil Ew%map_eq_nil].
      by rewrite (proj2 (lock_is_empty_iff lk1)) in Ee.
Qed.

Lemma holders_without h l l' t :
  l ≡ₚ t :: l' -> holders h l' = holders h l ∖ {[+ holder_of h t +]}.
Proof. intros ->. rewrite holders_cons. multiset_solver. Qed.

Lemma abort_abs n max wd t s b wd' :
  world_ok n s wd -> t ∈ m_list (m_waiting (w_lock wd)) -> abort_wait max wd t = (b, wd') ->
  s_exec max s (is_backup (key (w_lock wd))) (sabs wd) (op_abort (holder_of (w_heap wd) t)) =
  (leave_result b, sabs wd').
Proof.
  intros Hw Hin E. rewrite <- (remove_ticket_abs n max wd queue_waiting t s b wd' Hw Hin E).
  unfold sabs_of. simpl. by rewrite map_remove_first by (done || apply Hw).
Qed.

Lemma release_abs n max wd t s b wd' :
  world_ok n s wd -> t ∈ granted_tickets (w_lock wd) -> MDL_lock_release max wd t = (b, wd') ->
  s_exec max s (is_backup (key (w_lock wd))) (sabs wd) (op_release (holder_of (w_heap wd) t)) =
  (leave_result b, sabs wd').
Proof.
  intros Hw Hin. pose proof (wo_lock _ _ _ Hw) as Hok. unfold MDL_lock_release, Fast_road_try_release, lane_action.
  destruct (fast_action _ _ _ t Hok Hin) as [[Hg ->]|(i & l & Hf & Hi & Ht & Hsc)].
  - intros E. rewrite <- (remove_ticket_abs n max wd queue_granted t s b wd' Hw Hg E).
    unfold sabs_of. simpl. by rewrite <- (holders_without _ _ _ _ (unlist_granted (w_heap wd) _ _ Hg)).
  - rewrite Hf, Hi. unfold Lane_release, Lane_ticket_action. rewrite Hf. intros [= <- <-].
    set (lk' := set_road _ _).
    assert (granted_tickets (w_lock wd) ≡ₚ t :: granted_tickets lk') as Hp by by eapply lane_release_granted.
    cbn [s_exec sabs sabs_of s_granted s_waiting s_hogs s_slots]. rewrite <- (holders_without _ _ _ _ Hp).
    unfold s_leave. cbn [s_granted s_waiting]. case_bool_decide as Hc.
    + unfold is_backup. case_match eqn:Ek; [done|]. bool_to_prop.
      rewrite (ls_backup _ _ (wo_shape _ _ _ Hw) Ek) in Hi. done.
    + by erewrite lane_idle; try done.
Qed.

(** ** Changing types *)

Lemma map_retype h t type W :
  t ∉ W -> map (holder_of (alter (set_type type) t h)) W = map (holder_of h) W.
Proof.
  intros Hn. apply map_ext_in. intros u Hu%list_elem_of_In. unfold holder_of.
  rewrite get_ctx_alter, get_type_set_type_ne; [done|by intros ->|done].
Qed.

Lemma holders_retype h t type G :
  NoDup G -> t ∈ G -> is_Some (h !! t) ->
  holders (alter (set_type type) t h) G = {[+ (get_ctx h t, type) +]} ⊎ (holders h G ∖ {[+ holder_of h t +]}).
Proof.
  intros Hnd Hin Hal. rewrite (holders_take _ G t Hin), (holders_take h G t Hin).
  assert (holder_of (alter (set_type type) t h) t = (get_ctx h t, type)) as ->.
  { unfold holder_of. rewrite get_ctx_alter, get_type_set_type by done. by case_decide. }
  unfold holders at 1. rewrite map_retype by (rewrite elem_of_remove_first_iff by done; tauto).
  fold (holders h (remove_first t G)). multiset_solver.
Qed.

(** A granted ticket with its type changed, in a lock with the same tickets. *)
Lemma retype_abs h lk s t type lk' w :
  lock_ok h lk s -> t ∈ granted_tickets lk -> granted_tickets lk' ≡ₚ granted_tickets lk ->
  m_list (m_waiting lk') = m_list (m_waiting lk) -> m_hog_lock_count lk' = m_hog_lock_count lk ->
  sabs_of (alter (set_type type) t h) lk' w = s_retype (sabs_of h lk w) (holder_of h t) type ∅.
Proof.
  intros Hok Hin Hp HW Hh. unfold sabs_of, s_retype. cbn [s_granted s_waiting s_hogs s_slots].
  rewrite Hp, HW, Hh, map_retype by by eapply granted_not_waiting.
  rewrite holders_retype by eauto using granted_nodup, valid_type_alive, lock_ticket_valid with mdb.
  f_equal. multiset_solver.
Qed.

Lemma downgrade_abs n max wd t type s b :
  world_ok n s wd -> t ∈ granted_tickets (w_lock wd) -> valid_type type ->
  supported_type (m_fast_road (w_lock wd)) type =
  supported_type (m_fast_road (w_lock wd)) (get_type (w_heap wd) t) ->
  s_exec max s b (sabs wd) (op_downgrade (holder_of (w_heap wd) t) type) =
  (r_done, sabs (downgrade max wd t type)).
Proof.
  intros Hw Hin Hv Hsup. pose proof (wo_lock _ _ _ Hw) as Hok. cbn [s_exec]. f_equal.
  unfold downgrade, try_fast_upgrade. destruct wd as [h lk w]. cbn [w_heap w_lock w_waits] in *.
  destruct (fast_action h lk s t Hok Hin) as [[Hg Hf]|(i & l & Hf & Hi & Ht & Hsc)].
  - unfold Fast_road_try_change_ticket_type, lane_action. rewrite Hf, set_road_id.
    pose proof (requeue_okd 0 h lk s w t type Hok Hg Hv Hsup) as Hok2. rewrite (lo_strategy _ _ _ _ Hok2).
    destruct (reschedule_waiters _ _ _ _ _) as [lk' w'] eqn:E. unfold sabs. cbn [w_heap w_lock w_waits].
    rewrite <- (retype_abs h lk s t type (w_lock (requeue (mk_world h lk w) t type))) by (done || by apply requeue_granted).
    symmetry. eapply reschedule_abs; [exact Hok2|lia| |exact E].
    eapply one_wait_each_ext; [intros ?; by apply get_ctx_alter|]. apply Hw.
  - rewrite (fast_change_type h lk s t i l type Hok Hf Hi), set_road_id. unfold sabs at 1. simpl.
    by rewrite (lane_idle n max s (mk_world h lk w) i l t), <- (retype_abs h lk s t type lk).
Qed.

Lemma upgrade_abs n max wd t type x rem s b :
  world_ok n s wd -> t ∈ granted_tickets (w_lock wd) -> fast_lane (w_heap wd) t = None -> valid_type type ->
  supported_type (m_fast_road (w_lock wd)) type =
  supported_type (m_fast_road (w_lock wd)) (get_type (w_heap wd) t) ->
  x ∈ granted_tickets (w_lock wd) -> x ≠ t -> rem = None \/ rem = Some x ->
  s_exec max s b (sabs wd)
    (op_upgrade (holder_of (w_heap wd) t) type (holder_of (w_heap wd) <$> rem)) =
  (r_done, sabs (upgrade wd t type rem)).
Proof.
  intros [Hok _ _ _ _] Hin Hfl Hv Hsup Hx Hne Hrem.
  destruct (upgrade_spec wd s t type rem Hok Hin Hfl Hv Hsup) as (Eh & Ew & Hok' & _ & Hp & HW).
  { intros r ->. destruct Hrem as [?|[= ->]]; done. }
  simpl. f_equal. unfold sabs, sabs_of, s_retype. rewrite Eh, Ew, HW, upgrade_hogs.
  cbn [s_granted s_waiting s_hogs s_slots]. rewrite map_retype by by eapply granted_not_waiting.
  assert (t ∈ granted_tickets (w_lock (upgrade wd t type rem))) as Hin'.
  { rewrite Hp in Hin. apply elem_of_app in Hin as [Hr|]; [|done].
    destruct Hrem as [->| ->]; simpl in Hr; [by apply elem_of_nil in Hr|].
    by apply list_elem_of_singleton in Hr. }
  rewrite holders_retype by eauto using granted_nodup, valid_type_alive, lock_ticket_valid with mdb.
  do 3 f_equal. rewrite Hp. destruct rem; simpl; rewrite ?holders_cons; multiset_solver.
Qed.

(** ** Steps and runs *)

Lemma acquire_abs h lk s t wait h' lk' st w max b :
  framed h lk h' lk' -> acquire_outcome h lk s t wait lk' st ->
  m_hog_lock_count lk' = m_hog_lock_count lk ->
  s_exec max s b (sabs_of h lk w) (op_acquire (holder_of h t) wait) = (r_status st, sabs_of h' lk' w).
Proof.
  intros Hf Ho Hh. cbn [s_exec sabs_of s_granted s_waiting s_hogs s_slots].
  rewrite conflicts_abs, outranked_abs. unfold sabs_of. rewrite (holders_framed _ _ _ _ _ Hf), Hh.
  rewrite (map_ext (holder_of h') (holder_of h)) by (intros; by eapply framed_holder).
  destruct Ho as [H1 H2 Hp Hw| -> Hc Hp Hw| -> Hc Hp Hw]; rewrite Hp, Hw.
  - rewrite !bool_decide_eq_false_2 by done. done.
  - rewrite orb_comm, <- bool_decide_or, bool_decide_eq_true_2 by done. by rewrite map_app.
  - by rewrite orb_comm, <- bool_decide_or, bool_decide_eq_true_2 by done.
Qed.

Lemma mdl_step_refines max n tid s op r wd wd' :
  world_ok n s wd -> mdl_step max n tid s op r wd wd' ->
  s_exec max s (is_backup (key (w_lock wd))) (sabs wd) op = (r, sabs wd').
Proof.
  intros Hw Hst. pose proof Hw as [Hok Hsh H1 Hq Hh].
  destruct Hst as [h lk w t type c Hn Hv|wd t wait st wd' ns Hf Hr Hc E|wd t wait st wd' ns Hf Hr Hc E
    |wd t b wd' Hin E|wd t b wd' Hin E|wd t t0 Hf Hr Hin Hc Hs
    |wd t type Hin Hv Hs Hsup|wd t type x rem Hin Hfl Hv Hsup Hx Hne Hc Hs Hrem
    |wd t type wd' Hin Hv Hsup E|h lk w c st Hst|h lk w c Hc].
  - simpl in *. f_equal. unfold sabs, sabs_of. simpl.
    pose proof (new_ticket_heap _ _ _ _ _ (mk_ticket type c None None) Hok Hn) as Hl.
    assert (forall u, u ∈ lock_tickets lk -> holder_of (<[t := mk_ticket type c None None]> h) u = holder_of h u) as He
      by (intros u Hu; unfold holder_of, get_ctx, get_type; by rewrite Hl).
    f_equal; [symmetry; apply holders_ext; auto with mdb|]. apply map_ext_in. intros u Hu%list_elem_of_In. symmetry. auto with mdb.
  - destruct (try_acquire_spec n tid wd s t wait st wd' ns Hok Hf Hr E) as (_ & Hfm & Ho & Ew & Eh).
    unfold sabs. rewrite Ew. by apply acquire_abs.
  - destruct (acquire_conventional_spec wd s t wait st wd' ns Hok Hf Hr E) as (_ & Hfm & Ho & Ew & Eh).
    unfold sabs. rewrite Ew. by apply acquire_abs.
  - by eapply release_abs.
  - by eapply abort_abs.
  - destruct (add_cloned_ticket_spec wd t s Hok Hf Hr) as (_ & Hfm & Hp & HW & Ew).
    simpl. f_equal. unfold sabs, sabs_of. rewrite Ew, HW, add_cloned_hogs, (holders_framed _ _ _ _ _ Hfm), Hp, holders_cons.
    by rewrite (map_ext (holder_of (w_heap (add_cloned_ticket wd t))) (holder_of (w_heap wd)))
      by (intros; by eapply framed_holder).
  - by eapply downgrade_abs.
  - eapply upgrade_abs; try done. naive_solver.
  - destruct (try_fast_upgrade_spec wd s t type wd' Hok Hin Hv Hsup E) as (-> & _ & _).
    simpl. f_equal. symmetry. by apply (retype_abs (w_heap wd) (w_lock wd) s).
  - done.
  - done.
Qed.

Lemma mdl_step_key max n tid s `{!LawfulStrategy s} op r wd wd' :
  world_ok n s wd -> r ≠ r_removed -> mdl_step max n tid s op r wd wd' -> key (w_lock wd') = key (w_lock wd).
Proof.
  intros [Hok Hsh H1 Hq Hh] Hres Hst.
  destruct Hst as [ |wd t wait st wd' ns Hf Hr Hc E|wd t wait st wd' ns Hf Hr Hc E
    |wd t b wd' Hin E|wd t b wd' Hin E|wd t t0 Hf Hr _ _ _
    |wd t type Hin Hv _ Hsup|wd t type x rem Hin Hfl Hv Hsup Hx Hne _ _ Hrem
    |wd t type wd' Hin Hv Hsup E| | ].
  - done.
  - destruct (try_acquire_spec n tid wd s t wait st wd' ns Hok Hf Hr E) as (_ & Hfm & _). apply Hfm.
  - destruct (acquire_conventional_spec wd s t wait st wd' ns Hok Hf Hr E) as (_ & Hfm & _). apply Hfm.
  - destruct (release_spec n max wd t s _ _ Hok Hsh Hin H1 Hq E) as [_ Hl]. destruct b; [done|]. apply Hl.
  - destruct (abort_wait_spec n max wd t s _ _ Hok Hsh Hin H1 E) as [_ Hl]. destruct b; [done|]. apply Hl.
  - apply (add_cloned_ticket_spec wd t s Hok Hf Hr).
  - apply (downgrade_spec max wd t type s Hok Hin Hv Hsup H1 Hq).
  - destruct (upgrade_spec wd s t type rem Hok Hin Hfl Hv Hsup) as (_ & _ & _ & [? _] & _); [|done].
    intros r ->. destruct Hrem as [?|[[= ->] _]]; done.
  - by destruct (try_fast_upgrade_spec wd s t type wd' Hok Hin Hv Hsup E) as (-> & _ & _).
  - done.
  - done.
Qed.

(** The operations of a lock in the order in which they take effect, with their results; the removal of
    the lock can only be the last. *)
Inductive mdl_run (max n : Z) (tid : ctx_id -> Z) (s : MDL_lock_strategy) :
    list mdl_op -> list mdl_result -> world -> world -> Prop :=
| run_nil wd : mdl_run max n tid s [] [] wd wd
| run_cons op r ops rs wd1 wd2 wd3 :
    mdl_step max n tid s op r wd1 wd2 -> (r = r_removed -> ops = []) ->
    mdl_run max n tid s ops rs wd2 wd3 ->
    mdl_run max n tid s (op :: ops) (r :: rs) wd1 wd3.

Lemma mdl_run_refines max n tid s `{!LawfulStrategy s} ops rs wd wd' :
  world_ok n s wd -> mdl_run max n tid s ops rs wd wd' ->
  s_run max s (is_backup (key (w_lock wd))) (sabs wd) ops = (rs, sabs wd').
Proof.
  intros Hw. induction 1 as [|op r ops rs wd1 wd2 wd3 Hst Hlast Hrun IH]; [done|]. simpl.
  rewrite (mdl_step_refines _ _ _ _ _ _ _ _ Hw Hst). destruct (decide (r = r_removed)) as [Er|Hne].
  - specialize (Hlast Er). subst ops. by inversion Hrun.
  - rewrite <- (mdl_step_key _ _ _ _ _ _ _ _ Hw Hne Hst), IH; [done|]. by eapply mdl_step_ok.
Qed.

Lemma sabs_init n alloc k : sabs (init_world n alloc k) = s_init.
Proof.
  unfold sabs, init_world, sabs_of, MDL_lock_init, Fast_road_enable, granted_tickets. simpl.
  case_match; [case_match|]; try done. simpl.
  assert (lane_tickets (replicate (Z.to_nat n) (mk_lane [] 0)) = []) as ->; [|done].
  by induction (Z.to_nat n).
Qed.
