(* ===== verification/MdlLockProps.v ===== *)
(** * Properties of the metadata lock

    The statements about reachable states of a lock (any interleaving of the
    operations of [MDL_lock] by any number of contexts), and about single
    operations. *)

From stdpp Require Import gmultiset.
From S2P Require Import Prelude MdlTypes MdlKey MdlLock MdlLockInv MdlLockOps MdlLockSpec MdlLockRefine.

(** ** Reachable states *)

(** C1: mutual exclusion.  In every reachable state of a lock of the table, schema,
    ... namespaces, two tickets that different contexts have been granted (in
    m_granted or in a lane) are of compatible types. *)
Theorem mdl_mutual_exclusion max n tid alloc k wd t1 t2 :
  mdl_namespace k ≠ namespace_code BACKUP ->
  rtc (mdl_any_step max n tid (strategy_of k)) (init_world n alloc k) wd ->
  t1 ∈ granted_tickets (w_lock wd) -> t2 ∈ granted_tickets (w_lock wd) ->
  get_ctx (w_heap wd) t1 ≠ get_ctx (w_heap wd) t2 ->
  is_incompatible_when_granted (strategy_of k)
    (get_type (w_heap wd) t1) (get_type (w_heap wd) t2) = false.
Proof.
  intros Hk Hr H1 H2 Hne. pose proof (strategy_of_symmetric k Hk) as Hsym.
  pose proof (reach_sim _ _ _ _ _ _ Hr (init_world_ok n alloc k)) as Hs.
  apply asteps_ok in Hs; [|done|].
  - apply (ao_excl _ _ Hs (holder_of (w_heap wd) t1) (holder_of (w_heap wd) t2));
      [apply elem_of_holders; eauto..|done].
  - unfold wabs, abs, init_world, MDL_lock_init.
    rewrite (proj2 (Z.eqb_neq _ _) Hk). split; simpl; multiset_solver.
Qed.



(** A step that is not an upgrade to a type that admits a waiting request which the old type kept out;
    with [all] the limit on hog locks has not been reached. *)
Definition mdl_good_step (all : bool) (max n : Z) (tid : ctx_id -> Z) (s : MDL_lock_strategy)
    (wd wd' : world) : Prop :=
  (all = true -> m_hog_lock_count (w_lock wd) < max) /\
  exists op r, r ≠ r_removed /\ upgrade_ok s wd op /\ mdl_step max n tid s op r wd wd'.





(** ** Single operations *)

(** C5: a request is granted exactly when no other context holds an incompatible
    lock and no pending request has priority; otherwise it is queued if the caller
    waits, and leaves the lock as it was if not.  The same whether or not a fast
    lane served it. *)
Theorem mdl_try_acquire_lock max n tid alloc k wd t wait st wd' ns :
  rtc (mdl_any_step max n tid (strategy_of k)) (init_world n alloc k) wd ->
  fresh (w_heap wd) (w_lock wd) t -> room (w_lock wd) ->
  MDL_lock_try_acquire_lock n tid wd t wait = (st, wd', ns) ->
  acquire_outcome (w_heap wd) (w_lock wd) (strategy_of k) t wait (w_lock wd') st.
Proof.
  intros Hr Hf Hroom E. apply reach_ok in Hr as [Hok _ _ _ _]; [|apply _|apply init_world_ok].
  by eapply try_acquire_spec.
Qed.

(** C7: releasing a lock takes exactly that ticket away.  The lock is marked for removal from the map
    exactly when the ticket was its last one and it is not the backup lock.  Otherwise requests move
    from the waiting to the granted tickets, each without a conflict at that moment and each signalled
    through its context's free wait slot, until no request with a free slot is left that could be
    granted: each one still waiting has a pending request of higher priority or a granted ticket of
    another context against it, where requests of a hog type count if fewer than max_write_lock_count
    hog locks were granted in a row. *)
Theorem mdl_release max n tid alloc k wd t b wd' :
  rtc (mdl_any_step max n tid (strategy_of k)) (init_world n alloc k) wd ->
  t ∈ granted_tickets (w_lock wd) ->
  MDL_lock_release max wd t = (b, wd') ->
  w_heap wd' = w_heap wd /\
  (b = true <-> lock_tickets (w_lock wd) = [t] /\ mdl_namespace (key (w_lock wd)) ≠ namespace_code BACKUP) /\
  (b = true -> lock_tickets (w_lock wd') = [] /\ m_strategy (w_lock wd') = None) /\
  (b = false -> exists G0,
    granted_tickets (w_lock wd) ≡ₚ t :: G0 /\
    wakes (w_heap wd) (strategy_of k) G0 (m_list (m_waiting (w_lock wd))) (w_waits wd)
      (granted_tickets (w_lock wd')) (m_list (m_waiting (w_lock wd'))) (w_waits wd') /\
    (forall u, u ∈ m_list (m_waiting (w_lock wd')) ->
       m_hog_lock_count (w_lock wd) < max \/ is_hog (strategy_of k) (get_type (w_heap wd) u) = false ->
       get_status (w_waits wd') (get_ctx (w_heap wd) u) = EMPTY ->
       waiting_conflict (w_heap wd) (strategy_of k) (m_list (m_waiting (w_lock wd'))) (get_type (w_heap wd) u) \/
       granted_conflict (w_heap wd) (strategy_of k) (granted_tickets (w_lock wd'))
         (get_type (w_heap wd) u) (get_ctx (w_heap wd) u))).
Proof.
  intros Hr Hin E. apply reach_ok in Hr as [Hok Hsh H1 Hq _]; [|apply _|apply init_world_ok].
  destruct (release_spec n max wd t (strategy_of k) b wd' Hok Hsh Hin H1 Hq E) as [Hh Hb].
  split; [done|]. destruct b.
  - destruct Hb as [[D1 D2 D3 D4] _]. split_and!; [|done..]. split; [intros _|done].
    split; [by apply Permutation_singleton_r|done].
  - destruct Hb as [Hlast Hl]. split_and!; [|done|].
    + split; [done|]. intros [Hl1 Hn]. destruct Hn. apply Hlast. by rewrite Hl1.
    + intros _. destruct (ll_wakes _ _ _ _ _ _ _ _ _ Hl) as (G0 & W0 & [Hp ->] & Hw). exists G0.
      split_and!; [done..|]. intros u Hu Hc He.
      apply (ll_settled _ _ _ _ _ _ _ _ _ Hl (bool_decide (m_hog_lock_count (w_lock wd) < max))); [|done| |done].
      * by intros ?%bool_decide_eq_true.
      * rewrite bool_decide_eq_true. done.
Qed.

(** C8: the limit on hog locks.  When a release, an abort or a downgrade finds that
    max_write_lock_count hog locks were granted in a row and a request of another type is waiting, no
    request of a hog type is granted, and every other request with a free wait slot is, unless another
    context holds an incompatible lock; a pending hog request does not keep it out. *)
Theorem mdl_hog_limit max n tid alloc k op r wd wd' :
  rtc (mdl_any_step max n tid (strategy_of k)) (init_world n alloc k) wd ->
  reschedules op = true -> mdl_step max n tid (strategy_of k) op r wd wd' ->
  max <= m_hog_lock_count (w_lock wd) ->
  (exists t, t ∈ m_list (m_waiting (w_lock wd)) /\ op ≠ op_abort (holder_of (w_heap wd) t) /\
     is_hog (strategy_of k) (get_type (w_heap wd) t) = false) ->
  r = r_done /\
  (forall t, t ∈ m_list (m_waiting (w_lock wd)) -> op ≠ op_abort (holder_of (w_heap wd) t) ->
     is_hog (strategy_of k) (get_type (w_heap wd) t) = true -> t ∈ m_list (m_waiting (w_lock wd'))) /\
  (forall t, t ∈ m_list (m_waiting (w_lock wd')) ->
     is_hog (strategy_of k) (get_type (w_heap wd') t) = false ->
     get_status (w_waits wd') (get_ctx (w_heap wd') t) = EMPTY ->
     granted_conflict (w_heap wd') (strategy_of k) (granted_tickets (w_lock wd'))
       (get_type (w_heap wd') t) (get_ctx (w_heap wd') t)).
Proof.
  intros Hr Hre Hst Hmax Hlow. apply reach_ok in Hr; [|apply _|apply init_world_ok].
  eapply (rescheduled_hogs max n tid (strategy_of k)); eauto.
Qed.

(** C6: fast lanes are transparent.  Two locks with the same holders and waiters, one
    of which may serve the request through a lane, answer a request in the same way
    and have the same holders and waiters afterwards. *)
Theorem mdl_fast_lanes_transparent max1 n1 tid1 alloc1 max2 n2 tid2 alloc2 k
    wd1 t1 st1 wd1' ns1 wd2 t2 st2 wd2' ns2 wait :
  rtc (mdl_any_step max1 n1 tid1 (strategy_of k)) (init_world n1 alloc1 k) wd1 ->
  rtc (mdl_any_step max2 n2 tid2 (strategy_of k)) (init_world n2 alloc2 k) wd2 ->
  wabs wd1 = wabs wd2 -> holder_of (w_heap wd1) t1 = holder_of (w_heap wd2) t2 ->
  fresh (w_heap wd1) (w_lock wd1) t1 -> room (w_lock wd1) ->
  fresh (w_heap wd2) (w_lock wd2) t2 -> room (w_lock wd2) ->
  MDL_lock_try_acquire_lock n1 tid1 wd1 t1 wait = (st1, wd1', ns1) ->
  MDL_lock_try_acquire_lock n2 tid2 wd2 t2 wait = (st2, wd2', ns2) ->
  st1 = st2 /\ wabs wd1' = wabs wd2'.
Proof.
  intros Hr1 Hr2 Ha Ht Hf1 Hm1 Hf2 Hm2 E1 E2.
  apply reach_ok in Hr1 as [Hok1 _ _ _ _]; [|apply _|apply init_world_ok].
  apply reach_ok in Hr2 as [Hok2 _ _ _ _]; [|apply _|apply init_world_ok].
  destruct (try_acquire_spec _ _ _ _ _ _ _ _ _ Hok1 Hf1 Hm1 E1) as (_ & F1 & O1 & _).
  destruct (try_acquire_spec _ _ _ _ _ _ _ _ _ Hok2 Hf2 Hm2 E2) as (_ & F2 & O2 & _).
  apply (outcome_abs _ _ _ _ _ _ _ _ F1) in O1. apply (outcome_abs _ _ _ _ _ _ _ _ F2) in O2.
  unfold wabs in *. rewrite Ha, Ht in O1. by eapply a_outcome_fun.
Qed.

(** ** Example runs *)

Lemma fresh_intro h lk t :
  (t ∉ lock_tickets lk) /\ (0 <= get_type h t < MDL_BACKUP_END) /\ fast_lane h t = None ->
  fresh h lk t.
Proof. intros (? & ? & ?). by split. Qed.

Section Runs.
Context (n max : Z) (k : MDL_key).

Definition run_new (wd : world) (t : ptr) (type : enum_mdl_type) (c : ctx_id) : world :=
  mk_world (<[t := mk_ticket type c None None]> (w_heap wd)) (w_lock wd) (w_waits wd).

Definition run_acquire (wd : world) (t : ptr) : world :=
  (MDL_lock_try_acquire_lock n Z.of_nat wd t true).1.2.

(** A context creates a ticket and asks for the lock. *)
Definition run_request (wd : world) (t : ptr) (type : enum_mdl_type) (c : ctx_id) : world :=
  run_acquire (run_new wd t type c) t.

Lemma run_new_step wd t type c :
  w_heap wd !! t = None -> 0 <= type < MDL_BACKUP_END ->
  mdl_step max n Z.of_nat (strategy_of k) op_new r_done wd (run_new wd t type c).
Proof. intros Hn Hv. destruct wd. by apply (st_new _ _ _ _ _ _ _ t type c). Qed.

Lemma run_acquire_step wd t :
  ((t ∉ lock_tickets (w_lock wd)) /\ (0 <= get_type (w_heap wd) t < MDL_BACKUP_END) /\
   fast_lane (w_heap wd) t = None) ->
  Z.of_nat (length (lock_tickets (w_lock wd))) < U32_MAX ->
  Forall (fun t' => get_ctx (w_heap wd) t' ≠ get_ctx (w_heap wd) t) (m_list (m_waiting (w_lock wd))) ->
  mdl_step max n Z.of_nat (strategy_of k) (op_acquire (holder_of (w_heap wd) t) true)
    (r_status (MDL_lock_try_acquire_lock n Z.of_nat wd t true).1.1) wd (run_acquire wd t).
Proof.
  intros Hf Hr Hw. eapply (st_acquire _ _ _ _ wd t true); [by apply fresh_intro|done| |].
  - intros t' Ht'. rewrite Forall_forall in Hw. auto.
  - etransitivity; [apply surjective_pairing|f_equal; apply surjective_pairing].
Qed.

Lemma run_request_step all wd t type c :
  let wd1 := run_new wd t type c in
  w_heap wd !! t = None /\ 0 <= type < MDL_BACKUP_END /\
  ((t ∉ lock_tickets (w_lock wd1)) /\ (0 <= get_type (w_heap wd1) t < MDL_BACKUP_END) /\
   fast_lane (w_heap wd1) t = None) /\
  Z.of_nat (length (lock_tickets (w_lock wd1))) < U32_MAX /\
  Forall (fun t' => get_ctx (w_heap wd1) t' ≠ get_ctx (w_heap wd1) t)
    (m_list (m_waiting (w_lock wd1))) ->
  (all = true -> m_hog_lock_count (w_lock wd) < max) ->
  rtc (mdl_good_step all max n Z.of_nat (strategy_of k)) wd (run_request wd t type c).
Proof.
  intros wd1 (Hn & Hv & Hf & Hr & Hw) Hm. apply rtc_l with wd1; [|apply rtc_once].
  - split; [done|]. exists op_new, r_done. split_and!; [done..|]. by apply run_new_step.
  - split; [done|]. eexists _, _. split_and!; [| |by apply run_acquire_step]; done.
Qed.

Lemma good_any all wd wd' :
  rtc (mdl_good_step all max n Z.of_nat (strategy_of k)) wd wd' ->
  rtc (mdl_any_step max n Z.of_nat (strategy_of k)) wd wd'.
Proof.
  induction 1 as [|? ? ? (_ & op & r & ? & _ & ?)]; [done|]. eapply rtc_l; [by exists op, r|done].
Qed.


Lemma run_release_step wd t :
  t ∈ granted_tickets (w_lock wd) ->
  let res := MDL_lock_release max wd t in
  mdl_step max n Z.of_nat (strategy_of k) (op_release (holder_of (w_heap wd) t)) (leave_result res.1) wd res.2.
Proof. intros Hin res. apply st_release; [done|]. apply surjective_pairing. Qed.
End Runs.

Definition run_key : MDL_key := mdl_key_init TABLE [116] [97].

(** Context 1 reads the table, 2 writes it, 3 waits for an exclusive lock. *)
Definition run_table : world :=
  run_request 8 (run_request 8 (run_request 8 (init_world 8 true run_key)
    1 MDL_SHARED_READ 1) 2 MDL_SHARED_WRITE 2) 3 MDL_EXCLUSIVE 3.

Lemma run_table_reach all :
  rtc (mdl_good_step all 100 8 Z.of_nat (strategy_of run_key)) (init_world 8 true run_key) run_table.
Proof.
  unfold run_table.
  etransitivity; [etransitivity|]; apply run_request_step; try by_decide; intros _; by_decide.
Qed.

Lemma mdl_mutual_exclusion_witness :
  is_incompatible_when_granted (strategy_of run_key)
    (get_type (w_heap run_table) 1) (get_type (w_heap run_table) 2) = false.
Proof.
  apply (mdl_mutual_exclusion 100 8 Z.of_nat true run_key run_table 1 2); try by_decide.
  apply (good_any _ _ _ true), run_table_reach.
Defined.

(** Context 1 reads the table, 2 waits for an exclusive lock; 1 releases its lock and 2 gets it. *)
Definition run_wait : world :=
  run_request 8 (run_request 8 (init_world 8 true run_key) 1 MDL_SHARED_READ 1) 2 MDL_EXCLUSIVE 2.




(** Two statements under the backup lock of a server with 8 lanes. *)
Definition run_backup_key : MDL_key := mdl_key_init BACKUP [] [].
Definition run_lanes (n : Z) : world :=
  run_request n (run_request n (init_world n true run_backup_key)
    1 MDL_BACKUP_DML 1) 2 MDL_BACKUP_DDL 2.

Lemma run_lanes_reach :
  rtc (mdl_any_step 100 8 Z.of_nat (strategy_of run_backup_key)) (init_world 8 true run_backup_key)
    (run_lanes 8).
Proof.
  apply (good_any _ _ _ true). unfold run_lanes.
  etransitivity; apply run_request_step; by_decide.
Qed.

Lemma run_no_lanes_reach :
  rtc (mdl_any_step 100 1 Z.of_nat (strategy_of run_backup_key)) (init_world 1 true run_backup_key)
    (run_lanes 1).
Proof.
  apply (good_any _ _ _ true). unfold run_lanes.
  etransitivity; apply run_request_step; by_decide.
Qed.


(** A request for BACKUP FLUSH closes the lanes and is granted. *)
Lemma mdl_try_acquire_lock_witness :
  let wd := run_new (run_lanes 8) 3 MDL_BACKUP_FLUSH 3 in
  acquire_outcome (w_heap wd) (w_lock wd) (strategy_of run_backup_key) 3 true
    (w_lock (run_acquire 8 wd 3)) (MDL_lock_try_acquire_lock 8 Z.of_nat wd 3 true).1.1.
Proof.
  intros wd.
  apply (mdl_try_acquire_lock 100 8 Z.of_nat true run_backup_key wd 3 true _ _
    (MDL_lock_try_acquire_lock 8 Z.of_nat wd 3 true).2).
  - eapply rtc_r; [exact run_lanes_reach|]. exists op_new, r_done. split; [done|].
    apply (st_new _ _ _ _ _ _ _ 3 MDL_BACKUP_FLUSH 3); by_decide.
  - apply fresh_intro. by_decide.
  - by_decide.
  - etransitivity; [apply surjective_pairing|f_equal; apply surjective_pairing].
Defined.

Lemma run_wait_reach :
  rtc (mdl_any_step 100 8 Z.of_nat (strategy_of run_key)) (init_world 8 true run_key) run_wait.
Proof.
  apply (good_any _ _ _ true). unfold run_wait.
  etransitivity; apply run_request_step; by_decide.
Qed.

(** Releasing the shared lock lets context 2 in. *)
Lemma mdl_release_witness :
  let wd' := (MDL_lock_release 100 run_wait 1).2 in
  m_list (m_waiting (w_lock wd')) = [] /\
  exists G0,
    granted_tickets (w_lock run_wait) ≡ₚ 1%nat :: G0 /\
    wakes (w_heap run_wait) (strategy_of run_key) G0 (m_list (m_waiting (w_lock run_wait))) (w_waits run_wait)
      (granted_tickets (w_lock wd')) (m_list (m_waiting (w_lock wd'))) (w_waits wd').
Proof.
  intros wd'. split; [vm_compute; reflexivity|].
  destruct (mdl_release 100 8 Z.of_nat true run_key run_wait 1 (MDL_lock_release 100 run_wait 1).1 wd')
    as (_ & _ & _ & H).
  - exact run_wait_reach.
  - by_decide.
  - apply surjective_pairing.
  - destruct H as (G0 & H1 & H2 & _); [vm_compute; reflexivity|]. by exists G0.
Defined.

(** At most one hog lock in a row.  Context 1 has the table exclusively; 2 and 4 wait for an exclusive
    lock and 3, between them, to read it.  When 1 releases its lock 2 gets it, when 2 does 3 gets it. *)
Definition run_hogs : world :=
  run_request 8 (run_request 8 (run_request 8 (run_request 8 (init_world 8 true run_key)
    1 MDL_EXCLUSIVE 1) 2 MDL_EXCLUSIVE 2) 3 MDL_SHARED_READ 3) 4 MDL_EXCLUSIVE 4.
Definition run_hogs1 : world := (MDL_lock_release 1 run_hogs 1).2.
Definition run_hogs2 : world := (MDL_lock_release 1 run_hogs1 2).2.

Lemma run_hogs1_reach :
  rtc (mdl_any_step 1 8 Z.of_nat (strategy_of run_key)) (init_world 8 true run_key) run_hogs1.
Proof.
  eapply rtc_r.
  - apply (good_any _ _ _ true). instantiate (1 := run_hogs). unfold run_hogs.
    etransitivity; [etransitivity; [etransitivity|]|]; apply run_request_step; by_decide.
  - eexists _, r_done. split; [done|]. apply (run_release_step 8 1 run_key run_hogs 1). by_decide.
Qed.

Lemma mdl_hog_limit_witness :
  4%nat ∈ m_list (m_waiting (w_lock run_hogs2)) /\ granted_tickets (w_lock run_hogs2) = [3]%nat.
Proof.
  split; [|vm_compute; reflexivity].
  apply (mdl_hog_limit 1 8 Z.of_nat true run_key (op_release (2%nat, MDL_EXCLUSIVE)) r_done run_hogs1 run_hogs2);
    try by_decide.
  - exact run_hogs1_reach.
  - apply (run_release_step 8 1 run_key run_hogs1 2). by_decide.
  - exists 3%nat. split_and!; [by_decide|done|by_decide].
  - done.
Defined.

Lemma mdl_fast_lanes_transparent_witness :
  let wd1 := run_new (run_lanes 8) 3 MDL_BACKUP_TRANS_DML 3 in
  let wd2 := run_new (run_lanes 1) 3 MDL_BACKUP_TRANS_DML 3 in
  wabs (run_acquire 8 wd1 3) = wabs (run_acquire 1 wd2 3).
Proof.
  intros wd1 wd2.
  apply (mdl_fast_lanes_transparent 100 8 Z.of_nat true 100 1 Z.of_nat true run_backup_key
    wd1 3 (MDL_lock_try_acquire_lock 8 Z.of_nat wd1 3 true).1.1 (run_acquire 8 wd1 3)
    (MDL_lock_try_acquire_lock 8 Z.of_nat wd1 3 true).2
    wd2 3 (MDL_lock_try_acquire_lock 1 Z.of_nat wd2 3 true).1.1 (run_acquire 1 wd2 3)
    (MDL_lock_try_acquire_lock 1 Z.of_nat wd2 3 true).2 true).
  - eapply rtc_r; [exact run_lanes_reach|]. exists op_new, r_done. split; [done|].
    apply (st_new _ _ _ _ _ _ _ 3 MDL_BACKUP_TRANS_DML 3); by_decide.
  - eapply rtc_r; [exact run_no_lanes_reach|]. exists op_new, r_done. split; [done|].
    apply (st_new _ _ _ _ _ _ _ 3 MDL_BACKUP_TRANS_DML 3); by_decide.
  - vm_compute. reflexivity.
  - vm_compute. reflexivity.
  - apply fresh_intro. by_decide.
  - by_decide.
  - apply fresh_intro. by_decide.
  - by_decide.
  - etransitivity; [apply surjective_pairing|f_equal; apply surjective_pairing].
  - etransitivity; [apply surjective_pairing|f_equal; apply surjective_pairing].
Defined.
