(* ===== verification/MdlServer.v ===== *)
(** * The state of metadata locking

    The state [MDL_context] works on: the tickets, the locks of [MDL_map] by key,
    and the contexts with their ticket lists, wait slots and wait-for edges. *)

From S2P Require Import Prelude MdlTypes MdlKey MdlLock.

Record MDL_request := mk_request {
  rq_key : MDL_key;
  rq_type : enum_mdl_type;
  rq_duration : enum_mdl_duration;
  rq_ticket : option ptr;
}.

(** [MDL_request::init], [MDL_request::init_by_key] *)
Definition MDL_request_init (ns : enum_mdl_namespace) (db name : list Z) (type : enum_mdl_type)
    (duration : enum_mdl_duration) : MDL_request :=
  mk_request (mdl_key_init ns db name) type duration None.
Definition MDL_request_init_by_key (k : MDL_key) (type : enum_mdl_type)
    (duration : enum_mdl_duration) : MDL_request :=
  mk_request k type duration None.

Record MDL_context := mk_context {
  (** m_tickets[MDL_STATEMENT], m_tickets[MDL_TRANSACTION], m_tickets[MDL_EXPLICIT] *)
  m_tickets_statement : list ptr;
  m_tickets_transaction : list ptr;
  m_tickets_explicit : list ptr;
  m_waiting_for : option ptr;
  m_deadlock_overweight : Z;
}.

Definition empty_context : MDL_context := mk_context [] [] [] None 0.

Definition m_tickets (c : MDL_context) (d : enum_mdl_duration) : list ptr :=
  match d with
  | MDL_STATEMENT => m_tickets_statement c
  | MDL_TRANSACTION => m_tickets_transaction c
  | MDL_EXPLICIT => m_tickets_explicit c
  end.

Definition set_tickets (c : MDL_context) (d : enum_mdl_duration) (l : list ptr) : MDL_context :=
  match d with
  | MDL_STATEMENT =>
      mk_context l (m_tickets_transaction c) (m_tickets_explicit c)
        (m_waiting_for c) (m_deadlock_overweight c)
  | MDL_TRANSACTION =>
      mk_context (m_tickets_statement c) l (m_tickets_explicit c)
        (m_waiting_for c) (m_deadlock_overweight c)
  | MDL_EXPLICIT =>
      mk_context (m_tickets_statement c) (m_tickets_transaction c) l
        (m_waiting_for c) (m_deadlock_overweight c)
  end.

Definition set_waiting_for (c : MDL_context) (t : option ptr) : MDL_context :=
  mk_context (m_tickets_statement c) (m_tickets_transaction c) (m_tickets_explicit c)
    t (m_deadlock_overweight c).

Definition inc_deadlock_overweight (c : MDL_context) : MDL_context :=
  mk_context (m_tickets_statement c) (m_tickets_transaction c) (m_tickets_explicit c)
    (m_waiting_for c) (u32 (m_deadlock_overweight c + 1)).

(** [(duration + i) % MDL_DURATION_END] for i = 0, 1, 2 *)
Definition durations_from (d : enum_mdl_duration) : list enum_mdl_duration :=
  match d with
  | MDL_STATEMENT => [MDL_STATEMENT; MDL_TRANSACTION; MDL_EXPLICIT]
  | MDL_TRANSACTION => [MDL_TRANSACTION; MDL_EXPLICIT; MDL_STATEMENT]
  | MDL_EXPLICIT => [MDL_EXPLICIT; MDL_STATEMENT; MDL_TRANSACTION]
  end.

(** ** The state of the server *)

Record server := mk_server {
  sv_heap : heap;
  (** [MDL_map]: the locks by the bytes of their key, the backup lock included *)
  sv_locks : gmap (list Z) MDL_lock;
  (** the wait slots, [MDL_context::m_wait] *)
  sv_waits : wait_slots;
  sv_ctxs : gmap ctx_id MDL_context;
}.

Definition get_context (sv : server) (c : ctx_id) : MDL_context :=
  default empty_context (sv_ctxs sv !! c).
Definition set_context (sv : server) (c : ctx_id) (x : MDL_context) : server :=
  mk_server (sv_heap sv) (sv_locks sv) (sv_waits sv) (<[c := x]> (sv_ctxs sv)).
Definition set_heap (sv : server) (h : heap) : server :=
  mk_server h (sv_locks sv) (sv_waits sv) (sv_ctxs sv).
Definition set_waits (sv : server) (w : wait_slots) : server :=
  mk_server (sv_heap sv) (sv_locks sv) w (sv_ctxs sv).

(** [ticket->m_lock], as the lock's entry in the map *)
Definition ticket_lock (sv : server) (t : ptr) : option (list Z * MDL_lock) :=
  tk ← sv_heap sv !! t; k ← m_lock tk; lk ← sv_locks sv !! k; Some (k, lk).

Definition world_of (sv : server) (lk : MDL_lock) : world :=
  mk_world (sv_heap sv) lk (sv_waits sv).
Definition put_world (sv : server) (k : list Z) (wd : world) : server :=
  mk_server (w_heap wd) (<[k := w_lock wd]> (sv_locks sv)) (w_waits wd) (sv_ctxs sv).
(** [MDL_map::remove] of a lock that was emptied *)
Definition remove_world (sv : server) (k : list Z) (wd : world) : server :=
  mk_server (w_heap wd) (delete k (sv_locks sv)) (w_waits wd) (sv_ctxs sv).

Definition push_front (sv : server) (c : ctx_id) (d : enum_mdl_duration) (t : ptr) : server :=
  set_context sv c (set_tickets (get_context sv c) d (t :: m_tickets (get_context sv c) d)).
Definition remove_from (sv : server) (c : ctx_id) (d : enum_mdl_duration) (t : ptr) : server :=
  set_context sv c
    (set_tickets (get_context sv c) d (remove_first t (m_tickets (get_context sv c) d))).
Definition delete_ticket (sv : server) (t : ptr) : server := set_heap sv (delete t (sv_heap sv)).

(** What fails for lack of memory: the pins, the ticket, the entry of the hash. *)
Record memory := mk_memory {
  no_pins : bool;
  no_ticket : bool;
  no_hash_entry : bool;
}.
Definition enough_memory : memory := mk_memory false false false.

(** [ticket->has_stronger_or_equal_type(type)] *)
Definition ticket_stronger (sv : server) (t : ptr) (type : enum_mdl_type) : bool :=
  match ticket_lock sv t with
  | Some (_, lk) =>
      match m_strategy lk with
      | Some s => has_stronger_or_equal_type s (get_type (sv_heap sv) t) type
      | None => false
      end
  | None => false
  end.

(** [mdl_request->key.is_equal(ticket->get_key())] *)
Definition ticket_key_is (sv : server) (t : ptr) (k : MDL_key) : bool :=
  match ticket_lock sv t with
  | Some (_, lk) => is_equal k (key lk)
  | None => false
  end.
