(* ===== verification/MdlDeadlock.v ===== *)
(** * Deadlock detection

    [Deadlock_detection_visitor], the [visit_subgraph] functions and
    [MDL_context::find_deadlock] of sql/mdl.cc, on a state that does not change
    during the search but for the wait slots the search itself sets.  The recursion
    is bounded by MAX_SEARCH_DEPTH, which serves as the measure. *)

From S2P Require Import Prelude MdlTypes MdlKey MdlLock MdlServer.

(** ** Weights *)

Definition DEADLOCK_WEIGHT_FTWRL1 : Z := 0.
Definition DEADLOCK_WEIGHT_DML : Z := 1.
Definition DEADLOCK_WEIGHT_DDL : Z := 100.

Definition MDL_ticket_get_deadlock_weight (sv : server) (t : ptr) : Z :=
  match ticket_lock sv t with
  | Some (_, lk) =>
      if mdl_namespace (key lk) =? namespace_code BACKUP
      then if get_type (sv_heap sv) t =? MDL_BACKUP_FTWRL1
           then DEADLOCK_WEIGHT_FTWRL1 else DEADLOCK_WEIGHT_DDL
      else if MDL_SHARED_UPGRADABLE <=? get_type (sv_heap sv) t
           then DEADLOCK_WEIGHT_DDL else DEADLOCK_WEIGHT_DML
  | None => 0
  end.

(** [MDL_context::get_deadlock_weight]; only called for contexts that wait *)
Definition MDL_context_get_deadlock_weight (sv : server) (c : ctx_id) : Z :=
  match m_waiting_for (get_context sv c) with
  | Some t =>
      u32 (MDL_ticket_get_deadlock_weight sv t + m_deadlock_overweight (get_context sv c))
  | None => 0
  end.

(** ** The visitor *)

Definition MAX_SEARCH_DEPTH : Z := 32.

Record Deadlock_detection_visitor := mk_visitor {
  m_start_node : ctx_id;
  m_victim : option ctx_id;
  m_current_search_depth : Z;
  m_found_deadlock : bool;
}.

Definition visitor_init (start_node_arg : ctx_id) : Deadlock_detection_visitor :=
  mk_visitor start_node_arg None 0 false.

Definition opt_change_victim_to (sv : server) (v : Deadlock_detection_visitor)
    (new_victim : ctx_id) : Deadlock_detection_visitor :=
  let change :=
    match m_victim v with
    | None => true
    | Some victim =>
        MDL_context_get_deadlock_weight sv new_victim <=? MDL_context_get_deadlock_weight sv victim
    end in
  if change
  then mk_visitor (m_start_node v) (Some new_victim) (m_current_search_depth v) (m_found_deadlock v)
  else v.

Definition enter_node (sv : server) (v : Deadlock_detection_visitor) (node : ctx_id) :
    bool * Deadlock_detection_visitor :=
  let depth := m_current_search_depth v + 1 in
  let found := MAX_SEARCH_DEPTH <=? depth in
  let v' := mk_visitor (m_start_node v) (m_victim v) depth found in
  (found, if found then opt_change_victim_to sv v' node else v').

Definition leave_node (sv : server) (v : Deadlock_detection_visitor) (node : ctx_id) :
    Deadlock_detection_visitor :=
  let v' := mk_visitor (m_start_node v) (m_victim v) (m_current_search_depth v - 1)
              (m_found_deadlock v) in
  if m_found_deadlock v then opt_change_victim_to sv v' node else v'.

Definition inspect_edge (v : Deadlock_detection_visitor) (node : ctx_id) :
    bool * Deadlock_detection_visitor :=
  let found := Nat.eqb node (m_start_node v) in
  (found, mk_visitor (m_start_node v) (m_victim v) (m_current_search_depth v) found).

(** ** The search *)

(** A loop over tickets that stops when [action] returns true for one. *)
Fixpoint until_true {A} (action : Deadlock_detection_visitor -> A -> bool * Deadlock_detection_visitor)
    (v : Deadlock_detection_visitor) (l : list A) : bool * Deadlock_detection_visitor :=
  match l with
  | [] => (false, v)
  | x :: l' =>
      let '(stop, v') := action v x in
      if stop then (true, v') else until_true action v' l'
  end.

(** The contexts the tickets of the two queues of the lock lead to from
    [waiting_ticket]: those of incompatible granted tickets, then those of waiting
    ones that have priority. *)
Definition blockers (h : heap) (lk : MDL_lock) (s : MDL_lock_strategy) (waiting_ticket : ptr) :
    list ctx_id :=
  let src_ctx := get_ctx h waiting_ticket in
  map (get_ctx h)
    (List.filter (fun ticket => negb (Nat.eqb (get_ctx h ticket) src_ctx) &&
       is_incompatible_when_granted s (get_type h ticket) (get_type h waiting_ticket))
       (m_list (m_granted lk)) ++
     List.filter (fun ticket => negb (Nat.eqb (get_ctx h ticket) src_ctx) &&
       is_incompatible_when_waiting s (get_type h ticket) (get_type h waiting_ticket))
       (m_list (m_waiting lk))).

(** [MDL_lock::visit_subgraph]; [visit] is [MDL_context::visit_subgraph].  The two
    pairs of loops each run over m_granted, then over m_waiting. *)
Definition MDL_lock_visit_subgraph (sv : server)
    (visit : Deadlock_detection_visitor -> ctx_id -> bool * Deadlock_detection_visitor)
    (lk : MDL_lock) (s : MDL_lock_strategy) (waiting_ticket : ptr)
    (gvisitor : Deadlock_detection_visitor) : bool * Deadlock_detection_visitor :=
  let src_ctx := get_ctx (sv_heap sv) waiting_ticket in
  if negb (bool_decide (get_status (sv_waits sv) src_ctx = EMPTY)) then (false, gvisitor)
  else
    let '(stop, v1) := enter_node sv gvisitor src_ctx in
    if stop then (true, v1)
    else
      let next := blockers (sv_heap sv) lk s waiting_ticket in
      let '(found, v2) := until_true inspect_edge v1 next in
      let '(result, v3) := if found then (true, v2) else until_true visit v2 next in
      (result, leave_node sv v3 src_ctx).

(** [MDL_context::visit_subgraph].  [fuel] bounds the depth of the recursion. *)
Fixpoint MDL_context_visit_subgraph (fuel : nat) (sv : server)
    (gvisitor : Deadlock_detection_visitor) (c : ctx_id) : bool * Deadlock_detection_visitor :=
  match fuel with
  | O => (true, gvisitor)
  | S fuel' =>
      match m_waiting_for (get_context sv c) with
      | None => (false, gvisitor)
      | Some t =>
          match ticket_lock sv t with
          | Some (_, lk) =>
              match m_strategy lk with
              | Some s =>
                  MDL_lock_visit_subgraph sv (MDL_context_visit_subgraph fuel' sv)
                    lk s t gvisitor
              | None => (false, gvisitor)
              end
          | None => (false, gvisitor)
          end
      end
  end.

Definition search_fuel : nat := Z.to_nat MAX_SEARCH_DEPTH.

(** One iteration of the loop of [find_deadlock]: the search, and what is done to
    the victim. *)
Definition find_deadlock_step (sv : server) (c : ctx_id) : option (ctx_id * server) :=
  let '(found, v) := MDL_context_visit_subgraph search_fuel sv (visitor_init c) c in
  if found then
    match m_victim v with
    | Some victim =>
        let sv1 := set_waits sv (set_status (sv_waits sv) victim VICTIM).2 in
        Some (victim, set_context sv1 victim (inc_deadlock_overweight (get_context sv1 victim)))
    | None => None
    end
  else None.

(** [MDL_context::find_deadlock]; [None] when [fuel] iterations are not enough. *)
Fixpoint find_deadlock (fuel : nat) (sv : server) (c : ctx_id) : option server :=
  match find_deadlock_step sv c with
  | None => Some sv
  | Some (victim, sv') =>
      if Nat.eqb victim c then Some sv'
      else match fuel with O => None | S fuel' => find_deadlock fuel' sv' c end
  end.

(** ** The wait-for graph *)

(** The successors of a context that really waits, [None] for one that does not. *)
Definition successors (sv : server) (c : ctx_id) : option (list ctx_id) :=
  t ← m_waiting_for (get_context sv c);
  x ← ticket_lock sv t;
  s ← m_strategy x.2;
  if bool_decide (get_status (sv_waits sv) c = EMPTY)
  then Some (blockers (sv_heap sv) x.2 s t) else None.

Definition edge (sv : server) (a b : ctx_id) : Prop :=
  exists l, successors sv a = Some l /\ b ∈ l.

(** A context waits for a ticket of its own. *)
Definition waits_ok (sv : server) : Prop :=
  forall c t, m_waiting_for (get_context sv c) = Some t -> get_ctx (sv_heap sv) t = c.

(** [walk sv c p]: [p] is a sequence of waiting contexts starting with [c], each
    waiting for the next. *)
Inductive walk (sv : server) : ctx_id -> list ctx_id -> Prop :=
| walk_one c : is_Some (successors sv c) -> walk sv c [c]
| walk_cons c b p : edge sv c b -> walk sv b p -> walk sv c (c :: p).

(** The body of the search at a node. *)
Definition visit_node (sv : server)
    (visit : Deadlock_detection_visitor -> ctx_id -> bool * Deadlock_detection_visitor)
    (v : Deadlock_detection_visitor) (c : ctx_id) (next : list ctx_id) :=
  let '(stop, v1) := enter_node sv v c in
  if stop then (true, v1)
  else
    let '(found, v2) := until_true inspect_edge v1 next in
    let '(result, v3) := if found then (true, v2) else until_true visit v2 next in
    (result, leave_node sv v3 c).

Lemma visit_unfold sv fuel v c :
  waits_ok sv ->
  MDL_context_visit_subgraph (S fuel) sv v c =
  match successors sv c with
  | None => (false, v)
  | Some next => visit_node sv (MDL_context_visit_subgraph fuel sv) v c next
  end.
Proof.
  intros Hw. simpl. unfold successors.
  destruct (m_waiting_for _) as [t|] eqn:Et; simpl; [|done].
  destruct (ticket_lock sv t) as [[k lk]|]; simpl; [|done].
  destruct (m_strategy lk) as [s|]; simpl; [|done].
  unfold MDL_lock_visit_subgraph, visit_node. rewrite (Hw c t Et).
  by destruct (bool_decide _).
Qed.

(** The part of the visitor the search maintains while nothing is found. *)
Definition searching (start : ctx_id) (d : Z) (v : Deadlock_detection_visitor) : Prop :=
  m_start_node v = start /\ m_victim v = None /\ m_current_search_depth v = d /\
  m_found_deadlock v = false.

(** The victim is on the way and no context on the way weighs less. *)
Definition victim_of (sv : server) (v : Deadlock_detection_visitor) (p : list ctx_id) : Prop :=
  exists x, m_victim v = Some x /\ x ∈ p /\
    forall y, y ∈ p ->
      MDL_context_get_deadlock_weight sv x <= MDL_context_get_deadlock_weight sv y.

Lemma opt_change_first sv v c :
  m_victim v = None -> victim_of sv (opt_change_victim_to sv v c) [c].
Proof.
  intros Hn. unfold opt_change_victim_to. rewrite Hn. exists c. simpl.
  split_and!; [done|set_solver|]. intros y Hy%list_elem_of_singleton. by subst.
Qed.

Lemma opt_change_more sv v v' c p :
  m_victim v' = m_victim v -> victim_of sv v p -> victim_of sv (opt_change_victim_to sv v' c) (c :: p).
Proof.
  intros Hm (x & Hx & Hin & Hmin). unfold opt_change_victim_to. rewrite Hm, Hx.
  case_match eqn:Ec; simpl; [apply Z.leb_le in Ec|apply Z.leb_gt in Ec].
  - exists c. split_and!; [done|set_solver|].
    intros y [->|Hy]%elem_of_cons; [done|]. specialize (Hmin y Hy). lia.
  - exists x. rewrite Hm. split_and!; [done|set_solver|].
    intros y [->|Hy]%elem_of_cons; [lia|auto].
Qed.

Lemma opt_change_fields sv v c :
  m_start_node (opt_change_victim_to sv v c) = m_start_node v /\
  m_found_deadlock (opt_change_victim_to sv v c) = m_found_deadlock v.
Proof. unfold opt_change_victim_to. by repeat case_match. Qed.

(** ** What the loops do *)

Lemma inspect_false start d v l v' :
  searching start d v -> until_true inspect_edge v l = (false, v') ->
  searching start d v' /\ start ∉ l.
Proof.
  intros Hs. revert v Hs. induction l as [|x l IH]; simpl; intros v (Hst & Hv & Hd & Hfd) E.
  { simplify_eq. split; [done|set_solver]. }
  destruct (Nat.eqb x (m_start_node v)) eqn:Ex; [done|]. apply Nat.eqb_neq in Ex.
  apply IH in E as [? ?]; [|done]. split; [done|]. set_solver.
Qed.

Lemma inspect_true start d v l v' :
  searching start d v -> until_true inspect_edge v l = (true, v') ->
  m_victim v' = None /\ start ∈ l /\ m_found_deadlock v' = true.
Proof.
  intros Hs. revert v Hs. induction l as [|x l IH]; simpl; intros v (Hst & Hv & Hd & Hfd) E; [done|].
  destruct (Nat.eqb x (m_start_node v)) eqn:Ex.
  - apply Nat.eqb_eq in Ex. simplify_eq. split_and!; [done|set_solver|done].
  - apply IH in E as (? & ? & ?); [|done]. split_and!; [done|set_solver|done].
Qed.

(** What the recursive calls return, for a start node at depth [d]. *)
Definition visit_false_spec (sv : server) start d
    (visit : Deadlock_detection_visitor -> ctx_id -> bool * Deadlock_detection_visitor) : Prop :=
  forall v c v', searching start d v -> visit v c = (false, v') ->
    searching start d v' /\ ~ tc (edge sv) c start.

(** The walk a successful search found: it leads back to the start node, or is as
    long as the depth still allowed. *)
Definition found_walk (sv : server) start (d : Z) c (v' : Deadlock_detection_visitor) : Prop :=
  exists p, walk sv c p /\ victim_of sv v' p /\ m_found_deadlock v' = true /\
    ((exists l, last p = Some l /\ edge sv l start) \/ Z.of_nat (length p) = MAX_SEARCH_DEPTH - d).

Definition visit_true_spec (sv : server) start d
    (visit : Deadlock_detection_visitor -> ctx_id -> bool * Deadlock_detection_visitor) : Prop :=
  forall v c v', searching start d v -> visit v c = (true, v') -> found_walk sv start d c v'.

Lemma until_visit sv start d visit v l r v' :
  visit_false_spec sv start d visit -> visit_true_spec sv start d visit ->
  searching start d v -> until_true visit v l = (r, v') ->
  if r then exists c, c ∈ l /\ found_walk sv start d c v'
  else searching start d v' /\ forall c, c ∈ l -> ~ tc (edge sv) c start.
Proof.
  intros Hf Ht. revert v. induction l as [|x l IH]; simpl; intros v Hs E.
  { simplify_eq. split; [done|set_solver]. }
  destruct (visit v x) as [stop v1] eqn:Ev. destruct stop.
  - simplify_eq. exists x. split; [set_solver|]. by eapply Ht.
  - apply Hf in Ev as [Hs1 Hn]; [|done]. apply IH in E; [|done]. destruct r.
    + destruct E as (c & Hc & Hw). exists c. split; [set_solver|done].
    + destruct E as [Hs2 Hl]. split; [done|]. intros c [->|Hc]%elem_of_cons; auto.
Qed.

(** ** The search as a whole *)

Lemma tc_first {A} (R : A -> A -> Prop) x y :
  tc R x y -> exists z, R x z /\ (z = y \/ tc R z y).
Proof. destruct 1; eauto. Qed.

Lemma enter_node_spec sv start d v c :
  searching start d v ->
  enter_node sv v c =
  if MAX_SEARCH_DEPTH <=? d + 1
  then (true, opt_change_victim_to sv (mk_visitor start None (d + 1) true) c)
  else (false, mk_visitor start None (d + 1) false).
Proof.
  intros (<- & Hv & <- & _). unfold enter_node. rewrite Hv. by case_match.
Qed.

Lemma visit_node_false sv start d visit v c next v' :
  visit_false_spec sv start (d + 1) visit -> visit_true_spec sv start (d + 1) visit ->
  searching start d v -> successors sv c = Some next ->
  visit_node sv visit v c next = (false, v') ->
  searching start d v' /\ ~ tc (edge sv) c start.
Proof.
  intros Hf Ht Hs Hn. unfold visit_node. rewrite (enter_node_spec sv start d v c Hs).
  destruct (MAX_SEARCH_DEPTH <=? d + 1); [done|]. set (v1 := mk_visitor start None (d + 1) false).
  assert (searching start (d + 1) v1) as Hs1 by done.
  destruct (until_true inspect_edge v1 next) as [found v2] eqn:Ei. destruct found; [done|].
  destruct (inspect_false _ _ _ _ _ Hs1 Ei) as [Hs2 Hni].
  destruct (until_true visit v2 next) as [r v3] eqn:Er. intros [= -> <-].
  destruct (until_visit _ _ _ _ _ _ _ _ Hf Ht Hs2 Er) as [(H1 & H2 & H3 & H4) Hall].
  split.
  - unfold leave_node. rewrite H4. repeat split; simpl; try done. lia.
  - intros Htc. apply tc_first in Htc as (b & (l & Hl & Hin) & Hb).
    rewrite Hn in Hl. simplify_eq. destruct Hb as [->|Hb]; [done|by apply (Hall b)].
Qed.

Lemma victim_leave sv v c p :
  m_found_deadlock v = true -> victim_of sv v p -> victim_of sv (leave_node sv v c) (c :: p).
Proof. intros Hf Hv. unfold leave_node. rewrite Hf. by eapply opt_change_more. Qed.

Lemma victim_leave_first sv v c :
  m_found_deadlock v = true -> m_victim v = None -> victim_of sv (leave_node sv v c) [c].
Proof. intros Hf Hv. unfold leave_node. rewrite Hf. by apply opt_change_first. Qed.

Lemma leave_found sv v c : m_found_deadlock (leave_node sv v c) = m_found_deadlock v.
Proof. unfold leave_node. case_match eqn:E; [|done]. by rewrite (proj2 (opt_change_fields _ _ _)). Qed.

Lemma visit_node_true sv start d visit v c next v' :
  visit_false_spec sv start (d + 1) visit -> visit_true_spec sv start (d + 1) visit ->
  searching start d v -> d < MAX_SEARCH_DEPTH -> successors sv c = Some next ->
  visit_node sv visit v c next = (true, v') -> found_walk sv start d c v'.
Proof.
  intros Hf Ht Hs Hd Hn. unfold visit_node. rewrite (enter_node_spec sv start d v c Hs).
  destruct (MAX_SEARCH_DEPTH <=? d + 1) eqn:Ed.
  { intros [= <-]. apply Z.leb_le in Ed. exists [c].
    split_and!; [constructor; eauto|by apply opt_change_first|by rewrite (proj2 (opt_change_fields _ _ _))|].
    right. simpl. lia. }
  set (v1 := mk_visitor start None (d + 1) false).
  assert (searching start (d + 1) v1) as Hs1 by done.
  destruct (until_true inspect_edge v1 next) as [found v2] eqn:Ei. destruct found.
  - destruct (inspect_true _ _ _ _ _ Hs1 Ei) as (Hv2 & Hin & Hfd). intros [= <-].
    exists [c]. split_and!; [constructor; eauto|by apply victim_leave_first|by rewrite leave_found|].
    left. exists c. split; [done|]. by exists next.
  - destruct (inspect_false _ _ _ _ _ Hs1 Ei) as [Hs2 Hni].
    destruct (until_true visit v2 next) as [r v3] eqn:Er. intros [= -> <-].
    destruct (until_visit _ _ _ _ _ _ _ _ Hf Ht Hs2 Er) as (b & Hb & p & Hw & Hv & Hfd & Hend).
    exists (c :: p). split_and!.
    + apply walk_cons with b; [by exists next|done].
    + by apply victim_leave.
    + by rewrite leave_found.
    + destruct Hend as [(l & Hl & He)|Hlen]; [left|right; simpl length; lia].
      exists l. split; [|done]. rewrite last_cons, Hl. done.
Qed.

(** Enough fuel is as many calls as the depth allows. *)
Lemma visit_spec sv start fuel d :
  waits_ok sv -> Z.of_nat fuel = MAX_SEARCH_DEPTH - d ->
  visit_false_spec sv start d (MDL_context_visit_subgraph fuel sv) /\
  (d < MAX_SEARCH_DEPTH ->
   visit_true_spec sv start d (MDL_context_visit_subgraph fuel sv)).
Proof.
  intros Hw. revert d. induction fuel as [|fuel IH]; intros d Hfuel.
  { split; [by intros v c v' _|lia]. }
  destruct (IH (d + 1)) as [IHf IHt]; [lia|]. split.
  - intros v c v' Hs. rewrite visit_unfold by done.
    destruct (successors sv c) as [next|] eqn:Hn.
    + intros E. destruct (decide (d + 1 < MAX_SEARCH_DEPTH)) as [Hd|Hd].
      * eapply visit_node_false; eauto.
      * unfold visit_node in E. rewrite (enter_node_spec sv start d v c Hs) in E.
        by rewrite (proj2 (Z.leb_le _ _)) in E by lia.
    + intros [= <-]. split; [done|]. intros Htc.
      apply tc_first in Htc as (b & (l & Hl & _) & _). congruence.
  - intros Hd v c v' Hs. rewrite visit_unfold by done.
    destruct (successors sv c) as [next|] eqn:Hn; [|done]. intros E.
    destruct (decide (d + 1 < MAX_SEARCH_DEPTH)) as [Hd1|Hd1].
    + eapply visit_node_true; eauto.
    + unfold visit_node in E. rewrite (enter_node_spec sv start d v c Hs) in E.
      rewrite (proj2 (Z.leb_le _ _)) in E by lia. simplify_eq. exists [c].
      split_and!; [constructor; eauto|by apply opt_change_first|by rewrite (proj2 (opt_change_fields _ _ _))|].
      right. simpl. lia.
Qed.

(** ** Resolving deadlocks *)

Lemma walk_waits sv c p x : walk sv c p -> x ∈ p -> is_Some (successors sv x).
Proof.
  induction 1 as [c Hs|c b p (l & Hl & _) _ IH].
  - intros Hx%list_elem_of_singleton. by subst.
  - intros [->|Hx]%elem_of_cons; eauto.
Qed.

Lemma successors_waits sv c :
  is_Some (successors sv c) ->
  get_status (sv_waits sv) c = EMPTY /\ c ∈ dom (sv_ctxs sv).
Proof.
  unfold successors, get_context. intros [l Hl].
  destruct (sv_ctxs sv !! c) eqn:Ec; simpl in Hl; [|done].
  split; [|by apply elem_of_dom].
  destruct (m_waiting_for _); simpl in Hl; [|done].
  destruct (ticket_lock _ _); simpl in Hl; [|done].
  destruct (m_strategy _); simpl in Hl; [|done].
  by case_bool_decide.
Qed.

(** The state after a victim was told. *)
Definition kill_victim (sv : server) (victim : ctx_id) : server :=
  let sv1 := set_waits sv (set_status (sv_waits sv) victim VICTIM).2 in
  set_context sv1 victim (inc_deadlock_overweight (get_context sv1 victim)).

Lemma step_found sv c victim sv' :
  waits_ok sv -> find_deadlock_step sv c = Some (victim, sv') ->
  sv' = kill_victim sv victim /\
  exists p, walk sv c p /\ victim ∈ p /\
    (forall y, y ∈ p ->
       MDL_context_get_deadlock_weight sv victim <= MDL_context_get_deadlock_weight sv y) /\
    ((exists l, last p = Some l /\ edge sv l c) \/ Z.of_nat (length p) = MAX_SEARCH_DEPTH).
Proof.
  intros Hw. unfold find_deadlock_step.
  destruct (MDL_context_visit_subgraph _ _ _ _) as [found v] eqn:E. destruct found; [|done].
  destruct (visit_spec sv c search_fuel 0 Hw eq_refl) as [_ Ht].
  apply Ht in E as (p & Hp & (x & Hx & Hin & Hmin) & _ & Hend); [|done|done].
  rewrite Hx. intros [= <- <-]. split; [done|]. exists p. split_and!; try done.
Qed.

Lemma step_none sv c :
  waits_ok sv -> find_deadlock_step sv c = None -> ~ tc (edge sv) c c.
Proof.
  intros Hw. unfold find_deadlock_step.
  destruct (MDL_context_visit_subgraph _ _ _ _) as [found v] eqn:E.
  destruct (visit_spec sv c search_fuel 0 Hw eq_refl) as [Hf Ht]. destruct found.
  - apply Ht in E as (p & _ & (x & Hx & _) & _); [|done|done]. by rewrite Hx.
  - intros _. by apply Hf in E as [_ ?].
Qed.

(** The contexts whose wait slot is still free. *)
Definition pending (sv : server) : gset ctx_id :=
  filter (fun c => get_status (sv_waits sv) c = EMPTY) (dom (sv_ctxs sv)).

Lemma get_context_kill sv victim c :
  m_waiting_for (get_context (kill_victim sv victim) c) = m_waiting_for (get_context sv c).
Proof.
  unfold kill_victim, get_context, set_context. simpl.
  destruct (decide (victim = c)) as [<-|]; [|by rewrite lookup_insert_ne].
  by rewrite lookup_insert_eq.
Qed.

Lemma kill_status sv victim c :
  get_status (sv_waits sv) victim = EMPTY ->
  get_status (sv_waits (kill_victim sv victim)) c =
  if decide (victim = c) then VICTIM else get_status (sv_waits sv) c.
Proof.
  intros He. unfold kill_victim, set_status. simpl. rewrite decide_True by done. simpl.
  unfold get_status. case_decide; subst; [by rewrite lookup_insert_eq|by rewrite lookup_insert_ne].
Qed.

Lemma kill_pending sv victim :
  victim ∈ pending sv -> (size (pending (kill_victim sv victim)) < size (pending sv))%nat.
Proof.
  intros Hv. unfold pending in Hv. apply elem_of_filter in Hv as [He Hd].
  apply subset_size. split.
  - intros c. unfold pending. rewrite !elem_of_filter, kill_status by done.
    unfold kill_victim. simpl. rewrite dom_insert. case_decide; set_solver.
  - intros Hsub. assert (victim ∈ pending (kill_victim sv victim)) as Hin.
    { apply Hsub. unfold pending. by apply elem_of_filter. }
    unfold pending in Hin. rewrite elem_of_filter, kill_status, decide_True in Hin by done.
    by destruct Hin.
Qed.

Lemma kill_waits_ok sv victim : waits_ok sv -> waits_ok (kill_victim sv victim).
Proof. intros Hw c t. rewrite get_context_kill. apply Hw. Qed.

(** What the loop leaves behind. *)
Record resolved (sv : server) (c : ctx_id) (sv' : server) : Prop := {
  rv_heap : sv_heap sv' = sv_heap sv;
  rv_locks : sv_locks sv' = sv_locks sv;
  (** contexts were only told to give up *)
  rv_status x : get_status (sv_waits sv') x = get_status (sv_waits sv) x \/
    get_status (sv_waits sv) x = EMPTY /\ get_status (sv_waits sv') x = VICTIM;
  (** [c] gives up or is not waiting for itself *)
  rv_done : get_status (sv_waits sv') c = VICTIM \/ ~ tc (edge sv') c c;
}.

Lemma find_deadlock_spec fuel sv c :
  waits_ok sv -> (size (pending sv) <= fuel)%nat ->
  exists sv', find_deadlock fuel sv c = Some sv' /\ resolved sv c sv'.
Proof.
  revert sv. induction fuel as [|fuel IH]; intros sv Hw Hfuel; simpl;
    (destruct (find_deadlock_step sv c) as [[victim sv1]|] eqn:E;
     [|exists sv; split; [done|split; [done..|by left|right; by apply step_none]]]);
    destruct (step_found _ _ _ _ Hw E) as [-> (p & Hp & Hin & _)];
    destruct (successors_waits sv victim (walk_waits _ _ _ _ Hp Hin)) as [He Hd];
    assert (victim ∈ pending sv) as Hpend by (by apply elem_of_filter);
    pose proof (kill_pending sv victim Hpend) as Hlt; [lia|].
  assert (forall x, get_status (sv_waits (kill_victim sv victim)) x = get_status (sv_waits sv) x \/
    get_status (sv_waits sv) x = EMPTY /\
    get_status (sv_waits (kill_victim sv victim)) x = VICTIM) as Hst.
  { intros x. rewrite kill_status by done. case_decide; [subst; by right|by left]. }
  destruct (Nat.eqb victim c) eqn:Ec.
  - apply Nat.eqb_eq in Ec as ->. exists (kill_victim sv c). split; [done|].
    split; [done..|]. left. by rewrite kill_status, decide_True.
  - destruct (IH (kill_victim sv victim)) as (sv' & Hf & [R1 R2 R3 R4]);
      [by apply kill_waits_ok|lia|].
    exists sv'. split; [done|]. split; [by rewrite R1|by rewrite R2| |done].
    intros x. destruct (R3 x) as [->|[H1 H2]]; [apply Hst|].
    destruct (Hst x) as [<-|[? ?]]; [by right|congruence].
Qed.
