(* ===== verification/MdlContext.v ===== *)
(** * Metadata locking contexts

    [MDL_map] and [MDL_context] of sql/mdl.cc, and the operations of [MDL_ticket]
    that contexts offer.  A call that waits ([acquire_lock],
    [upgrade_shared_lock]) is split at the wait, since other contexts run
    meanwhile.  Failing allocations are arguments; notifying the owners of
    conflicting locks is left to the connections. *)

From S2P Require Import Prelude MdlTypes MdlKey MdlLock MdlServer MdlDeadlock.

Definition MDL_context_find_ticket (sv : server) (c : ctx_id) (mdl_request : MDL_request) :
    option (ptr * enum_mdl_duration) :=
  head (flat_map (fun duration =>
    map (fun t => (t, duration)) (List.filter (fun ticket =>
      ticket_key_is sv ticket (rq_key mdl_request) &&
      ticket_stronger sv ticket (rq_type mdl_request)) (m_tickets (get_context sv c) duration)))
    (durations_from (rq_duration mdl_request))).

(** ** Waiting *)

(** [MDL_wait::timed_wait] when the wait is over, because somebody posted a status, because the owner
    was killed or because the time is up: a slot that is still empty is closed by the context itself,
    except at the end of a wait that it is going to resume. *)
Definition timed_wait (w : wait_slots) (c : ctx_id) (killed set_status_on_timeout : bool) :
    enum_wait_status * wait_slots :=
  let w' :=
    if decide (get_status w c = EMPTY) then
      if killed then <[c := KILLED]> w
      else if set_status_on_timeout then <[c := TIMEOUT]> w else w
    else w in
  (get_status w' c, w').

(** One round of the loop in [MDL_context::acquire_lock]: a short wait, or ([last]) the final one
    after the loop.  [None]: go on waiting; otherwise the wait_status the loop is left with. *)
Definition wait_round (w : wait_slots) (c : ctx_id) (killed connected last : bool) :
    option enum_wait_status * wait_slots :=
  if last then let '(wait_status, w') := timed_wait w c killed true in (Some wait_status, w')
  else
    let '(wait_status, w') := timed_wait w c killed false in
    if negb (bool_decide (wait_status = EMPTY)) then (Some wait_status, w')
    else if negb connected then (Some TIMEOUT, w')
    else (None, w').

Section Contexts.
Context (max_write_lock_count : Z) (mdl_instances : Z) (thread_id : ctx_id -> Z).

(** ** The map *)

(** [MDL_map::try_acquire_lock].  A lock is created when the key has none; a lock
    that is being removed is not in the map here, so there is nothing to retry. *)
Definition MDL_map_try_acquire_lock (sv : server) (mem : memory) (mdl_key : MDL_key)
    (ticket : ptr) (wait : bool) : tal_status * server :=
  let k := m_ptr mdl_key in
  let run lk :=
    let '(res, wd, _) :=
      MDL_lock_try_acquire_lock mdl_instances thread_id (world_of sv lk) ticket wait in
    (res, put_world sv k wd) in
  match sv_locks sv !! k with
  | Some lk => run lk
  | None =>
      if no_hash_entry mem then (TAL_ERROR, sv)
      else run (MDL_lock_init mdl_instances true mdl_key)
  end.

Definition MDL_map_get_lock_owner (sv : server) (mdl_key : MDL_key) : Z :=
  match sv_locks sv !! m_ptr mdl_key with
  | Some lk => get_lock_owner thread_id (sv_heap sv) lk
  | None => 0
  end.

(** Releasing a ticket, or aborting its wait, through [ticket->m_lock]. *)
Definition leave_lock (op : world -> ptr -> bool * world) (sv : server) (ticket : ptr) : server :=
  match ticket_lock sv ticket with
  | Some (k, lk) =>
      let '(emptied, wd) := op (world_of sv lk) ticket in
      if emptied then remove_world sv k wd else put_world sv k wd
  | None => sv
  end.

(** ** Acquiring *)

(** [new MDL_ticket(this, mdl_request)] at an unused address. *)
Definition new_ticket (sv : server) (c : ctx_id) (mdl_request : MDL_request) : ptr * server :=
  let t := fresh (dom (sv_heap sv)) in
  (t, set_heap sv (<[t := mk_ticket (rq_type mdl_request) c None None]> (sv_heap sv))).

(** [MDL_context::clone_ticket] of the ticket [src] of the request; [None] when
    out of memory. *)
Definition clone_ticket (sv : server) (mem : memory) (c : ctx_id) (mdl_request : MDL_request)
    (src : ptr) : option (ptr * server) :=
  if no_pins mem then None
  else if no_ticket mem then None
  else
    match ticket_lock sv src with
    | Some (k, lk) =>
        let '(t, sv1) := new_ticket sv c mdl_request in
        let sv2 := set_heap sv1 (alter (set_lock (Some k)) t (sv_heap sv1)) in
        let sv3 := put_world sv2 k (add_cloned_ticket (world_of sv2 lk) t) in
        Some (t, push_front sv3 c (rq_duration mdl_request) t)
    | None => None
    end.

(** What [try_acquire_lock_impl] left in the request and in [out_ticket]. *)
Inductive acquire_result :=
| acquire_error
| acquired (ticket : ptr)
| must_wait (ticket : ptr)
| not_acquired.

Definition try_acquire_lock_impl (sv : server) (mem : memory) (c : ctx_id)
    (mdl_request : MDL_request) (wait : bool) : acquire_result * server :=
  match MDL_context_find_ticket sv c mdl_request with
  | Some (ticket, found_duration) =>
      if bool_decide (found_duration ≠ rq_duration mdl_request) ||
         bool_decide (rq_duration mdl_request = MDL_EXPLICIT)
      then
        match clone_ticket sv mem c mdl_request ticket with
        | Some (t, sv') => (acquired t, sv')
        | None => (acquire_error, sv)
        end
      else (acquired ticket, sv)
  | None =>
      if no_pins mem then (acquire_error, sv)
      else if no_ticket mem then (acquire_error, sv)
      else
        let '(ticket, sv1) := new_ticket sv c mdl_request in
        let '(res, sv2) := MDL_map_try_acquire_lock sv1 mem (rq_key mdl_request) ticket wait in
        match res with
        | TAL_ACQUIRED => (acquired ticket, push_front sv2 c (rq_duration mdl_request) ticket)
        | TAL_WAIT => (must_wait ticket, sv2)
        | TAL_NOWAIT => (not_acquired, delete_ticket sv2 ticket)
        | TAL_ERROR => (acquire_error, delete_ticket sv2 ticket)
        end
  end.

Definition MDL_context_try_acquire_lock (sv : server) (mem : memory) (c : ctx_id)
    (mdl_request : MDL_request) : acquire_result * server :=
  try_acquire_lock_impl sv mem c mdl_request false.

Definition will_wait_for (sv : server) (c : ctx_id) (t : ptr) : server :=
  set_context sv c (set_waiting_for (get_context sv c) (Some t)).
Definition done_waiting_for (sv : server) (c : ctx_id) : server :=
  set_context sv c (set_waiting_for (get_context sv c) None).

(** [MDL_context::acquire_lock] up to the wait; [no_timeout] is
    [lock_wait_timeout == 0].  The result [not_acquired] is the error
    ER_LOCK_WAIT_TIMEOUT. *)
Definition acquire_lock_enter (sv : server) (mem : memory) (c : ctx_id)
    (mdl_request : MDL_request) (no_timeout : bool) : acquire_result * server :=
  let '(res, sv1) := try_acquire_lock_impl sv mem c mdl_request (negb no_timeout) in
  match res with
  | must_wait ticket =>
      let sv2 := will_wait_for sv1 c ticket in
      (must_wait ticket, default sv2 (find_deadlock (size (sv_ctxs sv2)) sv2 c))
  | _ => (res, sv1)
  end.

(** [MDL_context::acquire_lock] after the wait. *)
Definition acquire_lock_leave (sv : server) (c : ctx_id) (mdl_request : MDL_request)
    (ticket : ptr) (wait_status : enum_wait_status) : acquire_result * server :=
  let sv1 := done_waiting_for sv c in
  if bool_decide (wait_status = GRANTED) then
    let sv2 := set_waits sv1 (reset_status (sv_waits sv1) c) in
    (acquired ticket, push_front sv2 c (rq_duration mdl_request) ticket)
  else
    let sv2 := leave_lock (abort_wait max_write_lock_count) sv1 ticket in
    let sv3 := set_waits sv2 (reset_status (sv_waits sv2) c) in
    (acquire_error, delete_ticket sv3 ticket).

(** ** Releasing *)

(** [MDL_context::release_lock(duration, ticket)] *)
Definition MDL_context_release_lock (sv : server) (c : ctx_id) (duration : enum_mdl_duration)
    (ticket : ptr) : server :=
  let sv1 := leave_lock (MDL_lock_release max_write_lock_count) sv ticket in
  delete_ticket (remove_from sv1 c duration ticket) ticket.

(** The tickets of a list in front of [sentinel] (all for a null [sentinel]). *)
Fixpoint stored_before (l : list ptr) (sentinel : option ptr) : list ptr :=
  match l with
  | [] => []
  | ticket :: l' =>
      if bool_decide (Some ticket = sentinel) then [] else ticket :: stored_before l' sentinel
  end.

(** The iterator is moved on before a ticket is released, so the loop visits the
    tickets that were in the list at the start. *)
Definition release_locks_stored_before (sv : server) (c : ctx_id) (duration : enum_mdl_duration)
    (sentinel : option ptr) : server :=
  fold_left (fun sv ticket => MDL_context_release_lock sv c duration ticket)
    (stored_before (m_tickets (get_context sv c) duration) sentinel) sv.

Definition release_all_locks_for_name (sv : server) (c : ctx_id) (name : ptr) : server :=
  let lock_of sv t := fst <$> ticket_lock sv t in
  fold_left (fun sv' ticket =>
    if bool_decide (lock_of sv ticket = lock_of sv name)
    then MDL_context_release_lock sv' c MDL_EXPLICIT ticket else sv')
    (m_tickets (get_context sv c) MDL_EXPLICIT) sv.

(** [MDL_savepoint]: the newest ticket of each of the two lists. *)
Definition MDL_savepoint : Type := option ptr * option ptr.
Definition mdl_savepoint (sv : server) (c : ctx_id) : MDL_savepoint :=
  (head (m_tickets (get_context sv c) MDL_STATEMENT),
   head (m_tickets (get_context sv c) MDL_TRANSACTION)).

Definition rollback_to_savepoint (sv : server) (c : ctx_id) (svp : MDL_savepoint) : server :=
  release_locks_stored_before
    (release_locks_stored_before sv c MDL_STATEMENT svp.1) c MDL_TRANSACTION svp.2.

Definition release_transactional_locks (sv : server) (c : ctx_id) : server :=
  release_locks_stored_before
    (release_locks_stored_before sv c MDL_STATEMENT None) c MDL_TRANSACTION None.
Definition release_statement_locks (sv : server) (c : ctx_id) : server :=
  release_locks_stored_before sv c MDL_STATEMENT None.
Definition release_explicit_locks (sv : server) (c : ctx_id) : server :=
  release_locks_stored_before sv c MDL_EXPLICIT None.

(** ** Upgrading and downgrading *)

(** [MDL_ticket::downgrade_lock] *)
Definition downgrade_lock (sv : server) (ticket : ptr) (type : enum_mdl_type) : server :=
  if (get_type (sv_heap sv) ticket =? type) || negb (ticket_stronger sv ticket type) then sv
  else
    match ticket_lock sv ticket with
    | Some (k, lk) => put_world sv k (downgrade max_write_lock_count (world_of sv lk) ticket type)
    | None => sv
    end.

(** Does this savepoint have this lock? *)
Definition has_lock (sv : server) (c : ctx_id) (svp : MDL_savepoint) (ticket : ptr) : bool :=
  negb (bool_decide (ticket ∈ stored_before (m_tickets (get_context sv c) MDL_STATEMENT) svp.1) ||
        bool_decide (ticket ∈ stored_before (m_tickets (get_context sv c) MDL_TRANSACTION) svp.2)).

Inductive upgrade_result :=
| upgrade_done
| upgrade_error
| upgrade_acquired (svp : MDL_savepoint) (ticket : ptr)
| upgrade_must_wait (svp : MDL_savepoint) (ticket : ptr).

(** [MDL_context::upgrade_shared_lock] up to a wait. *)
Definition upgrade_shared_lock_enter (sv : server) (mem : memory) (c : ctx_id) (mdl_ticket : ptr)
    (new_type : enum_mdl_type) (no_timeout : bool) : upgrade_result * server :=
  let svp := mdl_savepoint sv c in
  match ticket_lock sv mdl_ticket with
  | None => (upgrade_error, sv)
  | Some (k, lk) =>
      if ticket_stronger sv mdl_ticket new_type &&
         negb (mdl_namespace (key lk) =? namespace_code BACKUP)
      then (upgrade_done, sv)
      else
        let '(fast, wd) := try_fast_upgrade (world_of sv lk) mdl_ticket new_type in
        if fast then (upgrade_done, put_world sv k wd)
        else
          let mdl_xlock_request := MDL_request_init_by_key (key lk) new_type MDL_TRANSACTION in
          let '(res, sv1) := acquire_lock_enter sv mem c mdl_xlock_request no_timeout in
          (match res with
           | acquired t => upgrade_acquired svp t
           | must_wait t => upgrade_must_wait svp t
           | _ => upgrade_error
           end, sv1)
  end.

(** The rest of [upgrade_shared_lock], with the ticket that was acquired. *)
Definition upgrade_shared_lock_merge (sv : server) (c : ctx_id) (mdl_ticket : ptr)
    (new_type : enum_mdl_type) (svp : MDL_savepoint) (acquired_ticket : ptr) : server :=
  let is_new_ticket := negb (has_lock sv c svp acquired_ticket) in
  match ticket_lock sv mdl_ticket with
  | None => sv
  | Some (k, lk) =>
      let sv1 := put_world sv k (upgrade (world_of sv lk) mdl_ticket new_type
                   (if is_new_ticket then Some acquired_ticket else None)) in
      if is_new_ticket
      then delete_ticket (remove_from sv1 c MDL_TRANSACTION acquired_ticket) acquired_ticket
      else sv1
  end.

(** ** Durations and queries *)

Definition set_lock_duration (sv : server) (c : ctx_id) (mdl_ticket : ptr)
    (duration : enum_mdl_duration) : server :=
  push_front (remove_from sv c MDL_TRANSACTION mdl_ticket) c duration mdl_ticket.

(** Swap two of the lists. *)
Definition swap_tickets (x : MDL_context) (d1 d2 : enum_mdl_duration) : MDL_context :=
  set_tickets (set_tickets x d1 (m_tickets x d2)) d2 (m_tickets x d1).

(** Move a ticket of the list [d1] to the front of the list [d2]. *)
Definition move_ticket (d1 d2 : enum_mdl_duration) (x : MDL_context) (t : ptr) : MDL_context :=
  let x1 := set_tickets x d1 (remove_first t (m_tickets x d1)) in
  set_tickets x1 d2 (t :: m_tickets x1 d2).

(** All of them, one by one. *)
Definition move_tickets (x : MDL_context) (d1 d2 : enum_mdl_duration) : MDL_context :=
  fold_left (move_ticket d1 d2) (m_tickets x d1) x.

Definition set_explicit_duration_for_all_locks (x : MDL_context) : MDL_context :=
  let x1 := swap_tickets x MDL_EXPLICIT MDL_TRANSACTION in
  move_tickets (move_tickets x1 MDL_STATEMENT MDL_EXPLICIT) MDL_TRANSACTION MDL_EXPLICIT.

Definition set_transaction_duration_for_all_locks (x : MDL_context) : MDL_context :=
  move_tickets (swap_tickets x MDL_TRANSACTION MDL_EXPLICIT) MDL_EXPLICIT MDL_TRANSACTION.

Definition has_explicit_locks (x : MDL_context) : bool :=
  match m_tickets x MDL_EXPLICIT with [] => false | _ => true end.

Definition is_lock_owner (sv : server) (c : ctx_id) (ns : enum_mdl_namespace) (db name : list Z)
    (mdl_type : enum_mdl_type) : bool :=
  match MDL_context_find_ticket sv c (MDL_request_init ns db name mdl_type MDL_TRANSACTION) with
  | Some _ => true
  | None => false
  end.
End Contexts.
