(* ===== verification/MdlContextProps.v ===== *)
(** * Properties of contexts and of deadlock detection *)

From S2P Require Import Prelude MdlTypes MdlKey MdlLock MdlLockInv MdlLockOps.
From S2P Require Import MdlServer MdlDeadlock MdlContext.

(** ** Finding a ticket *)

Lemma in_durations d d' : d' ∈ durations_from d.
Proof. destruct d, d'; simpl; set_solver. Qed.

(** [find_ticket] finds a ticket exactly when the context has one, of whatever
    duration, for the same key and of a type at least as strong; one of the
    duration asked for comes first. *)
Lemma mdl_find_ticket sv c rq :
  let suitable t := ticket_key_is sv t (rq_key rq) && ticket_stronger sv t (rq_type rq) in
  match MDL_context_find_ticket sv c rq with
  | Some (t, d) =>
      t ∈ m_tickets (get_context sv c) d /\ suitable t = true /\
      (d = rq_duration rq \/
       forall t', t' ∈ m_tickets (get_context sv c) (rq_duration rq) -> suitable t' = false)
  | None => forall t d, t ∈ m_tickets (get_context sv c) d -> suitable t = false
  end.
Proof.
  intros suitable. unfold MDL_context_find_ticket. fold suitable.
  set (sel d := map (fun t => (t, d)) (List.filter suitable (m_tickets (get_context sv c) d))).
  assert (forall t d' d, (t, d') ∈ sel d <->
    d' = d /\ t ∈ m_tickets (get_context sv c) d /\ suitable t = true) as Hsel.
  { intros t d' d. unfold sel. rewrite list_elem_of_fmap. setoid_rewrite elem_of_filterb.
    naive_solver. }
  destruct (flat_map sel (durations_from (rq_duration rq))) as [|[t d] l] eqn:E; simpl.
  - intros t d Ht. destruct (suitable t) eqn:Es; [|done]. exfalso.
    assert ((t, d) ∈ flat_map sel (durations_from (rq_duration rq))) as Hin.
    { apply list_elem_of_In, in_flat_map. exists d. rewrite <- !list_elem_of_In.
      split; [apply in_durations|]. by apply Hsel. }
    rewrite E in Hin. by apply elem_of_nil in Hin.
  - assert ((t, d) ∈ flat_map sel (durations_from (rq_duration rq))) as Hin
      by (rewrite E; set_solver).
    apply list_elem_of_In, in_flat_map in Hin as (d' & _ & Hin%list_elem_of_In).
    apply Hsel in Hin as (-> & Ht & Hs). split_and!; [done..|].
    destruct (decide (d' = rq_duration rq)) as [|Hne]; [by left|right].
    intros t' Ht'. destruct (suitable t') eqn:Es; [|done]. exfalso.
    assert (exists ds, durations_from (rq_duration rq) = rq_duration rq :: ds) as [ds Eds]
      by (destruct (rq_duration rq); eauto).
    rewrite Eds in E. simpl in E.
    destruct (sel (rq_duration rq)) as [|[t1 d1] l1] eqn:E1; simpl in E.
    + assert ((t', rq_duration rq) ∈ sel (rq_duration rq)) as Hx by (by apply Hsel).
      rewrite E1 in Hx. by apply elem_of_nil in Hx.
    + assert ((t1, d1) ∈ sel (rq_duration rq)) as Hx by (rewrite E1; set_solver).
      apply Hsel in Hx as [-> _]. simplify_eq.
Qed.

(** ** Durations *)

Lemma m_tickets_set x d d' l :
  m_tickets (set_tickets x d l) d' = if decide (d = d') then l else m_tickets x d'.
Proof. destruct d, d'; done. Qed.

Lemma move_tickets_loop x d1 d2 l :
  d1 ≠ d2 -> NoDup (m_tickets x d1) ->
  (forall t, t ∈ l -> t ∈ m_tickets x d1) -> NoDup l ->
  let x' := fold_left (move_ticket d1 d2) l x in
  m_tickets x' d2 = rev l ++ m_tickets x d2 /\
  (forall t, t ∈ m_tickets x' d1 <-> t ∈ m_tickets x d1 /\ t ∉ l) /\
  (forall d, d ≠ d1 -> d ≠ d2 -> m_tickets x' d = m_tickets x d).
Proof.
  intros Hne. revert x. induction l as [|t l IH]; intros x Hnd Hin Hndl; simpl.
  { split_and!; [done|set_solver|done]. }
  apply NoDup_cons in Hndl as [Hnin Hndl].
  set (x1 := move_ticket d1 d2 x t).
  assert (m_tickets x1 d1 = remove_first t (m_tickets x d1)) as H1
    by (unfold x1, move_ticket; rewrite !m_tickets_set; repeat case_decide; congruence).
  assert (m_tickets x1 d2 = t :: m_tickets x d2) as H2
    by (unfold x1, move_ticket; rewrite !m_tickets_set; repeat case_decide; congruence).
  assert (forall d, d ≠ d1 -> d ≠ d2 -> m_tickets x1 d = m_tickets x d) as H3
    by (intros; unfold x1, move_ticket; rewrite !m_tickets_set; repeat case_decide; congruence).
  destruct (IH x1) as (R1 & R2 & R3); [rewrite H1; by apply NoDup_remove_first| |done|].
  { intros t' Ht'. rewrite H1. apply elem_of_remove_first_ne; [set_solver|]. apply Hin. set_solver. }
  split_and!.
  - rewrite R1, H2. by rewrite <- app_assoc.
  - intros t'. rewrite R2, H1, elem_of_remove_first_iff by done. set_solver.
  - intros d Hd1 Hd2. rewrite R3, H3 by done. done.
Qed.

Lemma move_tickets_spec x d1 d2 :
  d1 ≠ d2 -> NoDup (m_tickets x d1) ->
  m_tickets (move_tickets x d1 d2) d2 = rev (m_tickets x d1) ++ m_tickets x d2 /\
  m_tickets (move_tickets x d1 d2) d1 = [] /\
  (forall d, d ≠ d1 -> d ≠ d2 -> m_tickets (move_tickets x d1 d2) d = m_tickets x d).
Proof.
  intros Hne Hnd.
  destruct (move_tickets_loop x d1 d2 (m_tickets x d1) Hne Hnd ltac:(done) Hnd) as (H1 & H2 & H3).
  split_and!; [done| |done]. fold (move_tickets x d1 d2) in H2.
  destruct (m_tickets (move_tickets x d1 d2) d1) as [|t l] eqn:E; [done|]. exfalso.
  destruct (H2 t) as [Hx _]. destruct Hx; [set_solver|done].
Qed.

(** All tickets of a context. *)
Definition all_tickets (x : MDL_context) : list ptr :=
  m_tickets x MDL_STATEMENT ++ m_tickets x MDL_TRANSACTION ++ m_tickets x MDL_EXPLICIT.

(** LOCK TABLES gives all locks of a context explicit duration, UNLOCK TABLES
    gives them transactional duration: no ticket is lost or duplicated, and the
    other lists are empty afterwards. *)
Lemma mdl_change_all_durations x :
  NoDup (all_tickets x) ->
  (let x' := set_explicit_duration_for_all_locks x in
   m_tickets x' MDL_EXPLICIT ≡ₚ all_tickets x /\
   m_tickets x' MDL_STATEMENT = [] /\ m_tickets x' MDL_TRANSACTION = []) /\
  (m_tickets x MDL_STATEMENT = [] ->
   let x' := set_transaction_duration_for_all_locks x in
   m_tickets x' MDL_TRANSACTION ≡ₚ all_tickets x /\
   m_tickets x' MDL_STATEMENT = [] /\ m_tickets x' MDL_EXPLICIT = []).
Proof.
  unfold all_tickets. intros (Hs & _ & (Ht & _ & He)%NoDup_app)%NoDup_app. split.
  - unfold set_explicit_duration_for_all_locks.
    set (x1 := swap_tickets _ _ _).
    destruct (move_tickets_spec x1 MDL_STATEMENT MDL_EXPLICIT) as (A1 & A2 & A3); [done|exact Hs|].
    set (x2 := move_tickets x1 _ _) in *.
    assert (m_tickets x2 MDL_TRANSACTION = m_tickets x MDL_EXPLICIT) as E2 by (by rewrite A3).
    destruct (move_tickets_spec x2 MDL_TRANSACTION MDL_EXPLICIT) as (B1 & B2 & B3);
      [done|by rewrite E2|].
    split_and!; [|by rewrite B3|done].
    rewrite B1, E2, A1, <- !Permutation_rev. simpl. solve_Permutation.
  - intros Hn. unfold set_transaction_duration_for_all_locks. set (x1 := swap_tickets _ _ _).
    destruct (move_tickets_spec x1 MDL_EXPLICIT MDL_TRANSACTION) as (A1 & A2 & A3);
      [done|exact Ht|].
    split_and!; [|by rewrite A3|done].
    rewrite A1, <- Permutation_rev, Hn. done.
Qed.

(** ** Savepoints *)

Lemma stored_before_app P L :
  NoDup (P ++ L) -> stored_before (P ++ L) (head L) = P.
Proof.
  induction P as [|t P IH]; simpl; intros Hnd.
  - destruct L as [|t L]; simpl; [done|]. by rewrite bool_decide_eq_true_2.
  - apply NoDup_cons in Hnd as [Hnin Hnd]. rewrite bool_decide_eq_false_2, IH; [done..|].
    intros Hh. apply Hnin. rewrite elem_of_app. right. destruct L; simplify_eq/=. set_solver.
Qed.

Lemma leave_lock_ctxs op sv t : sv_ctxs (leave_lock op sv t) = sv_ctxs sv.
Proof. unfold leave_lock. repeat case_match; done. Qed.

Lemma release_lock_tickets max sv c d t c' d' :
  m_tickets (get_context (MDL_context_release_lock max sv c d t) c') d' =
  if decide (c = c' /\ d = d') then remove_first t (m_tickets (get_context sv c') d')
  else m_tickets (get_context sv c') d'.
Proof.
  unfold MDL_context_release_lock, get_context, delete_ticket, remove_from, set_context. simpl.
  unfold get_context. rewrite leave_lock_ctxs.
  destruct (decide (c = c')) as [<-|Hne].
  - rewrite lookup_insert_eq. simpl. rewrite m_tickets_set.
    repeat case_decide; naive_solver.
  - rewrite lookup_insert_ne by done. case_decide; naive_solver.
Qed.

Lemma release_loop max c d P L sv :
  NoDup (P ++ L) -> m_tickets (get_context sv c) d = P ++ L ->
  let sv' := fold_left (fun sv t => MDL_context_release_lock max sv c d t) P sv in
  m_tickets (get_context sv' c) d = L /\
  (forall c' d', ~ (c = c' /\ d = d') ->
     m_tickets (get_context sv' c') d' = m_tickets (get_context sv c') d').
Proof.
  revert sv. induction P as [|t P IH]; simpl; intros sv Hnd E; [done|].
  apply NoDup_cons in Hnd as [Hnin Hnd].
  destruct (IH (MDL_context_release_lock max sv c d t)) as [H1 H2]; [done| |].
  - rewrite release_lock_tickets, decide_True, E by done. simpl. by rewrite decide_True.
  - split; [done|]. intros c' d' Hne. rewrite H2, release_lock_tickets, decide_False; done.
Qed.

Lemma release_before_spec max sv c d P L :
  NoDup (P ++ L) -> m_tickets (get_context sv c) d = P ++ L ->
  let sv' := release_locks_stored_before max sv c d (head L) in
  m_tickets (get_context sv' c) d = L /\
  (forall c' d', ~ (c = c' /\ d = d') ->
     m_tickets (get_context sv' c') d' = m_tickets (get_context sv c') d').
Proof.
  intros Hnd E. unfold release_locks_stored_before. rewrite E, stored_before_app by done.
  by apply release_loop.
Qed.

(** C14: rolling back to a savepoint gives the context the statement and transactional
    tickets it had when the savepoint was taken ([L1], [L2]; tickets acquired since
    are in front of them), and leaves its explicit tickets and all other contexts'
    tickets alone.  [has_lock] tells the two kinds of tickets apart. *)
Theorem mdl_rollback_to_savepoint max sv c P1 L1 P2 L2 :
  m_tickets (get_context sv c) MDL_STATEMENT = P1 ++ L1 ->
  m_tickets (get_context sv c) MDL_TRANSACTION = P2 ++ L2 ->
  NoDup (P1 ++ L1) -> NoDup (P2 ++ L2) ->
  let svp := (head L1, head L2) in
  let sv' := rollback_to_savepoint max sv c svp in
  m_tickets (get_context sv' c) MDL_STATEMENT = L1 /\
  m_tickets (get_context sv' c) MDL_TRANSACTION = L2 /\
  m_tickets (get_context sv' c) MDL_EXPLICIT = m_tickets (get_context sv c) MDL_EXPLICIT /\
  (forall c' d, c' ≠ c -> m_tickets (get_context sv' c') d = m_tickets (get_context sv c') d) /\
  (forall t, has_lock sv c svp t = true <-> t ∉ P1 /\ t ∉ P2).
Proof.
  intros E1 E2 N1 N2 svp sv'.
  destruct (release_before_spec max sv c MDL_STATEMENT P1 L1 N1 E1) as [A1 A2].
  set (sv1 := release_locks_stored_before max sv c MDL_STATEMENT (head L1)) in *.
  assert (m_tickets (get_context sv1 c) MDL_TRANSACTION = P2 ++ L2) as E2'
    by (rewrite A2; [done|naive_solver]).
  destruct (release_before_spec max sv1 c MDL_TRANSACTION P2 L2 N2 E2') as [B1 B2].
  change sv' with (release_locks_stored_before max sv1 c MDL_TRANSACTION (head L2)).
  split_and!.
  - rewrite B2; [done|naive_solver].
  - done.
  - rewrite B2, A2; [done|naive_solver..].
  - intros c' d Hc. rewrite B2, A2; [done|naive_solver..].
  - intros t. unfold has_lock. rewrite E1, E2. cbn [fst snd svp]. rewrite !stored_before_app by done.
    rewrite negb_true_iff, orb_false_iff, !bool_decide_eq_false. done.
Qed.

(** ** Deadlocks *)

(** C11: when the search reports a deadlock, there is a chain of waiting contexts from
    the one that searched, and either the last of them waits for the first (so
    that they wait for each other in a circle) or the chain has MAX_SEARCH_DEPTH
    contexts; the victim is on the chain, and no other context on it weighs less. *)
Theorem mdl_deadlock_found sv c victim sv' :
  waits_ok sv -> find_deadlock_step sv c = Some (victim, sv') ->
  exists p, walk sv c p /\ victim ∈ p /\
    (forall y, y ∈ p ->
       MDL_context_get_deadlock_weight sv victim <= MDL_context_get_deadlock_weight sv y) /\
    ((exists l, last p = Some l /\ edge sv l c) \/ Z.of_nat (length p) = MAX_SEARCH_DEPTH).
Proof. intros Hw E. by apply step_found in E as [_ ?]. Qed.

(** C12: [find_deadlock] ends after at most one search per context.  Then the context
    either has been told to give up, or does not wait for itself, through however
    many others; other contexts' slots change only from empty to VICTIM, and locks
    and tickets not at all. *)
Theorem mdl_deadlock_resolved sv c :
  waits_ok sv ->
  exists sv', find_deadlock (size (sv_ctxs sv)) sv c = Some sv' /\ resolved sv c sv'.
Proof.
  intros Hw. apply find_deadlock_spec; [done|].
  rewrite <- size_dom. apply subseteq_size. unfold pending. set_solver.
Qed.

(** C13: the wait-for graph is the right one.  For a request in the queue of a lock,
    the contexts it leads to are exactly the other contexts holding an incompatible
    ticket (also in a fast lane, although the search does not look there) or having
    a pending request of higher priority. *)
Theorem mdl_wait_for_edges d h lk s t c :
  lock_okd d h lk s -> 0 <= d -> t ∈ m_list (m_waiting lk) ->
  c ∈ blockers h lk s t <->
  c ≠ get_ctx h t /\
  ((exists t', t' ∈ granted_tickets lk /\ get_ctx h t' = c /\
      is_incompatible_when_granted s (get_type h t') (get_type h t) = true) \/
   (exists t', t' ∈ m_list (m_waiting lk) /\ get_ctx h t' = c /\
      is_incompatible_when_waiting s (get_type h t') (get_type h t) = true)).
Proof.
  intros Hok Hd Ht. unfold blockers, granted_tickets. rewrite list_elem_of_fmap.
  setoid_rewrite elem_of_app. setoid_rewrite elem_of_filterb.
  setoid_rewrite andb_true_iff. setoid_rewrite neqb_true. split.
  - intros (t' & -> & [(Hin & Hne & Hi)|(Hin & Hne & Hi)]); (split; [done|]);
      [left|right]; exists t'; rewrite ?elem_of_app; auto.
  - intros (Hne & [(t' & Hin & <- & Hi)|(t' & Hin & <- & Hi)]); [|exists t'; auto].
    exists t'. split; [done|]. left.
    assert (t' ∈ m_list (m_granted lk) ++ lane_tickets (m_lanes (m_fast_road lk)))
      as [Hg|Hl]%elem_of_app by (by rewrite ?elem_of_app); [auto|].
    rewrite (lanes_no_conflict d h lk s) in Hi; [done|done| | |done].
    + eauto using lock_ticket_valid with mdb.
    + by eapply waiting_lanes_allow.
Qed.

(** ** Example runs *)

(** A server with the backup lock only. *)
Definition start_server : server :=
  mk_server ∅ {[ m_ptr (mdl_key_init BACKUP [] []) := MDL_lock_init 8 true (mdl_key_init BACKUP [] []) ]}
    ∅ ∅.

Definition table_request (name : Z) (type : enum_mdl_type) : MDL_request :=
  MDL_request_init TABLE [100] [name] type MDL_TRANSACTION.

(** A request by [acquire_lock], up to the wait. *)
Definition run_lock (c : ctx_id) (name : Z) (type : enum_mdl_type) (sv : server) : server :=
  (acquire_lock_enter 8 Z.of_nat sv enough_memory c (table_request name type) false).2.

Lemma waits_ok_check sv :
  forallb (fun '(c, x) => match m_waiting_for x with
    | Some t => Nat.eqb (get_ctx (sv_heap sv) t) c | None => true end)
    (map_to_list (sv_ctxs sv)) = true -> waits_ok sv.
Proof.
  rewrite forallb_forall. intros Hm c t. unfold get_context.
  destruct (sv_ctxs sv !! c) as [x|] eqn:E; [|done]. simpl. intros Hx.
  apply elem_of_map_to_list, list_elem_of_In in E. specialize (Hm (c, x) E). simpl in Hm.
  rewrite Hx in Hm. by apply Nat.eqb_eq in Hm.
Qed.

(** Contexts 1 and 2 each hold a table exclusively and ask for the other's. *)
Definition run_circle : server :=
  let sv := run_lock 1 98 MDL_EXCLUSIVE
    (run_lock 2 98 MDL_EXCLUSIVE (run_lock 1 97 MDL_EXCLUSIVE start_server)) in
  match try_acquire_lock_impl 8 Z.of_nat sv enough_memory 2 (table_request 97 MDL_EXCLUSIVE) true with
  | (must_wait t, sv') => will_wait_for sv' 2 t
  | (_, sv') => sv'
  end.

Lemma run_circle_waits_ok : waits_ok run_circle.
Proof. apply waits_ok_check. vm_compute. reflexivity. Qed.

Lemma mdl_deadlock_found_witness :
  exists p, walk run_circle 2 p /\ (2%nat ∈ p \/ 1%nat ∈ p).
Proof.
  destruct (find_deadlock_step run_circle 2) as [[victim sv']|] eqn:E.
  - destruct (mdl_deadlock_found run_circle 2 victim sv' run_circle_waits_ok E)
      as (p & Hp & Hv & _). exists p. split; [done|].
    assert (victim = 2%nat \/ victim = 1%nat) as [-> | ->]; [|by left|by right].
    assert (option_map fst (find_deadlock_step run_circle 2) = Some 2%nat) as Hf
      by (vm_compute; reflexivity).
    rewrite E in Hf. injection Hf as ->. by left.
  - assert (option_map fst (find_deadlock_step run_circle 2) = Some 2%nat) as Hf
      by (vm_compute; reflexivity).
    rewrite E in Hf. discriminate Hf.
Defined.

Lemma mdl_deadlock_resolved_witness :
  exists sv', find_deadlock (size (sv_ctxs run_circle)) run_circle 2 = Some sv' /\
              resolved run_circle 2 sv'.
Proof. apply (mdl_deadlock_resolved run_circle 2), run_circle_waits_ok. Defined.

Lemma mdl_wait_for_edges_witness :
  let h := {[ 1%nat := mk_ticket MDL_EXCLUSIVE 1 None None;
              2%nat := mk_ticket MDL_SHARED_READ 2 None None ]} in
  let lk := MDL_lock_init 8 true (rq_key (table_request 97 MDL_SHARED)) in
  let lk1 := set_list lk queue_granted (Ticket_list_add_ticket h (m_granted lk) 1) in
  let lk2 := set_list lk1 queue_waiting (Ticket_list_add_ticket h (m_waiting lk1) 2) in
  1%nat ∈ blockers h lk2 MDL_object_lock 2.
Proof.
  intros h lk lk1 lk2.
  assert (forall d, lock_okd d h lk MDL_object_lock) as Hok.
  { intros d. split; try apply _; try apply empty_tl_ok; try done; try (intros; set_solver). }
  apply (mdl_wait_for_edges 0 h lk2 MDL_object_lock 2 1).
  - apply (add_ticket_okd 0 h lk1 MDL_object_lock queue_waiting 2); [|vm_compute; set_solver|done..].
    apply (add_ticket_okd _ h lk MDL_object_lock queue_granted 1); [done|vm_compute; set_solver|done..].
  - done.
  - simpl. set_solver.
  - split; [done|]. left. exists 1%nat. split; [vm_compute; set_solver|done].
Defined.

(** After a savepoint, context 1 locks another table, then rolls back. *)
Lemma mdl_rollback_to_savepoint_witness :
  let sv1 := run_lock 1 97 MDL_SHARED_READ start_server in
  let sv2 := run_lock 1 98 MDL_SHARED_READ sv1 in
  mdl_savepoint sv1 1 = (None, Some 0%nat) /\
  m_tickets (get_context (rollback_to_savepoint 100 sv2 1 (None, Some 0%nat)) 1) MDL_TRANSACTION =
  [0%nat].
Proof.
  intros sv1 sv2. split; [vm_compute; reflexivity|].
  apply (mdl_rollback_to_savepoint 100 sv2 1 [] [] [1%nat] [0%nat]);
    try (vm_compute; reflexivity);
    by_decide.
Defined.
