(* ===== verification/MdlWait.v ===== *)
(** * Waiting for a metadata lock

    The wait of [MDL_context::acquire_lock]: the context's own rounds of waiting, interleaved with what
    the other contexts do to the lock and to the wait slot. *)

From S2P Require Import Prelude MdlTypes MdlKey MdlLock MdlLockInv MdlLockOps MdlLockSpec MdlLockProps.
From S2P Require Import MdlServer MdlDeadlock MdlContext.

(** ** The wait as a state machine *)

(** A step of other contexts: a context that waits does nothing else, only the lock posts GRANTED. *)
Definition foreign (c : ctx_id) (op : mdl_op) : Prop :=
  match op with
  | op_new => True
  | op_acquire x _ | op_release x | op_abort x | op_clone x
  | op_downgrade x _ | op_upgrade x _ _ | op_fast_upgrade x _ => x.1 ≠ c
  | op_signal _ status => status ≠ GRANTED
  | op_reset c' => c' ≠ c
  end.

(** Where the waiting context is: in the loop, or past it with a wait_status. *)
Inductive wait_pc := pc_waiting | pc_leaving (wait_status : enum_wait_status).

(** With [conn] the client stays connected. *)
Inductive wait_step (conn : bool) (max n : Z) (tid : ctx_id -> Z) (s : MDL_lock_strategy) (c : ctx_id) :
    world * wait_pc -> world * wait_pc -> Prop :=
| ws_other wd pc op r wd' :
    r ≠ r_removed -> foreign c op -> mdl_step max n tid s op r wd wd' ->
    wait_step conn max n tid s c (wd, pc) (wd', pc)
| ws_round wd killed connected last res w' :
    (conn = true -> connected = true) ->
    wait_round (w_waits wd) c killed connected last = (res, w') ->
    wait_step conn max n tid s c (wd, pc_waiting)
      (mk_world (w_heap wd) (w_lock wd) w', from_option pc_leaving pc_waiting res).

(** ** Where the request is *)

(** The ticket waits and has not been told it was granted, or is granted and has been told so. *)
Record request_ok (c : ctx_id) (t : ptr) (wd : world) : Prop := {
  ro_ctx : get_ctx (w_heap wd) t = c;
  ro_lane : fast_lane (w_heap wd) t = None;
  ro_where :
    t ∈ m_list (m_waiting (w_lock wd)) /\ get_status (w_waits wd) c ≠ GRANTED \/
    t ∈ granted_tickets (w_lock wd) /\ get_status (w_waits wd) c = GRANTED;
}.

Lemma request_in_lock c t wd : request_ok c t wd -> t ∈ lock_tickets (w_lock wd).
Proof. intros [_ _ [[? _]|[? _]]]; auto with mdb. Qed.

(** Waking up requests keeps the ticket and its slot in step. *)
Lemma wakes_request h s G W w G' W' w' c t :
  wakes h s G W w G' W' w' -> one_wait_each h W -> NoDup W -> get_ctx h t = c ->
  t ∈ W /\ get_status w c ≠ GRANTED \/ t ∈ G /\ get_status w c = GRANTED ->
  (t ∈ W' /\ get_status w' c ≠ GRANTED \/ t ∈ G' /\ get_status w' c = GRANTED) /\
  (get_status w c ≠ EMPTY -> get_status w' c = get_status w c) /\
  NoDup W' /\ (forall u, u ∈ W' -> u ∈ W).
Proof.
  intros Hw H1 Hnd Hc Ho. induction Hw as [G' Hp|u G1 W1 w1 G2 Hw IH Hu He Hg Hp].
  { split_and!; try done. destruct Ho as [?|[??]]; [by left|right]. by rewrite Hp. }
  destruct IH as (IH1 & IH2 & IH3 & IH4).
  assert (get_ctx h u = c \/ get_ctx h u ≠ c) as [Hcu|Hcu] by lia.
  - rewrite Hcu in *. assert (get_status (<[c := GRANTED]> w1) c = GRANTED) as Hs
      by (unfold get_status; by rewrite lookup_insert_eq).
    assert (t = u) as ->.
    { destruct IH1 as [[Ht _]|[_ Hs']]; [|congruence]. apply H1; auto. congruence. }
    split_and!; [right; by rewrite Hp; set_solver| |by apply NoDup_remove_first|].
    + intros Hne. rewrite Hs. rewrite IH2 in He by done. done.
    + intros v ?%elem_of_remove_first. auto.
  - rewrite get_status_insert_ne by done. split_and!; [|done|by apply NoDup_remove_first|].
    + destruct IH1 as [[Ht ?]|[Ht ?]]; [left|right].
      * split; [|done]. apply elem_of_remove_first_ne; [|done]. congruence.
      * split; [|done]. rewrite Hp. set_solver.
    + intros v ?%elem_of_remove_first. auto.
Qed.

(** A ticket outside the lanes is not put into one later. *)
Lemma drain_no_lane l h g h' g' t :
  Lane_drain h g l = (h', g') -> fast_lane h t = None -> fast_lane h' t = None.
Proof.
  revert h g. induction l as [|u l IH]; simpl; intros h g E Hf; [by simplify_eq|].
  eapply IH; [exact E|]. unfold fast_lane in *. rewrite lookup_alter. case_decide; [|done]. subst u.
  by destruct (h !! t).
Qed.

Lemma close_no_lane h g fr type h' g' fr' t :
  Fast_road_close h g fr type = (h', g', fr') -> fast_lane h t = None -> fast_lane h' t = None.
Proof.
  unfold Fast_road_close. case_match; [by intros; simplify_eq|].
  destruct (close_lanes _ _ _) as [[h2 g2] lanes] eqn:E. intros [= <- <- <-].
  revert h g h2 g2 lanes E. induction (m_lanes fr) as [|l ls IH]; simpl; intros h g h2 g2 lanes E Hf; [by simplify_eq|].
  unfold Lane_close in E. destruct (Lane_drain h g (lane_list l)) as [h1 g1] eqn:E1.
  destruct (close_lanes h1 g1 ls) as [[h3 g3] ls3] eqn:E3. simplify_eq. eauto using drain_no_lane.
Qed.

Lemma conventional_no_lane wd u wait st wd' ns t :
  acquire_conventional wd u wait = (st, wd', ns) ->
  fast_lane (w_heap wd) t = None -> fast_lane (w_heap wd') t = None.
Proof.
  unfold acquire_conventional. destruct (m_strategy (w_lock wd)); [|by intros; simplify_eq].
  destruct (Fast_road_close _ _ _ _) as [[h2 g2] fr2] eqn:E.
  intros. apply (close_no_lane _ _ _ _ _ _ _ t) in E; [|done]. by repeat case_match; simplify_eq.
Qed.

Lemma acquire_no_lane n tid wd u wait st wd' ns t :
  MDL_lock_try_acquire_lock n tid wd u wait = (st, wd', ns) -> t ≠ u ->
  fast_lane (w_heap wd) t = None -> fast_lane (w_heap wd') t = None.
Proof.
  unfold MDL_lock_try_acquire_lock. intros E Hne Hf. set (h0 := alter _ u _) in E.
  assert (fast_lane h0 t = None) as Hf0 by (unfold h0; by rewrite fast_lane_alter).
  destruct (Fast_road_try_acquire_lock _ _ _ _ _) as [[fast h1] fr1] eqn:E1. destruct fast.
  - simplify_eq. simpl. unfold Fast_road_try_acquire_lock, Lane_try_acquire_lock in E1.
    repeat case_match; simplify_eq. by rewrite fast_lane_set_ne.
  - apply fast_acquire_noop in E1 as ->. by eapply conventional_no_lane.
Qed.

(** The ticket after a step that changes no wait slot and takes nothing away from the ticket's list. *)
Lemma request_kept c t wd wd' :
  request_ok c t wd -> w_waits wd' = w_waits wd -> get_ctx (w_heap wd') t = c ->
  fast_lane (w_heap wd') t = None ->
  (t ∈ m_list (m_waiting (w_lock wd)) -> t ∈ m_list (m_waiting (w_lock wd'))) ->
  (t ∈ granted_tickets (w_lock wd) -> t ∈ granted_tickets (w_lock wd')) ->
  request_ok c t wd' /\ (get_status (w_waits wd) c ≠ EMPTY -> get_status (w_waits wd') c = get_status (w_waits wd) c).
Proof. intros [_ _ Ho] Ew Hc Hf HW HG. split; [split; [done..|]|]; rewrite Ew; [|done]. naive_solver. Qed.

Lemma outcome_kept h lk s u wait lk' st t :
  acquire_outcome h lk s u wait lk' st ->
  (t ∈ m_list (m_waiting lk) -> t ∈ m_list (m_waiting lk')) /\
  (t ∈ granted_tickets lk -> t ∈ granted_tickets lk').
Proof. destruct 1 as [_ _ -> ->|_ _ -> ->|_ _ -> ->]; set_solver. Qed.

(** Somebody else leaves the lock. *)
Lemma left_request max n s c t u q wd wd' :
  world_ok n s wd -> request_ok c t wd -> get_ctx (w_heap wd) u ≠ c -> w_heap wd' = w_heap wd ->
  left_lock max (w_heap wd) (w_lock wd) s q u (w_waits wd) (w_lock wd') (w_waits wd') ->
  request_ok c t wd' /\ (get_status (w_waits wd) c ≠ EMPTY -> get_status (w_waits wd') c = get_status (w_waits wd) c).
Proof.
  intros [Hok _ H1 _ _] [Hc Hf Ho] Hu Eh Hl. destruct (ll_wakes _ _ _ _ _ _ _ _ _ Hl) as (G0 & W0 & Hq & Hw).
  pose proof (tl_nodup _ _ (lo_waiting _ _ _ _ Hok)) as Hnd. assert (t ≠ u) as Hne by congruence.
  assert ((forall v, v ∈ W0 -> v ∈ m_list (m_waiting (w_lock wd))) /\ NoDup W0 /\
    (t ∈ m_list (m_waiting (w_lock wd)) -> t ∈ W0) /\ (t ∈ granted_tickets (w_lock wd) -> t ∈ G0)) as (HW & Hnd0 & HW' & HG').
  { destruct q, Hq as [Hq ->].
    - split_and!; [done..|]. rewrite Hq. set_solver.
    - subst G0. split_and!; [intros v; apply elem_of_remove_first|by apply NoDup_remove_first| |done].
      by apply elem_of_remove_first_ne. }
  destruct (wakes_request _ _ _ _ _ _ _ _ c t Hw) as (Ho' & Hs & _); [by eapply one_wait_sub|done|done|naive_solver|].
  split; [|done]. split; by rewrite ?Eh.
Qed.

Lemma downgrade_request max n s `{!LawfulStrategy s} c t u type wd :
  world_ok n s wd -> request_ok c t wd -> get_ctx (w_heap wd) u ≠ c -> u ∈ granted_tickets (w_lock wd) ->
  valid_type type ->
  supported_type (m_fast_road (w_lock wd)) type =
  supported_type (m_fast_road (w_lock wd)) (get_type (w_heap wd) u) ->
  let wd' := downgrade max wd u type in
  request_ok c t wd' /\ (get_status (w_waits wd) c ≠ EMPTY -> get_status (w_waits wd') c = get_status (w_waits wd) c).
Proof.
  intros [Hok _ H1 Hq _] [Hc Hf Ho] Hu Hin Hv Hsup wd'.
  destruct (downgrade_spec max wd u type s Hok Hin Hv Hsup H1 Hq) as [Eh [_ _ Hw _ _]]. fold wd' in Eh, Hw.
  assert (same_ctxs (w_heap wd) (w_heap wd')) as Hcx by (rewrite Eh; intros ?; by apply get_ctx_alter).
  destruct (wakes_request _ _ _ _ _ _ _ _ c t Hw) as (Ho' & Hs & _);
    [by eapply one_wait_each_ext|exact (tl_nodup _ _ (lo_waiting _ _ _ _ Hok))|by rewrite Hcx|done|].
  split; [|done]. split; [by rewrite Hcx| |done]. rewrite Eh. by rewrite fast_lane_alter.
Qed.

Lemma signal_request c t h lk w c' st :
  st ≠ GRANTED -> request_ok c t (mk_world h lk w) ->
  request_ok c t (mk_world h lk (set_status w c' st).2) /\
  (get_status w c ≠ EMPTY -> get_status (set_status w c' st).2 c = get_status w c).
Proof.
  intros Hst [Hc Hf Ho]. simpl in *. unfold set_status. case_decide as He; [|done]. simpl.
  assert (c' = c \/ c' ≠ c) as [->|Hne] by lia.
  - assert (get_status (<[c := st]> w) c = st) as E by (unfold get_status; by rewrite lookup_insert_eq).
    split; [|done]. split; [done..|]. simpl. rewrite E. left. destruct Ho as [[? _]|[_ ?]]; [done|congruence].
  - split; [split; [done..|]|]; simpl; by rewrite get_status_insert_ne.
Qed.

(** Whatever the others do, the ticket stays where its slot says, and a status that was posted stays. *)
Lemma foreign_request max n tid s `{!LawfulStrategy s} c t op r wd wd' :
  world_ok n s wd -> request_ok c t wd -> r ≠ r_removed -> foreign c op ->
  mdl_step max n tid s op r wd wd' ->
  request_ok c t wd' /\ (get_status (w_waits wd) c ≠ EMPTY -> get_status (w_waits wd') c = get_status (w_waits wd) c).
Proof.
  intros Hw Hro Hres Hfo Hst. pose proof Hw as [Hok Hsh H1 Hq _]. pose proof Hro as [Hc Hf _].
  pose proof (request_in_lock _ _ _ Hro) as Hin.
  destruct Hst as [h lk w u type c' Hn Hv|wd u wait st wd' ns Hfr Hr Hcw E|wd u wait st wd' ns Hfr Hr Hcw E
    |wd u b wd' Hu E|wd u b wd' Hu E|wd u t0 Hfr Hr Hin0 Hc0 Hs
    |wd u type Hu Hv Hs Hsup|wd u type x rem Hu Hfl Hv Hsup Hx Hne Hcx Hs Hrem
    |wd u type wd' Hu Hv Hsup E|h lk w c' st Hst|h lk w c' Hcw]; simpl in Hfo.
  - pose proof (new_ticket_heap _ _ _ _ _ (mk_ticket type c' None None) Hok Hn t Hin) as Hl.
    apply (request_kept c t _ _ Hro); simpl in *; try done; unfold get_ctx, fast_lane; by rewrite Hl.
  - destruct (try_acquire_spec n tid wd s u wait st wd' ns Hok Hfr Hr E) as (_ & Hfm & Ho & Ew & _).
    destruct (outcome_kept _ _ _ _ _ _ _ t Ho). apply (request_kept c t _ _ Hro); try done.
    + by rewrite (fm_ctxs _ _ _ _ Hfm).
    + eapply acquire_no_lane; [done| |done]. intros ->. by apply (fr_nin _ _ _ Hfr).
  - destruct (acquire_conventional_spec wd s u wait st wd' ns Hok Hfr Hr E) as (_ & Hfm & Ho & Ew & _).
    destruct (outcome_kept _ _ _ _ _ _ _ t Ho). apply (request_kept c t _ _ Hro); try done.
    + by rewrite (fm_ctxs _ _ _ _ Hfm).
    + by eapply conventional_no_lane.
  - destruct (release_spec n max wd u s _ _ Hok Hsh Hu H1 Hq E) as [Eh Hl]. destruct b; [done|].
    destruct Hl. by eapply left_request.
  - destruct (abort_wait_spec n max wd u s _ _ Hok Hsh Hu H1 E) as [Eh Hl]. destruct b; [done|].
    destruct Hl. by eapply left_request.
  - destruct (add_cloned_ticket_spec wd u s Hok Hfr Hr) as (_ & Hfm & Hp & HW & Ew).
    apply (request_kept c t _ _ Hro); try done.
    + by rewrite (fm_ctxs _ _ _ _ Hfm).
    + unfold add_cloned_ticket. destruct (Fast_road_close _ _ _ _) as [[h2 g2] fr2] eqn:Ec.
      by eapply close_no_lane.
    + by rewrite HW.
    + rewrite Hp. set_solver.
  - by eapply downgrade_request.
  - destruct (upgrade_spec wd s u type rem Hok Hu Hfl Hv Hsup) as (Eh & Ew & _ & _ & Hp & HW).
    { intros r ->. destruct Hrem as [?|[[= ->] _]]; done. }
    apply (request_kept c t _ _ Hro); [done| | | |].
    + by rewrite Eh, get_ctx_alter.
    + by rewrite Eh, fast_lane_alter.
    + by rewrite HW.
    + rewrite Hp. intros [Ht|]%elem_of_app; [|done]. destruct Hrem as [->|[-> _]]; [by apply elem_of_nil in Ht|].
      apply list_elem_of_singleton in Ht as ->. congruence.
  - destruct (try_fast_upgrade_spec wd s u type wd' Hok Hu Hv Hsup E) as (-> & _ & _).
    apply (request_kept c t _ _ Hro); simpl; [done|by rewrite get_ctx_alter|by rewrite fast_lane_alter|done..].
  - by apply signal_request.
  - destruct Hro as [_ _ Ho]. simpl in *. unfold reset_status.
    split; [split; [done..|]|]; simpl; by rewrite get_status_insert_ne.
Qed.

(** ** Aborting the wait of a ticket that has been granted *)

(** The counter of a type is [d] more than the tickets of that type in the list, modulo 2^32. *)
Definition counter_off (h : heap) (tl : Ticket_list) (type : enum_mdl_type) (d : Z) : Prop :=
  m_type_counters tl !! type_index type = Some (u32 (countb (has_type h type) (m_list tl) + d)).

Lemma add_ticket_off h tl type d t :
  valid_type type -> valid_type (get_type h t) ->
  counter_off h tl type d -> counter_off h (Ticket_list_add_ticket h tl t) type d.
Proof.
  unfold counter_off. simpl. rewrite countb_app, countb_cons, countb_nil. intros Hv Hvt Hc.
  destruct (has_type h type t) eqn:E.
  - apply has_type_eq in E. rewrite E, list_lookup_alter_eq, Hc. simpl. f_equal.
    unfold u32. rewrite Z.add_mod_idemp_l by done. f_equal. lia.
  - rewrite list_lookup_alter_ne, Hc; [do 2 f_equal; lia|].
    intros Hi. apply type_index_inj in Hi; [|done..]. apply has_type_eq in Hi. congruence.
Qed.

Lemma remove_ticket_off h tl type d t :
  valid_type type -> valid_type (get_type h t) -> t ∈ m_list tl ->
  counter_off h tl type d -> counter_off h (Ticket_list_remove_ticket h tl t) type d.
Proof.
  unfold counter_off. simpl. intros Hv Hvt Hin Hc. rewrite countb_remove_first by done.
  destruct (has_type h type t) eqn:E.
  - apply has_type_eq in E. rewrite E, list_lookup_alter_eq, Hc. simpl. f_equal.
    unfold u32. rewrite Zminus_mod_idemp_l. f_equal. lia.
  - rewrite list_lookup_alter_ne, Hc; [do 2 f_equal; lia|].
    intros Hi. apply type_index_inj in Hi; [|done..]. apply has_type_eq in Hi. congruence.
Qed.

(** The ticket is in neither list, the counters of its type say otherwise. *)
Record miscounted (h : heap) (t : ptr) (lk : MDL_lock) : Prop := {
  mc_granted_nin : t ∉ m_list (m_granted lk);
  mc_waiting_nin : t ∉ m_list (m_waiting lk);
  mc_granted : counter_off h (m_granted lk) (get_type h t) 1;
  mc_waiting : counter_off h (m_waiting lk) (get_type h t) (-1);
}.

Lemma reschedule_step_miscounted s skip h it lk w lk' w' t :
  valid_type (get_type h t) -> valid_type (get_type h it) -> it ∈ m_list (m_waiting lk) ->
  miscounted h t lk -> reschedule_step s skip h it lk w = (lk', w') -> miscounted h t lk'.
Proof.
  intros Hv Hvi Hit Hm E. pose proof Hm as [M1 M2 M3 M4].
  assert (miscounted h t (set_lists lk (Ticket_list_add_ticket h (m_granted lk) it)
                                       (Ticket_list_remove_ticket h (m_waiting lk) it))) as [N1 N2 N3 N4].
  { split; simpl; [set_solver|by intros ?%elem_of_remove_first|by apply add_ticket_off|by apply remove_ticket_off]. }
  unfold reschedule_step, set_status in E. repeat case_match; simplify_eq; try done; by split.
Qed.

Lemma reschedule_loop_miscounted s skip h its lk w lk' w' t :
  valid_type (get_type h t) -> NoDup its -> NoDup (m_list (m_waiting lk)) ->
  (forall u, u ∈ its -> u ∈ m_list (m_waiting lk) /\ valid_type (get_type h u)) ->
  miscounted h t lk -> reschedule_loop s skip h its lk w = (lk', w') -> miscounted h t lk'.
Proof.
  intros Hv. revert lk w. induction its as [|it its IH]; simpl; intros lk w Hnd Hndw Hin Hm E; [by simplify_eq|].
  destruct (reschedule_step s skip h it lk w) as [lk2 w2] eqn:E2. apply NoDup_cons in Hnd as [Hni Hnd].
  destruct (Hin it) as [Hit Hvi]; [set_solver|]. apply (IH lk2 w2); try done.
  - unfold reschedule_step, set_status in E2.
    repeat case_match; simplify_eq; simpl; try done; by apply NoDup_remove_first.
  - intros u Hu. destruct (Hin u) as [Hu1 Hu2]; [set_solver|]. split; [|done].
    eapply reschedule_step_waiting; [done|by intros ->|done..].
  - by eapply reschedule_step_miscounted.
Qed.

Lemma reschedule_miscounted max s h lk w lk' w' t :
  valid_type (get_type h t) -> NoDup (m_list (m_waiting lk)) ->
  (forall u, u ∈ m_list (m_waiting lk) -> valid_type (get_type h u)) ->
  miscounted h t lk -> reschedule_waiters max h lk s w = (lk', w') -> miscounted h t lk'.
Proof.
  intros Hv Hnd Hval Hm. unfold reschedule_waiters.
  destruct (reschedule_loop _ _ _ _ _ _) as [lk1 w1] eqn:E. intros E'.
  eapply reschedule_loop_miscounted in E as [? ? ? ?]; [|done..|by auto|done].
  case_match; simplify_eq; by split.
Qed.

(** The effect of [abort_wait] on a ticket that is in m_granted. *)
Lemma abort_granted max s wd t b wd' :
  lock_ok (w_heap wd) (w_lock wd) s -> t ∈ m_list (m_granted (w_lock wd)) ->
  abort_wait max wd t = (b, wd') ->
  w_heap wd' = w_heap wd /\ miscounted (w_heap wd) t (w_lock wd').
Proof.
  destruct wd as [h lk w]. simpl. intros Hok Hin.
  unfold abort_wait, MDL_lock_remove_ticket. cbn [w_heap w_lock w_waits other_queue get_list]. set (lk1 := set_list _ _ _).
  pose proof (lo_granted _ _ _ _ Hok) as Hg. pose proof (lo_waiting _ _ _ _ Hok) as Hw.
  pose proof (tl_valid _ _ Hg t Hin) as Hv.
  assert (t ∉ m_list (m_waiting lk)) as Hnw.
  { eapply granted_not_waiting; [exact Hok|]. unfold granted_tickets. set_solver. }
  assert (m_list (m_waiting lk1) = m_list (m_waiting lk)) as EW by by apply remove_first_not_in.
  assert (miscounted h t lk1) as Hm.
  { split; rewrite ?EW; [|done|..].
    - simpl. rewrite elem_of_remove_first_iff by apply Hg. tauto.
    - unfold counter_off. simpl. rewrite (tl_counters _ _ Hg _ Hv), countb_remove_first by done.
      rewrite (proj2 (has_type_eq h _ t)) by done. f_equal.
      pose proof (countb_nonneg (has_type h (get_type h t)) (m_list (m_granted lk))).
      pose proof (countb_le (has_type h (get_type h t)) (m_list (m_granted lk))).
      pose proof (list_lt_room lk queue_granted). pose proof (lo_room _ _ _ _ Hok). simpl in *.
      rewrite u32_small by lia. lia.
    - unfold counter_off. rewrite EW. simpl. by rewrite list_lookup_alter_eq, (tl_counters _ _ Hw _ Hv). }
  assert (m_strategy lk1 = Some s) as -> by apply Hok.
  destruct (lock_is_empty lk1).
  - case_match; intros [= <- <-]; (split; [done|]); destruct Hm; by split.
  - destruct (reschedule_waiters _ _ _ _ _) as [lk2 w2] eqn:E. intros [= <- <-]. split; [done|].
    eapply reschedule_miscounted in E as [? ? ? ?]; [by split|done| | |done]; rewrite EW; apply Hw.
Qed.

(** ** The wait *)

(** Where the waiting context and its request are. *)
Record wait_ok (conn : bool) (n : Z) (s : MDL_lock_strategy) (c : ctx_id) (t : ptr) (x : world * wait_pc) : Prop := {
  wk_world : world_ok n s x.1;
  wk_request : request_ok c t x.1;
  (** the status the context leaves with is the one in its slot, unless its client is gone *)
  wk_status st :
    x.2 = pc_leaving st ->
    st ≠ EMPTY /\ (get_status (w_waits x.1) c = st \/ conn = false /\ st = TIMEOUT);
}.

Lemma timed_wait_spec w c killed on st w' :
  timed_wait w c killed on = (st, w') ->
  get_status w' c = st /\ (on = true -> st ≠ EMPTY) /\
  (w' = w \/ exists st', (st' = KILLED \/ st' = TIMEOUT) /\ w' = (set_status w c st').2).
Proof.
  assert (forall st', get_status (<[c := st']> w) c = st') as Hs
    by (intros; unfold get_status; by rewrite lookup_insert_eq).
  unfold timed_wait, set_status. intros [= <- <-]. split; [done|].
  destruct (decide (get_status w c = EMPTY)); [|by auto].
  destruct killed; [|destruct on]; rewrite ?Hs; (split; [done|]); eauto.
Qed.

Lemma wait_round_spec w c killed connected last res w' :
  wait_round w c killed connected last = (res, w') ->
  (w' = w \/ exists st, (st = KILLED \/ st = TIMEOUT) /\ w' = (set_status w c st).2) /\
  (forall st, res = Some st -> st ≠ EMPTY /\ (get_status w' c = st \/ connected = false /\ st = TIMEOUT)).
Proof.
  unfold wait_round. destruct last.
  - destruct (timed_wait w c killed true) as [st w1] eqn:E. intros [= <- <-].
    apply timed_wait_spec in E as (E1 & E2 & E3). split; [done|]. intros ? [= <-]. auto.
  - destruct (timed_wait w c killed false) as [st w1] eqn:E. apply timed_wait_spec in E as (E1 & _ & E3).
    case_bool_decide; simpl; [destruct connected; simpl|]; intros [= <- <-]; (split; [done|]); intros ? [= <-]; auto.
Qed.

Lemma wait_step_ok conn max n tid s `{!LawfulStrategy s} c t x y :
  wait_step conn max n tid s c x y -> wait_ok conn n s c t x -> wait_ok conn n s c t y.
Proof.
  intros Hst [Hw Hr Hp].
  destruct Hst as [wd pc op r wd' Hne Hf Hst|wd killed connected last res w' Hconn E]; simpl in *.
  - destruct (foreign_request _ _ _ _ c t _ _ _ _ Hw Hr Hne Hf Hst) as [Hr' Hs].
    split; simpl; [by eapply mdl_step_ok|done|]. intros st Est. destruct (Hp st Est) as [He [Hg|Hg]].
    + split; [done|]. left. rewrite Hs; [done|]. by rewrite Hg.
    + auto.
  - apply wait_round_spec in E as [Ew Hres]. destruct wd as [h lk w]. simpl in *.
    assert (world_ok n s (mk_world h lk w') /\ request_ok c t (mk_world h lk w')) as [Hw' Hr'].
    { destruct Ew as [->|(st & Hst & ->)]; [done|]. split.
      - apply (mdl_step_ok max n tid s (op_signal c st) r_done (mk_world h lk w)); [done..|].
        apply st_signal. by destruct Hst as [->| ->].
      - apply signal_request; [|done]. by destruct Hst as [->| ->]. }
    split; [done..|]. simpl. intros st Est. destruct res as [st'|]; simplify_eq/=.
    destruct (Hres st eq_refl) as [He [Hg|[Hg ->]]]; [auto|]. split; [done|]. right. split; [|done].
    destruct conn; [|done]. by rewrite Hconn in Hg.
Qed.

Lemma wait_run_ok conn max n tid s `{!LawfulStrategy s} c t x y :
  rtc (wait_step conn max n tid s c) x y -> wait_ok conn n s c t x -> wait_ok conn n s c t y.
Proof. induction 1; eauto using wait_step_ok. Qed.

(** C15: the wait slot decides between a grant and giving up.  A context whose request was queued leaves
    its wait, after any number of rounds and any steps of other contexts, with the status in its slot:
    GRANTED if the ticket is granted, something else if it is still waiting, so that [abort_wait] finds
    it there - provided that the client stays connected.  When the client is gone the loop is left with
    TIMEOUT and the slot stays open.  Then the ticket can be granted before [abort_wait] runs, which
    takes it out of m_granted but counts it out of m_waiting: afterwards the counter of its type is one
    too high in the granted list and, modulo 2^32, one too low in the waiting list. *)
Theorem mdl_wait_protocol conn max n tid alloc k c t wd0 wd st :
  rtc (mdl_any_step max n tid (strategy_of k)) (init_world n alloc k) wd0 ->
  t ∈ m_list (m_waiting (w_lock wd0)) -> get_ctx (w_heap wd0) t = c -> get_status (w_waits wd0) c = EMPTY ->
  rtc (wait_step conn max n tid (strategy_of k) c) (wd0, pc_waiting) (wd, pc_leaving st) ->
  (conn = true ->
     get_status (w_waits wd) c = st /\ st ≠ EMPTY /\
     (st = GRANTED -> t ∈ granted_tickets (w_lock wd)) /\
     (st ≠ GRANTED -> t ∈ m_list (m_waiting (w_lock wd)))) /\
  (t ∈ m_list (m_waiting (w_lock wd)) /\ st ≠ GRANTED \/
   t ∈ m_list (m_granted (w_lock wd)) /\
   (st = GRANTED \/
    st = TIMEOUT /\ get_status (w_waits wd) c = GRANTED /\
    forall b wd', abort_wait max wd t = (b, wd') ->
      w_heap wd' = w_heap wd /\ miscounted (w_heap wd) t (w_lock wd'))).
Proof.
  intros Hr Ht Hc He Hrun. apply reach_ok in Hr; [|apply _|apply init_world_ok].
  pose proof (wo_lock _ _ _ Hr) as Hok0.
  assert (wait_ok conn n (strategy_of k) c t (wd0, pc_waiting)) as H0.
  { split; simpl; [done| |done]. split; [done| |].
    - apply (lo_off_lane _ _ _ _ Hok0). set_solver.
    - left. by rewrite He. }
  destruct (wait_run_ok _ _ _ _ _ _ _ _ _ Hrun H0) as [[Hok _ _ _ _] [_ Hf Ho] Hp]. simpl in *.
  destruct (Hp st eq_refl) as [Hne Hst]. split.
  - intros ->. destruct Hst as [Hst|[? _]]; [|done]. rewrite Hst in Ho. naive_solver.
  - destruct Ho as [[Hw Hs]|[Hg Hs]].
    + left. split; [done|]. intros ->. destruct Hst as [?|[_ ?]]; done.
    + right. destruct (fast_action _ _ _ t Hok Hg) as [[Hgr _]|(i & l & Hfl & _)]; [|congruence].
      split; [done|]. destruct Hst as [Hst|[_ ->]]; [left; congruence|right].
      split_and!; [done..|]. intros b wd'. by apply (abort_granted max (strategy_of k)).
Qed.

(** Context 1 has the table exclusively and context 2 waits to read it.  Context 2 finds its client gone,
    then 1 releases its lock. *)
Definition race_waiting : world :=
  run_request 8 (run_request 8 (init_world 8 true run_key) 1 MDL_EXCLUSIVE 1) 2 MDL_SHARED_READ 2.
Definition race_granted : world := (MDL_lock_release 100 race_waiting 1).2.

Lemma mdl_wait_protocol_witness :
  miscounted (w_heap race_granted) 2 (w_lock (abort_wait 100 race_granted 2).2).
Proof.
  destruct (mdl_wait_protocol false 100 8 Z.of_nat true run_key 2 2 race_waiting race_granted TIMEOUT)
    as [_ [[Hw _]|[_ [?|(_ & _ & H)]]]].
  - apply (good_any _ _ _ true). unfold race_waiting. etransitivity; apply run_request_step; by_decide.
  - by_decide.
  - vm_compute. reflexivity.
  - vm_compute. reflexivity.
  - eapply rtc_l; [apply (ws_round _ _ _ _ _ _ _ false false false (Some TIMEOUT) (w_waits race_waiting)); [done|]|].
    { vm_compute. reflexivity. }
    apply rtc_once. eapply (ws_other _ _ _ _ _ _ _ _ (op_release (1%nat, MDL_EXCLUSIVE)) r_done); [done..|].
    apply (run_release_step 8 100 run_key race_waiting 1). by_decide.
  - exfalso. revert Hw. by_decide.
  - done.
  - apply (H (abort_wait 100 race_granted 2).1). apply surjective_pairing.
Defined.
