(* ===== verification/Decimal.v ===== *)
(** * Fixed-point decimals

    strings/decimal.c: [decimal_t], its arithmetic and comparison.  A number is
    stored in words of nine decimal digits, integer words first.  [buf] is the list
    of the words in use, [len] the number of words the buffer can hold; a routine
    that fills in a result takes the capacity of its buffer and returns the error
    code with the new number.  The C code walks the arrays from the least
    significant word up; here a number is turned into the reversed list of its
    words, and each loop is a function on such lists. *)

From S2P Require Import Prelude.

Definition DIG_PER_DEC1 : Z := 9.
Definition DIG_BASE : Z := 1000000000.
Definition DIG_MAX : Z := DIG_BASE - 1.

Definition powers10 : list Z :=
  [1; 10; 100; 1000; 10000; 100000; 1000000; 10000000; 100000000; 1000000000].
Definition dig2bytes : list Z := [0; 1; 1; 2; 2; 3; 3; 4; 4; 4].
Definition frac_max : list Z :=
  [900000000; 990000000; 999000000; 999900000; 999990000; 999999000; 999999900; 999999990].

Definition E_DEC_OK : Z := 0.
Definition E_DEC_TRUNCATED : Z := 1.
Definition E_DEC_OVERFLOW : Z := 2.
Definition E_DEC_DIV_ZERO : Z := 4.
Definition E_DEC_BAD_NUM : Z := 8.
Definition E_DEC_OOM : Z := 16.

Record decimal_t := mk_decimal {
  intg : Z;
  frac : Z;
  len : Z;
  sign : bool;
  buf : list Z;
}.

Definition ROUND_UP (x : Z) : Z :=
  Z.quot (x + (if 0 <? x then DIG_PER_DEC1 - 1 else 0)) DIG_PER_DEC1.

(** [FIX_INTG_FRAC_ERROR]: the bounded sizes and the error *)
Definition FIX_INTG_FRAC_ERROR (len intg1 frac1 : Z) : Z * Z * Z :=
  if len <? intg1 + frac1
  then if len <? intg1 then (len, 0, E_DEC_OVERFLOW) else (intg1, len - intg1, E_DEC_TRUNCATED)
  else (intg1, frac1, E_DEC_OK).

(** The macros: the new word and the new carry. *)
Definition ADD (from1 from2 carry : Z) : Z * Z :=
  let a := from1 + from2 + carry in
  if DIG_BASE <=? a then (a - DIG_BASE, 1) else (a, 0).

Definition ADD2 (from1 from2 carry : Z) : Z * Z :=
  let a := from1 + from2 + carry in
  let '(a1, c1) := if DIG_BASE <=? a then (a - DIG_BASE, 1) else (a, 0) in
  if DIG_BASE <=? a1 then (a1 - DIG_BASE, c1 + 1) else (a1, c1).

Definition SUB (from1 from2 carry : Z) : Z * Z :=
  let a := from1 - from2 - carry in
  if a <? 0 then (a + DIG_BASE, 1) else (a, 0).

(** The loops over the words of two numbers, or of one, from the right. *)
Fixpoint add_words (l1 l2 : list Z) (carry : Z) : list Z * Z :=
  match l1, l2 with
  | x :: l1', y :: l2' =>
      let '(a, c) := ADD x y carry in
      let '(l, c') := add_words l1' l2' c in (a :: l, c')
  | _, _ => ([], carry)
  end.

Fixpoint carry_words (l : list Z) (carry : Z) : list Z * Z :=
  match l with
  | x :: l' =>
      let '(a, c) := ADD x 0 carry in
      let '(r, c') := carry_words l' c in (a :: r, c')
  | [] => ([], carry)
  end.

(** [max_decimal], for a number that is to have [precision] digits in total *)
Definition max_decimal (precision frac len : Z) : decimal_t :=
  let intpart := precision - frac in
  let firstdigits := intpart mod DIG_PER_DEC1 in
  let lastdigits := frac mod DIG_PER_DEC1 in
  mk_decimal intpart frac len false
    ((if firstdigits =? 0 then [] else [nth (Z.to_nat firstdigits) powers10 0 - 1]) ++
     replicate (Z.to_nat (intpart / DIG_PER_DEC1)) DIG_MAX ++
     replicate (Z.to_nat (frac / DIG_PER_DEC1)) DIG_MAX ++
     (if lastdigits =? 0 then [] else [nth (Z.to_nat (lastdigits - 1)) frac_max 0])).

Definition decimal_make_zero (len : Z) : decimal_t := mk_decimal 1 0 len false [0].

(** ** Addition *)

(** The words of a number down to [n] fraction words, least significant first. *)
Definition words_from (d : decimal_t) (intg1 frac1 : Z) : list Z :=
  rev (take (Z.to_nat (intg1 + frac1)) (buf d)).

(** The three parts of the addition, on words from the right: the words only one
    number has after the point, those both have, and the integer words only one has.
    Returns the words and the last carry. *)
Definition add_parts (w1 w2 : list Z) (intg1 frac1 intg2 frac2 : Z) : list Z * Z :=
  (* part 1 *)
  let n := Z.to_nat (Z.abs (frac1 - frac2)) in
  let '(tail, r1, r2) :=
    if frac2 <? frac1 then (take n w1, drop n w1, w2) else (take n w2, w1, drop n w2) in
  (* part 2 *)
  let '(middle, carry) := add_words r1 r2 0 in
  (* part 3 *)
  let rest := if intg2 <? intg1 then drop (length middle) r1 else drop (length middle) r2 in
  let '(high, carry) := carry_words rest carry in
  (tail ++ middle ++ high, carry).

(** Whether the sum may need one more word than the longer number has: decided on
    the most significant words. *)
Definition extra_word (from1 from2 : decimal_t) : bool :=
  let intg1 := ROUND_UP (intg from1) in
  let intg2 := ROUND_UP (intg from2) in
  let x := if intg2 <? intg1 then nth 0 (buf from1) 0
           else if intg1 <? intg2 then nth 0 (buf from2) 0
           else nth 0 (buf from1) 0 + nth 0 (buf from2) 0 in
  DIG_MAX - 1 <? x.

Definition do_add (from1 from2 : decimal_t) (to_len : Z) : Z * decimal_t :=
  let intg1 := ROUND_UP (intg from1) in
  let intg2 := ROUND_UP (intg from2) in
  let frac1 := ROUND_UP (frac from1) in
  let frac2 := ROUND_UP (frac from2) in
  let extra := extra_word from1 from2 in
  let '(intg0, frac0, error) :=
    FIX_INTG_FRAC_ERROR to_len (Z.max intg1 intg2 + if extra then 1 else 0) (Z.max frac1 frac2) in
  if error =? E_DEC_OVERFLOW then (error, max_decimal (to_len * DIG_PER_DEC1) 0 to_len)
  else
    let to_frac := Z.max (frac from1) (frac from2) in
    let '(to_frac, frac1, frac2) :=
      if error =? E_DEC_OK then (to_frac, frac1, frac2)
      else (Z.min to_frac (frac0 * DIG_PER_DEC1), Z.min frac1 frac0, Z.min frac2 frac0) in
    let '(words, carry) :=
      add_parts (words_from from1 intg1 frac1) (words_from from2 intg2 frac2)
        intg1 frac1 intg2 frac2 in
    (error,
     mk_decimal (intg0 * DIG_PER_DEC1) to_frac to_len (sign from1)
       (rev (words ++ (if extra then [carry] else [])))).

(** ** Subtraction and comparison *)

(** Skip words that are zero. *)
Fixpoint drop_zeros (l : list Z) : list Z :=
  match l with
  | 0 :: l' => drop_zeros l'
  | _ => l
  end.

(** The loop that compares two numbers with the same number of integer words, from
    the most significant word down: [Eq], or which of the two is less. *)
Fixpoint compare_words (l1 l2 : list Z) : comparison :=
  match l1, l2 with
  | x :: l1', y :: l2' => if x =? y then compare_words l1' l2' else if x <? y then Lt else Gt
  | _ :: _, [] => Gt
  | [], _ :: _ => Lt
  | [], [] => Eq
  end.

(** The significant words of a number: the integer words without leading zeros, and
    the fraction words. *)
Definition significant (d : decimal_t) : list Z * list Z :=
  (drop_zeros (take (Z.to_nat (ROUND_UP (intg d))) (buf d)),
   take (Z.to_nat (ROUND_UP (frac d))) (drop (Z.to_nat (ROUND_UP (intg d))) (buf d))).

(** What the first part of [do_sub] finds out about a number: the words from the
    first significant one on, the number of integer words among them, and the number
    of words after the point (which is negative when integer words were cut off). *)
Record operand := mk_operand { op_words : list Z; op_intg : Z; op_frac : Z }.

Definition operand_of (d : decimal_t) : operand :=
  let '(i, f) := significant d in
  mk_operand (i ++ f) (Z.of_nat (length i)) (Z.of_nat (length f)).

(** Cut off trailing zero words. *)
Definition trim_operand (o : operand) : operand :=
  let words := rev (drop_zeros (rev (op_words o))) in
  mk_operand words (op_intg o) (Z.of_nat (length words) - op_intg o).

(** Compare the absolute values; the operands come back trimmed if they had to be. *)
Definition compare_operands (o1 o2 : operand) : comparison * operand * operand :=
  if op_intg o1 <? op_intg o2 then (Lt, o1, o2)
  else if op_intg o2 <? op_intg o1 then (Gt, o1, o2)
  else
    let t1 := trim_operand o1 in
    let t2 := trim_operand o2 in
    (compare_words (op_words t1) (op_words t2), t1, t2).

(** [do_sub] with a null [to] *)
Definition do_cmp (from1 from2 : decimal_t) : Z :=
  let '(c, _, _) := compare_operands (operand_of from1) (operand_of from2) in
  match c with
  | Eq => 0
  | Lt => if Bool.eqb true (sign from1) then 1 else -1
  | Gt => if Bool.eqb false (sign from1) then 1 else -1
  end.

(** The loops of the subtraction, from the right: of one number from zero, of two
    numbers, and of the borrow from the rest of the greater one. *)
Fixpoint neg_words (l : list Z) (carry : Z) : list Z * Z :=
  match l with
  | y :: l' =>
      let '(a, c) := SUB 0 y carry in
      let '(r, c') := neg_words l' c in (a :: r, c')
  | [] => ([], carry)
  end.

Fixpoint sub_words (l1 l2 : list Z) (carry : Z) : list Z * list Z * Z :=
  match l1, l2 with
  | x :: l1', y :: l2' =>
      let '(a, c) := SUB x y carry in
      let '(r, rest, c') := sub_words l1' l2' c in (a :: r, rest, c')
  | _, _ => ([], l1, carry)
  end.

Fixpoint borrow_words (l : list Z) (carry : Z) : list Z :=
  match l with
  | x :: l' =>
      if carry =? 0 then l
      else let '(a, c) := SUB x 0 carry in a :: borrow_words l' c
  | [] => []
  end.

(** [intg1] integer words of an operand and [frac1] fraction words, from the right. *)
Definition operand_from (o : operand) (intg1 frac1 : Z) : list Z :=
  rev (take (Z.to_nat (intg1 + frac1)) (op_words o)).

(** The three parts of the subtraction of [w2] from [w1], on words from the right,
    for [frac0] fraction words of the result. *)
Definition sub_parts (w1 w2 : list Z) (frac0 frac1 frac2 : Z) : list Z :=
  (* part 1 *)
  let '(tail, carry, r1, r2) :=
    if frac2 <? frac1 then
      let n := Z.to_nat (frac1 - frac2) in
      (replicate (Z.to_nat (frac0 - frac1)) 0 ++ take n w1, 0, drop n w1, w2)
    else
      let n := Z.to_nat (frac2 - frac1) in
      let '(t, c) := neg_words (take n w2) 0 in
      (replicate (Z.to_nat (frac0 - frac2)) 0 ++ t, c, w1, drop n w2) in
  (* part 2 *)
  let '(middle, rest, carry) := sub_words r1 r2 carry in
  (* part 3 *)
  tail ++ middle ++ borrow_words rest carry.

Definition do_sub (from1 from2 : decimal_t) (to_len : Z) : Z * decimal_t :=
  let frac0 := Z.max (ROUND_UP (frac from1)) (ROUND_UP (frac from2)) in
  let '(c, o1, o2) := compare_operands (operand_of from1) (operand_of from2) in
  match c with
  | Eq => (E_DEC_OK, decimal_make_zero to_len)
  | _ =>
      let swap := match c with Lt => true | _ => false end in
      let '(o1, o2) := if swap then (o2, o1) else (o1, o2) in
      let to_sign := if swap then negb (sign from1) else sign from1 in
      let '(intg1, frac0, error) := FIX_INTG_FRAC_ERROR to_len (op_intg o1) frac0 in
      let to_frac := Z.max (frac from1) (frac from2) in
      let '(to_frac, frac1, frac2, intg2) :=
        if error =? E_DEC_OK then (to_frac, op_frac o1, op_frac o2, op_intg o2)
        else (Z.min to_frac (frac0 * DIG_PER_DEC1), Z.min (op_frac o1) frac0,
              Z.min (op_frac o2) frac0, Z.min (op_intg o2) intg1) in
      let words :=
        sub_parts (operand_from o1 intg1 frac1) (operand_from o2 intg2 frac2)
          frac0 frac1 frac2 in
      let pad := replicate (Z.to_nat (intg1 + frac0) - length words) 0 in
      (error,
       mk_decimal (intg1 * DIG_PER_DEC1) to_frac to_len to_sign (rev (words ++ pad)))
  end.

Definition decimal_add (from1 from2 : decimal_t) (to_len : Z) : Z * decimal_t :=
  if Bool.eqb (sign from1) (sign from2) then do_add from1 from2 to_len
  else do_sub from1 from2 to_len.

Definition decimal_sub (from1 from2 : decimal_t) (to_len : Z) : Z * decimal_t :=
  if Bool.eqb (sign from1) (sign from2) then do_sub from1 from2 to_len
  else do_add from1 from2 to_len.

Definition decimal_cmp (from1 from2 : decimal_t) : Z :=
  if Bool.eqb (sign from1) (sign from2) then do_cmp from1 from2
  else if sign from1 then -1 else 1.

Definition decimal_is_zero (d : decimal_t) : bool :=
  forallb (fun w => w =? 0)
    (take (Z.to_nat (ROUND_UP (intg d) + ROUND_UP (frac d))) (buf d)).

(** ** The server's wrappers

    sql/my_decimal.h: an overflow is replaced by the greatest number the server
    supports. *)

Definition DECIMAL_BUFF_LENGTH : Z := 9.
Definition DECIMAL_MAX_POSSIBLE_PRECISION : Z := DECIMAL_BUFF_LENGTH * 9.
Definition DECIMAL_MAX_PRECISION : Z := DECIMAL_MAX_POSSIBLE_PRECISION - 8 * 2.

Definition max_internal_decimal : decimal_t :=
  max_decimal DECIMAL_MAX_PRECISION 0 DECIMAL_BUFF_LENGTH.

Definition with_sign (d : decimal_t) (s : bool) : decimal_t :=
  mk_decimal (intg d) (frac d) (len d) s (buf d).

Definition check_result_and_overflow (r : Z * decimal_t) : Z * decimal_t :=
  let '(result, val) := r in
  if Z.land result E_DEC_OVERFLOW =? 0 then (result, val)
  else (result, with_sign max_internal_decimal (sign val)).

Definition my_decimal_add (a b : decimal_t) : Z * decimal_t :=
  check_result_and_overflow (decimal_add a b DECIMAL_BUFF_LENGTH).

Definition my_decimal_sub (a b : decimal_t) : Z * decimal_t :=
  check_result_and_overflow (decimal_sub a b DECIMAL_BUFF_LENGTH).
