(* ===== verification/DecimalValue.v ===== *)
(** * The value of a decimal

    What the words of a [decimal_t] stand for, when one is well formed, and how the
    loops of strings/decimal.c act on the value: the lemmas the theorems about the
    decimal operations share. *)

From Stdlib Require Import QArith.
From S2P Require Import Prelude Decimal.

Local Open Scope Z_scope.

(** [wpow n] is the weight of word [n] *)
Definition wpow (n : nat) : Z := DIG_BASE ^ Z.of_nat n.

(** A list of words, least significant first *)
Fixpoint le (l : list Z) : Z :=
  match l with
  | [] => 0
  | x :: l' => x + DIG_BASE * le l'
  end.

Definition word_ok (x : Z) : Prop := 0 <= x < DIG_BASE.
Definition words_ok (l : list Z) : Prop := Forall word_ok l.

Definition intg_words (d : decimal_t) : nat := Z.to_nat (ROUND_UP (intg d)).
Definition frac_words (d : decimal_t) : nat := Z.to_nat (ROUND_UP (frac d)).

(** The absolute value in units of the last fraction word, and the signed one *)
Definition magnitude (d : decimal_t) : Z := le (rev (buf d)).
Definition signed (d : decimal_t) : Z := if sign d then - magnitude d else magnitude d.

(** The number a [decimal_t] stands for *)
Definition value (d : decimal_t) : Q := inject_Z (signed d) / inject_Z (wpow (frac_words d)).

(** The number in units of fraction word [n], truncated towards zero *)
Definition units (n : nat) (d : decimal_t) : Z :=
  Z.quot (signed d * wpow n) (wpow (frac_words d)).

(** The representation invariant.  The word count is the one the digit counts ask
    for, every word is in range, the digits that are not part of the number are
    zero, and zero is not negative. *)
Record decimal_ok (d : decimal_t) : Prop := {
  dok_intg : 0 <= intg d;
  dok_frac : 0 <= frac d;
  dok_length : length (buf d) = (intg_words d + frac_words d)%nat;
  dok_words : words_ok (buf d);
  dok_high : magnitude d < 10 ^ intg d * wpow (frac_words d);
  dok_low : (10 ^ (9 * Z.of_nat (frac_words d) - frac d) | magnitude d);
  dok_sign : sign d = true -> magnitude d <> 0;
}.

(** ** Weights *)

Lemma wpow_0 : wpow 0 = 1.
Proof. reflexivity. Qed.

Lemma wpow_S n : wpow (S n) = DIG_BASE * wpow n.
Proof. unfold wpow. rewrite Nat2Z.inj_succ, Z.pow_succ_r by lia. reflexivity. Qed.

Lemma wpow_pos n : 0 < wpow n.
Proof. apply Z.pow_pos_nonneg; [reflexivity | lia]. Qed.

Lemma wpow_add n m : wpow (n + m) = wpow n * wpow m.
Proof. unfold wpow. rewrite Nat2Z.inj_add. apply Z.pow_add_r; lia. Qed.

Lemma wpow_10 n : wpow n = 10 ^ (9 * Z.of_nat n).
Proof. unfold wpow. rewrite Z.pow_mul_r by lia. reflexivity. Qed.

Lemma wpow_le n m : (n <= m)%nat -> wpow n <= wpow m.
Proof. intros. apply Z.pow_le_mono_r; [reflexivity | lia]. Qed.

#[export] Hint Resolve wpow_pos : mdb.

(** ** Lists of words *)

Lemma words_ok_cons x l : words_ok (x :: l) <-> word_ok x /\ words_ok l.
Proof. apply Forall_cons. Qed.

Lemma words_ok_app l1 l2 : words_ok (l1 ++ l2) <-> words_ok l1 /\ words_ok l2.
Proof. apply Forall_app. Qed.

Lemma words_ok_rev l : words_ok (rev l) <-> words_ok l.
Proof.
  split; intros H; [rewrite <- (rev_involutive l)|]; by apply Forall_rev.
Qed.

Lemma words_ok_take n l : words_ok l -> words_ok (take n l).
Proof. apply Forall_take. Qed.

Lemma words_ok_drop n l : words_ok l -> words_ok (drop n l).
Proof. apply Forall_drop. Qed.

Lemma words_ok_zeros n : words_ok (replicate n 0).
Proof. apply Forall_replicate. done. Qed.

#[export] Hint Resolve words_ok_take words_ok_drop words_ok_zeros : mdb.
#[export] Hint Resolve <- words_ok_rev words_ok_app : mdb.

Lemma le_bound l : words_ok l -> 0 <= le l < wpow (length l).
Proof.
  induction l as [|x l IH]; simpl; intros H; [rewrite wpow_0; lia|].
  apply words_ok_cons in H as [Hx Hl]. specialize (IH Hl). rewrite wpow_S.
  unfold word_ok in Hx. nia.
Qed.

Lemma le_app l1 l2 : le (l1 ++ l2) = le l1 + wpow (length l1) * le l2.
Proof.
  induction l1 as [|x l1 IH]; simpl; [rewrite wpow_0; lia|]. rewrite IH, wpow_S. ring.
Qed.

Lemma le_zeros n : le (replicate n 0) = 0.
Proof. induction n as [|n IH]; simpl; [done|]. rewrite IH. lia. Qed.

Lemma le_split n l : le l = le (take n l) + wpow (length (take n l)) * le (drop n l).
Proof. rewrite <- le_app, take_drop. reflexivity. Qed.

Lemma le_drop n l :
  words_ok l -> (n <= length l)%nat -> le (drop n l) = le l / wpow n.
Proof.
  intros Hl Hn. rewrite (le_split n l), length_take_le by done.
  pose proof (le_bound (take n l) ltac:(eauto with mdb)) as Hb.
  rewrite length_take_le in Hb by done.
  rewrite Z.mul_comm, Z.div_add by (pose proof (wpow_pos n); lia).
  rewrite Z.div_small by done. lia.
Qed.

Lemma rev_take_drop {A} n (l : list A) : rev (take n l) = drop (length l - n) (rev l).
Proof.
  rewrite <- (take_drop n l) at 3. rewrite rev_app_distr.
  rewrite drop_app_length' by (rewrite length_rev, length_drop; done). done.
Qed.

(** ** The loops *)

Lemma ADD_spec x y c a c' :
  ADD x y c = (a, c') -> word_ok x -> word_ok y -> 0 <= c <= 1 ->
  a + DIG_BASE * c' = x + y + c /\ word_ok a /\ 0 <= c' <= 1.
Proof.
  unfold ADD, word_ok. intros E Hx Hy Hc.
  destruct (Z.leb_spec DIG_BASE (x + y + c)); simplify_eq; lia.
Qed.

Lemma SUB_spec x y c a c' :
  SUB x y c = (a, c') -> word_ok x -> word_ok y -> 0 <= c <= 1 ->
  a - DIG_BASE * c' = x - y - c /\ word_ok a /\ 0 <= c' <= 1.
Proof.
  unfold SUB, word_ok. intros E Hx Hy Hc.
  destruct (Z.ltb_spec (x - y - c) 0); simplify_eq; lia.
Qed.

Lemma add_words_spec l1 l2 c l c' :
  add_words l1 l2 c = (l, c') -> words_ok l1 -> words_ok l2 -> 0 <= c <= 1 ->
  let n := Nat.min (length l1) (length l2) in
  length l = n /\ words_ok l /\ 0 <= c' <= 1 /\
  le l + wpow n * c' = le (take n l1) + le (take n l2) + c.
Proof.
  revert l2 c l c'. induction l1 as [|x l1 IH]; intros [|y l2] c l c' E H1 H2 Hc;
    simpl in E; simplify_eq; simpl; rewrite ?wpow_0; try (split_and!; [done|constructor|lia..]).
  destruct (ADD x y c) as [a c1] eqn:EA. destruct (add_words l1 l2 c1) as [l0 c2] eqn:EW.
  simplify_eq. apply words_ok_cons in H1 as [Hx H1]. apply words_ok_cons in H2 as [Hy H2].
  apply ADD_spec in EA as (EA & Ha & Hc1); [|done..].
  apply IH in EW as (Hlen & Hw & Hc2 & EW); [|done..].
  rewrite wpow_S. simpl. split_and!; [lia|by apply words_ok_cons|lia..|].
  replace (a + _ + _) with (a + DIG_BASE * (le l0 + wpow (length l1 `min` length l2) * c')) by ring.
  rewrite EW. lia.
Qed.

Lemma carry_words_spec l c l0 c' :
  carry_words l c = (l0, c') -> words_ok l -> 0 <= c <= 1 ->
  length l0 = length l /\ words_ok l0 /\ 0 <= c' <= 1 /\
  le l0 + wpow (length l) * c' = le l + c.
Proof.
  revert c l0 c'. induction l as [|x l IH]; intros c l0 c' E H Hc;
    simpl in E; simplify_eq; simpl; rewrite ?wpow_0; try (split_and!; [done|constructor|lia..]).
  destruct (ADD x 0 c) as [a c1] eqn:EA. destruct (carry_words l c1) as [r c2] eqn:EW.
  simplify_eq. apply words_ok_cons in H as [Hx H].
  apply ADD_spec in EA as (EA & Ha & Hc1); [|done..].
  apply IH in EW as (Hlen & Hw & Hc2 & EW); [|done..].
  rewrite wpow_S. simpl. split_and!; [lia|by apply words_ok_cons|lia..|].
  replace (a + _ + _) with (a + DIG_BASE * (le r + wpow (length l) * c')) by ring.
  rewrite EW. lia.
Qed.

Lemma neg_words_spec l c l0 c' :
  neg_words l c = (l0, c') -> words_ok l -> 0 <= c <= 1 ->
  length l0 = length l /\ words_ok l0 /\ 0 <= c' <= 1 /\
  le l0 - wpow (length l) * c' = - le l - c.
Proof.
  revert c l0 c'. induction l as [|x l IH]; intros c l0 c' E H Hc;
    cbn -[SUB] in E; simplify_eq; simpl; rewrite ?wpow_0; try (split_and!; [done|constructor|lia..]).
  destruct (SUB 0 x c) as [a c1] eqn:EA. destruct (neg_words l c1) as [r c2] eqn:EW.
  simplify_eq. apply words_ok_cons in H as [Hx H].
  apply SUB_spec in EA as (EA & Ha & Hc1); [|done..].
  apply IH in EW as (Hlen & Hw & Hc2 & EW); [|done..].
  rewrite wpow_S. simpl. split_and!; [lia|by apply words_ok_cons|lia..|].
  replace (a + _ - _) with (a + DIG_BASE * (le r - wpow (length l) * c')) by ring.
  rewrite EW. lia.
Qed.

Lemma sub_words_spec l1 l2 c l rest c' :
  sub_words l1 l2 c = (l, rest, c') -> words_ok l1 -> words_ok l2 -> 0 <= c <= 1 ->
  (length l2 <= length l1)%nat ->
  length l = length l2 /\ words_ok l /\ 0 <= c' <= 1 /\ rest = drop (length l2) l1 /\
  le l - wpow (length l2) * c' = le (take (length l2) l1) - le l2 - c.
Proof.
  revert l2 c l rest c'. induction l1 as [|x l1 IH]; intros [|y l2] c l rest c' E H1 H2 Hc Hlen;
    simpl in E, Hlen; simplify_eq; simpl; rewrite ?wpow_0;
    try (split_and!; [done|constructor|lia|lia|done|lia]); [lia|].
  destruct (SUB x y c) as [a c1] eqn:EA. destruct (sub_words l1 l2 c1) as [[l0 r0] c2] eqn:EW.
  simplify_eq. apply words_ok_cons in H1 as [Hx H1]. apply words_ok_cons in H2 as [Hy H2].
  apply SUB_spec in EA as (EA & Ha & Hc1); [|done..].
  apply IH in EW as (Hl0 & Hw & Hc2 & Hrest & EW); [|done|done|done|lia].
  rewrite wpow_S. simpl. split_and!; [lia|by apply words_ok_cons|lia|lia|done|].
  replace (a + _ - _) with (a + DIG_BASE * (le l0 - wpow (length l2) * c')) by ring.
  rewrite EW. lia.
Qed.

(** The borrow is taken from the rest, provided the rest is not less than it. *)
Lemma borrow_words_spec l c :
  words_ok l -> 0 <= c <= 1 -> c <= le l ->
  length (borrow_words l c) = length l /\ words_ok (borrow_words l c) /\
  le (borrow_words l c) = le l - c.
Proof.
  revert c. induction l as [|x l IH]; intros c H Hc Hle; simpl in *.
  { split_and!; [done..|lia]. }
  apply words_ok_cons in H as [Hx H].
  destruct (Z.eqb_spec c 0); [split_and!; [done|by apply words_ok_cons|simpl; lia]|].
  destruct (SUB x 0 c) as [a c1] eqn:EA. apply SUB_spec in EA as (EA & Ha & Hc1); [|done..].
  unfold word_ok in *.
  destruct (IH c1 H Hc1) as (Hlen & Hw & E); [unfold DIG_BASE in *; lia|].
  split_and!; [simpl; lia|by apply words_ok_cons|simpl; lia].
Qed.

(** ** The three parts of addition and subtraction *)

(** Parts 2 and 3 of the addition: two numbers whose last words are aligned *)
Lemma add_aligned r1 r2 m c high c' (n1 n2 : nat) :
  add_words r1 r2 0 = (m, c) ->
  carry_words (if (n2 <? n1)%nat then drop (length m) r1 else drop (length m) r2) c = (high, c') ->
  words_ok r1 -> words_ok r2 -> length r1 = n1 -> length r2 = n2 ->
  length (m ++ high) = Nat.max n1 n2 /\ words_ok (m ++ high) /\ 0 <= c' <= 1 /\
  le (m ++ high) + wpow (Nat.max n1 n2) * c' = le r1 + le r2.
Proof.
  intros EA EC H1 H2 <- <-. apply add_words_spec in EA as (Hm & Hmw & Hc & Em); [|done|done|lia].
  apply carry_words_spec in EC as (Hh & Hhw & Hc' & Eh); [|destruct Nat.ltb; eauto with mdb|done].
  rewrite length_app, le_app, Hh, Hm in *. rewrite words_ok_app.
  rewrite (le_split (length r1 `min` length r2) r1), (le_split (length r1 `min` length r2) r2).
  rewrite !length_take_le by lia.
  destruct (Nat.ltb_spec (length r2) (length r1)); rewrite length_drop in *.
  - rewrite (drop_ge r2) by lia. simpl le. split_and!; [lia|done|done|lia|lia|].
    replace (length r1 `max` length r2)%nat
      with (length r1 `min` length r2 + (length r1 - length r1 `min` length r2))%nat by lia.
    rewrite wpow_add. nia.
  - rewrite (drop_ge r1) by lia. simpl le. split_and!; [lia|done|done|lia|lia|].
    replace (length r1 `max` length r2)%nat
      with (length r1 `min` length r2 + (length r2 - length r1 `min` length r2))%nat by lia.
    rewrite wpow_add. nia.
Qed.

Lemma add_parts_spec w1 w2 (i1 f1 i2 f2 : nat) words c :
  add_parts w1 w2 (Z.of_nat i1) (Z.of_nat f1) (Z.of_nat i2) (Z.of_nat f2) = (words, c) ->
  words_ok w1 -> words_ok w2 -> length w1 = (i1 + f1)%nat -> length w2 = (i2 + f2)%nat ->
  let f := Nat.max f1 f2 in
  let n := (Nat.max i1 i2 + f)%nat in
  length words = n /\ words_ok words /\ 0 <= c <= 1 /\
  le words + wpow n * c = le w1 * wpow (f - f1) + le w2 * wpow (f - f2).
Proof.
  unfold add_parts. intros E H1 H2 L1 L2. cbn zeta.
  set (k := Z.to_nat (Z.abs (Z.of_nat f1 - Z.of_nat f2))) in E.
  assert (Hi : (Z.of_nat i2 <? Z.of_nat i1)
    = (i2 + Nat.min f1 f2 <? i1 + Nat.min f1 f2)%nat).
  { destruct (Z.ltb_spec (Z.of_nat i2) (Z.of_nat i1)), (Nat.ltb_spec (i2 + f1 `min` f2) (i1 + f1 `min` f2)); lia. }
  rewrite Hi in E.
  destruct (Z.ltb_spec (Z.of_nat f2) (Z.of_nat f1)).
  - destruct (add_words (drop k w1) w2 0) as [m c1] eqn:EA.
    destruct (carry_words _ c1) as [high c2] eqn:EC. simplify_eq.
    eapply (add_aligned (drop k w1) w2) in EC as (Hl & Hw & Hc & EV);
      [|done|eauto with mdb|done|rewrite length_drop; lia|lia].
    rewrite length_app, words_ok_app, le_app, length_take_le by lia.
    split_and!; [lia|eauto with mdb|done|lia|lia|].
    replace (i1 `max` i2 + f1 `max` f2)%nat
      with (k + (i1 + f1 `min` f2) `max` (i2 + f1 `min` f2))%nat by lia.
    rewrite wpow_add, (le_split k w1), length_take_le by lia.
    replace (f1 `max` f2 - f1)%nat with 0%nat by lia.
    replace (f1 `max` f2 - f2)%nat with k by lia. rewrite wpow_0. nia.
  - destruct (add_words w1 (drop k w2) 0) as [m c1] eqn:EA.
    destruct (carry_words _ c1) as [high c2] eqn:EC. simplify_eq.
    eapply (add_aligned w1 (drop k w2)) in EC as (Hl & Hw & Hc & EV);
      [|done|done|eauto with mdb|lia|rewrite length_drop; lia].
    rewrite length_app, words_ok_app, le_app, length_take_le by lia.
    split_and!; [lia|eauto with mdb|done|lia|lia|].
    replace (i1 `max` i2 + f1 `max` f2)%nat
      with (k + (i1 + f1 `min` f2) `max` (i2 + f1 `min` f2))%nat by lia.
    rewrite wpow_add, (le_split k w2), length_take_le by lia.
    replace (f1 `max` f2 - f2)%nat with 0%nat by lia.
    replace (f1 `max` f2 - f1)%nat with k by lia. rewrite wpow_0. nia.
Qed.

(** Parts 2 and 3 of the subtraction: a borrow and a number from an aligned one *)
Lemma sub_aligned r1 r2 c m rest c' :
  sub_words r1 r2 c = (m, rest, c') -> words_ok r1 -> words_ok r2 -> 0 <= c <= 1 ->
  (length r2 <= length r1)%nat -> le r2 + c <= le r1 ->
  length (m ++ borrow_words rest c') = length r1 /\ words_ok (m ++ borrow_words rest c') /\
  le (m ++ borrow_words rest c') = le r1 - le r2 - c.
Proof.
  intros E H1 H2 Hc Hlen Hle.
  apply sub_words_spec in E as (Hm & Hmw & Hc' & -> & Em); [|done..].
  pose proof (le_split (length r2) r1) as Er. rewrite length_take_le in Er by done.
  pose proof (le_bound m Hmw) as Hb. rewrite Hm in Hb.
  assert (c' <= le (drop (length r2) r1)) by nia.
  destruct (borrow_words_spec (drop (length r2) r1) c') as (Bl & Bw & Be);
    [eauto with mdb|done|done|].
  rewrite length_app, words_ok_app, le_app, Bl, Be, Hm, length_drop.
  split_and!; [lia|done|done|nia].
Qed.

Lemma mul_le_shift a b n p : 0 < p -> a * (n * p) <= b * p -> a * n <= b.
Proof. intros. nia. Qed.

Lemma sub_parts_spec w1 w2 (i1 i2 f : nat) f1 f2 :
  words_ok w1 -> words_ok w2 ->
  Z.of_nat (length w1) = Z.of_nat i1 + f1 -> Z.of_nat (length w2) = Z.of_nat i2 + f2 ->
  (i2 <= i1)%nat -> 0 <= Z.of_nat i2 + f1 -> f1 <= Z.of_nat f -> f2 <= Z.of_nat f ->
  let p1 := wpow (Z.to_nat (Z.of_nat f - f1)) in
  let p2 := wpow (Z.to_nat (Z.of_nat f - f2)) in
  le w2 * p2 <= le w1 * p1 ->
  let words := sub_parts w1 w2 (Z.of_nat f) f1 f2 in
  length words = (i1 + f)%nat /\ words_ok words /\ le words = le w1 * p1 - le w2 * p2.
Proof.
  intros H1 H2 L1 L2 Hi Hi2 Hf1 Hf2 p1 p2 Hle. unfold sub_parts. subst p1 p2.
  destruct (Z.ltb_spec f2 f1).
  - set (n := Z.to_nat (f1 - f2)). set (z := Z.to_nat (Z.of_nat f - f1)) in *.
    replace (Z.to_nat (Z.of_nat f - f2)) with (n + z)%nat in * by lia.
    rewrite wpow_add in *. pose proof (wpow_pos z). pose proof (wpow_pos n).
    apply mul_le_shift in Hle; [|done].
    pose proof (le_split n w1) as Ew. rewrite length_take_le in Ew by lia.
    pose proof (le_bound (take n w1) ltac:(eauto with mdb)) as Hb.
    rewrite length_take_le in Hb by lia.
    destruct (sub_words (drop n w1) w2 0) as [[m rest] c] eqn:E.
    apply sub_aligned in E as (El & Eok & Ev); [|eauto with mdb|done|lia|rewrite length_drop; lia|nia].
    cbn zeta. rewrite <- app_assoc, !length_app in *. rewrite !words_ok_app in *.
    rewrite length_drop in El. rewrite length_replicate, length_take_le by lia.
    split_and!; [lia|eauto with mdb|eauto with mdb|apply Eok|apply Eok|].
    rewrite le_app, (le_app (take n w1)), Ev, le_zeros, length_replicate, length_take_le, Ew by lia. ring.
  - set (n := Z.to_nat (f2 - f1)). set (z := Z.to_nat (Z.of_nat f - f2)) in *.
    replace (Z.to_nat (Z.of_nat f - f1)) with (n + z)%nat in * by lia.
    rewrite wpow_add in *. pose proof (wpow_pos z). pose proof (wpow_pos n).
    assert (le w2 <= le w1 * wpow n) by nia.
    pose proof (le_split n w2) as Ew. rewrite length_take_le in Ew by lia.
    destruct (neg_words (take n w2) 0) as [t c] eqn:En.
    apply neg_words_spec in En as (Nl & Nw & Nc & Ne); [|eauto with mdb|lia].
    rewrite length_take_le in Nl, Ne by lia.
    pose proof (le_bound t Nw) as Hb. rewrite Nl in Hb.
    destruct (sub_words w1 (drop n w2) c) as [[m rest] c'] eqn:E.
    apply sub_aligned in E as (El & Eok & Ev); [|done|eauto with mdb|lia|rewrite length_drop; lia|nia].
    cbn zeta. rewrite <- app_assoc, !length_app in *. rewrite !words_ok_app in *.
    rewrite length_replicate.
    split_and!; [lia|eauto with mdb|done|apply Eok|apply Eok|].
    rewrite le_app, (le_app t), Ev, le_zeros, length_replicate, Nl, Ew. nia.
Qed.

(** ** Comparison *)

Lemma compare_mul a b p : 0 < p -> (a * p ?= b * p) = (a ?= b).
Proof.
  intros. destruct (Z.compare_spec (a * p) (b * p)), (Z.compare_spec a b); nia || done.
Qed.

Lemma be_cons x l : le (rev (x :: l)) = x * wpow (length l) + le (rev l).
Proof. simpl. rewrite le_app, length_rev. simpl. ring. Qed.

Lemma be_bound l : words_ok l -> 0 <= le (rev l) < wpow (length l).
Proof. intros H. rewrite <- length_rev. apply le_bound. by apply words_ok_rev. Qed.

Lemma drop_zeros_spec l :
  exists n, l = replicate n 0 ++ drop_zeros l /\
  (drop_zeros l = [] \/ exists x l', drop_zeros l = x :: l' /\ x <> 0).
Proof.
  induction l as [|x l (n & IH & Hh)]; [exists 0%nat; eauto|].
  destruct (decide (x = 0)) as [-> | Hx]; [exists (S n); simpl; by rewrite <- IH|].
  exists 0%nat. assert (drop_zeros (x :: l) = x :: l) as -> by by destruct x. eauto 6.
Qed.

Lemma rev_zeros n : rev (replicate n 0) = replicate n 0.
Proof. induction n as [|n IH]; simpl; [done|]. by rewrite IH, <- replicate_cons_app. Qed.

(** Lists that do not end in a zero word *)
Definition trimmed (l : list Z) : Prop := forall l' x, l = l' ++ [x] -> x <> 0.

Lemma trimmed_tail x l : trimmed (x :: l) -> trimmed l.
Proof. intros H l' y ->. by apply (H (x :: l')). Qed.

Lemma trimmed_pos l : words_ok l -> trimmed l -> l <> [] -> 0 < le (rev l).
Proof.
  intros Hok Ht Hne. destruct l as [|x l _] using rev_ind; [done|].
  specialize (Ht l x eq_refl). rewrite rev_app_distr. simpl.
  apply words_ok_app in Hok as [Hl Hx%words_ok_cons].
  pose proof (be_bound l Hl). unfold word_ok in Hx. unfold DIG_BASE. lia.
Qed.

Lemma compare_words_spec l1 l2 :
  words_ok l1 -> words_ok l2 -> trimmed l1 -> trimmed l2 ->
  compare_words l1 l2 = (le (rev l1) * wpow (length l2) ?= le (rev l2) * wpow (length l1)).
Proof.
  revert l2. induction l1 as [|x l1 IH]; intros [|y l2] H1 H2 T1 T2; [done| | |].
  - simpl compare_words. pose proof (trimmed_pos _ H2 T2 ltac:(done)) as Hp. symmetry.
    apply Z.compare_lt_iff. change (wpow (length [])) with 1. change (le (rev [])) with 0. lia.
  - simpl compare_words. pose proof (trimmed_pos _ H1 T1 ltac:(done)) as Hp. symmetry.
    apply Z.compare_gt_iff. change (wpow (length [])) with 1. change (le (rev [])) with 0. lia.
  - apply trimmed_tail in T1, T2. apply words_ok_cons in H1 as [Hx H1], H2 as [Hy H2].
    pose proof (be_bound _ H1). pose proof (be_bound _ H2). rewrite !be_cons.
    cbn [compare_words length]. rewrite !wpow_S.
    pose proof (wpow_pos (length l1)). pose proof (wpow_pos (length l2)).
    set (p1 := wpow (length l1)) in *. set (p2 := wpow (length l2)) in *.
    set (b1 := le (rev l1)) in *. set (b2 := le (rev l2)) in *.
    assert (0 < DIG_BASE) by done.
    destruct (Z.eqb_spec x y) as [->|].
    + rewrite IH by done.
      replace ((y * p1 + b1) * (DIG_BASE * p2)) with (DIG_BASE * (y * p1 * p2) + b1 * p2 * DIG_BASE) by ring.
      replace ((y * p2 + b2) * (DIG_BASE * p1)) with (DIG_BASE * (y * p1 * p2) + b2 * p1 * DIG_BASE) by ring.
      by rewrite compare_shift, compare_mul by lia.
    + destruct (Z.ltb_spec x y); symmetry; [apply Z.compare_lt_iff | apply Z.compare_gt_iff].
      * enough ((x * p1 + b1) * p2 < (y * p2 + b2) * p1) by nia.
        assert ((x + 1) * (p1 * p2) <= y * (p1 * p2)) by nia. nia.
      * enough ((y * p2 + b2) * p1 < (x * p1 + b1) * p2) by nia.
        assert ((y + 1) * (p1 * p2) <= x * (p1 * p2)) by nia. nia.
Qed.

Lemma ROUND_UP_eq x : 0 <= x -> ROUND_UP x = (x + 8) / 9.
Proof.
  intros Hx. unfold ROUND_UP, DIG_PER_DEC1. destruct (Z.ltb_spec 0 x).
  - rewrite Z.quot_div_nonneg by lia. by replace (x + (9 - 1)) with (x + 8) by lia.
  - by replace x with 0 by lia.
Qed.

Lemma ROUND_UP_bounds x : 0 <= x -> x <= 9 * ROUND_UP x < x + 9.
Proof.
  intros Hx. rewrite ROUND_UP_eq by done. pose proof (Z.div_mod (x + 8) 9).
  pose proof (Z.mod_pos_bound (x + 8) 9). lia.
Qed.

Lemma ROUND_UP_unique x n : 0 <= x -> x <= 9 * n < x + 9 -> ROUND_UP x = n.
Proof. intros Hx Hn. pose proof (ROUND_UP_bounds x Hx). lia. Qed.

Lemma ROUND_UP_mul n : 0 <= n -> ROUND_UP (n * DIG_PER_DEC1) = n.
Proof. intros. apply ROUND_UP_unique; unfold DIG_PER_DEC1; lia. Qed.

Lemma ROUND_UP_max x y :
  0 <= x -> 0 <= y -> ROUND_UP (Z.max x y) = Z.max (ROUND_UP x) (ROUND_UP y).
Proof.
  intros. pose proof (ROUND_UP_bounds x). pose proof (ROUND_UP_bounds y).
  apply ROUND_UP_unique; lia.
Qed.

Lemma ROUND_UP_min x n :
  0 <= x -> 0 <= n -> ROUND_UP (Z.min x (n * DIG_PER_DEC1)) = Z.min (ROUND_UP x) n.
Proof.
  intros. pose proof (ROUND_UP_bounds x). unfold DIG_PER_DEC1 in *.
  apply ROUND_UP_unique; lia.
Qed.

Section Operands.
Context (d : decimal_t) (Hd : decimal_ok d).

Lemma intg_words_Z : ROUND_UP (intg d) = Z.of_nat (intg_words d).
Proof.
  unfold intg_words. pose proof (dok_intg _ Hd). pose proof (ROUND_UP_bounds (intg d)). lia.
Qed.

Lemma frac_words_Z : ROUND_UP (frac d) = Z.of_nat (frac_words d).
Proof.
  unfold frac_words. pose proof (dok_frac _ Hd). pose proof (ROUND_UP_bounds (frac d)). lia.
Qed.
End Operands.

(** What an [operand] has to do with its number *)
Record operand_rep (o : operand) (d : decimal_t) : Prop := {
  rep_words : words_ok (op_words o);
  rep_length : Z.of_nat (length (op_words o)) = op_intg o + op_frac o;
  rep_intg : 0 <= op_intg o <= Z.of_nat (intg_words d);
  rep_frac : op_frac o <= Z.of_nat (frac_words d);
  rep_value : magnitude d
    = le (rev (op_words o)) * wpow (Z.to_nat (Z.of_nat (frac_words d) - op_frac o));
  rep_lead : 0 < op_intg o -> exists x l, op_words o = x :: l /\ 0 < x;
}.

Lemma operand_of_rep d :
  decimal_ok d -> operand_rep (operand_of d) d /\ op_frac (operand_of d) = Z.of_nat (frac_words d).
Proof.
  intros Hd. unfold operand_of, significant. fold (intg_words d) (frac_words d).
  pose proof (dok_length _ Hd) as Hlen. pose proof (dok_words _ Hd) as Hok.
  rewrite (take_ge (drop _ _)) by (rewrite length_drop; lia).
  destruct (drop_zeros_spec (take (intg_words d) (buf d))) as (n & E & Hhead).
  set (i := drop_zeros (take (intg_words d) (buf d))) in *.
  set (f := drop (intg_words d) (buf d)).
  assert (Hf : length f = frac_words d) by (unfold f; rewrite length_drop; lia).
  assert (Hb : buf d = replicate n 0 ++ i ++ f) by (unfold f; by rewrite app_assoc, <- E, take_drop).
  assert (Hi : (n + length i = intg_words d)%nat).
  { apply (f_equal length) in E. rewrite length_app, length_replicate, length_take in E. lia. }
  rewrite Hb in Hok. apply words_ok_app in Hok as [_ Hok].
  split; [|simpl; lia]. constructor; simpl; rewrite ?length_app; [done|lia|lia|lia| |].
  - unfold magnitude. rewrite Hb, rev_app_distr, rev_zeros, le_app, le_zeros, Hf.
    rewrite Z.sub_diag. change (wpow (Z.to_nat 0)) with 1. lia.
  - intros Hpos. destruct Hhead as [-> | (x & l & Hi' & Hx)]; [simpl in Hpos; lia|].
    rewrite Hi' in Hok |- *. exists x, (l ++ f). split; [done|].
    apply words_ok_cons in Hok as [Hx' _]. unfold word_ok in Hx'. lia.
Qed.

Lemma trim_operand_rep o d :
  operand_rep o d -> operand_rep (trim_operand o) d /\ trimmed (op_words (trim_operand o)).
Proof.
  intros Ho. unfold trim_operand.
  destruct (drop_zeros_spec (rev (op_words o))) as (n & E & Hhead).
  set (t := rev (drop_zeros (rev (op_words o)))).
  assert (Hw : op_words o = t ++ replicate n 0).
  { unfold t. rewrite <- (rev_involutive (op_words o)) at 1. by rewrite E at 1; rewrite rev_app_distr, rev_zeros. }
  pose proof (rep_words _ _ Ho) as Hok. rewrite Hw in Hok. apply words_ok_app in Hok as [Hok _].
  pose proof (rep_length _ _ Ho) as Hlen. rewrite Hw, length_app, length_replicate in Hlen.
  pose proof (rep_intg _ _ Ho). pose proof (rep_frac _ _ Ho). pose proof (rep_value _ _ Ho) as Hv.
  split.
  - constructor; simpl; [done|lia..| |].
    + rewrite Hv, Hw, rev_app_distr, rev_zeros, le_app, le_zeros, length_replicate.
      replace (Z.to_nat (Z.of_nat (frac_words d) - (Z.of_nat (length t) - op_intg o)))
        with (n + Z.to_nat (Z.of_nat (frac_words d) - op_frac o))%nat by lia.
      rewrite wpow_add. ring.
    + intros Hpos. destruct (rep_lead _ _ Ho Hpos) as (x & l & Hl & Hx). fold t.
      clearbody t. destruct t as [|y t'].
      * destruct n; simpl in Hw; rewrite Hw in Hl; simplify_eq. lia.
      * rewrite Hw in Hl. simpl in Hl. exists x, t'. split; [congruence|done].
  - simpl. intros l' x Hx. fold t in Hx. unfold t in Hx.
    apply (f_equal (@rev Z)) in Hx. rewrite rev_involutive, rev_app_distr in Hx. simpl in Hx.
    destruct Hhead as [Hn | (y & l & Hl & Hy)]; congruence.
Qed.

(** Bounds on a number from the integer words of its operand *)
Lemma operand_below o d :
  operand_rep o d -> magnitude d < wpow (Z.to_nat (op_intg o) + frac_words d).
Proof.
  intros Ho. pose proof (rep_length _ _ Ho). pose proof (rep_intg _ _ Ho).
  pose proof (rep_frac _ _ Ho). rewrite (rep_value _ _ Ho).
  pose proof (be_bound _ (rep_words _ _ Ho)).
  replace (Z.to_nat (op_intg o) + frac_words d)%nat
    with (length (op_words o) + Z.to_nat (Z.of_nat (frac_words d) - op_frac o))%nat by lia.
  rewrite wpow_add. pose proof (wpow_pos (Z.to_nat (Z.of_nat (frac_words d) - op_frac o))). nia.
Qed.

Lemma operand_above o d n :
  operand_rep o d -> (n < Z.to_nat (op_intg o))%nat -> wpow (n + frac_words d) <= magnitude d.
Proof.
  intros Ho Hn. pose proof (rep_length _ _ Ho) as Hlen. pose proof (rep_frac _ _ Ho).
  destruct (rep_lead _ _ Ho) as (x & l & Hl & Hx); [lia|].
  pose proof (rep_words _ _ Ho) as Hok. rewrite (rep_value _ _ Ho). rewrite Hl in *.
  apply words_ok_cons in Hok as [_ Hok]. pose proof (be_bound _ Hok). rewrite be_cons.
  transitivity (wpow (length l) * wpow (Z.to_nat (Z.of_nat (frac_words d) - op_frac o))).
  - rewrite <- wpow_add. apply wpow_le. simpl in Hlen. lia.
  - apply Z.mul_le_mono_nonneg_r; [apply Z.lt_le_incl, wpow_pos|].
    pose proof (wpow_pos (length l)). nia.
Qed.

(** Both magnitudes in the same unit *)
Definition compare_magnitudes (d1 d2 : decimal_t) : comparison :=
  magnitude d1 * wpow (frac_words d2) ?= magnitude d2 * wpow (frac_words d1).

Lemma operand_intg_lt o1 o2 d1 d2 :
  operand_rep o1 d1 -> operand_rep o2 d2 -> op_intg o1 < op_intg o2 ->
  magnitude d1 * wpow (frac_words d2) < magnitude d2 * wpow (frac_words d1).
Proof.
  intros H1 H2 Hlt. pose proof (rep_intg _ _ H1).
  pose proof (operand_below _ _ H1) as Hb.
  pose proof (operand_above _ _ (Z.to_nat (op_intg o1)) H2 ltac:(lia)) as Ha.
  rewrite wpow_add in *. pose proof (wpow_pos (frac_words d1)). pose proof (wpow_pos (frac_words d2)).
  nia.
Qed.

Lemma operand_compare o1 o2 d1 d2 :
  operand_rep o1 d1 -> operand_rep o2 d2 -> op_intg o1 = op_intg o2 ->
  trimmed (op_words o1) -> trimmed (op_words o2) ->
  compare_words (op_words o1) (op_words o2) = compare_magnitudes d1 d2.
Proof.
  intros H1 H2 Hi T1 T2.
  rewrite compare_words_spec by (apply rep_words with (1 := H1) || apply rep_words with (1 := H2) || done).
  pose proof (rep_length _ _ H1). pose proof (rep_length _ _ H2). pose proof (rep_intg _ _ H1).
  pose proof (rep_frac _ _ H1). pose proof (rep_frac _ _ H2).
  unfold compare_magnitudes. rewrite (rep_value _ _ H1), (rep_value _ _ H2).
  set (k1 := Z.to_nat (Z.of_nat (frac_words d1) - op_frac o1)).
  set (k2 := Z.to_nat (Z.of_nat (frac_words d2) - op_frac o2)).
  rewrite <- (compare_mul _ _ (wpow (k1 + k2))) by apply wpow_pos.
  rewrite <- (compare_mul (_ * wpow k1 * _) _ (wpow (Z.to_nat (op_intg o1)))) by apply wpow_pos.
  f_equal; rewrite <- !Z.mul_assoc, <- !wpow_add; do 2 f_equal; lia.
Qed.

Lemma compare_operands_spec d1 d2 c o1 o2 :
  decimal_ok d1 -> decimal_ok d2 ->
  compare_operands (operand_of d1) (operand_of d2) = (c, o1, o2) ->
  operand_rep o1 d1 /\ operand_rep o2 d2 /\ c = compare_magnitudes d1 d2 /\
  (0 <= op_intg o2 + op_frac o1) /\ (0 <= op_intg o1 + op_frac o2) /\
  (c = Lt -> op_intg o1 <= op_intg o2) /\ (c = Gt -> op_intg o2 <= op_intg o1).
Proof.
  intros Hd1 Hd2. destruct (operand_of_rep _ Hd1) as [H1 F1], (operand_of_rep _ Hd2) as [H2 F2].
  unfold compare_operands.
  pose proof (rep_intg _ _ H1). pose proof (rep_intg _ _ H2).
  destruct (Z.ltb_spec (op_intg (operand_of d1)) (op_intg (operand_of d2))) as [Hlt|].
  { intros [= <- <- <-]. split_and!; try done; try lia.
    symmetry. apply Z.compare_lt_iff. eauto using operand_intg_lt. }
  destruct (Z.ltb_spec (op_intg (operand_of d2)) (op_intg (operand_of d1))) as [Hgt|].
  { intros [= <- <- <-]. split_and!; try done; try lia.
    symmetry. apply Z.compare_gt_iff. eauto using operand_intg_lt. }
  destruct (trim_operand_rep _ _ H1) as [R1 T1], (trim_operand_rep _ _ H2) as [R2 T2].
  assert (Hi : op_intg (trim_operand (operand_of d1)) = op_intg (trim_operand (operand_of d2)))
    by (change (op_intg (operand_of d1) = op_intg (operand_of d2)); lia).
  cbn zeta. generalize dependent (trim_operand (operand_of d1)).
  generalize dependent (trim_operand (operand_of d2)).
  intros t2 R2 T2 t1 R1 T1 Hi [= <- <- <-].
  pose proof (rep_length _ _ R1). pose proof (rep_length _ _ R2).
  split_and!; [done|done|by apply operand_compare|lia..].
Qed.
