(* ===== verification/DecimalArith.v ===== *)
(** * Decimal addition, subtraction and comparison

    The theorems about [decimal_add], [decimal_sub] and [decimal_cmp] of
    strings/decimal.c: exact results where the result fits its buffer, the sum of the
    truncated operands where fraction words are cut off, the comparison of the values. *)

From Stdlib Require Import QArith Qabs.
From S2P Require Import Prelude Decimal DecimalValue.

Local Open Scope Z_scope.

(** The absolute value in units of fraction word [n] *)
Definition aunits (n : nat) (d : decimal_t) : Z :=
  magnitude d * wpow n / wpow (frac_words d).

Lemma magnitude_nonneg d : decimal_ok d -> 0 <= magnitude d.
Proof. intros H. apply (be_bound _ (dok_words _ H)). Qed.

Lemma units_aunits n d :
  decimal_ok d -> units n d = if sign d then - aunits n d else aunits n d.
Proof.
  intros H. pose proof (magnitude_nonneg _ H). pose proof (wpow_pos n).
  pose proof (wpow_pos (frac_words d)). unfold units, signed, aunits.
  destruct (sign d).
  - rewrite Z.mul_opp_l, Z.quot_opp_l by lia. by rewrite Z.quot_div_nonneg by nia.
  - by rewrite Z.quot_div_nonneg by nia.
Qed.

(** Cutting words off: [m] in units of [k] words after the point, [f] of them kept *)
Lemma units_kept m k f n :
  f = Nat.min k n -> 0 <= m -> m / wpow (k - f) * wpow (n - f) = m * wpow n / wpow k.
Proof.
  intros -> Hm. destruct (decide (k <= n)%nat).
  - replace (k - k `min` n)%nat with 0%nat by lia. replace (n - k `min` n)%nat with (n - k)%nat by lia.
    rewrite wpow_0, Z.div_1_r. replace n with (n - k + k)%nat at 2 by lia.
    rewrite wpow_add, Z.mul_assoc, Z.div_mul; [done|]. pose proof (wpow_pos k). lia.
  - replace (k - k `min` n)%nat with (k - n)%nat by lia. replace (n - k `min` n)%nat with 0%nat by lia.
    rewrite wpow_0, Z.mul_1_r. replace k with (k - n + n)%nat at 2 by lia.
    pose proof (wpow_pos n). pose proof (wpow_pos (k - n)).
    by rewrite wpow_add, Z.div_mul_cancel_r by lia.
Qed.

Lemma words_from_units d f n :
  decimal_ok d -> f = Nat.min (frac_words d) n ->
  let w := words_from d (Z.of_nat (intg_words d)) (Z.of_nat f) in
  words_ok w /\ length w = (intg_words d + f)%nat /\ le w * wpow (n - f) = aunits n d.
Proof.
  intros Hd Hf. pose proof (dok_length _ Hd) as Hl. pose proof (dok_words _ Hd).
  unfold words_from. cbn zeta.
  replace (Z.to_nat (Z.of_nat (intg_words d) + Z.of_nat f)) with (intg_words d + f)%nat by lia.
  split_and!; [eauto with mdb|rewrite length_rev, length_take_le; lia|].
  rewrite rev_take_drop, le_drop by first [by apply words_ok_rev | rewrite length_rev; lia].
  replace (length (buf d) - (intg_words d + f))%nat with (frac_words d - f)%nat by lia.
  by apply units_kept, magnitude_nonneg.
Qed.

Lemma operand_from_units o d f n :
  decimal_ok d -> operand_rep o d -> f = Z.min (op_frac o) (Z.of_nat n) ->
  0 <= op_intg o + f ->
  let w := operand_from o (op_intg o) f in
  words_ok w /\ Z.of_nat (length w) = op_intg o + f /\
  le w * wpow (Z.to_nat (Z.of_nat n - f)) = aunits n d.
Proof.
  intros Hd Ho Hf Hpos. pose proof (rep_length _ _ Ho) as Hl. pose proof (rep_words _ _ Ho) as Hok.
  pose proof (rep_frac _ _ Ho). pose proof (be_bound _ Hok) as Hb.
  unfold operand_from, aunits. cbn zeta. rewrite (rep_value _ _ Ho).
  split_and!; [eauto with mdb|rewrite length_rev, length_take_le; lia|].
  rewrite rev_take_drop, le_drop by first [by apply words_ok_rev | rewrite length_rev; lia].
  replace (length (op_words o) - _)%nat with (Z.to_nat (op_frac o - f)) by lia.
  set (m := le (rev (op_words o))) in *.
  set (k := Z.to_nat (Z.of_nat (frac_words d) - op_frac o)).
  assert (Hk : Z.of_nat k = Z.of_nat (frac_words d) - op_frac o) by lia. clearbody k.
  pose proof (wpow_pos k). pose proof (wpow_pos (frac_words d)).
  (* in units of the word before the first one that may be left of the point *)
  rewrite <- Z.mul_assoc, <- wpow_add.
  destruct (decide (op_frac o <= Z.of_nat n)).
  - replace (Z.to_nat (op_frac o - f)) with 0%nat by lia. rewrite wpow_0, Z.div_1_r.
    replace (k + n)%nat with (Z.to_nat (Z.of_nat n - f) + frac_words d)%nat by lia.
    rewrite wpow_add, Z.mul_assoc, Z.div_mul; [done|lia].
  - replace (Z.to_nat (Z.of_nat n - f)) with 0%nat by lia. rewrite wpow_0, Z.mul_1_r.
    replace (frac_words d) with (Z.to_nat (op_frac o - f) + (k + n))%nat by lia.
    rewrite (wpow_add _ (k + n)). pose proof (wpow_pos (k + n)). pose proof (wpow_pos (Z.to_nat (op_frac o - f))).
    by rewrite Z.div_mul_cancel_r by lia.
Qed.

(** A number is below its first word plus one. *)
Lemma magnitude_first d :
  decimal_ok d -> magnitude d * DIG_BASE < (nth 0 (buf d) 0 + 1) * wpow (intg_words d + frac_words d).
Proof.
  intros Hd. pose proof (dok_words _ Hd) as Hok. pose proof (dok_length _ Hd) as Hl.
  unfold magnitude. rewrite <- Hl. destruct (buf d) as [|x l]; [done|].
  apply words_ok_cons in Hok as [Hx Hok]. pose proof (be_bound _ Hok).
  rewrite be_cons. cbn [length nth]. rewrite wpow_S. pose proof (wpow_pos (length l)).
  assert (0 < DIG_BASE) by done. nia.
Qed.

Lemma aunits_below n d :
  decimal_ok d -> aunits n d < wpow (intg_words d + n).
Proof.
  intros Hd. pose proof (be_bound _ (dok_words _ Hd)) as Hb. rewrite (dok_length _ Hd) in Hb.
  unfold aunits. apply Z.div_lt_upper_bound; [apply wpow_pos|].
  unfold magnitude. rewrite !wpow_add in *. pose proof (wpow_pos n). nia.
Qed.

Lemma aunits_first n d k :
  decimal_ok d -> (intg_words d + n = S k)%nat ->
  aunits n d < (nth 0 (buf d) 0 + 1) * wpow k.
Proof.
  intros Hd Hk. pose proof (magnitude_first _ Hd) as Hf. pose proof (wpow_pos n).
  unfold aunits. apply Z.div_lt_upper_bound; [apply wpow_pos|].
  assert (Hw : wpow (intg_words d) * wpow n = DIG_BASE * wpow k)
    by (rewrite <- wpow_add, Hk; apply wpow_S).
  rewrite wpow_add in Hf. assert (0 < DIG_BASE) by done. pose proof (wpow_pos (frac_words d)).
  apply Z.mul_lt_mono_pos_r with DIG_BASE; [done|].
  replace (magnitude d * wpow n * DIG_BASE) with (magnitude d * DIG_BASE * wpow n) by ring.
  replace (wpow (frac_words d) * _ * DIG_BASE)
    with ((nth 0 (buf d) 0 + 1) * wpow (frac_words d) * (DIG_BASE * wpow k)) by ring.
  rewrite <- Hw. nia.
Qed.

(** The bounded sizes: everything fits, or fraction words are cut off, or the
    integer words do not fit. *)
Lemma FIX_INTG_FRAC_ERROR_spec L i f i0 f0 e :
  FIX_INTG_FRAC_ERROR L i f = (i0, f0, e) ->
  (e = E_DEC_OK /\ i0 = i /\ f0 = f /\ i + f <= L) \/
  (e = E_DEC_TRUNCATED /\ i0 = i /\ f0 = L - i /\ i <= L < i + f) \/
  (e = E_DEC_OVERFLOW /\ L < i /\ L < i + f).
Proof.
  unfold FIX_INTG_FRAC_ERROR. intros E.
  destruct (Z.ltb_spec L (i + f)); [destruct (Z.ltb_spec L i)|]; simplify_eq; lia.
Qed.

(** What [do_add] and [do_sub] have in common: the sizes of their result *)
Record sum_shape (e L : Z) (i : nat) (a b r : decimal_t) : Prop := {
  ss_intg : intg r = Z.of_nat i * DIG_PER_DEC1;
  ss_frac : 0 <= frac r;
  ss_error : (e = E_DEC_OK /\ frac r = Z.max (frac a) (frac b) /\
                Z.of_nat (i + frac_words r) <= L) \/
             (e = E_DEC_TRUNCATED /\ frac r = Z.of_nat (frac_words r) * DIG_PER_DEC1 /\
                Z.of_nat (i + frac_words r) = L /\
                (frac_words r < Nat.max (frac_words a) (frac_words b))%nat);
  ss_length : length (buf r) = (i + frac_words r)%nat;
  ss_words : words_ok (buf r);
}.

(** The number of fraction words of the result, from the adjusted sizes *)
Lemma result_frac a b e L i f0 i0 to_frac :
  decimal_ok a -> decimal_ok b ->
  FIX_INTG_FRAC_ERROR L i (Z.max (ROUND_UP (frac a)) (ROUND_UP (frac b))) = (i0, f0, e) ->
  e <> E_DEC_OVERFLOW ->
  to_frac = (if e =? E_DEC_OK then Z.max (frac a) (frac b)
             else Z.min (Z.max (frac a) (frac b)) (f0 * DIG_PER_DEC1)) ->
  i0 = i /\ 0 <= f0 /\ 0 <= to_frac /\ ROUND_UP to_frac = f0 /\
  ((e = E_DEC_OK /\ to_frac = Z.max (frac a) (frac b) /\ i + f0 <= L /\
      f0 = Z.of_nat (Nat.max (frac_words a) (frac_words b))) \/
   (e = E_DEC_TRUNCATED /\ to_frac = f0 * DIG_PER_DEC1 /\ i + f0 = L /\
      f0 < Z.of_nat (Nat.max (frac_words a) (frac_words b)))).
Proof.
  intros Ha Hb E He Ht. pose proof (dok_frac _ Ha). pose proof (dok_frac _ Hb).
  rewrite <- ROUND_UP_max in E by done. pose proof (ROUND_UP_bounds (Z.max (frac a) (frac b))).
  assert (ROUND_UP (Z.max (frac a) (frac b)) = Z.of_nat (Nat.max (frac_words a) (frac_words b)))
    by (rewrite ROUND_UP_max, !frac_words_Z by done; lia).
  apply FIX_INTG_FRAC_ERROR_spec in E as [(-> & -> & -> & ?) | [(-> & -> & -> & ?) | (-> & ? & ?)]];
    [..|done]; simpl in Ht; subst to_frac.
  - split_and!; [done|lia..|left]. split_and!; [done|done|lia|lia].
  - rewrite ROUND_UP_min by lia. unfold DIG_PER_DEC1. split_and!; [done|lia..|right].
    split_and!; [done|lia..].
Qed.

Lemma aunits_carry n a b :
  decimal_ok a -> decimal_ok b -> extra_word a b = false ->
  aunits n a + aunits n b < wpow (Nat.max (intg_words a) (intg_words b) + n).
Proof.
  intros Ha Hb. unfold extra_word. rewrite !intg_words_Z by done. rewrite Z.ltb_ge.
  pose proof (aunits_below n _ Ha). pose proof (aunits_below n _ Hb).
  destruct (Nat.max (intg_words a) (intg_words b) + n)%nat as [|k] eqn:Ek.
  { intros _. assert (aunits n a < wpow 0 /\ aunits n b < wpow 0) as [??].
    { by replace (intg_words a + n)%nat with 0%nat in * by lia;
         replace (intg_words b + n)%nat with 0%nat in * by lia. }
    rewrite wpow_0 in *. lia. }
  rewrite wpow_S. pose proof (wpow_pos k). unfold DIG_MAX.
  destruct (Z.ltb_spec (Z.of_nat (intg_words b)) (Z.of_nat (intg_words a))).
  - intros Hx. pose proof (aunits_first n a k Ha ltac:(lia)).
    pose proof (wpow_le (intg_words b + n) k ltac:(lia)). nia.
  - destruct (Z.ltb_spec (Z.of_nat (intg_words a)) (Z.of_nat (intg_words b))).
    + intros Hx. pose proof (aunits_first n b k Hb ltac:(lia)).
      pose proof (wpow_le (intg_words a + n) k ltac:(lia)). nia.
    + intros Hx. pose proof (aunits_first n a k Ha ltac:(lia)).
      pose proof (aunits_first n b k Hb ltac:(lia)). nia.
Qed.

Lemma aunits_nonneg n d : decimal_ok d -> 0 <= aunits n d.
Proof.
  intros H. pose proof (magnitude_nonneg _ H). pose proof (wpow_pos n).
  apply Z.div_pos; [nia|apply wpow_pos].
Qed.

Lemma magnitude_rev i f l s w : magnitude (mk_decimal i f l s (rev w)) = le w.
Proof. unfold magnitude. simpl. by rewrite rev_involutive. Qed.

Lemma frac_words_eq i f l s w n : ROUND_UP f = Z.of_nat n -> frac_words (mk_decimal i f l s w) = n.
Proof. unfold frac_words. simpl. lia. Qed.

Lemma do_add_spec a b L e r :
  decimal_ok a -> decimal_ok b -> do_add a b L = (e, r) ->
  let i := (Nat.max (intg_words a) (intg_words b) + if extra_word a b then 1 else 0)%nat in
  (e = E_DEC_OVERFLOW /\ L < Z.of_nat i /\ r = max_decimal (L * DIG_PER_DEC1) 0 L) \/
  (sum_shape e L i a b r /\ sign r = sign a /\
   magnitude r = aunits (frac_words r) a + aunits (frac_words r) b).
Proof.
  intros Ha Hb E i. revert E. unfold do_add.
  destruct (FIX_INTG_FRAC_ERROR _ _ _) as [[i0 f0] e0] eqn:EF. intros E.
  assert (Hi : Z.max (ROUND_UP (intg a)) (ROUND_UP (intg b)) + (if extra_word a b then 1 else 0) = Z.of_nat i)
    by (rewrite !intg_words_Z by done; destruct extra_word; lia).
  rewrite Hi in EF. destruct (Z.eqb_spec e0 E_DEC_OVERFLOW) as [->|He].
  { simplify_eq. left. apply FIX_INTG_FRAC_ERROR_spec in EF as [[? _] | [[? _] | (_ & ? & _)]]; done. }
  right. destruct (if e0 =? E_DEC_OK then _ else _) as [[to_frac f1] f2] eqn:Eif.
  assert (Ht : to_frac = (if e0 =? E_DEC_OK then Z.max (frac a) (frac b)
             else Z.min (Z.max (frac a) (frac b)) (f0 * DIG_PER_DEC1)))
    by (destruct (e0 =? E_DEC_OK); congruence).
  destruct (result_frac _ _ _ _ _ _ _ _ Ha Hb EF He Ht) as (-> & Hf0 & Htf & Hru & Hcase).
  set (F := Z.to_nat f0).
  assert (Hf1 : f1 = Z.of_nat (Nat.min (frac_words a) F) /\ f2 = Z.of_nat (Nat.min (frac_words b) F)).
  { rewrite !frac_words_Z in Eif by done.
    destruct Hcase as [(-> & _ & _ & ?) | (-> & _ & _ & ?)]; simpl in Eif; simplify_eq; lia. }
  destruct Hf1 as [-> ->]. rewrite !intg_words_Z in E by done.
  destruct (words_from_units a _ F Ha eq_refl) as (Wa & La & Va).
  destruct (words_from_units b _ F Hb eq_refl) as (Wb & Lb & Vb).
  destruct (add_parts _ _ _ _ _ _) as [words c] eqn:EA.
  apply add_parts_spec in EA as (Al & Aw & Ac & Av); [|done..].
  assert (HF : (frac_words a `min` F `max` (frac_words b `min` F))%nat = F)
    by (destruct Hcase as [(_ & _ & _ & ?) | (_ & _ & _ & ?)]; lia).
  rewrite HF, Va, Vb in *. injection E as <- <-.
  rewrite magnitude_rev, (frac_words_eq _ _ _ _ _ F) by lia.
  assert (Hres : le (words ++ (if extra_word a b then [c] else [])) = aunits F a + aunits F b /\
                 length (words ++ (if extra_word a b then [c] else [])) = (i + F)%nat /\
                 words_ok (words ++ (if extra_word a b then [c] else []))).
  { rewrite le_app, length_app, words_ok_app. unfold i. destruct (extra_word a b) eqn:Ex.
    - simpl. rewrite Al, words_ok_cons. split_and!; [lia|lia|done| |constructor].
      unfold word_ok, DIG_BASE. lia.
    - pose proof (aunits_carry F _ _ Ha Hb Ex). pose proof (le_bound _ Aw) as Hb'. rewrite Al in Hb' |- *.
      simpl. split_and!; [|lia|done|constructor]. assert (c = 0) by nia. subst c. lia. }
  destruct Hres as (-> & Hlen & Hok).
  split; [|done]. constructor; rewrite ?(frac_words_eq _ _ _ _ _ F) by lia; simpl; [done|done| | |].
  - destruct Hcase as [(-> & ? & ? & ?) | (-> & ? & ? & ?)]; [left|right]; split_and!; (done || unfold DIG_PER_DEC1 in *; lia).
  - by rewrite length_rev.
  - by apply words_ok_rev.
Qed.

Lemma aunits_mono n a b :
  magnitude a * wpow (frac_words b) <= magnitude b * wpow (frac_words a) ->
  aunits n a <= aunits n b.
Proof.
  intros H. unfold aunits. pose proof (wpow_pos n).
  pose proof (wpow_pos (frac_words a)). pose proof (wpow_pos (frac_words b)).
  rewrite <- (Z.div_mul_cancel_r (magnitude a * wpow n) _ (wpow (frac_words b))) by lia.
  rewrite <- (Z.div_mul_cancel_r (magnitude b * wpow n) _ (wpow (frac_words a))) by lia.
  rewrite (Z.mul_comm (wpow (frac_words b)) (wpow (frac_words a))).
  apply Z.div_le_mono; nia.
Qed.

(** The words of the difference, for the operands of the greater number [a] and of
    the smaller one [b] *)
Lemma sub_words_units a b oa ob F fa fb :
  decimal_ok a -> decimal_ok b -> operand_rep oa a -> operand_rep ob b ->
  op_intg ob <= op_intg oa -> 0 <= op_intg ob + op_frac oa ->
  fa = Z.min (op_frac oa) (Z.of_nat F) -> fb = Z.min (op_frac ob) (Z.of_nat F) ->
  aunits F b <= aunits F a ->
  let words := sub_parts (operand_from oa (op_intg oa) fa) (operand_from ob (op_intg ob) fb)
                 (Z.of_nat F) fa fb in
  length words = (Z.to_nat (op_intg oa) + F)%nat /\ words_ok words /\
  le words = aunits F a - aunits F b.
Proof.
  intros Ha Hb Ra Rb Hi Hpos Efa Efb Hle.
  pose proof (rep_length _ _ Ra). pose proof (rep_length _ _ Rb).
  pose proof (rep_intg _ _ Ra). pose proof (rep_intg _ _ Rb).
  destruct (operand_from_units oa a fa F Ha Ra Efa) as (Wa & La & Va); [lia|].
  destruct (operand_from_units ob b fb F Hb Rb Efb) as (Wb & Lb & Vb); [lia|].
  rewrite <- Va, <- Vb in *.
  apply (sub_parts_spec _ _ _ (Z.to_nat (op_intg ob))); (done || lia).
Qed.

(** [do_sub] once it knows the greater number: [oa] and [ob] are the operands of the
    greater and the smaller number *)
Definition do_sub_ordered (from1 from2 : decimal_t) (oa ob : operand) (s : bool) (to_len : Z)
    : Z * decimal_t :=
  let frac0 := Z.max (ROUND_UP (frac from1)) (ROUND_UP (frac from2)) in
  let '(intg1, frac0, error) := FIX_INTG_FRAC_ERROR to_len (op_intg oa) frac0 in
  let to_frac := Z.max (frac from1) (frac from2) in
  let '(to_frac, frac1, frac2, intg2) :=
    if error =? E_DEC_OK then (to_frac, op_frac oa, op_frac ob, op_intg ob)
    else (Z.min to_frac (frac0 * DIG_PER_DEC1), Z.min (op_frac oa) frac0,
          Z.min (op_frac ob) frac0, Z.min (op_intg ob) intg1) in
  let words :=
    sub_parts (operand_from oa intg1 frac1) (operand_from ob intg2 frac2) frac0 frac1 frac2 in
  let pad := replicate (Z.to_nat (intg1 + frac0) - length words) 0 in
  (error, mk_decimal (intg1 * DIG_PER_DEC1) to_frac to_len s (rev (words ++ pad))).

Lemma do_sub_order from1 from2 to_len :
  do_sub from1 from2 to_len =
  let '(c, o1, o2) := compare_operands (operand_of from1) (operand_of from2) in
  match c with
  | Eq => (E_DEC_OK, decimal_make_zero to_len)
  | Lt => do_sub_ordered from1 from2 o2 o1 (negb (sign from1)) to_len
  | Gt => do_sub_ordered from1 from2 o1 o2 (sign from1) to_len
  end.
Proof.
  unfold do_sub. destruct (compare_operands _ _) as [[c o1] o2]. by destruct c.
Qed.

(** [a] and [b] are the greater and the smaller one of [from1] and [from2]. *)
Lemma do_sub_ordered_spec from1 from2 a b oa ob s L e r :
  (a = from1 /\ b = from2 \/ a = from2 /\ b = from1) ->
  decimal_ok a -> decimal_ok b -> operand_rep oa a -> operand_rep ob b ->
  op_intg ob <= op_intg oa -> 0 <= op_intg ob + op_frac oa ->
  (forall n, aunits n b <= aunits n a) ->
  op_intg oa <= L ->
  do_sub_ordered from1 from2 oa ob s L = (e, r) ->
  let i := Z.to_nat (op_intg oa) in
  sum_shape e L i from1 from2 r /\ sign r = s /\
  magnitude r = aunits (frac_words r) a - aunits (frac_words r) b.
Proof.
  intros Hab Ha Hb Ra Rb Hi Hpos Hle HL E i. revert E. unfold do_sub_ordered.
  destruct (FIX_INTG_FRAC_ERROR _ _ _) as [[i0 f0] e0] eqn:EF. intros E.
  pose proof (rep_intg _ _ Ra). pose proof (rep_intg _ _ Rb).
  pose proof (rep_frac _ _ Ra). pose proof (rep_frac _ _ Rb).
  assert (He : e0 <> E_DEC_OVERFLOW)
    by (apply FIX_INTG_FRAC_ERROR_spec in EF as [(-> & _) | [(-> & _) | (_ & ? & _)]]; (done || lia)).
  destruct (if e0 =? E_DEC_OK then _ else _) as [[[to_frac f1] f2] i2] eqn:Eif.
  assert (Ht : to_frac = (if e0 =? E_DEC_OK then Z.max (frac from1) (frac from2)
             else Z.min (Z.max (frac from1) (frac from2)) (f0 * DIG_PER_DEC1)))
    by (destruct (e0 =? E_DEC_OK); congruence).
  assert (decimal_ok from1 /\ decimal_ok from2) as [Hd1 Hd2] by (destruct Hab; intuition congruence).
  destruct (result_frac _ _ _ _ _ _ _ _ Hd1 Hd2 EF He Ht) as (-> & Hf0 & Htf & Hru & Hcase).
  set (F := Z.to_nat f0). assert (EF0 : f0 = Z.of_nat F) by lia.
  assert (Hmax : (frac_words from1 `max` frac_words from2)%nat = (frac_words a `max` frac_words b)%nat)
    by (destruct Hab as [[-> ->] | [-> ->]]; lia).
  rewrite Hmax in Hcase.
  assert (f1 = Z.min (op_frac oa) (Z.of_nat F) /\ f2 = Z.min (op_frac ob) (Z.of_nat F) /\
          i2 = op_intg ob) as (Hf1 & Hf2 & ->).
  { destruct Hcase as [(-> & _ & _ & ?) | (-> & _ & _ & ?)]; simpl in Eif; simplify_eq; lia. }
  rewrite EF0 in E, Hru, Hcase.
  pose proof (sub_words_units a b oa ob F f1 f2 Ha Hb Ra Rb Hi Hpos Hf1 Hf2 (Hle F)) as (Sl & Sw & Sv).
  cbn zeta in E. rewrite Sl in E. replace (Z.to_nat (op_intg oa + Z.of_nat F) - _)%nat with 0%nat in E by lia.
  simpl replicate in E. rewrite app_nil_r in E. injection E as <- <-.
  rewrite magnitude_rev, (frac_words_eq _ _ _ _ _ F) by lia.
  split; [|done]. constructor; rewrite ?(frac_words_eq _ _ _ _ _ F) by lia; simpl; [unfold i, DIG_PER_DEC1; lia|done| | |].
  - rewrite Hmax.
    destruct Hcase as [(-> & ? & ? & ?) | (-> & ? & ? & ?)]; [left|right]; split_and!; (done || unfold DIG_PER_DEC1 in *; lia).
  - by rewrite length_rev.
  - by apply words_ok_rev.
Qed.

Lemma do_sub_spec a b L e r :
  decimal_ok a -> decimal_ok b -> do_sub a b L = (e, r) ->
  Z.of_nat (Nat.max (intg_words a) (intg_words b)) <= L ->
  (compare_magnitudes a b = Eq /\ e = E_DEC_OK /\ r = decimal_make_zero L) \/
  (exists i, (i <= Nat.max (intg_words a) (intg_words b))%nat /\ sum_shape e L i a b r /\
   ((compare_magnitudes a b = Gt /\ sign r = sign a /\
       magnitude r = aunits (frac_words r) a - aunits (frac_words r) b) \/
    (compare_magnitudes a b = Lt /\ sign r = negb (sign a) /\
       magnitude r = aunits (frac_words r) b - aunits (frac_words r) a))).
Proof.
  intros Ha Hb E HL. rewrite do_sub_order in E.
  destruct (compare_operands _ _) as [[c o1] o2] eqn:EC.
  apply compare_operands_spec in EC as (R1 & R2 & Hc & P1 & P2 & Hlt & Hgt); [|done..].
  pose proof (rep_intg _ _ R1). pose proof (rep_intg _ _ R2).
  destruct c; symmetry in Hc.
  - left. by simplify_eq.
  - right. exists (Z.to_nat (op_intg o2)).
    eapply (do_sub_ordered_spec a b b a o2 o1) in E as (? & ? & ?);
      [| by right | done | done | done | done | auto | auto | | lia].
    + split_and!; [lia|done|]. right. eauto.
    + intros n. by apply aunits_mono, Z.lt_le_incl, Z.compare_lt_iff.
  - right. exists (Z.to_nat (op_intg o1)).
    eapply (do_sub_ordered_spec a b a b o1 o2) in E as (? & ? & ?);
      [| by left | done | done | done | done | auto | auto | | lia].
    + split_and!; [lia|done|]. left. eauto.
    + intros n. by apply aunits_mono, Z.lt_le_incl, Z.compare_gt_iff.
Qed.

(** ** Signed sums

    [decimal_add] and [decimal_sub] are one operation: the second number is taken
    with the sign [sb]. *)

Definition sg (s : bool) (x : Z) : Z := if s then - x else x.

Definition signed_sum (sb : bool) (a b : decimal_t) (L : Z) : Z * decimal_t :=
  if Bool.eqb (sign a) sb then do_add a b L else do_sub a b L.

Lemma decimal_sub_signed a b L : decimal_sub a b L = signed_sum (negb (sign b)) a b L.
Proof. unfold decimal_sub, signed_sum. by destruct (sign a), (sign b). Qed.

Lemma aunits_exact n d :
  decimal_ok d -> (frac_words d <= n)%nat -> aunits n d = magnitude d * wpow (n - frac_words d).
Proof.
  intros Hd Hn. pose proof (magnitude_nonneg _ Hd).
  unfold aunits. rewrite <- (units_kept (magnitude d) (frac_words d) (frac_words d) n) by lia.
  by rewrite Nat.sub_diag, wpow_0, Z.div_1_r.
Qed.

Lemma aunits_exact_mul n d :
  decimal_ok d -> (frac_words d <= n)%nat ->
  aunits n d * wpow (frac_words d) = magnitude d * wpow n.
Proof.
  intros Hd Hn. rewrite aunits_exact, <- Z.mul_assoc, <- wpow_add by done.
  by replace (n - frac_words d + frac_words d)%nat with n by lia.
Qed.

(** The trailing digits of a number are zero also in smaller units. *)
Lemma aunits_low n f d :
  decimal_ok d -> (frac_words d <= n)%nat -> frac d <= f <= 9 * Z.of_nat n ->
  (10 ^ (9 * Z.of_nat n - f) | aunits n d).
Proof.
  intros Hd Hn Hf. rewrite aunits_exact, wpow_10 by done.
  pose proof (dok_frac _ Hd). pose proof (ROUND_UP_bounds (frac d)).
  rewrite frac_words_Z in * by done.
  apply Z.divide_trans with (10 ^ (9 * Z.of_nat n - frac d)).
  - exists (10 ^ (f - frac d)). rewrite <- Z.pow_add_r by lia. f_equal. lia.
  - replace (9 * Z.of_nat n - frac d)
      with ((9 * Z.of_nat (frac_words d) - frac d) + 9 * Z.of_nat (n - frac_words d)) by lia.
    rewrite Z.pow_add_r by lia. apply Z.mul_divide_mono_r, dok_low, Hd.
Qed.

(** A result of the right shape is well formed when it is exact. *)
Lemma sum_shape_ok L i a b r k :
  decimal_ok a -> decimal_ok b -> sum_shape E_DEC_OK L i a b r ->
  magnitude r = aunits (frac_words r) a + k * aunits (frac_words r) b ->
  (sign r = true -> magnitude r <> 0) ->
  decimal_ok r /\ (frac_words a <= frac_words r)%nat /\ (frac_words b <= frac_words r)%nat.
Proof.
  intros Ha Hb [Hi Hf He Hl Hw] Hm Hs.
  destruct He as [(_ & He & _) | (? & _)]; [|done].
  pose proof (dok_frac _ Ha). pose proof (dok_frac _ Hb).
  assert (Hfw : Z.of_nat (frac_words r) = Z.of_nat (Nat.max (frac_words a) (frac_words b))).
  { unfold frac_words at 1. rewrite He, ROUND_UP_max, !frac_words_Z by done. lia. }
  assert (Hiw : intg_words r = i) by (unfold intg_words; rewrite Hi, ROUND_UP_mul; lia).
  split; [|lia]. constructor; [unfold DIG_PER_DEC1 in *; lia|done|lia|done| | |done].
  - pose proof (be_bound _ Hw) as Hb'. unfold magnitude. rewrite Hl, wpow_add in Hb'.
    rewrite Hi. rewrite (wpow_10 i), Z.mul_comm in Hb'. unfold DIG_PER_DEC1.
    rewrite (Z.mul_comm _ 9). lia.
  - pose proof (ROUND_UP_bounds (frac r) Hf) as Hru.
    assert (ROUND_UP (frac r) = Z.of_nat (frac_words r)) by (unfold frac_words; lia).
    rewrite Hm. apply Z.divide_add_r; [|apply Z.divide_mul_r]; apply aunits_low; (done || lia).
Qed.

Lemma sum_shape_sym e L i a b r : sum_shape e L i a b r -> sum_shape e L i b a r.
Proof. intros []. constructor; rewrite ?(Z.max_comm (frac b)), ?(Nat.max_comm (frac_words b)); done. Qed.

Record sum_result (sb : bool) (a b r : decimal_t) (e L : Z) : Prop := {
  sr_units : let n := frac_words r in
    signed r = sg (sign a) (aunits n a) + sg sb (aunits n b);
  sr_exact : e = E_DEC_OK -> decimal_ok r /\
    signed r * (wpow (frac_words a) * wpow (frac_words b)) =
    (signed a * wpow (frac_words b) + sg sb (magnitude b) * wpow (frac_words a)) *
      wpow (frac_words r);
  sr_error : e = E_DEC_OK \/
    (e = E_DEC_TRUNCATED /\ Z.of_nat (intg_words r + frac_words r) = L);
  sr_room :
    Z.of_nat (Nat.max (intg_words a) (intg_words b) + 1 +
              Nat.max (frac_words a) (frac_words b)) <= L -> e = E_DEC_OK;
}.

(** What follows from the shape of the result and its units *)
Lemma sum_shape_result sb a b r e L i k :
  decimal_ok a -> decimal_ok b -> sum_shape e L i a b r ->
  (i <= Nat.max (intg_words a) (intg_words b) + 1)%nat ->
  signed r = sg (sign a) (aunits (frac_words r) a) + sg sb (aunits (frac_words r) b) ->
  magnitude r = aunits (frac_words r) a + k * aunits (frac_words r) b \/
    magnitude r = aunits (frac_words r) b + k * aunits (frac_words r) a ->
  (e = E_DEC_OK -> sign r = true -> magnitude r <> 0) ->
  sum_result sb a b r e L.
Proof.
  intros Ha Hb Hsh Hi Hu Hm Hs. constructor; [done|..].
  - intros ->. assert (decimal_ok r /\ (frac_words a <= frac_words r)%nat /\
                       (frac_words b <= frac_words r)%nat) as (Hr & Fa & Fb).
    { destruct Hm as [Hm | Hm]; [by apply (sum_shape_ok L i a b r k); auto|].
      apply sum_shape_sym in Hsh. destruct (sum_shape_ok L i b a r k) as (? & ? & ?); auto. }
    split; [done|]. pose proof (aunits_exact_mul _ _ Ha Fa) as Ea.
    pose proof (aunits_exact_mul _ _ Hb Fb) as Eb. rewrite Hu. unfold signed.
    transitivity (sg (sign a) (aunits (frac_words r) a * wpow (frac_words a)) * wpow (frac_words b) +
      sg sb (aunits (frac_words r) b * wpow (frac_words b)) * wpow (frac_words a)).
    { unfold sg. destruct (sign a), sb; ring. }
    rewrite Ea, Eb. unfold sg. destruct (sign a), sb; ring.
  - destruct (ss_error _ _ _ _ _ _ Hsh) as [(? & _) | (? & _ & HL & _)]; [by left | right].
    split; [done|]. rewrite <- HL. do 2 f_equal. unfold intg_words.
    rewrite (ss_intg _ _ _ _ _ _ Hsh), ROUND_UP_mul by lia. lia.
  - intros HL. destruct (ss_error _ _ _ _ _ _ Hsh) as [(? & _) | (? & _ & HL' & ?)]; [done | lia].
Qed.

Lemma aunits_above d k :
  decimal_ok d -> intg_words d = S k -> nth 0 (buf d) 0 * wpow k <= aunits 0 d.
Proof.
  intros Hd Hk. pose proof (dok_words _ Hd) as Hok. pose proof (dok_length _ Hd) as Hl.
  unfold aunits, magnitude. apply Z.div_le_lower_bound; [apply wpow_pos|].
  destruct (buf d) as [|x l]; [simpl in Hl; lia|].
  apply words_ok_cons in Hok as [Hx Hok]. pose proof (be_bound _ Hok).
  rewrite be_cons, wpow_0. cbn [nth]. simpl in Hl.
  replace (length l) with (k + frac_words d)%nat by lia. rewrite wpow_add. lia.
Qed.

(** The extra word is asked for only when the sum reaches the last word's maximum. *)
Lemma extra_bound a b k :
  decimal_ok a -> decimal_ok b -> extra_word a b = true ->
  Nat.max (intg_words a) (intg_words b) = S k ->
  (DIG_BASE - 1) * wpow k <= aunits 0 a + aunits 0 b.
Proof.
  intros Ha Hb. unfold extra_word. rewrite !intg_words_Z by done. rewrite Z.ltb_lt.
  unfold DIG_MAX. intros Hx Hk. pose proof (aunits_nonneg 0 _ Ha). pose proof (aunits_nonneg 0 _ Hb).
  pose proof (wpow_pos k).
  destruct (Z.ltb_spec (Z.of_nat (intg_words b)) (Z.of_nat (intg_words a))).
  - pose proof (aunits_above a k Ha ltac:(lia)). nia.
  - destruct (Z.ltb_spec (Z.of_nat (intg_words a)) (Z.of_nat (intg_words b))).
    + pose proof (aunits_above b k Hb ltac:(lia)). nia.
    + pose proof (aunits_above a k Ha ltac:(lia)). pose proof (aunits_above b k Hb ltac:(lia)). nia.
Qed.

(** When a sum is out of range *)
Record sum_overflow (sb : bool) (a b r : decimal_t) (L : Z) : Prop := {
  so_result : r = max_decimal (L * DIG_PER_DEC1) 0 L;
  so_sign : sign a = sb;
  so_full : Z.of_nat (Nat.max (intg_words a) (intg_words b)) = L;
  so_large : (DIG_BASE - 1) * DIG_BASE ^ (L - 1) <= aunits 0 a + aunits 0 b;
}.

Lemma compare_aunits n a b :
  compare_magnitudes a b = Eq -> aunits n a = aunits n b.
Proof.
  intros E. apply Z.compare_eq_iff in E. apply Z.le_antisymm; apply aunits_mono; lia.
Qed.

Lemma make_zero_ok L : decimal_ok (decimal_make_zero L).
Proof.
  constructor; try done; [by repeat constructor|]. apply Z.divide_0_r.
Qed.

Lemma zero_result sb a b L :
  decimal_ok a -> decimal_ok b -> sign a <> sb -> compare_magnitudes a b = Eq ->
  sum_result sb a b (decimal_make_zero L) E_DEC_OK L.
Proof.
  intros Ha Hb Hs Hc. constructor.
  - cbn zeta. rewrite (compare_aunits _ _ _ Hc). unfold sg, signed. simpl.
    destruct (sign a), sb; simpl; try congruence; unfold magnitude; simpl; lia.
  - intros _. split; [apply make_zero_ok|]. apply Z.compare_eq_iff in Hc.
    replace (signed (decimal_make_zero L)) with 0 by done. unfold signed, sg.
    rewrite Z.mul_0_l. symmetry. apply Z.eq_mul_0. left.
    destruct (sign a), sb; try congruence; lia.
  - by left.
  - done.
Qed.

Lemma sum_shape_frac L i a b r :
  decimal_ok a -> decimal_ok b -> sum_shape E_DEC_OK L i a b r ->
  (frac_words a <= frac_words r)%nat /\ (frac_words b <= frac_words r)%nat.
Proof.
  intros Ha Hb Hsh. destruct (ss_error _ _ _ _ _ _ Hsh) as [(_ & He & _) | (? & _)]; [|done].
  pose proof (dok_frac _ Ha). pose proof (dok_frac _ Hb).
  unfold frac_words. rewrite He, ROUND_UP_max by done. lia.
Qed.

Lemma aunits_strict n a b :
  decimal_ok a -> decimal_ok b -> (frac_words a <= n)%nat -> (frac_words b <= n)%nat ->
  magnitude a * wpow (frac_words b) < magnitude b * wpow (frac_words a) ->
  aunits n a < aunits n b.
Proof.
  intros Ha Hb Fa Fb Hlt. pose proof (aunits_exact_mul _ _ Ha Fa) as Ea.
  pose proof (aunits_exact_mul _ _ Hb Fb) as Eb. pose proof (wpow_pos n).
  pose proof (wpow_pos (frac_words a)). pose proof (wpow_pos (frac_words b)).
  apply Z.mul_lt_mono_pos_r with (wpow (frac_words a) * wpow (frac_words b)); [nia|].
  rewrite Z.mul_assoc, Ea, (Z.mul_comm (wpow (frac_words a))), Z.mul_assoc, Eb. nia.
Qed.

Lemma aunits_nonzero n a :
  decimal_ok a -> (frac_words a <= n)%nat -> magnitude a <> 0 -> aunits n a <> 0.
Proof.
  intros Ha Hn Hne Hz. pose proof (aunits_exact_mul _ _ Ha Hn) as E. rewrite Hz in E.
  pose proof (wpow_pos n). nia.
Qed.

Lemma do_add_result a b L e r :
  decimal_ok a -> decimal_ok b -> 0 < L -> Z.of_nat (Nat.max (intg_words a) (intg_words b)) <= L ->
  do_add a b L = (e, r) ->
  (e = E_DEC_OVERFLOW /\ sum_overflow (sign a) a b r L) \/ sum_result (sign a) a b r e L.
Proof.
  intros Ha Hb HL Hle E.
  apply do_add_spec in E as [(-> & Hi & ->) | (Hsh & Hs & Hm)]; [left|right|done..].
  - split; [done|]. destruct (extra_word a b) eqn:Ex; [|lia].
    destruct (Nat.max (intg_words a) (intg_words b)) as [|k] eqn:Ek; [lia|].
    constructor; [done|done|lia|]. replace (L - 1) with (Z.of_nat k) by lia.
    by apply extra_bound.
  - eapply (sum_shape_result (sign a) a b r e L _ 1); [done|done|exact Hsh| | | |].
    + destruct (extra_word a b); lia.
    + unfold signed, sg. rewrite Hs, Hm. destruct (sign a); ring.
    + left. lia.
    + intros -> Hneg. rewrite Hs in Hneg. pose proof (dok_sign _ Ha Hneg) as Hne.
      destruct (sum_shape_frac _ _ _ _ _ Ha Hb Hsh) as [Fa _].
      pose proof (aunits_nonzero _ _ Ha Fa Hne). pose proof (aunits_nonneg (frac_words r) _ Ha).
      pose proof (aunits_nonneg (frac_words r) _ Hb). lia.
Qed.

Lemma do_sub_result sb a b L e r :
  decimal_ok a -> decimal_ok b -> Z.of_nat (Nat.max (intg_words a) (intg_words b)) <= L ->
  sign a <> sb -> do_sub a b L = (e, r) -> sum_result sb a b r e L.
Proof.
  intros Ha Hb Hle Hsb E.
  apply do_sub_spec in E as [(Hc & -> & ->) | (i & Hi & Hsh & Hcase)]; [..|done|done|done].
  { by apply zero_result. }
  apply (sum_shape_result sb a b r e L i (-1)); [done|done|done|lia|..].
  - unfold signed, sg. destruct Hcase as [(_ & -> & ->) | (_ & -> & ->)];
      destruct (sign a), sb; simpl; try congruence; lia.
  - destruct Hcase as [(_ & _ & ->) | (_ & _ & ->)]; [left|right]; lia.
  - intros -> _. destruct (sum_shape_frac _ _ _ _ _ Ha Hb Hsh) as [Fa Fb].
    destruct Hcase as [(Hc & _ & ->) | (Hc & _ & ->)].
    + apply Z.compare_gt_iff in Hc. pose proof (aunits_strict _ b a Hb Ha Fb Fa Hc). lia.
    + apply Z.compare_lt_iff in Hc. pose proof (aunits_strict _ a b Ha Hb Fa Fb Hc). lia.
Qed.

Lemma signed_sum_result sb a b L e r :
  decimal_ok a -> decimal_ok b -> 0 < L -> Z.of_nat (Nat.max (intg_words a) (intg_words b)) <= L ->
  signed_sum sb a b L = (e, r) ->
  (e = E_DEC_OVERFLOW /\ sum_overflow sb a b r L) \/ sum_result sb a b r e L.
Proof.
  unfold signed_sum. intros Ha Hb HL Hle. destruct (Bool.eqb (sign a) sb) eqn:Es.
  - apply Bool.eqb_prop in Es as <-. by apply do_add_result.
  - apply Bool.eqb_false_iff in Es. intros E. right. by apply do_sub_result.
Qed.

(** ** The values as fractions *)

Lemma value_sum k a b r :
  signed r * (wpow (frac_words a) * wpow (frac_words b)) =
    (signed a * wpow (frac_words b) + k * signed b * wpow (frac_words a)) * wpow (frac_words r) ->
  (value r == value a + inject_Z k * value b)%Q.
Proof.
  intros E. unfold value.
  pose proof (wpow_pos (frac_words a)). pose proof (wpow_pos (frac_words b)).
  pose proof (wpow_pos (frac_words r)).
  apply (f_equal inject_Z) in E. rewrite !inject_Z_mult, inject_Z_plus, !inject_Z_mult in E.
  assert (Hne : forall n, 0 < n -> ~ (inject_Z n == 0)%Q)
    by (intros n Hn Hq; unfold Qeq in Hq; simpl in Hq; lia).
  field_simplify_eq; [|by split; [|split]; apply Hne ..].
  etransitivity; [|etransitivity; [apply (eq_subrelation _ _ _ E)|]]; ring.
Qed.

Lemma value_make d : (value d == signed d # Z.to_pos (wpow (frac_words d)))%Q.
Proof.
  unfold value, Qdiv, Qinv, inject_Z, Qeq, Qmult. pose proof (wpow_pos (frac_words d)).
  destruct (wpow (frac_words d)) as [|p|p]; simpl; lia.
Qed.

Lemma value_compare a b :
  (value a ?= value b)%Q = (signed a * wpow (frac_words b) ?= signed b * wpow (frac_words a)).
Proof.
  rewrite !value_make. unfold Qcompare. simpl.
  by rewrite !Z2Pos.id by apply wpow_pos.
Qed.

Lemma units_self d : units (frac_words d) d = signed d.
Proof. unfold units. apply Z.quot_mul. pose proof (wpow_pos (frac_words d)). lia. Qed.

Lemma do_cmp_spec a b :
  decimal_ok a -> decimal_ok b ->
  do_cmp a b = match compare_magnitudes a b with
               | Eq => 0
               | Lt => if sign a then 1 else -1
               | Gt => if sign a then -1 else 1
               end.
Proof.
  intros Ha Hb. unfold do_cmp. destruct (compare_operands _ _) as [[c o1] o2] eqn:E.
  apply compare_operands_spec in E as (_ & _ & <- & _); [|done..].
  by destruct c, (sign a).
Qed.

Lemma compare_opp x y : (- x ?= - y) = (y ?= x).
Proof. destruct (Z.compare_spec (- x) (- y)), (Z.compare_spec y x); lia || done. Qed.

Lemma signed_neg d : decimal_ok d -> sign d = true -> signed d < 0.
Proof.
  intros Hd Hs. pose proof (dok_sign _ Hd Hs). pose proof (magnitude_nonneg _ Hd).
  unfold signed. rewrite Hs. lia.
Qed.

Lemma signed_pos d : decimal_ok d -> sign d = false -> 0 <= signed d.
Proof. intros Hd Hs. unfold signed. rewrite Hs. by apply magnitude_nonneg. Qed.

(** [decimal_cmp] compares the values. *)
Lemma decimal_cmp_value (a b : decimal_t) (Ha : decimal_ok a) (Hb : decimal_ok b) :
  decimal_cmp a b = match (value a ?= value b)%Q with Lt => -1 | Eq => 0 | Gt => 1 end.
Proof.
  rewrite value_compare. unfold decimal_cmp.
  pose proof (wpow_pos (frac_words a)). pose proof (wpow_pos (frac_words b)).
  destruct (sign a) eqn:Sa, (sign b) eqn:Sb; simpl.
  - rewrite do_cmp_spec by done. unfold signed, compare_magnitudes. rewrite Sa, Sb.
    rewrite !Z.mul_opp_l, compare_opp, Z.compare_antisym. by destruct Z.compare.
  - pose proof (signed_neg _ Ha Sa). pose proof (signed_pos _ Hb Sb).
    assert (signed a * wpow (frac_words b) < signed b * wpow (frac_words a)) as ->%Z.compare_lt_iff by nia.
    done.
  - pose proof (signed_pos _ Ha Sa). pose proof (signed_neg _ Hb Sb).
    assert (signed b * wpow (frac_words a) < signed a * wpow (frac_words b)) as ->%Z.compare_gt_iff by nia.
    done.
  - rewrite do_cmp_spec by done. unfold signed, compare_magnitudes. by rewrite Sa, Sb.
Qed.

(** Sums whose addition or subtraction fits its buffer, and what is true otherwise,
    for the second number with the factor [k] *)
Definition sum_spec (k : Z) (a b : decimal_t) (L e : Z) (r : decimal_t) : Prop :=
  (Z.of_nat (Nat.max (intg_words a) (intg_words b) + 1 +
             Nat.max (frac_words a) (frac_words b)) <= L -> e = E_DEC_OK) /\
  ((e = E_DEC_OK /\ decimal_ok r /\ (value r == value a + inject_Z k * value b)%Q) \/
   (e = E_DEC_TRUNCATED /\ Z.of_nat (intg_words r + frac_words r) = L /\
      units (frac_words r) r = units (frac_words r) a + k * units (frac_words r) b) \/
   (e = E_DEC_OVERFLOW /\ r = max_decimal (L * DIG_PER_DEC1) 0 L /\
      (DIG_BASE - 1) * DIG_BASE ^ (L - 1) <= Z.abs (units 0 a + k * units 0 b))).

Lemma sum_result_spec k sb a b L e r :
  decimal_ok a -> decimal_ok b ->
  (forall x, sg sb x = k * sg (sign b) x) ->
  (e = E_DEC_OVERFLOW /\ sum_overflow sb a b r L) \/ sum_result sb a b r e L ->
  sum_spec k a b L e r.
Proof.
  intros Ha Hb Hk [[-> [Hr Hs Hf Hl]] | [Hu Hx He Hroom]].
  - split; [lia|]. right. right. split_and!; [done|done|].
    rewrite !units_aunits by done. fold (sg (sign a) (aunits 0 a)) (sg (sign b) (aunits 0 b)).
    rewrite <- Hk, Hs. unfold sg. destruct sb; lia.
  - split; [done|]. destruct He as [-> | [-> HL]]; [left | right; left].
    + destruct (Hx eq_refl) as [Hr E]. split_and!; [done|done|].
      apply value_sum. rewrite E. rewrite Hk. unfold signed, sg. by destruct (sign b).
    + split_and!; [done|done|]. rewrite units_self, !units_aunits by done.
      fold (sg (sign b) (aunits (frac_words r) b)). rewrite <- Hk. exact Hu.
Qed.

Lemma decimal_add_correct (a b : decimal_t) (L e : Z) (r : decimal_t)
    (Ha : decimal_ok a) (Hb : decimal_ok b) (HL : 0 < L)
    (Hi : Z.of_nat (Nat.max (intg_words a) (intg_words b)) <= L)
    (E : decimal_add a b L = (e, r)) :
  sum_spec 1 a b L e r.
Proof.
  apply (sum_result_spec 1 (sign b)); [done|done|lia|]. by apply signed_sum_result.
Qed.

Lemma decimal_sub_correct (a b : decimal_t) (L e : Z) (r : decimal_t)
    (Ha : decimal_ok a) (Hb : decimal_ok b) (HL : 0 < L)
    (Hi : Z.of_nat (Nat.max (intg_words a) (intg_words b)) <= L)
    (E : decimal_sub a b L = (e, r)) :
  sum_spec (-1) a b L e r.
Proof.
  apply (sum_result_spec (-1) (negb (sign b))); [done|done| |].
  - intros x. unfold sg. destruct (sign b); simpl; lia.
  - apply signed_sum_result; [done..|]. by rewrite <- decimal_sub_signed.
Qed.

(** C16: arithmetic on two well-formed numbers.  [decimal_cmp] compares their values: -1, 0 or 1 as the
    first is less than, equal to or greater than the second, however many leading and trailing zero words
    they have.  [decimal_add] and [decimal_sub] into a buffer of [L] words that holds the integer words of
    both: if one more word than the longer parts of both need is there, there is no error.  Without an
    error the result is well formed and its value is exactly the sum or difference.  With
    [E_DEC_TRUNCATED] the buffer is full, and the result is that of both numbers truncated to the fraction
    words it has.  With [E_DEC_OVERFLOW] the sum fills the most significant word of the buffer, and the
    result is the greatest number of [L] words. *)
Theorem decimal_arith_correct (a b : decimal_t) (Ha : decimal_ok a) (Hb : decimal_ok b) :
  decimal_cmp a b = match (value a ?= value b)%Q with Lt => -1 | Eq => 0 | Gt => 1 end /\
  (forall (sub : bool) (L e : Z) (r : decimal_t), 0 < L ->
     Z.of_nat (Nat.max (intg_words a) (intg_words b)) <= L ->
     (if sub then decimal_sub a b L else decimal_add a b L) = (e, r) ->
     sum_spec (if sub then -1 else 1) a b L e r).
Proof.
  split; [by apply decimal_cmp_value|].
  intros [] L e r HL Hi E; [by apply decimal_sub_correct|by apply decimal_add_correct].
Qed.

(** Two negative numbers whose sum is out of range: [my_decimal_add] keeps the sign
    [decimal_add] left in the result, but [do_add] has filled that in with
    [max_decimal], which makes it positive.  The result is the greatest positive
    number, for a sum that is less than zero. *)
Lemma my_decimal_add_overflow_sign (a b : decimal_t)
    (Ha : decimal_ok a) (Hb : decimal_ok b)
    (Hi : Z.of_nat (Nat.max (intg_words a) (intg_words b)) <= DECIMAL_BUFF_LENGTH)
    (Sa : sign a = true) (Sb : sign b = true)
    (E : fst (decimal_add a b DECIMAL_BUFF_LENGTH) = E_DEC_OVERFLOW) :
  (value a + value b < 0)%Q /\
  my_decimal_add a b = (E_DEC_OVERFLOW, max_internal_decimal) /\
  (0 < value max_internal_decimal)%Q.
Proof.
  destruct (decimal_add a b DECIMAL_BUFF_LENGTH) as [e r] eqn:EA. simpl in E. subst e.
  split; [|split; [|by vm_compute]].
  - assert (Hneg : forall d, decimal_ok d -> sign d = true -> (value d < 0)%Q).
    { intros d Hd Hs. rewrite value_make. unfold Qlt. simpl. pose proof (signed_neg _ Hd Hs). lia. }
    change (value a + value b < 0 + 0)%Q.
    apply Qplus_lt_le_compat; [by apply Hneg|]. by apply Qlt_le_weak, Hneg.
  - unfold my_decimal_add. rewrite EA. unfold decimal_add in EA. rewrite Sa, Sb in EA.
    apply do_add_spec in EA as [(_ & _ & ->) | (Hsh & _ & _)]; [by vm_compute| |done..].
    by destruct (ss_error _ _ _ _ _ _ Hsh) as [(? & _) | (? & _)].
Qed.

(** ** Examples *)

Lemma decimal_ok_by d :
  (0 <=? intg d) && (0 <=? frac d) &&
  (length (buf d) =? intg_words d + frac_words d)%nat &&
  forallb (fun x => (0 <=? x) && (x <? DIG_BASE)) (buf d) &&
  (magnitude d <? 10 ^ intg d * wpow (frac_words d)) &&
  (magnitude d mod 10 ^ (9 * Z.of_nat (frac_words d) - frac d) =? 0) &&
  (0 <? 10 ^ (9 * Z.of_nat (frac_words d) - frac d)) &&
  negb (sign d && (magnitude d =? 0)) = true ->
  decimal_ok d.
Proof.
  rewrite !andb_true_iff, negb_true_iff, andb_false_iff, !Z.leb_le, !Z.ltb_lt, !Z.eqb_eq,
    Nat.eqb_eq, Z.eqb_neq.
  intros [[[[[[[H1 H2] H3] H4] H5] H6] H7] H8]. constructor; try done.
  - apply Forall_forall. intros x Hx. rewrite forallb_forall in H4.
    specialize (H4 x). rewrite andb_true_iff, Z.leb_le, Z.ltb_lt in H4.
    apply H4. by apply list_elem_of_In.
  - apply Z.mod_divide; [lia|done].
  - intros Hs. destruct H8; [congruence|done].
Qed.

(** 1234567890.1234 and -0.55 *)
Definition dec_a : decimal_t := mk_decimal 10 4 9 false [1; 234567890; 123400000].
Definition dec_b : decimal_t := mk_decimal 1 2 9 true [0; 550000000].
(** -(10^81 - 1) *)
Definition dec_min : decimal_t := with_sign (max_decimal 81 0 9) true.

Lemma decimal_arith_correct_witness :
  decimal_cmp dec_a dec_b = match (value dec_a ?= value dec_b)%Q with Lt => -1 | Eq => 0 | Gt => 1 end /\
  sum_spec 1 dec_a dec_b 9 E_DEC_OK (mk_decimal 18 4 9 false [1; 234567889; 573400000]) /\
  sum_spec (-1) dec_a dec_b 2 E_DEC_TRUNCATED (mk_decimal 18 0 2 false [1; 234567890]).
Proof.
  assert (Ha : decimal_ok dec_a) by (apply decimal_ok_by; vm_compute; reflexivity).
  assert (Hb : decimal_ok dec_b) by (apply decimal_ok_by; vm_compute; reflexivity).
  destruct (decimal_arith_correct dec_a dec_b Ha Hb) as [H1 H2]. split; [exact H1|]. split.
  - apply (H2 false 9 E_DEC_OK); [lia|vm_compute; discriminate|vm_compute; reflexivity].
  - apply (H2 true 2 E_DEC_TRUNCATED); [lia|vm_compute; discriminate|vm_compute; reflexivity].
Defined.
