(* ===== verification/DecimalMul.v ===== *)
(** * Decimal multiplication

    [decimal_mul] of strings/decimal.c: schoolbook multiplication of words, from the right.
    The buffer of the result is the list of its words, least significant first; a read or
    write outside of a buffer makes the result [None]. *)

From S2P Require Import Prelude Decimal.

(** The word [i] of a buffer *)
Definition read_word (l : list Z) (i : Z) : option Z :=
  if i <? 0 then None else l !! Z.to_nat i.

(** The loop that cuts off [n] fraction words, from whichever factor loses less *)
Fixpoint cut_fractions (n : nat) (from1 from2 : decimal_t) (frac1 frac2 : Z) : option (Z * Z) :=
  match n with
  | O => Some (frac1, frac2)
  | S n' =>
      x ← read_word (buf from1) (ROUND_UP (intg from1) - 1 + frac1);
      if x =? 0 then cut_fractions n' from1 from2 (frac1 - 1) frac2
      else
        y ← read_word (buf from2) (ROUND_UP (intg from2) - 1 + frac2);
        if y =? 0 then cut_fractions n' from1 from2 frac1 (frac2 - 1)
        else if frac2 <? frac1 then cut_fractions n' from1 from2 (frac1 - 1) frac2
        else if frac1 <? frac2 then cut_fractions n' from1 from2 frac1 (frac2 - 1)
        else if x <? y then cut_fractions n' from1 from2 (frac1 - 1) frac2
        else cut_fractions n' from1 from2 frac1 (frac2 - 1)
  end.

(** The inner loop: add [x] times the words [w2] to the result.  The words that it has
    written, the rest of the result, and the carry *)
Fixpoint mul_row (acc w2 : list Z) (x carry : Z) {struct w2} : option (list Z * list Z * Z) :=
  match w2 with
  | [] => Some ([], acc, carry)
  | y :: w2' =>
      match acc with
      | [] => None
      | a :: acc' =>
          let p := x * y in
          let hi := p / DIG_BASE in
          let lo := p - hi * DIG_BASE in
          let '(a', c) := ADD2 a lo carry in
          '(written, rest, carry') ← mul_row acc' w2' x (c + hi);
          Some (a' :: written, rest, carry')
      end
  end.

(** The loop that adds the last carry; [false] if it reaches the end of the buffer *)
Fixpoint add_carry (acc : list Z) (carry : Z) : list Z * bool :=
  if carry =? 0 then (acc, true)
  else
    match acc with
    | [] => ([], false)
    | a :: acc' =>
        let '(a', c) := ADD a 0 carry in
        let '(r, ok) := add_carry acc' c in (a' :: r, ok)
    end.

(** The carry of a row *)
Definition end_row (acc : list Z) (carry : Z) : list Z * bool :=
  if carry =? 0 then (acc, true)
  else
    match acc with
    | [] => ([], false)
    | a :: acc' =>
        let '(a', c) := ADD2 a 0 carry in
        let '(r, ok) := add_carry acc' c in (a' :: r, ok)
    end.

(** The outer loop; [false] if it returns E_DEC_OVERFLOW *)
Fixpoint mul_rows (acc w1 w2 : list Z) : option (list Z * bool) :=
  match w1 with
  | [] => Some (acc, true)
  | x :: w1' =>
      '(written, rest, carry) ← mul_row acc w2 x 0;
      let '(rest', ok) := end_row rest carry in
      if negb ok then Some (written ++ rest', false)
      else
        match written ++ rest' with
        | [] => mul_rows [] w1' w2
        | a :: acc' =>
            '(r, ok) ← mul_rows acc' w1' w2;
            Some (a :: r, ok)
        end
  end.

(** The loop at the end, which removes leading zero words *)
Fixpoint strip_words (l : list Z) (intg : Z) : list Z * Z :=
  match l with
  | x :: l' =>
      if (x =? 0) && (DIG_PER_DEC1 <? intg) then strip_words l' (intg - DIG_PER_DEC1) else (l, intg)
  | [] => (l, intg)
  end.

(** The [intg1] last integer words and [frac1] fraction words, from the right *)
Definition factor_words (d : decimal_t) (intg1 frac1 : Z) : list Z :=
  rev (take (Z.to_nat (intg1 + frac1)) (drop (Z.to_nat (ROUND_UP (intg d) - intg1)) (buf d))).

(** The numbers of words of both factors that are multiplied, when [intg0] and [frac0] words
    are there for the result *)
Definition factor_sizes (from1 from2 : decimal_t) (intg0 frac0 error : Z) : option (Z * Z * Z * Z) :=
  let intg1 := ROUND_UP (intg from1) in
  let intg2 := ROUND_UP (intg from2) in
  let frac1 := ROUND_UP (frac from1) in
  let frac2 := ROUND_UP (frac from2) in
  let i := ROUND_UP (intg from1 + intg from2) in
  let j := frac1 + frac2 in
  if error =? E_DEC_OK then Some (intg1, frac1, intg2, frac2)
  else if intg0 <? i then
    let i' := i - intg0 in
    let j' := Z.shiftr i' 1 in
    Some (intg1 - j', 0, intg2 - (i' - j'), 0)
  else
    '(f1, f2) ← cut_fractions (Z.to_nat (j - frac0)) from1 from2 frac1 frac2;
    Some (intg1, f1, intg2, f2).

Definition decimal_mul (from1 from2 : decimal_t) (to_len : Z) : option (Z * decimal_t) :=
  let '(intg0, frac0, error) :=
    FIX_INTG_FRAC_ERROR to_len (ROUND_UP (intg from1 + intg from2))
      (ROUND_UP (frac from1) + ROUND_UP (frac from2)) in
  let to_sign := negb (Bool.eqb (sign from1) (sign from2)) in
  let to_frac := frac from1 + frac from2 in
  let to_frac := if error =? E_DEC_OK then to_frac else Z.min to_frac (frac0 * DIG_PER_DEC1) in
  let to_intg := intg0 * DIG_PER_DEC1 in
  '(intg1, frac1, intg2, frac2) ← factor_sizes from1 from2 intg0 frac0 error;
  '(acc, ok) ← mul_rows (replicate (Z.to_nat (intg0 + frac0)) 0)
                 (factor_words from1 intg1 frac1) (factor_words from2 intg2 frac2);
  let words := rev acc in
  if negb ok then
    Some (E_DEC_OVERFLOW,
          mk_decimal to_intg to_frac to_len to_sign (take (Z.to_nat (intg0 + ROUND_UP to_frac)) words))
  else if to_sign && forallb (fun w => w =? 0) words then Some (error, decimal_make_zero to_len)
  else
    let '(l, to_intg') := strip_words (take (Z.to_nat (intg0 + ROUND_UP to_frac)) words) to_intg in
    Some (error, mk_decimal to_intg' to_frac to_len to_sign l).

Definition my_decimal_mul (a b : decimal_t) : option (Z * decimal_t) :=
  r ← decimal_mul a b DECIMAL_BUFF_LENGTH;
  Some (check_result_and_overflow r).
