(* ===== verification/DecimalMulProps.v ===== *)
(** * Decimal multiplication: correctness

    The loops of [decimal_mul] compute the product of the words they are given and stay inside
    their buffers; so the product is exact, or that of the factors without their last words. *)

From Stdlib Require Import QArith.
From S2P Require Import Prelude Decimal DecimalValue DecimalArith DecimalMul.

Local Open Scope Z_scope.

(** ** The loops *)

Lemma ADD2_spec x y c a c' :
  ADD2 x y c = (a, c') -> 0 <= x + y + c < 3 * DIG_BASE ->
  a + DIG_BASE * c' = x + y + c /\ word_ok a /\ 0 <= c' <= 2.
Proof.
  unfold ADD2, word_ok, DIG_BASE. intros E H.
  destruct (Z.leb_spec 1000000000 (x + y + c)) as [H1|H1]; [|destruct (Z.leb_spec 1000000000 (x + y + c))].
  - destruct (Z.leb_spec 1000000000 (x + y + c - 1000000000)); simplify_eq; lia.
  - lia.
  - simplify_eq; lia.
Qed.

Lemma mul_row_spec w2 : forall acc x c,
  words_ok acc -> words_ok w2 -> word_ok x -> word_ok c -> (length w2 <= length acc)%nat ->
  exists written c',
    mul_row acc w2 x c = Some (written, drop (length w2) acc, c') /\
    length written = length w2 /\ words_ok written /\ word_ok c' /\
    le written + wpow (length w2) * c' = le (take (length w2) acc) + x * le w2 + c.
Proof.
  induction w2 as [|y w2 IH]; intros acc x c Hacc Hw Hx Hc Hlen.
  - exists [], c. simpl. do 2 (split; [done|]). split; [constructor|]. split; [done|].
    rewrite wpow_0. lia.
  - destruct acc as [|a acc]; simpl in Hlen; [lia|].
    apply words_ok_cons in Hacc as [Ha Hacc], Hw as [Hy Hw]. simpl mul_row.
    set (hi := x * y / DIG_BASE). destruct (ADD2 a _ c) as [a' c1] eqn:E.
    pose proof (Z.div_mod (x * y) DIG_BASE ltac:(done)) as Hdm. fold hi in Hdm.
    pose proof (Z.mod_pos_bound (x * y) DIG_BASE ltac:(done)) as Hlo.
    assert (Hsum : 0 <= a + (x * y - hi * DIG_BASE) + c < 3 * DIG_BASE) by (unfold word_ok in *; lia).
    destruct (ADD2_spec _ _ _ _ _ E Hsum) as (E1 & Ha' & Hc1).
    assert (Hhi : word_ok (c1 + hi)).
    { unfold word_ok in *. assert (x * y <= (DIG_BASE - 1) * (DIG_BASE - 1)) by nia.
      assert (0 <= hi) by (apply Z.div_pos; [nia|done]). unfold DIG_BASE in *. lia. }
    destruct (IH acc x (c1 + hi) Hacc Hw Hx Hhi ltac:(lia)) as (wr & c' & -> & Hl & Hok & Hc' & Heq).
    exists (a' :: wr), c'. simpl. split; [done|]. split; [lia|]. split; [by apply words_ok_cons|].
    split; [done|]. rewrite wpow_S. lia.
Qed.

Lemma add_carry_spec acc : forall c r ok,
  words_ok acc -> 0 <= c <= 1 -> add_carry acc c = (r, ok) ->
  length r = length acc /\ words_ok r /\
  (if ok then le r = le acc + c else wpow (length acc) <= le acc + c).
Proof.
  induction acc as [|a acc IH]; intros c r ok Hok Hc E; simpl in E.
  - destruct (Z.eqb_spec c 0); simplify_eq; (split; [done|]); (split; [constructor|]); simpl;
      rewrite ?wpow_0; lia.
  - destruct (Z.eqb_spec c 0) as [-> |Hne]; [simplify_eq; split; [done|]; split; [done|by rewrite Z.add_0_r]|].
    apply words_ok_cons in Hok as [Ha Hok].
    destruct (ADD a 0 c) as [a' c1] eqn:E1. destruct (add_carry acc c1) as [r1 ok1] eqn:E2. simplify_eq.
    destruct (ADD_spec _ _ _ _ _ E1 Ha ltac:(done) Hc) as (Eq & Ha' & Hc1).
    destruct (IH c1 r1 ok Hok Hc1 E2) as (Hl & Hr & Hv). simpl. split; [lia|].
    split; [by apply words_ok_cons|]. rewrite wpow_S. unfold word_ok, DIG_BASE in *. destruct ok; lia.
Qed.

Lemma end_row_spec acc c r ok :
  words_ok acc -> word_ok c -> end_row acc c = (r, ok) ->
  length r = length acc /\ words_ok r /\
  (if ok then le r = le acc + c else wpow (length acc) <= le acc + c).
Proof.
  unfold end_row. intros Hok Hc E. destruct (Z.eqb_spec c 0) as [-> |Hne].
  { simplify_eq; split; [done|]; split; [done|by rewrite Z.add_0_r]. }
  destruct acc as [|a acc].
  { simplify_eq. split; [done|]. split; [constructor|]. simpl. rewrite wpow_0. unfold word_ok in Hc. lia. }
  apply words_ok_cons in Hok as [Ha Hok]. unfold word_ok in *.
  destruct (ADD2 a 0 c) as [a' c1] eqn:E1. destruct (add_carry acc c1) as [r1 ok1] eqn:E2. simplify_eq.
  destruct (ADD2_spec _ _ _ _ _ E1 ltac:(lia)) as (Eq & Ha' & Hc1). unfold word_ok in Ha'.
  destruct (add_carry_spec acc c1 r1 ok Hok ltac:(unfold DIG_BASE in *; lia) E2) as (Hl & Hr & Hv).
  simpl. split; [lia|]. split; [by apply words_ok_cons|]. rewrite wpow_S. unfold DIG_BASE in *. destruct ok; lia.
Qed.

(** One row: the sum fits the buffer exactly if no carry is left. *)
Lemma row_spec acc w2 x :
  words_ok acc -> words_ok w2 -> word_ok x -> (length w2 <= length acc)%nat ->
  exists written rest c rest' ok,
    mul_row acc w2 x 0 = Some (written, rest, c) /\ end_row rest c = (rest', ok) /\
    length (written ++ rest') = length acc /\ words_ok (written ++ rest') /\
    (if ok then le (written ++ rest') = le acc + x * le w2
     else wpow (length acc) <= le acc + x * le w2).
Proof.
  intros Hacc Hw Hx Hlen.
  destruct (mul_row_spec w2 acc x 0 Hacc Hw Hx ltac:(done) Hlen) as (wr & c & E & Hl & Hok & Hc & Hv).
  destruct (end_row (drop (length w2) acc) c) as [rest' ok] eqn:E2.
  destruct (end_row_spec _ _ _ _ (words_ok_drop (length w2) acc Hacc) Hc E2) as (Hl2 & Hok2 & Hv2).
  exists wr, (drop (length w2) acc), c, rest', ok. split; [done|]. split; [done|].
  rewrite length_app, Hl, Hl2, length_drop. split; [lia|]. split; [by apply words_ok_app|].
  pose proof (le_split (length w2) acc) as Hs. rewrite length_take_le in Hs by done.
  rewrite le_app, Hl. destruct ok; [rewrite Hv2; lia|].
  rewrite length_drop in Hv2. pose proof (le_bound wr Hok) as Hb. rewrite Hl in Hb.
  replace (length acc) with (length w2 + (length acc - length w2))%nat by lia. rewrite wpow_add.
  pose proof (wpow_pos (length w2)). nia.
Qed.

(** The outer loop stays inside the buffer... *)
Lemma mul_rows_total w1 : forall acc w2,
  words_ok acc -> words_ok w1 -> words_ok w2 -> (length w1 + length w2 <= length acc + 1)%nat ->
  exists r ok, mul_rows acc w1 w2 = Some (r, ok) /\ length r = length acc /\ words_ok r.
Proof.
  induction w1 as [|x w1 IH]; intros acc w2 Hacc H1 H2 Hlen; [by exists acc, true|].
  apply words_ok_cons in H1 as [Hx H1]. simpl in Hlen.
  destruct (row_spec acc w2 x Hacc H2 Hx ltac:(lia)) as (wr & rest & c & rest' & ok & E1 & E2 & Hl & Hok & _).
  simpl. rewrite E1. simpl. rewrite E2. destruct ok; simpl; [|by eauto].
  destruct (wr ++ rest') as [|a acc']; simpl in Hl.
  - destruct (IH [] w2 ltac:(constructor) H1 H2 ltac:(simpl; lia)) as (r & ok & -> & Hr & Hw).
    exists r, ok. split; [done|]. split; [simpl in *; lia|done].
  - apply words_ok_cons in Hok as [Ha Hok].
    destruct (IH acc' w2 Hok H1 H2 ltac:(lia)) as (r & ok & -> & Hr & Hw).
    exists (a :: r), ok. simpl. split; [done|]. split; [lia|by apply words_ok_cons].
Qed.

(** ... and adds the product if there is room for it. *)
Lemma mul_rows_exact w1 : forall acc w2,
  words_ok acc -> words_ok w1 -> words_ok w2 -> (length w1 + length w2 <= length acc + 1)%nat ->
  le acc + le w1 * le w2 < wpow (length acc) ->
  exists r, mul_rows acc w1 w2 = Some (r, true) /\ length r = length acc /\ words_ok r /\
    le r = le acc + le w1 * le w2.
Proof.
  induction w1 as [|x w1 IH]; intros acc w2 Hacc H1 H2 Hlen Hfit.
  { exists acc. simpl. split; [done|]. split; [done|]. split; [done|lia]. }
  apply words_ok_cons in H1 as [Hx H1]. simpl in Hlen, Hfit.
  pose proof (le_bound w1 H1). pose proof (le_bound w2 H2). pose proof (le_bound acc Hacc).
  assert (Hge : 0 <= DIG_BASE * le w1 * le w2) by (unfold DIG_BASE; nia).
  destruct (row_spec acc w2 x Hacc H2 Hx ltac:(lia)) as (wr & rest & c & rest' & ok & E1 & E2 & Hl & Hok & Hv).
  simpl. rewrite E1. simpl. rewrite E2. destruct ok; [|exfalso; lia]. simpl.
  destruct (wr ++ rest') as [|a acc']; simpl in Hl, Hv.
  - destruct w1; simpl in Hlen; [|lia]. exists []. simpl. split; [done|]. split; [done|].
    split; [constructor|lia].
  - apply words_ok_cons in Hok as [Ha Hok]. rewrite <- Hl, wpow_S in *. unfold word_ok in Ha.
    destruct (IH acc' w2 Hok H1 H2 ltac:(lia)) as (r & -> & Hr & Hw & Er); [unfold DIG_BASE in *; nia|].
    exists (a :: r). simpl. split; [done|]. split; [lia|]. split; [by apply words_ok_cons|].
    rewrite Er. unfold DIG_BASE in *. lia.
Qed.

(** ** Cutting off fraction words *)

(** The number that the first [n] words make *)
Definition leading (d : decimal_t) (n : Z) : Z := le (rev (take (Z.to_nat n) (buf d))).

Lemma read_leading d n :
  0 < n <= Z.of_nat (length (buf d)) ->
  exists x, read_word (buf d) (n - 1) = Some x /\ leading d n = x + DIG_BASE * leading d (n - 1).
Proof.
  intros Hn. unfold read_word. rewrite (proj2 (Z.ltb_ge _ _)) by lia.
  destruct (lookup_lt_is_Some_2 (buf d) (Z.to_nat (n - 1))) as [x Hx]; [lia|].
  exists x. split; [done|]. unfold leading.
  replace (Z.to_nat n) with (S (Z.to_nat (n - 1))) by lia.
  by rewrite (take_S_r _ _ _ Hx), rev_app_distr.
Qed.

(** A number that ends in zero words, when its last word is cut off *)
Lemma divide_cut z x A : (wpow (S z) | x + DIG_BASE * A) -> word_ok x -> x = 0 /\ (wpow z | A).
Proof.
  rewrite wpow_S. unfold word_ok. intros [q E] Hx. assert (x = 0) as -> by (unfold DIG_BASE in *; lia).
  split; [done|]. exists q. unfold DIG_BASE in *. lia.
Qed.

Lemma divide_pred z x A : (wpow z | x + DIG_BASE * A) -> x = 0 -> (wpow (pred z) | A).
Proof.
  intros H ->. destruct z as [|z]; simpl; [apply Z.divide_1_l|]. by apply divide_cut in H as [_ ?].
Qed.

Section Cut.
Context (a b : decimal_t) (Ha : decimal_ok a) (Hb : decimal_ok b).
Notation I1 := (Z.of_nat (intg_words a)).
Notation I2 := (Z.of_nat (intg_words b)).

(** [f1] and [f2] fraction words become [g1] and [g2], which is [n] less. *)
Definition cut_to (n : nat) (f1 f2 g1 g2 : Z) : Prop :=
  g1 + g2 = f1 + f2 - Z.of_nat n /\ g1 <= f1 /\ g2 <= f2 /\ 0 <= I1 + g1 /\ 0 <= I2 + g2 /\
  (forall z1 z2, (n <= z1 + z2)%nat ->
     (wpow z1 | leading a (I1 + f1)) -> (wpow z2 | leading b (I2 + f2)) ->
     leading a (I1 + f1) = wpow (Z.to_nat (f1 - g1)) * leading a (I1 + g1) /\
     leading b (I2 + f2) = wpow (Z.to_nat (f2 - g2)) * leading b (I2 + g2)).

Lemma cut_to_left n f1 f2 g1 g2 x :
  cut_to n (f1 - 1) f2 g1 g2 ->
  leading a (I1 + f1) = x + DIG_BASE * leading a (I1 + f1 - 1) -> word_ok x ->
  (x <> 0 -> ~ (DIG_BASE | leading b (I2 + f2))) -> cut_to (S n) f1 f2 g1 g2.
Proof.
  intros (H1 & H2 & H3 & H4 & H5 & H6) E Hx Hlossy. do 5 (split; [lia|]). intros z1 z2 Hz D1 D2.
  assert (x = 0) as ->.
  { destruct z1 as [|z1]; [|rewrite E in D1; by apply divide_cut in D1 as [? _]].
    destruct (Z.eq_dec x 0) as [|Hne]; [done|]. destruct (Hlossy Hne).
    destruct z2 as [|z2]; [lia|]. rewrite wpow_S in D2. eapply Z.divide_trans; [|exact D2].
    by exists (wpow z2); lia. }
  rewrite E in D1. apply divide_pred in D1; [|done].
  destruct (H6 (pred z1) z2 ltac:(lia)) as [E1 E2]; [|done|].
  { by replace (I1 + (f1 - 1)) with (I1 + f1 - 1) by lia. }
  split; [|done]. rewrite E. replace (I1 + f1 - 1) with (I1 + (f1 - 1)) by lia. rewrite E1.
  replace (Z.to_nat (f1 - g1)) with (S (Z.to_nat (f1 - 1 - g1))) by lia. rewrite wpow_S. ring.
Qed.

Lemma cut_to_right n f1 f2 g1 g2 y :
  cut_to n f1 (f2 - 1) g1 g2 ->
  leading b (I2 + f2) = y + DIG_BASE * leading b (I2 + f2 - 1) -> word_ok y ->
  ~ (DIG_BASE | leading a (I1 + f1)) -> cut_to (S n) f1 f2 g1 g2.
Proof.
  intros (H1 & H2 & H3 & H4 & H5 & H6) E Hy Hlossy. do 5 (split; [lia|]). intros z1 z2 Hz D1 D2.
  destruct z1 as [|z1].
  2: { destruct Hlossy. rewrite wpow_S in D1. eapply Z.divide_trans; [|exact D1]. by exists (wpow z1); lia. }
  destruct z2 as [|z2]; [lia|]. rewrite E in D2. apply divide_cut in D2 as [-> D2]; [|done].
  destruct (H6 0%nat z2 ltac:(lia) D1) as [E1 E2].
  { by replace (I2 + (f2 - 1)) with (I2 + f2 - 1) by lia. }
  split; [done|]. rewrite E. replace (I2 + f2 - 1) with (I2 + (f2 - 1)) by lia. rewrite E2.
  replace (Z.to_nat (f2 - g2)) with (S (Z.to_nat (f2 - 1 - g2))) by lia. rewrite wpow_S. ring.
Qed.

Lemma word_divides x A : word_ok x -> x <> 0 -> ~ (DIG_BASE | x + DIG_BASE * A).
Proof. unfold word_ok, DIG_BASE. intros Hx Hne [q E]. lia. Qed.

Lemma read_word_ok l i x : words_ok l -> read_word l i = Some x -> word_ok x.
Proof.
  unfold read_word. intros Hl. destruct (_ <? _); [done|]. apply (Forall_lookup_1 _ _ _ _ Hl).
Qed.

Lemma cut_fractions_spec n : forall f1 f2,
  f1 <= Z.of_nat (frac_words a) -> f2 <= Z.of_nat (frac_words b) ->
  Z.of_nat n <= I1 + f1 -> Z.of_nat n <= I2 + f2 ->
  exists g1 g2, cut_fractions n a b f1 f2 = Some (g1, g2) /\ cut_to n f1 f2 g1 g2.
Proof.
  induction n as [|n IH]; intros f1 f2 Hf1 Hf2 Hn1 Hn2.
  { exists f1, f2. split; [done|]. do 5 (split; [lia|]). intros. rewrite !Z.sub_diag.
    change (wpow (Z.to_nat 0)) with 1. lia. }
  pose proof (dok_length _ Ha). pose proof (dok_length _ Hb).
  destruct (read_leading a (I1 + f1)) as (x & Rx & Ex); [lia|].
  destruct (read_leading b (I2 + f2)) as (y & Ry & Ey); [lia|].
  pose proof (read_word_ok _ _ _ (dok_words _ Ha) Rx) as Hx.
  pose proof (read_word_ok _ _ _ (dok_words _ Hb) Ry) as Hy.
  destruct (IH (f1 - 1) f2) as (g1 & g2 & L1 & L2); [lia..|].
  destruct (IH f1 (f2 - 1)) as (h1 & h2 & R1 & R2); [lia..|].
  simpl. rewrite !intg_words_Z by done.
  replace (I1 - 1 + f1) with (I1 + f1 - 1) by lia. replace (I2 - 1 + f2) with (I2 + f2 - 1) by lia.
  rewrite Rx, Ry. simpl.
  assert (Left : (x <> 0 -> y <> 0) -> cut_to (S n) f1 f2 g1 g2).
  { intros Hl. eapply cut_to_left; [done|done|done|]. intros Hne. rewrite Ey. apply word_divides; auto. }
  assert (Right : x <> 0 -> cut_to (S n) f1 f2 h1 h2).
  { intros Hl. eapply cut_to_right; [done|done|done|]. rewrite Ex. by apply word_divides. }
  destruct (Z.eqb_spec x 0); [by exists g1, g2; auto|]. destruct (Z.eqb_spec y 0); [by exists h1, h2; auto|].
  destruct (_ <? _); [by exists g1, g2; auto|]. destruct (_ <? _); [by exists h1, h2; auto|].
  destruct (_ <? _); [by exists g1, g2; auto|by exists h1, h2; auto].
Qed.
End Cut.

(** ** The factors *)

Lemma factor_leading d g :
  decimal_ok d -> 0 <= Z.of_nat (intg_words d) + g -> g <= Z.of_nat (frac_words d) ->
  let w := factor_words d (ROUND_UP (intg d)) g in
  le w = leading d (Z.of_nat (intg_words d) + g) /\ words_ok w /\
  Z.of_nat (length w) = Z.of_nat (intg_words d) + g.
Proof.
  intros Hd H0 Hg. unfold factor_words. rewrite Z.sub_diag, intg_words_Z by done. cbv zeta. change (drop (Z.to_nat 0) (buf d)) with (buf d).
  split; [done|]. split; [apply words_ok_rev, words_ok_take; apply (dok_words _ Hd)|].
  rewrite length_rev, length_take, (dok_length _ Hd). lia.
Qed.

(** The number without its last [F - g] words *)
Lemma leading_div d g :
  decimal_ok d -> 0 <= Z.of_nat (intg_words d) + g -> g <= Z.of_nat (frac_words d) ->
  leading d (Z.of_nat (intg_words d) + g) =
    magnitude d / wpow (Z.to_nat (Z.of_nat (frac_words d) - g)).
Proof.
  intros Hd H0 Hg. unfold leading, magnitude. pose proof (dok_length _ Hd) as Hl.
  rewrite rev_take_drop, le_drop.
  - do 2 f_equal. lia.
  - apply words_ok_rev. apply (dok_words _ Hd).
  - rewrite length_rev. lia.
Qed.

Lemma leading_full d :
  decimal_ok d -> leading d (Z.of_nat (intg_words d) + Z.of_nat (frac_words d)) = magnitude d.
Proof.
  intros Hd. rewrite leading_div by (done || lia). rewrite Z.sub_diag. change (wpow (Z.to_nat 0)) with 1.
  apply Z.div_1_r.
Qed.

Lemma leading_cut d g :
  decimal_ok d -> 0 <= Z.of_nat (intg_words d) + g -> g <= Z.of_nat (frac_words d) ->
  0 <= leading d (Z.of_nat (intg_words d) + g) /\
  leading d (Z.of_nat (intg_words d) + g) * wpow (Z.to_nat (Z.of_nat (frac_words d) - g))
    <= magnitude d.
Proof.
  intros Hd H0 Hg. rewrite leading_div by done. pose proof (wpow_pos (Z.to_nat (Z.of_nat (frac_words d) - g))).
  assert (0 <= magnitude d) by apply (be_bound _ (dok_words _ Hd)).
  split; [by apply Z.div_pos|]. rewrite Z.mul_comm. by apply Z.mul_div_le.
Qed.

(** The product of the leading words fits the integer words that decimal_mul reckons with. *)
Lemma product_fits a b g1 g2 :
  decimal_ok a -> decimal_ok b ->
  0 <= Z.of_nat (intg_words a) + g1 -> g1 <= Z.of_nat (frac_words a) ->
  0 <= Z.of_nat (intg_words b) + g2 -> g2 <= Z.of_nat (frac_words b) ->
  0 <= ROUND_UP (intg a + intg b) + (g1 + g2) ->
  leading a (Z.of_nat (intg_words a) + g1) * leading b (Z.of_nat (intg_words b) + g2) <
    wpow (Z.to_nat (ROUND_UP (intg a + intg b) + (g1 + g2))).
Proof.
  intros Ha Hb H1 H2 H3 H4 H5.
  destruct (leading_cut a g1 Ha H1 H2) as [La La'], (leading_cut b g2 Hb H3 H4) as [Lb Lb'].
  pose proof (dok_high _ Ha) as HA. pose proof (dok_high _ Hb) as HB.
  pose proof (dok_intg _ Ha) as Hia. pose proof (dok_intg _ Hb) as Hib.
  set (k1 := Z.to_nat (Z.of_nat (frac_words a) - g1)) in *.
  set (k2 := Z.to_nat (Z.of_nat (frac_words b) - g2)) in *.
  set (la := leading a _) in *. set (lb := leading b _) in *.
  set (I := ROUND_UP (intg a + intg b)) in *.
  assert (HI : 0 <= I /\ 10 ^ intg a * 10 ^ intg b <= wpow (Z.to_nat I)).
  { pose proof (ROUND_UP_bounds (intg a + intg b)). split; [unfold I; lia|].
    rewrite <- Z.pow_add_r, wpow_10 by done. apply Z.pow_le_mono_r; unfold I; lia. }
  apply (Z.mul_lt_mono_pos_r (wpow (k1 + k2))); [apply wpow_pos|].
  rewrite <- (wpow_add (Z.to_nat (I + (g1 + g2)))).
  replace (Z.to_nat (I + (g1 + g2)) + (k1 + k2))%nat
    with (Z.to_nat I + (frac_words a + frac_words b))%nat by lia.
  rewrite !wpow_add. apply (Z.le_lt_trans _ (magnitude a * magnitude b)).
  - replace (la * lb * (wpow k1 * wpow k2)) with (la * wpow k1 * (lb * wpow k2)) by ring.
    pose proof (wpow_pos k1). pose proof (wpow_pos k2). apply Z.mul_le_mono_nonneg; nia.
  - pose proof (wpow_pos (frac_words a)). pose proof (wpow_pos (frac_words b)).
    assert (0 <= magnitude a /\ 0 <= magnitude b)
      by (split; [apply (be_bound _ (dok_words _ Ha))|apply (be_bound _ (dok_words _ Hb))]).
    apply (Z.lt_le_trans _ (10 ^ intg a * wpow (frac_words a) * (10 ^ intg b * wpow (frac_words b)))).
    + apply Z.mul_lt_mono_nonneg; lia.
    + replace (_ * (10 ^ intg b * _))
        with (10 ^ intg a * 10 ^ intg b * (wpow (frac_words a) * wpow (frac_words b))) by ring.
      apply Z.mul_le_mono_nonneg_r; [nia|apply HI].
Qed.

(** The digits after the last fraction digit of the result are zero. *)
Lemma product_digits a b g1 g2 F k :
  decimal_ok a -> decimal_ok b ->
  0 <= Z.of_nat (intg_words a) + g1 -> g1 <= Z.of_nat (frac_words a) ->
  0 <= Z.of_nat (intg_words b) + g2 -> g2 <= Z.of_nat (frac_words b) ->
  F = g1 + g2 -> k = 9 * F - Z.min (frac a + frac b) (F * 9) -> 0 <= k ->
  (10 ^ k | leading a (Z.of_nat (intg_words a) + g1) * leading b (Z.of_nat (intg_words b) + g2)).
Proof.
  intros Ha Hb H1 H2 H3 H4 HF Hk Hk0.
  pose proof (dok_frac _ Ha) as Hfa. pose proof (dok_frac _ Hb) as Hfb.
  pose proof (ROUND_UP_bounds (frac a) Hfa) as Ra. pose proof (ROUND_UP_bounds (frac b) Hfb) as Rb.
  rewrite frac_words_Z in Ra, Rb by done.
  set (ea := 9 * Z.of_nat (frac_words a) - frac a) in *. set (eb := 9 * Z.of_nat (frac_words b) - frac b) in *.
  destruct (Z.eq_dec k 0) as [-> |Hne]; [apply Z.divide_1_l|].
  assert (Hfull : forall d g e, decimal_ok d -> g = Z.of_nat (frac_words d) ->
    0 <= e <= 9 * Z.of_nat (frac_words d) - frac d -> (10 ^ e | leading d (Z.of_nat (intg_words d) + g))).
  { intros d g e Hd -> He. rewrite leading_full by done. eapply Z.divide_trans; [|apply (dok_low _ Hd)].
    exists (10 ^ (9 * Z.of_nat (frac_words d) - frac d - e)). rewrite <- Z.pow_add_r by lia. f_equal. lia. }
  destruct (Z.eq_dec g1 (Z.of_nat (frac_words a))) as [E1|E1];
    destruct (Z.eq_dec g2 (Z.of_nat (frac_words b))) as [E2|E2].
  - replace k with (ea + eb) by (unfold ea, eb; lia). rewrite Z.pow_add_r by (unfold ea, eb; lia).
    destruct (Hfull a g1 ea Ha E1 ltac:(unfold ea; lia)) as [q ->].
    destruct (Hfull b g2 eb Hb E2 ltac:(unfold eb; lia)) as [p ->]. exists (q * p). ring.
  - apply Z.divide_mul_l. apply Hfull; [done|done|lia].
  - apply Z.divide_mul_r. apply Hfull; [done|done|lia].
  - exfalso. lia.
Qed.

(** ** The result *)

Lemma strip_words_spec l : forall k i l' i',
  words_ok l -> 0 <= k <= Z.of_nat (length l) -> i = k * DIG_PER_DEC1 -> strip_words l i = (l', i') ->
  exists k', i' = k' * DIG_PER_DEC1 /\ 0 <= k' <= k /\
    Z.of_nat (length l') = Z.of_nat (length l) - (k - k') /\ words_ok l' /\ le (rev l') = le (rev l).
Proof.
  induction l as [|x l IH]; intros k i l' i' Hok Hk -> E; simpl in E.
  - simplify_eq. exists k. split; [done|]. simpl in *. split; [lia|]. split; [lia|done].
  - destruct (Z.eqb_spec x 0) as [-> |]; simpl in E.
    + destruct (Z.ltb_spec DIG_PER_DEC1 (k * DIG_PER_DEC1)) as [H|H].
      * apply words_ok_cons in Hok as [_ Hok]. simpl in Hk.
        destruct (IH (k - 1) (k * DIG_PER_DEC1 - DIG_PER_DEC1) l' i' Hok) as (k' & Hi & Hk' & Hl & Hw & Hv);
          [unfold DIG_PER_DEC1 in *; lia|lia|done|].
        exists k'. split; [done|]. split; [lia|]. simpl length. split; [lia|]. split; [done|].
        rewrite Hv, be_cons. lia.
      * simplify_eq. exists k. split; [done|]. split; [lia|]. split; [lia|done].
    + simplify_eq. exists k. split; [done|]. split; [lia|]. split; [lia|done].
Qed.

(** The number that is made of the words [r] of a product: [I] integer words, [F] fraction words,
    of which [f] digits are kept *)
Lemma mul_finish r I F f s L l i :
  words_ok r -> 0 <= I -> 0 <= F -> Z.of_nat (length r) = I + F -> 0 <= f <= 9 * F ->
  (10 ^ (9 * F - f) | le r) -> (s = true -> le r <> 0) ->
  strip_words (take (Z.to_nat (I + ROUND_UP f)) (rev r)) (I * DIG_PER_DEC1) = (l, i) ->
  let d := mk_decimal i f L s l in
  decimal_ok d /\ magnitude d * wpow (Z.to_nat F) = le r * wpow (frac_words d).
Proof.
  intros Hr HI HF Hlen Hf Hdiv Hs Hstrip d.
  pose proof (ROUND_UP_bounds f (proj1 Hf)) as HR. set (F0 := ROUND_UP f) in *.
  assert (Hr' : words_ok (take (Z.to_nat (I + F0)) (rev r))) by (apply words_ok_take; by apply words_ok_rev).
  assert (Hl0 : Z.of_nat (length (take (Z.to_nat (I + F0)) (rev r))) = I + F0)
    by (rewrite length_take, length_rev; lia).
  destruct (strip_words_spec _ I _ _ _ Hr' ltac:(lia) eq_refl Hstrip) as (k & Ei & Hk & Hl & Hw & Hv).
  assert (Em : magnitude d = le r / wpow (Z.to_nat (F - F0))).
  { unfold magnitude, d. simpl. rewrite Hv, rev_take_drop, rev_involutive, length_rev, le_drop by (done || lia).
    do 2 f_equal. lia. }
  assert (Ew : wpow (Z.to_nat (F - F0)) = 10 ^ (9 * (F - F0)))
    by (rewrite wpow_10; f_equal; lia).
  assert (Hsplit : 10 ^ (9 * F - f) = 10 ^ (9 * F0 - f) * 10 ^ (9 * (F - F0)))
    by (rewrite <- Z.pow_add_r by lia; f_equal; lia).
  destruct Hdiv as [q Eq]. rewrite Hsplit, Z.mul_assoc in Eq.
  assert (Hpos : 0 < 10 ^ (9 * (F - F0))) by (apply Z.pow_pos_nonneg; lia).
  assert (Em' : magnitude d = q * 10 ^ (9 * F0 - f)) by (rewrite Em, Ew, Eq; apply Z.div_mul; lia).
  assert (Efw : Z.of_nat (frac_words d) = F0) by (unfold frac_words, d; simpl; fold F0; lia).
  assert (Eiw : intg_words d = Z.to_nat k)
    by (unfold intg_words, d; simpl; rewrite Ei, ROUND_UP_mul by lia; done).
  split; [constructor|].
  - unfold d. simpl. rewrite Ei. unfold DIG_PER_DEC1. lia.
  - apply Hf.
  - rewrite Eiw. unfold d at 1. simpl. lia.
  - done.
  - pose proof (be_bound _ Hw) as Hb. unfold magnitude, d at 1 2. simpl.
    replace (length l) with (Z.to_nat k + frac_words d)%nat in Hb by lia. rewrite wpow_add in Hb.
    rewrite wpow_10 in Hb at 1. unfold d in Hb. rewrite Ei. unfold DIG_PER_DEC1.
    replace (k * 9) with (9 * Z.of_nat (Z.to_nat k)) by lia. apply Hb.
  - rewrite Efw, Em'. apply Z.divide_factor_r.
  - intros E. unfold d in E. simpl in E. specialize (Hs E). intros H0. rewrite Em' in H0. rewrite H0 in Eq. lia.
  - rewrite Em', Eq. replace (Z.to_nat F) with (frac_words d + Z.to_nat (F - F0))%nat by lia.
    rewrite wpow_add, Ew. ring.
Qed.

(** ** Values *)

(** The number with its last [k] words set to zero *)
Definition without_words (k : nat) (d : decimal_t) : Q :=
  (inject_Z (Z.quot (signed d) (wpow k) * wpow k) / inject_Z (wpow (frac_words d)))%Q.

Lemma fraction_eq x y u v :
  0 < y -> 0 < v -> x * v = u * y -> (inject_Z x / inject_Z y == inject_Z u / inject_Z v)%Q.
Proof.
  intros Hy Hv E. destruct y as [|y|y], v as [|v|v]; try done. unfold Qeq, Qdiv, Qmult. simpl. lia.
Qed.

Lemma fraction_mul x y u v :
  0 < y -> 0 < v ->
  (inject_Z x / inject_Z y * (inject_Z u / inject_Z v) == inject_Z (x * u) / inject_Z (y * v))%Q.
Proof.
  intros Hy Hv. rewrite !inject_Z_mult. field. split; intros H; unfold Qeq in H; simpl in H; lia.
Qed.

Lemma without_none d : (without_words 0 d == value d)%Q.
Proof.
  unfold without_words, value. rewrite wpow_0, Z.quot_1_r, Z.mul_1_r. reflexivity.
Qed.

(** Zero words at the end do not count. *)
Lemma without_zeros k d A : decimal_ok d -> magnitude d = wpow k * A -> (without_words k d == value d)%Q.
Proof.
  intros Hd E. unfold without_words, value. pose proof (wpow_pos k).
  replace (signed d ÷ wpow k * wpow k) with (signed d); [reflexivity|]. unfold signed. rewrite E.
  destruct (sign d).
  - rewrite <- Z.mul_opp_r, Z.mul_comm, Z.quot_mul by lia. ring.
  - rewrite (Z.mul_comm (wpow k)), Z.quot_mul by lia. ring.
Qed.

(** The product of the words, as a value *)
Lemma product_value a b r k1 k2 F la lb :
  decimal_ok a -> decimal_ok b ->
  la = magnitude a / wpow k1 -> lb = magnitude b / wpow k2 ->
  (F + k1 + k2 = frac_words a + frac_words b)%nat ->
  (magnitude r = 0 \/ sign r = negb (Bool.eqb (sign a) (sign b))) ->
  magnitude r * wpow F = la * lb * wpow (frac_words r) ->
  (value r == without_words k1 a * without_words k2 b)%Q.
Proof.
  intros Ha Hb -> -> HF Hs E. unfold without_words. rewrite fraction_mul by apply wpow_pos.
  pose proof (wpow_pos (frac_words a)). pose proof (wpow_pos (frac_words b)). pose proof (wpow_pos k1).
  pose proof (wpow_pos k2). pose proof (wpow_pos F).
  apply fraction_eq; [apply wpow_pos|nia|]. rewrite <- wpow_add, <- HF, !wpow_add.
  assert (Hq : forall d k, decimal_ok d -> signed d ÷ wpow k =
    (if sign d then -1 else 1) * (magnitude d / wpow k)).
  { intros d k Hd. pose proof (be_bound _ (dok_words _ Hd)) as [Hm _]. fold (magnitude d) in Hm.
    pose proof (wpow_pos k). unfold signed.
    destruct (sign d); [rewrite Z.quot_opp_l by lia|]; rewrite Z.quot_div_nonneg by lia; lia. }
  rewrite !Hq by done. set (la := magnitude a / wpow k1) in *. set (lb := magnitude b / wpow k2) in *.
  assert (Er : signed r * wpow F =
    (if sign a then -1 else 1) * la * ((if sign b then -1 else 1) * lb) * wpow (frac_words r)).
  { unfold signed. destruct Hs as [Hm|Hs].
    - rewrite Hm in *. assert (la * lb = 0) as Hz.
      { pose proof (wpow_pos (frac_words r)). nia. }
      destruct (sign a), (sign b), (sign r); nia.
    - rewrite Hs. destruct (sign a), (sign b); simpl; lia. }
  replace (signed r * (wpow F * wpow k1 * wpow k2)) with (signed r * wpow F * wpow k1 * wpow k2) by ring.
  rewrite Er. ring.
Qed.

Lemma all_zero_le l : words_ok l -> forallb (fun w => w =? 0) (rev l) = bool_decide (le l = 0).
Proof.
  induction l as [|x l IH]; intros Hok; [done|]. apply words_ok_cons in Hok as [Hx Hok].
  simpl rev. rewrite forallb_app, IH by done. simpl. pose proof (le_bound l Hok). unfold word_ok, DIG_BASE in *.
  rewrite andb_true_r. destruct (Z.eqb_spec x 0); repeat case_bool_decide; try done; lia.
Qed.

(** ** The end of decimal_mul *)

Definition mul_end (s : bool) (words : list Z) (I f error L : Z) : Z * decimal_t :=
  if s && forallb (fun w => w =? 0) words then (error, decimal_make_zero L)
  else
    let '(l, i) := strip_words (take (Z.to_nat (I + ROUND_UP f)) words) (I * DIG_PER_DEC1) in
    (error, mk_decimal i f L s l).

Lemma mul_end_eq s words I f error L :
  (if s && forallb (fun w => w =? 0) words then Some (error, decimal_make_zero L)
   else
     let '(l, i) := strip_words (take (Z.to_nat (I + ROUND_UP f)) words) (I * DIG_PER_DEC1) in
     Some (error, mk_decimal i f L s l)) = Some (mul_end s words I f error L).
Proof. unfold mul_end. destruct (s && _); [done|]. by destruct (strip_words (take _ _) _). Qed.

Lemma mul_end_spec s r I F f error L :
  words_ok r -> 0 <= I -> 0 <= F -> Z.of_nat (length r) = I + F -> 0 <= f <= 9 * F ->
  (10 ^ (9 * F - f) | le r) ->
  exists d, mul_end s (rev r) I f error L = (error, d) /\ decimal_ok d /\
    (magnitude d = 0 \/ sign d = s) /\
    magnitude d * wpow (Z.to_nat F) = le r * wpow (frac_words d).
Proof.
  intros Hr HI HF Hlen Hf Hdiv. unfold mul_end. rewrite all_zero_le by done.
  destruct s; simpl; [case_bool_decide as Hz|].
  - exists (decimal_make_zero L). split; [done|]. split; [apply make_zero_ok|]. split; [by left|].
    rewrite Hz. unfold magnitude. simpl. lia.
  - destruct (strip_words _ _) as [l i] eqn:E. eexists. split; [done|].
    destruct (mul_finish r I F f true L l i) as [Hd Hm]; try done. split; [done|]. split; [by right|done].
  - destruct (strip_words _ _) as [l i] eqn:E. eexists. split; [done|].
    destruct (mul_finish r I F f false L l i) as [Hd Hm]; try done. split; [done|]. split; [by right|done].
Qed.

(** ** Sizes *)

Section Sizes.
Context (a b : decimal_t) (Ha : decimal_ok a) (Hb : decimal_ok b) (L : Z) (HL : 0 < L).
Context (Hla : Z.of_nat (length (buf a)) <= L) (Hlb : Z.of_nat (length (buf b)) <= L).
Notation I := (ROUND_UP (intg a + intg b)).
Notation Fa := (Z.of_nat (frac_words a)).
Notation Fb := (Z.of_nat (frac_words b)).

Lemma mul_intg : 0 <= I /\ I <= Z.of_nat (intg_words a) + Z.of_nat (intg_words b) <= I + 1.
Proof using Ha Hb.
  pose proof (dok_intg _ Ha) as H1. pose proof (dok_intg _ Hb) as H2.
  pose proof (ROUND_UP_bounds _ H1). pose proof (ROUND_UP_bounds _ H2).
  pose proof (ROUND_UP_bounds (intg a + intg b) ltac:(lia)). rewrite !intg_words_Z in * by done. lia.
Qed.

(** The fraction words of the result, and those of the factors that are not used *)
Definition mul_frac : Z := Z.min (Fa + Fb) (L - I).
Definition mul_excess : Z := Z.max 0 (I + Fa + Fb - L).

Definition mul_error : Z :=
  if L <? I then E_DEC_OVERFLOW else if L <? I + Fa + Fb then E_DEC_TRUNCATED else E_DEC_OK.

Lemma mul_fix :
  FIX_INTG_FRAC_ERROR L I (ROUND_UP (frac a) + ROUND_UP (frac b)) =
    (if L <? I then (L, 0, mul_error) else (I, mul_frac, mul_error)).
Proof using Ha Hb.
  clear Hla Hlb HL. rewrite !frac_words_Z by done. unfold FIX_INTG_FRAC_ERROR, mul_frac, mul_error.
  destruct (Z.ltb_spec L I); [by rewrite (proj2 (Z.ltb_lt _ _)) by lia|].
  rewrite !Z.add_assoc. destruct (Z.ltb_spec L (I + Fa + Fb)); repeat f_equal; lia.
Qed.

Lemma mul_sizes :
  I <= L ->
  exists g1 g2,
    factor_sizes a b I mul_frac mul_error = Some (ROUND_UP (intg a), g1, ROUND_UP (intg b), g2) /\
    cut_to a b (Z.to_nat mul_excess) Fa Fb g1 g2.
Proof using Ha Hb Hla Hlb.
  intros HI. pose proof mul_intg. rewrite (dok_length _ Ha) in Hla. rewrite (dok_length _ Hb) in Hlb.
  destruct (cut_fractions_spec a b Ha Hb (Z.to_nat mul_excess) Fa Fb) as (g1 & g2 & E & Hc);
    [unfold mul_excess; lia..|].
  exists g1, g2. split; [|done]. unfold factor_sizes, mul_error.
  rewrite (proj2 (Z.ltb_ge L I)), (proj2 (Z.ltb_ge I I)) by lia. rewrite !frac_words_Z by done.
  destruct (Z.ltb_spec L (I + Fa + Fb)) as [Hx|Hx].
  - change (E_DEC_TRUNCATED =? E_DEC_OK) with false. cbv iota.
    replace (Z.to_nat (Fa + Fb - mul_frac)) with (Z.to_nat mul_excess) by (unfold mul_frac, mul_excess; lia).
    by rewrite E.
  - change (E_DEC_OK =? E_DEC_OK) with true. cbv iota.
    replace (Z.to_nat mul_excess) with 0%nat in E by (unfold mul_excess; lia). simpl in E. by simplify_eq.
Qed.
End Sizes.

(** ** The product *)

Definition factors_ok (a b : decimal_t) (L : Z) : Prop :=
  decimal_ok a /\ decimal_ok b /\ 0 < L /\
  Z.of_nat (length (buf a)) <= L /\ Z.of_nat (length (buf b)) <= L.

Lemma decimal_mul_fits a b L :
  factors_ok a b L -> ROUND_UP (intg a + intg b) <= L ->
  exists r g1 g2, decimal_mul a b L = Some (mul_error a b L, r) /\ decimal_ok r /\
    cut_to a b (Z.to_nat (mul_excess a b L)) (Z.of_nat (frac_words a)) (Z.of_nat (frac_words b)) g1 g2 /\
    (value r == without_words (Z.to_nat (Z.of_nat (frac_words a) - g1)) a *
                without_words (Z.to_nat (Z.of_nat (frac_words b) - g2)) b)%Q.
Proof.
  intros (Ha & Hb & HL & Hla & Hlb) HI.
  destruct (mul_sizes a b Ha Hb L Hla Hlb HI) as (g1 & g2 & Es & Hc).
  destruct (mul_intg a b Ha Hb) as (HI0 & HI1).
  pose proof Hc as (Hg & Hg1 & Hg2 & Hz1 & Hz2 & _).
  assert (HF : mul_frac a b L = g1 + g2) by (unfold mul_frac, mul_excess in *; lia).
  assert (HF0 : 0 <= mul_frac a b L) by (unfold mul_frac; lia).
  destruct (factor_leading a g1 Ha Hz1 Hg1) as (E1 & W1 & L1).
  destruct (factor_leading b g2 Hb Hz2 Hg2) as (E2 & W2 & L2).
  pose proof (product_fits a b g1 g2 Ha Hb Hz1 Hg1 Hz2 Hg2 ltac:(lia)) as Hfit.
  destruct (mul_rows_exact (factor_words a (ROUND_UP (intg a)) g1)
    (replicate (Z.to_nat (ROUND_UP (intg a + intg b) + mul_frac a b L)) 0)
    (factor_words b (ROUND_UP (intg b)) g2)) as (acc & Em & Lacc & Wacc & Vacc);
    [apply words_ok_zeros|done|done|rewrite length_replicate; lia| |].
  { rewrite le_zeros, length_replicate, E1, E2, HF. lia. }
  rewrite length_replicate in Lacc. rewrite le_zeros, E1, E2 in Vacc.
  pose proof (dok_frac _ Ha) as Hfa. pose proof (dok_frac _ Hb) as Hfb.
  set (f := Z.min (frac a + frac b) (mul_frac a b L * 9)).
  assert (Hdiv : (10 ^ (9 * mul_frac a b L - f) | le acc)).
  { rewrite Vacc. by apply (product_digits a b g1 g2 (mul_frac a b L)); try done; unfold f; lia. }
  destruct (mul_end_spec (negb (Bool.eqb (sign a) (sign b))) acc (ROUND_UP (intg a + intg b))
    (mul_frac a b L) f (mul_error a b L) L) as (r & Er & Hr & Hsr & Hv); try done; try lia.
  exists r, g1, g2. split; [|split; [done|split; [done|]]].
  - unfold decimal_mul. rewrite mul_fix, (proj2 (Z.ltb_ge L _)), Es by done. simpl mbind. rewrite Em.
    simpl mbind. simpl negb. cbv iota.
    replace (if mul_error a b L =? E_DEC_OK then frac a + frac b
      else Z.min (frac a + frac b) (mul_frac a b L * DIG_PER_DEC1)) with f.
    { rewrite <- Er. apply mul_end_eq. }
    unfold f, mul_error, DIG_PER_DEC1. rewrite (proj2 (Z.ltb_ge L _)) by done.
    destruct (Z.ltb_spec L (ROUND_UP (intg a + intg b) + Z.of_nat (frac_words a) + Z.of_nat (frac_words b)));
      [done|]. change (E_DEC_OK =? E_DEC_OK) with true. cbv iota.
    pose proof (ROUND_UP_bounds _ Hfa). pose proof (ROUND_UP_bounds _ Hfb).
    rewrite !frac_words_Z in * by done. unfold mul_frac. lia.
  - apply (product_value a b r _ _ (Z.to_nat (mul_frac a b L))
      (leading a (Z.of_nat (intg_words a) + g1)) (leading b (Z.of_nat (intg_words b) + g2))); try done.
    + by apply leading_div.
    + by apply leading_div.
    + lia.
    + by rewrite Hv, Vacc.
Qed.

(** Without room for the integer part the loops stay inside their buffers. *)
Lemma decimal_mul_overflows a b L :
  factors_ok a b L -> L < ROUND_UP (intg a + intg b) ->
  exists r, decimal_mul a b L = Some (E_DEC_OVERFLOW, r).
Proof.
  intros (Ha & Hb & HL & Hla & Hlb) HI. destruct (mul_intg a b Ha Hb) as (HI0 & HI1).
  rewrite (dok_length _ Ha) in Hla. rewrite (dok_length _ Hb) in Hlb.
  unfold decimal_mul. rewrite mul_fix, (proj2 (Z.ltb_lt L _)) by done. unfold factor_sizes, mul_error.
  rewrite (proj2 (Z.ltb_lt L _)) by done. change (E_DEC_OVERFLOW =? E_DEC_OK) with false. cbv iota. simpl mbind.
  rewrite !intg_words_Z, Z.shiftr_div_pow2 by (done || lia). change (2 ^ 1) with 2.
  set (i := ROUND_UP (intg a + intg b) - L). pose proof (Z.div_mod i 2). pose proof (Z.mod_pos_bound i 2).
  assert (Hlen : forall d n, (length (factor_words d n 0) <= Z.to_nat n)%nat).
  { intros d n. unfold factor_words. rewrite length_rev, length_take. lia. }
  assert (Hok : forall d n, decimal_ok d -> words_ok (factor_words d n 0)).
  { intros d n Hd. unfold factor_words. apply words_ok_rev, words_ok_take, words_ok_drop, (dok_words _ Hd). }
  destruct (mul_rows_total (factor_words a (Z.of_nat (intg_words a) - i / 2) 0)
    (replicate (Z.to_nat (L + 0)) 0) (factor_words b (Z.of_nat (intg_words b) - (i - i / 2)) 0))
    as (acc & ok & -> & _); [apply words_ok_zeros|by apply Hok|by apply Hok| |].
  - rewrite length_replicate.
    pose proof (Hlen a (Z.of_nat (intg_words a) - i / 2)).
    pose proof (Hlen b (Z.of_nat (intg_words b) - (i - i / 2))). lia.
  - simpl mbind. destruct ok; simpl; [|by eauto]. destruct (_ && _); [by eauto|].
    destruct (strip_words _ _). by eauto.
Qed.

(** C27: [decimal_mul] of two well-formed numbers into a buffer of [L] words that could hold each of
    them never reads or writes outside of a buffer, and reports an overflow exactly if the integer
    words of the product do not fit.  Otherwise the result is well formed and is the product of the
    factors without as many of their last words as there are too many; it is the exact product if
    these words can be zero words, and so in particular whenever there is no error. *)
Theorem decimal_mul_correct a b L :
  factors_ok a b L ->
  exists r,
    decimal_mul a b L = Some (mul_error a b L, r) /\
    (mul_error a b L <> E_DEC_OVERFLOW ->
       decimal_ok r /\
       (exists k1 k2, Z.of_nat (k1 + k2) = mul_excess a b L /\
          (value r == without_words k1 a * without_words k2 b)%Q) /\
       (forall z1 z2, mul_excess a b L <= Z.of_nat (z1 + z2) ->
          (wpow z1 | magnitude a) -> (wpow z2 | magnitude b) -> (value r == value a * value b)%Q)).
Proof.
  intros Hok. destruct (Z.lt_ge_cases L (ROUND_UP (intg a + intg b))) as [HL|HL].
  - destruct (decimal_mul_overflows a b L Hok HL) as [r E]. exists r.
    unfold mul_error. rewrite (proj2 (Z.ltb_lt _ _) HL). by split.
  - destruct (decimal_mul_fits a b L Hok HL) as (r & g1 & g2 & E & Hr & Hc & Hv).
    destruct Hok as (Ha & Hb & _). exists r. split; [done|]. intros _. split; [done|].
    pose proof Hc as (Hg & Hg1 & Hg2 & Hz1 & Hz2 & Hexact). split.
    + eexists _, _. split; [|exact Hv]. unfold mul_excess in *. lia.
    + intros z1 z2 Hz D1 D2. rewrite Hv.
      destruct (Hexact z1 z2 ltac:(unfold mul_excess in *; lia)) as [E1 E2];
        [by rewrite leading_full|by rewrite leading_full|].
      rewrite leading_full in E1, E2 by done.
      by rewrite (without_zeros _ a _ Ha E1), (without_zeros _ b _ Hb E2).
Qed.

(** 12.5 times -3.000000000000000002 in three words *)
Lemma decimal_mul_correct_witness :
  exists r, decimal_mul (mk_decimal 2 1 3 false [12; 500000000])
              (mk_decimal 1 18 3 true [3; 0; 2]) 3 = Some (E_DEC_TRUNCATED, r) /\ decimal_ok r.
Proof.
  destruct (decimal_mul_correct (mk_decimal 2 1 3 false [12; 500000000])
    (mk_decimal 1 18 3 true [3; 0; 2]) 3) as (r & E & H).
  { repeat split; try done; try (by repeat constructor).
    - by exists 125.
    - by exists 3000000000000000002. }
  exists r. split; [exact E|]. by apply H.
Defined.
