(* ===== verification/DecimalInt.v ===== *)
(** * Decimals and integers

    strings/decimal.c: [ulonglong2decimal], [longlong2decimal], [decimal2ulonglong] and
    [decimal2longlong] with their rounding modes, and that they convert the values. *)

From S2P Require Import Prelude Decimal DecimalValue.

Definition ULONGLONG_MAX : Z := 2 ^ 64 - 1.
Definition LONGLONG_MIN : Z := - 2 ^ 63.
Definition LONGLONG_MAX : Z := 2 ^ 63 - 1.
Definition DIG_MASK : Z := 100000000.

Inductive decimal_round_mode := TRUNCATE | HALF_EVEN | HALF_UP | CEILING | FLOOR.

#[export] Instance decimal_round_mode_eq : EqDecision decimal_round_mode.
Proof. solve_decision. Defined.

(** ** From integers *)

(** The loop that counts words: the count and the most significant word.  64 bits are three words. *)
Fixpoint count_words (fuel : nat) (from intg1 : Z) : Z * Z :=
  match fuel with
  | S fuel' => if DIG_BASE <=? from then count_words fuel' (from / DIG_BASE) (intg1 + 1) else (intg1, from)
  | O => (intg1, from)
  end.

(** The loop that counts the digits of a word *)
Fixpoint count_digits (fuel : nat) (from intg : Z) : Z :=
  match fuel with
  | S fuel' => if from =? 0 then intg else count_digits fuel' (from / 10) (intg + 1)
  | O => intg
  end.

(** The loop that stores [n] words, least significant first *)
Fixpoint store_words (n : nat) (x : Z) : list Z :=
  match n with
  | S n' => let y := x / DIG_BASE in (x - y * DIG_BASE) :: store_words n' y
  | O => []
  end.

Definition ull2dec (from : Z) (sign : bool) (to_len : Z) : Z * decimal_t :=
  if from =? 0 then (E_DEC_OK, decimal_make_zero to_len)
  else
    let '(intg1, top) := count_words 3 from 1 in
    let '(intg1, error) := if to_len <? intg1 then (to_len, E_DEC_OVERFLOW) else (intg1, E_DEC_OK) in
    (error,
     mk_decimal (count_digits 10 top ((intg1 - 1) * DIG_PER_DEC1)) 0 to_len sign
       (rev (store_words (Z.to_nat intg1) from))).

Definition ulonglong2decimal (from to_len : Z) : Z * decimal_t := ull2dec from false to_len.

Definition longlong2decimal (from to_len : Z) : Z * decimal_t :=
  if from <? 0 then
    if from =? LONGLONG_MIN then ull2dec (2 ^ 63) true to_len else ull2dec (- from) true to_len
  else ull2dec from false to_len.

(** ** To integers *)

(** The loop over the integer words; [None] if the number is greater than any integer *)
Fixpoint ull_words (l : list Z) (x : Z) : option Z :=
  match l with
  | w :: l' =>
      if (ULONGLONG_MAX / DIG_BASE <=? x) &&
         ((ULONGLONG_MAX / DIG_BASE <? x) || (ULONGLONG_MAX mod DIG_BASE <? w))
      then None
      else ull_words l' (x * DIG_BASE + w)
  | [] => Some x
  end.

(** The same on minus the number *)
Fixpoint ll_words (l : list Z) (x : Z) : option Z :=
  match l with
  | w :: l' =>
      if (x <=? LONGLONG_MIN ÷ DIG_BASE) &&
         ((x <? LONGLONG_MIN ÷ DIG_BASE) || (- Z.rem LONGLONG_MIN DIG_BASE <? w))
      then None
      else ll_words l' (x * DIG_BASE - w)
  | [] => Some x
  end.

(** The loop over the fraction words: it ends with a positive [frac] at a word that is not zero *)
Fixpoint skip_zero_frac (l : list Z) (frac : Z) : Z :=
  match l with
  | w :: l' => if (0 <? frac) && (w =? 0) then skip_zero_frac l' (frac - DIG_PER_DEC1) else frac
  | [] => frac
  end.

Definition int_words (d : decimal_t) : list Z := take (Z.to_nat (ROUND_UP (intg d))) (buf d).
Definition fraction_words (d : decimal_t) : list Z := drop (Z.to_nat (ROUND_UP (intg d))) (buf d).

(** The value that is returned and the error *)
Definition decimal2ulonglong (from : decimal_t) (mode : decimal_round_mode) : Z * Z :=
  if sign from then (0, E_DEC_OVERFLOW)
  else
    match ull_words (int_words from) 0 with
    | None => (ULONGLONG_MAX, E_DEC_OVERFLOW)
    | Some x =>
        if 0 <? frac from then
          let first := nth 0 (fraction_words from) 0 in
          let frac' := skip_zero_frac (fraction_words from) (frac from) in
          let carry :=
            match mode with
            | HALF_UP => 5 * DIG_MASK <=? first
            | HALF_EVEN => (6 - x mod 2) * DIG_MASK <=? first
            | CEILING => 0 <? frac'
            | FLOOR | TRUNCATE => false
            end in
          let error := if 0 <? frac' then E_DEC_TRUNCATED else E_DEC_OK in
          if carry then if x =? ULONGLONG_MAX then (x, E_DEC_OVERFLOW) else (x + 1, error)
          else (x, error)
        else (x, E_DEC_OK)
    end.

Definition decimal2longlong (from : decimal_t) (mode : decimal_round_mode) : Z * Z :=
  let border := if sign from then LONGLONG_MIN else LONGLONG_MAX in
  match ll_words (int_words from) 0 with
  | None => (border, E_DEC_OVERFLOW)
  | Some x =>
      let first := nth 0 (fraction_words from) 0 in
      let frac' := if 0 <? frac from then skip_zero_frac (fraction_words from) (frac from) else frac from in
      let carry :=
        (0 <? frac from) &&
        match mode with
        | HALF_UP => 5 * DIG_MASK <=? first
        | HALF_EVEN => (6 - Z.rem x 2) * DIG_MASK <=? first
        | CEILING => (0 <? frac') && negb (sign from)
        | FLOOR => (0 <? frac') && sign from
        | TRUNCATE => false
        end in
      if carry && (x =? LONGLONG_MIN) then (border, E_DEC_OVERFLOW)
      else
        let x := if carry then x - 1 else x in
        if negb (sign from) && (x =? LONGLONG_MIN) then (LONGLONG_MAX, E_DEC_OVERFLOW)
        else ((if sign from then x else - x), if 0 <? frac' then E_DEC_TRUNCATED else E_DEC_OK)
  end.

(** ** Numbers from integers *)

Lemma count_words_spec from :
  0 < from < wpow 3 ->
  exists n top, count_words 3 from 1 = (Z.of_nat n + 1, top) /\ (n <= 2)%nat /\
    top = from / wpow n /\ 0 < top < DIG_BASE.
Proof.
  intros H. change (wpow 3) with (DIG_BASE * (DIG_BASE * DIG_BASE)) in H. simpl.
  assert (Hd : forall x y, DIG_BASE <= x < DIG_BASE * y -> 0 < x / DIG_BASE < y).
  { intros x y Hx. split; [apply Z.div_str_pos; unfold DIG_BASE in *; lia|].
    apply Z.div_lt_upper_bound; [done|lia]. }
  destruct (Z.leb_spec DIG_BASE from) as [H1|H1].
  2: { exists 0%nat, from. rewrite wpow_0, Z.div_1_r. split; [done|]. split; [lia|]. split; [done|lia]. }
  pose proof (Hd from _ (conj H1 (proj2 H))) as H2. destruct (Z.leb_spec DIG_BASE (from / DIG_BASE)) as [H3|H3].
  2: { exists 1%nat, (from / DIG_BASE). rewrite wpow_S, wpow_0, Z.mul_1_r.
       split; [done|]. split; [lia|]. split; [done|lia]. }
  pose proof (Hd _ _ (conj H3 (proj2 H2))) as H4.
  rewrite (proj2 (Z.leb_gt _ _)) by lia. exists 2%nat, (from / DIG_BASE / DIG_BASE).
  split; [done|]. split; [lia|]. rewrite !wpow_S, wpow_0, Z.mul_1_r, Z.div_div by done.
  split; [done|]. rewrite <- Z.div_div by done. lia.
Qed.

Lemma count_digits_spec fuel : forall from i,
  0 <= from < 10 ^ Z.of_nat fuel ->
  exists k, count_digits fuel from i = i + k /\ 0 <= k <= Z.of_nat fuel /\ from < 10 ^ k /\
    (from = 0 -> k = 0) /\ (0 < from -> 0 < k /\ 10 ^ (k - 1) <= from).
Proof.
  induction fuel as [|fuel IH]; intros from i H.
  - exists 0. simpl in *. lia.
  - simpl. destruct (Z.eqb_spec from 0) as [-> |Hne].
    { exists 0. split; [lia|]. split; [lia|]. split; [done|]. split; [done|lia]. }
    rewrite Nat2Z.inj_succ, Z.pow_succ_r in H by lia.
    destruct (IH (from / 10) (i + 1)) as (k & -> & Hk & Hlt & Hz & Hge).
    { split; [apply Z.div_pos; lia|apply Z.div_lt_upper_bound; lia]. }
    pose proof (Z.div_mod from 10 ltac:(done)). pose proof (Z.mod_pos_bound from 10 ltac:(done)).
    exists (k + 1). split; [lia|]. split; [lia|]. rewrite Z.pow_add_r by lia. split; [lia|].
    split; [done|]. intros _. split; [lia|]. replace (k + 1 - 1) with k by lia.
    destruct (Z.eq_dec (from / 10) 0) as [E|E].
    + rewrite (Hz E). simpl. lia.
    + destruct Hge as [Hk0 Hge]; [lia|]. replace k with (1 + (k - 1)) by lia.
      rewrite Z.pow_add_r by lia. lia.
Qed.

Lemma store_words_spec n : forall x,
  0 <= x ->
  length (store_words n x) = n /\ words_ok (store_words n x) /\ le (store_words n x) = x mod wpow n.
Proof.
  induction n as [|n IH]; intros x Hx; simpl.
  - split; [done|]. split; [constructor|]. by rewrite wpow_0, Z.mod_1_r.
  - pose proof (Z.div_mod x DIG_BASE ltac:(done)) as Hd. pose proof (Z.mod_pos_bound x DIG_BASE ltac:(done)).
    destruct (IH (x / DIG_BASE)) as (Hl & Hw & Hv); [by apply Z.div_pos|].
    split; [lia|]. split; [apply words_ok_cons; split; [unfold word_ok; lia|done]|].
    rewrite Hv, wpow_S, Z.rem_mul_r by (done || pose proof (wpow_pos n); lia). lia.
Qed.

Lemma ull2dec_spec from s L :
  0 < from < wpow 3 -> 3 <= L ->
  exists d, ull2dec from s L = (E_DEC_OK, d) /\ decimal_ok d /\ frac d = 0 /\
    magnitude d = from /\ sign d = s /\ 10 ^ (intg d - 1) <= from < 10 ^ intg d.
Proof.
  intros H HL. unfold ull2dec. rewrite (proj2 (Z.eqb_neq _ _)) by lia.
  destruct (count_words_spec from H) as (n & top & -> & Hn & Et & Htop).
  rewrite (proj2 (Z.ltb_ge L _)) by lia. rewrite Z.add_simpl_r.
  destruct (count_digits_spec 10 top (Z.of_nat n * DIG_PER_DEC1)) as (k & -> & Hk & Hlt & _ & Hge).
  { change (10 ^ Z.of_nat 10) with (DIG_BASE * 10). lia. }
  destruct (Hge (proj1 Htop)) as [Hk0 Hge'].
  replace (Z.to_nat (Z.of_nat n + 1)) with (S n) by lia.
  destruct (store_words_spec (S n) from ltac:(lia)) as (Hl & Hw & Hv).
  remember (store_words (S n) from) as sw eqn:Esw. clear Esw.
  pose proof (wpow_pos n) as Hp. pose proof (Z.div_mod from (wpow n) ltac:(lia)) as Hdm.
  pose proof (Z.mod_pos_bound from (wpow n) Hp). rewrite <- Et in Hdm.
  assert (Hfrom : from < wpow (S n)) by (rewrite wpow_S; nia). rewrite Z.mod_small in Hv by lia.
  assert (Hk9 : k <= 9).
  { destruct (Z.le_gt_cases k 9) as [|Hgt]; [done|]. pose proof (Z.pow_le_mono_r 10 9 (k - 1) ltac:(done) ltac:(lia)).
    change (10 ^ 9) with DIG_BASE in *. lia. }
  set (i := Z.of_nat n * DIG_PER_DEC1 + k). unfold DIG_PER_DEC1 in *.
  assert (Hbound : 10 ^ (i - 1) <= from < 10 ^ i).
  { unfold i. replace (Z.of_nat n * 9 + k - 1) with (9 * Z.of_nat n + (k - 1)) by lia.
    replace (Z.of_nat n * 9 + k) with (9 * Z.of_nat n + k) by lia.
    rewrite !Z.pow_add_r, <- wpow_10 by lia. nia. }
  eexists. split; [done|]. unfold magnitude. simpl. rewrite rev_involutive, Hv.
  split; [|done]. constructor; simpl; try (unfold magnitude; simpl; rewrite rev_involutive, Hv).
  - unfold i. lia.
  - done.
  - rewrite length_rev, Hl. unfold intg_words, frac_words. simpl.
    rewrite (ROUND_UP_unique i (Z.of_nat n + 1)) by (unfold i; lia). change (ROUND_UP 0) with 0. lia.
  - by apply words_ok_rev.
  - unfold frac_words. simpl. change (wpow (Z.to_nat (ROUND_UP 0))) with 1. lia.
  - change (9 * _ - 0) with 0. apply Z.divide_1_l.
  - intros _. lia.
Qed.

(** ** Integers from numbers *)

Lemma ull_words_spec l : forall x,
  words_ok l -> 0 <= x ->
  x <= ULONGLONG_MAX ->
  ull_words l x =
    let v := x * wpow (length l) + le (rev l) in if v <=? ULONGLONG_MAX then Some v else None.
Proof.
  induction l as [|w l IH]; intros x Hok Hx Hmax.
  - simpl. rewrite wpow_0. replace (x * 1 + 0) with x by lia. by rewrite (proj2 (Z.leb_le _ _) Hmax).
  - apply words_ok_cons in Hok as [Hw Hok]. simpl ull_words. simpl length.
    rewrite be_cons, wpow_S. pose proof (be_bound l Hok) as Hb. pose proof (wpow_pos (length l)) as Hp.
    replace (x * (DIG_BASE * wpow (length l)) + (w * wpow (length l) + le (rev l)))
      with ((x * DIG_BASE + w) * wpow (length l) + le (rev l)) by ring.
    unfold word_ok in Hw.
    assert (Ho : ((ULONGLONG_MAX / DIG_BASE <=? x) &&
      ((ULONGLONG_MAX / DIG_BASE <? x) || (ULONGLONG_MAX mod DIG_BASE <? w))) =
      (ULONGLONG_MAX <? x * DIG_BASE + w)).
    { pose proof (Z.div_mod ULONGLONG_MAX DIG_BASE ltac:(done)) as Hd.
      pose proof (Z.mod_pos_bound ULONGLONG_MAX DIG_BASE ltac:(done)).
      set (q := ULONGLONG_MAX / DIG_BASE) in *. set (r := ULONGLONG_MAX mod DIG_BASE) in *.
      clearbody q r. rewrite Hd. unfold DIG_BASE in *.
      destruct (Z.leb_spec q x), (Z.ltb_spec q x), (Z.ltb_spec r w),
        (Z.ltb_spec (1000000000 * q + r) (x * 1000000000 + w)); simpl; lia. }
    rewrite Ho. cbv zeta. destruct (Z.ltb_spec ULONGLONG_MAX (x * DIG_BASE + w)) as [H|H].
    + rewrite (proj2 (Z.leb_gt _ _)); [done|]. nia.
    + rewrite IH; [done|done|unfold DIG_BASE in *; lia|done].
Qed.

Lemma ll_words_spec l : forall x,
  words_ok l -> 0 <= x -> x <= 2 ^ 63 ->
  ll_words l (- x) = let v := x * wpow (length l) + le (rev l) in if v <=? 2 ^ 63 then Some (- v) else None.
Proof.
  induction l as [|w l IH]; intros x Hok Hx Hmax.
  - simpl ll_words. change (length []) with 0%nat. rewrite wpow_0. change (le (rev [])) with 0.
    replace (x * 1 + 0) with x by lia. cbv zeta. by rewrite (proj2 (Z.leb_le _ _) Hmax).
  - apply words_ok_cons in Hok as [Hw Hok]. simpl ll_words. simpl length.
    rewrite be_cons, wpow_S. pose proof (be_bound l Hok) as Hb. pose proof (wpow_pos (length l)) as Hp.
    replace (x * (DIG_BASE * wpow (length l)) + (w * wpow (length l) + le (rev l)))
      with ((x * DIG_BASE + w) * wpow (length l) + le (rev l)) by ring.
    unfold word_ok in Hw.
    change (LONGLONG_MIN ÷ DIG_BASE) with (-9223372036).
    change (- Z.rem LONGLONG_MIN DIG_BASE) with 854775808.
    assert (Ho : ((- x <=? -9223372036) && ((- x <? -9223372036) || (854775808 <? w))) =
      (2 ^ 63 <? x * DIG_BASE + w)).
    { unfold DIG_BASE in *. destruct (Z.leb_spec (- x) (-9223372036)), (Z.ltb_spec (- x) (-9223372036)),
        (Z.ltb_spec 854775808 w), (Z.ltb_spec (2 ^ 63) (x * 1000000000 + w)); simpl; lia. }
    rewrite Ho. cbv zeta. destruct (Z.ltb_spec (2 ^ 63) (x * DIG_BASE + w)) as [H|H].
    + rewrite (proj2 (Z.leb_gt _ _)); [done|]. nia.
    + replace (- x * DIG_BASE - w) with (- (x * DIG_BASE + w)) by ring.
      rewrite IH; [done|done|unfold DIG_BASE in *; lia|done].
Qed.

Lemma skip_zero_frac_spec l : forall f,
  words_ok l -> 0 < f -> f <= 9 * Z.of_nat (length l) < f + 9 ->
  (0 <? skip_zero_frac l f) = negb (le (rev l) =? 0).
Proof.
  induction l as [|w l IH]; intros f Hok Hf Hl; simpl length in Hl; [simpl in Hl; lia|].
  apply words_ok_cons in Hok as [Hw Hok]. pose proof (be_bound l Hok). pose proof (wpow_pos (length l)).
  rewrite be_cons. simpl skip_zero_frac. rewrite (proj2 (Z.ltb_lt 0 f)) by done. simpl.
  destruct (Z.eqb_spec w 0) as [-> |Hne].
  - rewrite Z.mul_0_l, Z.add_0_l. unfold DIG_PER_DEC1. destruct (Z.lt_ge_cases 0 (f - 9)) as [H9|H9].
    + apply IH; [done|done|lia].
    + destruct l as [|y l]; [|simpl length in Hl; lia]. simpl. by rewrite (proj2 (Z.ltb_ge _ _)).
  - unfold word_ok in Hw. rewrite (proj2 (Z.ltb_lt 0 f)) by done.
    by rewrite (proj2 (Z.eqb_neq _ _)) by nia.
Qed.

(** The first fraction word decides on tenths. *)
Lemma first_word_tenths l t :
  words_ok l -> l <> [] -> 0 <= t <= 10 ->
  (t * DIG_MASK <=? nth 0 l 0) = (t * wpow (length l) <=? 10 * le (rev l)).
Proof.
  intros Hok Hne Ht. destruct l as [|w l]; [done|]. apply words_ok_cons in Hok as [Hw Hok].
  pose proof (be_bound l Hok). pose proof (wpow_pos (length l)). rewrite be_cons. simpl length. simpl nth.
  rewrite wpow_S. change DIG_BASE with (10 * DIG_MASK).
  replace (t * (10 * DIG_MASK * wpow (length l))) with (10 * (t * DIG_MASK) * wpow (length l)) by ring.
  set (m := t * DIG_MASK). destruct (Z.leb_spec m w) as [H1|H1]; symmetry.
  - apply Z.leb_le. nia.
  - apply Z.leb_gt. nia.
Qed.

(** ** Rounding *)

Definition int_part (d : decimal_t) : Z := magnitude d / wpow (frac_words d).
Definition frac_part (d : decimal_t) : Z := magnitude d mod wpow (frac_words d).

(** Whether the absolute value is rounded up.  [tenths] is the limit for HALF_EVEN. *)
Definition rounds_up (tenths : Z) (mode : decimal_round_mode) (d : decimal_t) : bool :=
  match mode with
  | HALF_UP => wpow (frac_words d) <=? 2 * frac_part d
  | HALF_EVEN => tenths * wpow (frac_words d) <=? 10 * frac_part d
  | CEILING => negb (frac_part d =? 0) && negb (sign d)
  | FLOOR => negb (frac_part d =? 0) && sign d
  | TRUNCATE => false
  end.

Definition inexact (d : decimal_t) : Z := if frac_part d =? 0 then E_DEC_OK else E_DEC_TRUNCATED.

Lemma decimal_parts d :
  decimal_ok d ->
  words_ok (int_words d) /\ words_ok (fraction_words d) /\ length (fraction_words d) = frac_words d /\
  le (rev (int_words d)) = int_part d /\ le (rev (fraction_words d)) = frac_part d.
Proof.
  intros Hd. pose proof (dok_words _ Hd) as Hw. pose proof (dok_length _ Hd) as Hl.
  unfold int_words, fraction_words. fold (intg_words d).
  assert (Hf : length (drop (intg_words d) (buf d)) = frac_words d) by (rewrite length_drop; lia).
  pose proof (be_bound _ (words_ok_drop (intg_words d) _ Hw)) as Hb. rewrite Hf in Hb.
  assert (Hm : magnitude d = le (rev (take (intg_words d) (buf d))) * wpow (frac_words d) +
    le (rev (drop (intg_words d) (buf d)))).
  { unfold magnitude. rewrite <- (take_drop (intg_words d) (buf d)) at 1.
    rewrite rev_app_distr, le_app, length_rev, Hf. lia. }
  pose proof (wpow_pos (frac_words d)). unfold int_part, frac_part. rewrite Hm.
  split; [by apply words_ok_take|]. split; [by apply words_ok_drop|]. split; [done|].
  rewrite Z.div_add_l, Z.div_small by lia.
  rewrite (Z.add_comm (_ * _)), Z.mod_add, Z.mod_small by lia. lia.
Qed.

Lemma frac_part_0 d : decimal_ok d -> frac d <= 0 -> frac_part d = 0 /\ wpow (frac_words d) = 1.
Proof.
  intros Hd Hf. pose proof (dok_frac _ Hd). assert (E : frac d = 0) by lia. unfold frac_part, frac_words.
  rewrite E. change (wpow (Z.to_nat (ROUND_UP 0))) with 1. by rewrite Z.mod_1_r.
Qed.

(** What the code looks at in the fraction words *)
Lemma fraction_tests d t :
  decimal_ok d -> 0 < frac d -> 0 <= t <= 10 ->
  (0 <? skip_zero_frac (fraction_words d) (frac d)) = negb (frac_part d =? 0) /\
  (t * DIG_MASK <=? nth 0 (fraction_words d) 0) = (t * wpow (frac_words d) <=? 10 * frac_part d).
Proof.
  intros Hd Hf Ht. destruct (decimal_parts d Hd) as (_ & Hw & Hl & _ & Hv).
  pose proof (ROUND_UP_bounds (frac d) ltac:(lia)) as HR. rewrite frac_words_Z in HR by done.
  rewrite skip_zero_frac_spec, first_word_tenths, Hv, Hl by (done || lia || (intros E; rewrite E in Hl; simpl in Hl; lia)).
  done.
Qed.

Lemma half_up d : (5 * wpow (frac_words d) <=? 10 * frac_part d) = (wpow (frac_words d) <=? 2 * frac_part d).
Proof. destruct (Z.leb_spec (5 * wpow (frac_words d)) (10 * frac_part d)); symmetry; [apply Z.leb_le|apply Z.leb_gt]; lia. Qed.

Lemma decimal2ulonglong_spec d mode :
  decimal_ok d ->
  decimal2ulonglong d mode =
    let n := int_part d + (if rounds_up (if Z.odd (int_part d) then 5 else 6) mode d then 1 else 0) in
    if sign d then (0, E_DEC_OVERFLOW)
    else if n <=? ULONGLONG_MAX then (n, inexact d) else (ULONGLONG_MAX, E_DEC_OVERFLOW).
Proof.
  intros Hd. unfold decimal2ulonglong. cbv zeta. destruct (sign d) eqn:Es; [done|].
  destruct (decimal_parts d Hd) as (Hwi & _ & _ & Hi & _).
  rewrite ull_words_spec by (done || lia). cbv zeta. rewrite Z.mul_0_l, Z.add_0_l, Hi.
  assert (H0 : 0 <= int_part d) by (rewrite <- Hi; apply (be_bound _ Hwi)).
  destruct (Z.leb_spec (int_part d) ULONGLONG_MAX) as [Hn|Hn].
  2: { destruct (rounds_up _ _ _); by rewrite (proj2 (Z.leb_gt _ _)) by lia. }
  unfold inexact. destruct (Z.ltb_spec 0 (frac d)) as [Hf|Hf].
  - set (carry := match mode with HALF_UP => _ | _ => _ end).
    assert (Hc : carry = rounds_up (if Z.odd (int_part d) then 5 else 6) mode d).
    { unfold carry. rewrite Zmod_odd. destruct (fraction_tests d 5 Hd Hf ltac:(lia)) as [-> T5].
      destruct (fraction_tests d 6 Hd Hf ltac:(lia)) as [_ T6]. rewrite half_up in T5.
      destruct mode; simpl rounds_up; rewrite ?Es, ?andb_true_r, ?andb_false_r; try done.
      destruct (Z.odd (int_part d)); [|exact T6]. by rewrite half_up. }
    rewrite Hc. clear carry Hc. destruct (fraction_tests d 5 Hd Hf ltac:(lia)) as [-> _].
    destruct (rounds_up _ _ _); [|rewrite Z.add_0_r, (proj2 (Z.leb_le _ _) Hn); by destruct (frac_part d =? 0)].
    destruct (Z.eqb_spec (int_part d) ULONGLONG_MAX) as [-> |]; [done|].
    rewrite (proj2 (Z.leb_le _ _)) by lia. by destruct (frac_part d =? 0).
  - destruct (frac_part_0 d Hd Hf) as [E0 E1].
    replace (rounds_up _ _ _) with false.
    + by rewrite E0, Z.add_0_r, (proj2 (Z.leb_le _ _) Hn).
    + unfold rounds_up. rewrite E0, E1. destruct mode; try done. by destruct (Z.odd (int_part d)).
Qed.

Lemma decimal2longlong_spec d mode :
  decimal_ok d ->
  decimal2longlong d mode =
    let n := int_part d + (if rounds_up (if Z.odd (int_part d) then 7 else 6) mode d then 1 else 0) in
    let v := if sign d then - n else n in
    if (LONGLONG_MIN <=? v) && (v <=? LONGLONG_MAX) then (v, inexact d)
    else ((if sign d then LONGLONG_MIN else LONGLONG_MAX), E_DEC_OVERFLOW).
Proof.
  intros Hd. unfold decimal2longlong. destruct (decimal_parts d Hd) as (Hwi & _ & _ & Hi & _).
  change 0 with (- 0) at 1. rewrite ll_words_spec by (done || lia). cbv zeta. rewrite Z.mul_0_l, Z.add_0_l, Hi.
  assert (H0 : 0 <= int_part d) by (rewrite <- Hi; apply (be_bound _ Hwi)).
  unfold LONGLONG_MIN, LONGLONG_MAX.
  destruct (Z.leb_spec (int_part d) (2 ^ 63)) as [Hn|Hn].
  2: { set (up := if rounds_up _ _ _ then 1 else 0).
       assert (0 <= up) by (unfold up; by destruct (rounds_up _ _ _)). destruct (sign d).
       - by rewrite (proj2 (Z.leb_gt (- 2 ^ 63) _)) by lia.
       - by rewrite (proj2 (Z.leb_gt _ (2 ^ 63 - 1))), andb_false_r by lia. }
  set (carry := (0 <? frac d) && _).
  assert (Hc : carry = rounds_up (if Z.odd (int_part d) then 7 else 6) mode d).
  { unfold carry. rewrite Z.rem_opp_l, Z.rem_mod_nonneg, Zmod_odd by lia.
    destruct (Z.ltb_spec 0 (frac d)) as [Hf|Hf]; simpl andb.
    - destruct (fraction_tests d 5 Hd Hf ltac:(lia)) as [-> T5].
      destruct (fraction_tests d 6 Hd Hf ltac:(lia)) as [_ T6].
      destruct (fraction_tests d 7 Hd Hf ltac:(lia)) as [_ T7]. rewrite half_up in T5.
      destruct mode; simpl rounds_up; try done. by destruct (Z.odd (int_part d)).
    - destruct (frac_part_0 d Hd Hf) as [E0 E1]. unfold rounds_up. rewrite E0, E1.
      destruct mode; try done. by destruct (Z.odd (int_part d)). }
  rewrite Hc. clear carry Hc.
  replace (if 0 <? (if 0 <? frac d then _ else _) then E_DEC_TRUNCATED else E_DEC_OK) with (inexact d).
  2: { unfold inexact. destruct (Z.ltb_spec 0 (frac d)) as [Hf|Hf].
       - destruct (fraction_tests d 5 Hd Hf ltac:(lia)) as [-> _]. by destruct (frac_part d =? 0).
       - destruct (frac_part_0 d Hd Hf) as [-> _]. by rewrite (proj2 (Z.ltb_ge _ _)). }
  set (up := rounds_up _ _ _). clearbody up. set (n := int_part d) in *. clearbody n.
  destruct up, (sign d); simpl andb; simpl negb; cbv iota;
    repeat match goal with |- context [?x =? ?y] => destruct (Z.eqb_spec x y) end;
    repeat match goal with |- context [?x <=? ?y] => destruct (Z.leb_spec x y) end;
    simpl; try lia; f_equal; lia.
Qed.

(** ** Round trip *)

Lemma int_part_whole d : decimal_ok d -> frac d = 0 -> int_part d = magnitude d /\ frac_part d = 0.
Proof.
  intros Hd Hf. destruct (frac_part_0 d Hd ltac:(lia)) as [E0 E1]. unfold int_part. by rewrite E1, Z.div_1_r.
Qed.

Lemma rounds_up_whole t mode d :
  0 < t -> decimal_ok d -> frac d = 0 -> rounds_up t mode d = false /\ inexact d = E_DEC_OK.
Proof.
  intros Ht Hd Hf. destruct (frac_part_0 d Hd ltac:(lia)) as [E0 E1]. unfold rounds_up, inexact.
  rewrite E0, E1. split; [|done]. destruct mode; try done. apply Z.leb_gt. lia.
Qed.

(** A decimal that is made of an integer stands for it. *)
Definition represents (d : decimal_t) (v : Z) : Prop :=
  decimal_ok d /\ frac d = 0 /\ signed d = v.

Lemma ull2dec_represents from s L :
  0 <= from < wpow 3 -> 3 <= L -> (s = true -> from <> 0) ->
  exists d, ull2dec from s L = (E_DEC_OK, d) /\ represents d (if s then - from else from).
Proof.
  intros Hf HL Hs. destruct (Z.eq_dec from 0) as [-> |Hne].
  - exists (decimal_make_zero L). destruct s; [by destruct Hs|]. split; [done|].
    split; [|done]. constructor; try done; [constructor; [done|constructor]|by exists 0].
  - destruct (ull2dec_spec from s L ltac:(lia) HL) as (d & E & Hok & Hfr & Hm & Hsd & _).
    exists d. split; [done|]. split; [done|]. split; [done|]. unfold signed. by rewrite Hm, Hsd.
Qed.

Lemma longlong_represents v L :
  LONGLONG_MIN <= v <= LONGLONG_MAX -> 3 <= L ->
  exists d, longlong2decimal v L = (E_DEC_OK, d) /\ represents d v.
Proof.
  unfold LONGLONG_MIN, LONGLONG_MAX. intros Hv HL.
  assert (Hw : 2 ^ 63 < wpow 3) by done. unfold longlong2decimal, LONGLONG_MIN.
  destruct (Z.ltb_spec v 0); [destruct (Z.eqb_spec v (- 2 ^ 63)) as [-> |]|].
  - apply (ull2dec_represents (2 ^ 63) true); [lia|done|lia].
  - destruct (ull2dec_represents (- v) true L) as (d & E & Hd); [lia|done|lia|].
    exists d. split; [done|]. by replace v with (- - v) by lia.
  - apply (ull2dec_represents v false); [lia|done|done].
Qed.

Lemma represents_magnitude d v : represents d v -> magnitude d = Z.abs v /\ (sign d = true <-> v < 0).
Proof.
  intros (Hd & _ & Hs). pose proof (be_bound _ (dok_words _ Hd)) as [H0 _]. fold (magnitude d) in H0.
  pose proof (dok_sign _ Hd) as Hz. unfold signed in Hs. destruct (sign d); [specialize (Hz eq_refl)|]; lia.
Qed.

Lemma integer_decimal_roundtrip v L mode :
  3 <= L ->
  (LONGLONG_MIN <= v <= LONGLONG_MAX ->
     exists d, longlong2decimal v L = (E_DEC_OK, d) /\ represents d v /\
       decimal2longlong d mode = (v, E_DEC_OK)) /\
  (0 <= v <= ULONGLONG_MAX ->
     exists d, ulonglong2decimal v L = (E_DEC_OK, d) /\ represents d v /\
       decimal2ulonglong d mode = (v, E_DEC_OK)).
Proof.
  intros HL. split; intros Hv.
  - destruct (longlong_represents v L Hv HL) as (d & E & Hr). exists d. split; [done|]. split; [done|].
    destruct (represents_magnitude d v Hr) as [Hm Hs]. destruct Hr as (Hd & Hf & _).
    rewrite decimal2longlong_spec by done. destruct (int_part_whole d Hd Hf) as [-> _].
    destruct (rounds_up_whole (if Z.odd (magnitude d) then 7 else 6) mode d) as [-> ->];
      [by destruct (Z.odd _)|done|done|].
    cbv zeta. rewrite Z.add_0_r, Hm. destruct (sign d); destruct Hs as [Hs1 Hs2].
    + specialize (Hs1 eq_refl). replace (- Z.abs v) with v by lia.
      rewrite (proj2 (Z.leb_le LONGLONG_MIN v)), (proj2 (Z.leb_le v LONGLONG_MAX)) by lia. done.
    + assert (0 <= v) by (destruct (Z.lt_ge_cases v 0); [by discriminate Hs2|done]).
      rewrite Z.abs_eq by done.
      rewrite (proj2 (Z.leb_le LONGLONG_MIN v)), (proj2 (Z.leb_le v LONGLONG_MAX)) by lia. done.
  - destruct (ull2dec_represents v false L) as (d & E & Hr); [|done|done|].
    { assert (ULONGLONG_MAX < wpow 3) by done. lia. }
    exists d. split; [done|]. split; [done|].
    destruct (represents_magnitude d v Hr) as [Hm Hs]. destruct Hr as (Hd & Hf & _).
    rewrite decimal2ulonglong_spec by done. destruct (int_part_whole d Hd Hf) as [-> _].
    destruct (rounds_up_whole (if Z.odd (magnitude d) then 5 else 6) mode d) as [-> ->];
      [by destruct (Z.odd _)|done|done|].
    destruct (sign d); [lia|]. cbv zeta. rewrite Z.add_0_r, Hm, Z.abs_eq by lia.
    by rewrite (proj2 (Z.leb_le v ULONGLONG_MAX)) by lia.
Qed.

(** C28: [decimal2longlong] and [decimal2ulonglong] round the number by the given mode and return it,
    with [E_DEC_TRUNCATED] exactly if it was not whole; a result out of range gives the nearest
    integer and [E_DEC_OVERFLOW], and so does a negative number for the unsigned conversion (zero).
    The mode HALF_EVEN does not look for halves: it rounds up from .6 on for even numbers, and
    for odd ones from .5 on in the unsigned and from .7 on in the signed conversion.
    The other way, every 64-bit integer, signed or unsigned, becomes a well-formed decimal with that
    value in a buffer of three words or more, and is read back from it without an error in every
    rounding mode. *)
Theorem integer_conversion_correct :
  (forall d mode, decimal_ok d ->
   decimal2longlong d mode =
     (let n := int_part d + (if rounds_up (if Z.odd (int_part d) then 7 else 6) mode d then 1 else 0) in
      let v := if sign d then - n else n in
      if (LONGLONG_MIN <=? v) && (v <=? LONGLONG_MAX) then (v, inexact d)
      else ((if sign d then LONGLONG_MIN else LONGLONG_MAX), E_DEC_OVERFLOW)) /\
   decimal2ulonglong d mode =
     (let n := int_part d + (if rounds_up (if Z.odd (int_part d) then 5 else 6) mode d then 1 else 0) in
      if sign d then (0, E_DEC_OVERFLOW)
      else if n <=? ULONGLONG_MAX then (n, inexact d) else (ULONGLONG_MAX, E_DEC_OVERFLOW))) /\
  (forall v L mode, 3 <= L ->
   (LONGLONG_MIN <= v <= LONGLONG_MAX ->
      exists d, longlong2decimal v L = (E_DEC_OK, d) /\ represents d v /\
        decimal2longlong d mode = (v, E_DEC_OK)) /\
   (0 <= v <= ULONGLONG_MAX ->
      exists d, ulonglong2decimal v L = (E_DEC_OK, d) /\ represents d v /\
        decimal2ulonglong d mode = (v, E_DEC_OK))).
Proof.
  split; [|exact integer_decimal_roundtrip].
  intros d mode Hd. split; [by apply decimal2longlong_spec|by apply decimal2ulonglong_spec].
Qed.

(** 15.5 by HALF_EVEN is 15 as a signed number and 16 as an unsigned one; the least integer comes back. *)
Lemma integer_conversion_correct_witness :
  fst (decimal2longlong (mk_decimal 2 1 9 false [15; 500000000]) HALF_EVEN) = 15 /\
  fst (decimal2ulonglong (mk_decimal 2 1 9 false [15; 500000000]) HALF_EVEN) = 16 /\
  exists d, longlong2decimal LONGLONG_MIN 9 = (E_DEC_OK, d) /\ represents d LONGLONG_MIN /\
    decimal2longlong d HALF_UP = (LONGLONG_MIN, E_DEC_OK).
Proof.
  assert (Hd : decimal_ok (mk_decimal 2 1 9 false [15; 500000000])).
  { constructor; try done; [by repeat constructor|by exists 155]. }
  destruct integer_conversion_correct as [H1 H2]. destruct (H1 _ HALF_EVEN Hd) as [-> ->].
  split; [done|]. split; [done|]. apply (proj1 (H2 LONGLONG_MIN 9 HALF_UP ltac:(lia))). by vm_compute.
Defined.
