(* ===== verification/DecimalBin.v ===== *)
(** * The binary format of decimals

    strings/decimal.c: [decimal2bin], [bin2decimal] and the functions they use, with
    the big-endian integer access of include/myisampack.h.  Buffers are lists of
    bytes. *)

From S2P Require Import Prelude Bytes Decimal.

Definition power10 (i : Z) : Z := nth (Z.to_nat i) powers10 0.
Definition digit_bytes (i : Z) : Z := nth (Z.to_nat i) dig2bytes 0.

(** The loops of [remove_leading_zeroes]: whole zero words, then zero digits *)
Fixpoint skip_zero_words (l : list Z) (intg i : Z) : list Z * Z :=
  match l with
  | w :: l' =>
      if (0 <? intg) && (w =? 0) then skip_zero_words l' (intg - i) DIG_PER_DEC1 else (l, intg)
  | [] => (l, intg)
  end.

Fixpoint skip_zero_digits (w : Z) (i : nat) (intg : Z) : Z :=
  if w <? nth i powers10 0 then
    match i with
    | S i' => skip_zero_digits w i' (intg - 1)
    | O => intg - 1
    end
  else intg.

Definition remove_leading_zeroes (from : decimal_t) : list Z * Z :=
  let '(buf0, intg1) :=
    skip_zero_words (buf from) (intg from) (Z.rem (intg from - 1) DIG_PER_DEC1 + 1) in
  if 0 <? intg1
  then (buf0, skip_zero_digits (nth 0 buf0 0) (Z.to_nat ((intg1 - 1) mod DIG_PER_DEC1)) intg1)
  else (buf0, 0).

Definition decimal_intg (from : decimal_t) : Z := snd (remove_leading_zeroes from).

Definition decimal_bin_size (precision scale : Z) : Z :=
  let intg := precision - scale in
  let intg0 := intg / DIG_PER_DEC1 in
  let frac0 := scale / DIG_PER_DEC1 in
  let intg0x := intg - intg0 * DIG_PER_DEC1 in
  let frac0x := scale - frac0 * DIG_PER_DEC1 in
  intg0 * 4 + digit_bytes intg0x + frac0 * 4 + digit_bytes frac0x.

(** The inversion of the very first bit *)
Definition flip_first (l : list Z) : list Z :=
  match l with
  | x :: l' => Z.lxor x 128 :: l'
  | [] => []
  end.

(** The loop that takes as many digits as the bytes of the last field can hold *)
Fixpoint widen (fuel : nat) (frac1x lim i : Z) : Z :=
  match fuel with
  | S fuel' =>
      if (frac1x <? lim) && (digit_bytes frac1x =? i) then widen fuel' (frac1x + 1) lim i
      else frac1x
  | O => frac1x
  end.

(** The sizes of the integer part: the padding in front, the words from the first one
    to store on, and how many whole words and how many digits before them *)
Definition bin_intg (mask intg from_intg : Z) (buf1 : list Z) (intg0 intg0x isize0 : Z) :
    list Z * list Z * Z * Z * Z :=
  let intg1 := from_intg / DIG_PER_DEC1 in
  let intg1x := from_intg - intg1 * DIG_PER_DEC1 in
  let isize1 := intg1 * 4 + digit_bytes intg1x in
  if intg <? from_intg then
    let skip := intg1 - intg0 + (if 0 <? intg1x then 1 else 0) - (if 0 <? intg0x then 1 else 0) in
    ([], drop (Z.to_nat skip) buf1, intg0, intg0x, E_DEC_OVERFLOW)
  else if isize1 <? isize0 then
    (replicate (Z.to_nat (isize0 - isize1)) (Z.land mask 255), buf1, intg1, intg1x, E_DEC_OK)
  else ([], buf1, intg1, intg1x, E_DEC_OK).

(** The same for the fraction: how many whole words, how many digits after them, and
    the size up to which to pad *)
Definition bin_frac (error frac1 frac1x frac0 frac0x fsize0 fsize1 : Z) : Z * Z * Z * Z :=
  if fsize0 <? fsize1 then (frac0, frac0x, fsize0, E_DEC_TRUNCATED)
  else if (fsize1 <? fsize0) && negb (frac1x =? 0) then
    if frac0 =? frac1 then (frac1, frac0x, fsize1, error) else (frac1 + 1, 0, fsize0, error)
  else (frac1, frac1x, fsize0, error).

Definition decimal2bin (from : decimal_t) (precision frac0' : Z) : Z * list Z :=
  let mask := if sign from then -1 else 0 in
  let intg := precision - frac0' in
  let intg0 := intg / DIG_PER_DEC1 in
  let frac0 := frac0' / DIG_PER_DEC1 in
  let intg0x := intg - intg0 * DIG_PER_DEC1 in
  let frac0x := frac0' - frac0 * DIG_PER_DEC1 in
  let frac1 := frac from / DIG_PER_DEC1 in
  let frac1x := frac from - frac1 * DIG_PER_DEC1 in
  let isize0 := intg0 * 4 + digit_bytes intg0x in
  let fsize0 := frac0 * 4 + digit_bytes frac0x in
  let fsize1 := frac1 * 4 + digit_bytes frac1x in
  let '(buf1, from_intg) := remove_leading_zeroes from in
  let '(mask, intg, buf1) :=
    if from_intg + fsize1 =? 0 then (0, 1, [0]) else (mask, intg, buf1) in
  let '(ipad, buf1, intg1, intg1x, error) :=
    bin_intg mask intg from_intg buf1 intg0 intg0x isize0 in
  let '(frac1, frac1x, fsize0', error) :=
    bin_frac error frac1 frac1x frac0 frac0x fsize0 fsize1 in
  (* intg1x part *)
  let '(ix, buf1) :=
    if intg1x =? 0 then ([], buf1)
    else (mi_intstore (Z.to_nat (digit_bytes intg1x))
            (Z.lxor (nth 0 buf1 0 mod power10 intg1x) mask), drop 1 buf1) in
  (* intg1+frac1 part *)
  let n := Z.to_nat (intg1 + frac1) in
  let full := flat_map (fun w => mi_intstore 4 (Z.lxor w mask)) (take n buf1) in
  let buf1 := drop n buf1 in
  (* frac1x part *)
  let fx :=
    if frac1x =? 0 then []
    else
      let i := digit_bytes frac1x in
      let lim := if frac1 <? frac0 then DIG_PER_DEC1 else frac0x in
      mi_intstore (Z.to_nat i)
        (Z.lxor (nth 0 buf1 0 / power10 (DIG_PER_DEC1 - widen 9 frac1x lim i)) mask) in
  let to := ipad ++ ix ++ full ++ fx in
  let pad :=
    if fsize1 <? fsize0'
    then replicate (Z.to_nat (Z.min (fsize0' - fsize1) (fsize0 + isize0 - Z.of_nat (length to))))
           (Z.land mask 255)
    else [] in
  (error, flip_first (to ++ pad)).

(** Read [n] whole words; nothing if one is out of range *)
Fixpoint read_words (n : nat) (mask : Z) (from : list Z) : option (list Z * list Z) :=
  match n with
  | O => Some ([], from)
  | S n' =>
      let w := Z.lxor (mi_sintkorr (take 4 from)) mask in
      if DIG_MAX <? u32 w then None
      else
        match read_words n' mask (drop 4 from) with
        | Some (l, rest) => Some (w :: l, rest)
        | None => None
        end
  end.

(** The digits in front of the whole integer words, as a list of at most one word *)
Definition read_intg0x (intg0x mask : Z) (from : list Z) : option (list Z * list Z) :=
  if intg0x =? 0 then Some ([], from)
  else
    let i := Z.to_nat (digit_bytes intg0x) in
    let w := Z.lxor (mi_sintkorr (take i from)) mask in
    if power10 (intg0x + 1) <=? u64 w then None else Some ([w], drop i from).

(** The digits after the whole fraction words; the product is taken in 32 bits *)
Definition read_frac0x (frac0x mask : Z) (from : list Z) : option (list Z) :=
  if frac0x =? 0 then Some []
  else
    let i := Z.to_nat (digit_bytes frac0x) in
    let w := u32 (Z.lxor (mi_sintkorr (take i from)) mask * power10 (DIG_PER_DEC1 - frac0x)) in
    if DIG_MAX <? w then None else Some [w].

(** Leading zero words are not stored; each comes with the digits it stands for *)
Fixpoint store_intg (l : list (Z * Z)) (intg : Z) : list Z * Z :=
  match l with
  | (w, digits) :: l' => if w =? 0 then store_intg l' (intg - digits) else (map fst l, intg)
  | [] => ([], intg)
  end.

Definition bin2decimal (from : list Z) (to_len precision scale : Z) : Z * decimal_t :=
  let intg := precision - scale in
  let intg0 := intg / DIG_PER_DEC1 in
  let frac0 := scale / DIG_PER_DEC1 in
  let intg0x := intg - intg0 * DIG_PER_DEC1 in
  let frac0x := scale - frac0 * DIG_PER_DEC1 in
  let intg1 := intg0 + (if 0 <? intg0x then 1 else 0) in
  let frac1 := frac0 + (if 0 <? frac0x then 1 else 0) in
  let mask := if Z.land (nth 0 from 0) 128 =? 0 then -1 else 0 in
  let from := flip_first (take (Z.to_nat (decimal_bin_size precision scale)) from) in
  let '(intg1', frac1', error) := FIX_INTG_FRAC_ERROR to_len intg1 frac1 in
  let '(from, intg0, intg0x, frac0, frac0x) :=
    if error =? E_DEC_OK then (from, intg0, intg0x, frac0, frac0x)
    else if intg1' <? intg1 then
      (drop (Z.to_nat (digit_bytes intg0x + 4 * (intg0 - intg1'))) from, intg1', 0, 0, 0)
    else (from, intg0, intg0x, frac1', 0) in
  let result :=
    match read_intg0x intg0x mask from with
    | None => None
    | Some (x, from) =>
        match read_words (Z.to_nat intg0) mask from with
        | None => None
        | Some (iw, from) =>
            match read_words (Z.to_nat frac0) mask from with
            | None => None
            | Some (fw, from) =>
                match read_frac0x frac0x mask from with
                | None => None
                | Some fx =>
                    let '(stored, to_intg) :=
                      store_intg (map (fun w => (w, intg0x)) x ++
                                  map (fun w => (w, DIG_PER_DEC1)) iw)
                        (intg0 * DIG_PER_DEC1 + intg0x) in
                    Some (to_intg, stored ++ fw ++ fx)
                end
            end
        end
    end in
  match result with
  | None => (E_DEC_BAD_NUM, decimal_make_zero to_len)
  | Some (to_intg, words) =>
      let to_frac := frac0 * DIG_PER_DEC1 + frac0x in
      if (to_intg =? 0) && (to_frac =? 0) then (error, decimal_make_zero to_len)
      else (error, mk_decimal to_intg to_frac to_len (negb (mask =? 0)) words)
  end.
