(* ===== verification/DecimalRound.v ===== *)
(** * Decimal rounding

    [decimal_round] of strings/decimal.c.  The buffer of the result is a list of [len] words,
    which at first holds the words of the number and then words that do not matter ([rest]);
    a read or write outside of it makes the result [None].  [in_place] says that the result
    replaces the number itself. *)

From S2P Require Import Prelude Decimal DecimalMul DecimalInt DecimalBin.

Definition set_word (arr : list Z) (i v : Z) : option (list Z) :=
  if (0 <=? i) && (i <? Z.of_nat (length arr)) then Some (<[Z.to_nat i := v]> arr) else None.

Fixpoint zero_words (n : nat) (i : Z) (arr : list Z) : option (list Z) :=
  match n with
  | S n' => arr' ← set_word arr i 0; zero_words n' (i + 1) arr'
  | O => Some arr
  end.

(** The digit from which on the absolute value is rounded up *)
Definition round_digit (mode : decimal_round_mode) (sign : bool) : Z :=
  match mode with
  | HALF_UP | HALF_EVEN => 5
  | CEILING => if sign then 10 else 0
  | FLOOR => if sign then 0 else 10
  | TRUNCATE => 10
  end.

(** Whether one of the [n] words from [i] on is not zero *)
Fixpoint some_nonzero (n : nat) (i : Z) (arr : list Z) : option bool :=
  match n with
  | S n' => x ← read_word arr i; if x =? 0 then some_nonzero n' (i + 1) arr else Some true
  | O => Some false
  end.

(** Rounding at the border of two words: whether the word [i] is to be incremented *)
Definition border_increment (arr : list Z) (i n : Z) (mode : decimal_round_mode) (sign : bool)
    : option bool :=
  let d := round_digit mode sign in
  if d =? 0 then some_nonzero (Z.to_nat n) (i + 1) arr
  else if d =? 5 then
    w ← read_word arr (i + 1);
    let x := w / DIG_MASK in
    if 5 <? x then Some true
    else if x =? 5 then
      match mode with
      | HALF_UP => Some true
      | _ => if 0 <=? i then y ← read_word arr i; Some (Z.odd y) else Some false
      end
    else Some false
  else Some false.

(** Rounding inside the word [w], at the digit [pos] *)
Definition inside_word (w pos : Z) (mode : decimal_round_mode) (sign : bool) : Z :=
  let x := w / power10 pos in
  let y := x mod 10 in
  let x' := if (round_digit mode sign <? y) ||
               ((round_digit mode sign =? 5) && (y =? 5) &&
                (match mode with HALF_UP => true | _ => Z.odd (x / 10) end))
            then x + 10 else x in
  power10 pos * (x' - y).

(** The loop that carries one to the words before the index [n]: where it ends, and whether a carry
    is left *)
Fixpoint carry_left (n : nat) (arr : list Z) : option (list Z * Z * bool) :=
  match n with
  | O => Some (arr, -1, true)
  | S n' =>
      x ← arr !! n';
      let '(a, c) := ADD x 0 1 in
      let arr' := <[n' := a]> arr in
      if c =? 0 then Some (arr', Z.of_nat n', false) else carry_left n' arr'
  end.

(** The loop that moves the first [n] words by one *)
Fixpoint shift_words (n : nat) (arr : list Z) : option (list Z) :=
  match n with
  | O => Some arr
  | S n' => x ← arr !! n'; arr' ← set_word arr (Z.of_nat n) x; shift_words n' arr'
  end.

(** The loop back to a word that is not zero *)
Fixpoint last_nonzero (n : nat) (arr : list Z) : option (option nat) :=
  x ← arr !! n;
  if x =? 0 then match n with O => Some None | S n' => last_nonzero n' arr end else Some (Some n).

Definition used_words (to_intg to_frac : Z) (arr : list Z) : list Z :=
  take (Z.to_nat (ROUND_UP to_intg + ROUND_UP to_frac)) arr.

(** From the test for leading digits to the end; [i] is the index that [buf1] points to. *)
Definition round_end (arr : list Z) (i intg0 frac0 frac1 to_intg scale len error : Z) (sign : bool)
    : option (Z * decimal_t) :=
  arr ← (if frac0 <? frac1 then
           let start := if (scale =? 0) && (intg0 =? 0) then 1 else intg0 + frac0 in
           zero_words (Z.to_nat (len - start)) start arr
         else Some arr);
  let first_dig := to_intg mod DIG_PER_DEC1 in
  to_intg ← (if first_dig =? 0 then Some to_intg
             else x ← read_word arr i; Some (if power10 first_dig <=? x then to_intg + 1 else to_intg));
  let to_frac := Z.max scale 0 in
  Some (error, mk_decimal to_intg to_frac len sign (used_words to_intg to_frac arr)).

(** After the word [i] has been rounded: a carry, or the search for zero *)
Definition round_finish (arr : list Z) (i intg0 frac0 frac1 to_intg scale len error : Z) (sign : bool)
    : option (Z * decimal_t) :=
  w ← read_word arr i;
  if DIG_BASE <=? w then
    arr ← set_word arr i (w - DIG_BASE);
    '(arr, i, carry) ← carry_left (Z.to_nat i) arr;
    if carry : bool then
      let '(frac0, scale, error) :=
        if len <=? frac0 + intg0 then (frac0 - 1, (frac0 - 1) * DIG_PER_DEC1, E_DEC_TRUNCATED)
        else (frac0, scale, error) in
      arr ← shift_words (Z.to_nat (intg0 + Z.max frac0 0)) arr;
      arr ← set_word arr 0 1;
      round_end arr 0 (intg0 + 1) frac0 frac1 (to_intg + 1) scale len error sign
    else round_end arr i intg0 frac0 frac1 to_intg scale len error sign
  else
    n ← last_nonzero (Z.to_nat i) arr;
    match n with
    | Some n => round_end arr (Z.of_nat n) intg0 frac0 frac1 to_intg scale len error sign
    | None =>
        arr ← zero_words (Z.to_nat (frac0 + 1)) 0 arr;
        Some (E_DEC_OK, mk_decimal 1 (Z.max scale 0) len false (used_words 1 (Z.max scale 0) arr))
    end.

(** From the test for a number that is rounded away on, with the number [frac0] of fraction words and
    the scale that there is room for *)
Definition round_body (in_place : bool) (from : decimal_t) (rest : list Z) (mode : decimal_round_mode)
    (frac0 scale error : Z) : option (Z * decimal_t) :=
  let frac1 := ROUND_UP (frac from) in
  let intg0 := ROUND_UP (intg from) in
  let len := len from in
  if scale + intg from <? 0 then Some (E_DEC_OK, decimal_make_zero len)
  else
    let arr := buf from ++ rest in
    let to_intg := if in_place then intg from else Z.min intg0 len * DIG_PER_DEC1 in
    if frac1 <? frac0 then
      arr ← zero_words (Z.to_nat (frac0 - frac1)) (intg0 + frac1) arr;
      Some (error, mk_decimal to_intg scale len (sign from) (used_words to_intg scale arr))
    else if frac from <=? scale then
      Some (error, mk_decimal to_intg scale len (sign from) (used_words to_intg scale arr))
    else
      let i := intg0 + frac0 - 1 in
      if scale =? frac0 * DIG_PER_DEC1 then
        do_inc ← border_increment arr i (frac1 - frac0) mode (sign from);
        if do_inc : bool then
          if 0 <? frac0 + intg0 then
            w ← read_word arr i;
            arr ← set_word arr i (w + 1);
            round_finish arr i intg0 frac0 frac1 to_intg scale len error (sign from)
          else
            arr ← set_word arr (i + 1) DIG_BASE;
            round_finish arr (i + 1) intg0 frac0 frac1 to_intg scale len error (sign from)
        else if frac0 + intg0 =? 0 then Some (E_DEC_OK, decimal_make_zero len)
        else round_finish arr i intg0 frac0 frac1 to_intg scale len error (sign from)
      else
        w ← read_word arr i;
        arr ← set_word arr i (inside_word w (frac0 * DIG_PER_DEC1 - scale - 1) mode (sign from));
        round_finish arr i intg0 frac0 frac1 to_intg scale len error (sign from).

Definition decimal_round (in_place : bool) (from : decimal_t) (rest : list Z) (scale : Z)
    (mode : decimal_round_mode) : option (Z * decimal_t) :=
  let frac0 := if 0 <? scale then ROUND_UP scale else scale ÷ DIG_PER_DEC1 in
  let intg0 := ROUND_UP (intg from) in
  if len from <? frac0 + intg0 then
    round_body in_place from rest mode (len from - intg0) ((len from - intg0) * DIG_PER_DEC1) E_DEC_TRUNCATED
  else round_body in_place from rest mode frac0 scale E_DEC_OK.
