(* ===== verification/DecimalRoundProps.v ===== *)
(** * Decimal rounding: correctness

    Rounding changes the last word that is kept, carries to the left and clears the rest; the
    result is the number rounded to the digits that are asked for. *)

From Stdlib Require Import QArith.
From S2P Require Import Prelude Decimal DecimalValue DecimalArith DecimalMul DecimalMulProps DecimalInt DecimalBin DecimalRound.

Local Open Scope Z_scope.

(** Words in the order of the buffer as a number *)
Notation be l := (le (rev l)).

Lemma be_app l1 l2 : be (l1 ++ l2) = be l1 * wpow (length l2) + be l2.
Proof. rewrite rev_app_distr, le_app, length_rev. lia. Qed.

Lemma be_zeros n : be (replicate n 0) = 0.
Proof. by rewrite rev_zeros, le_zeros. Qed.

Lemma be_take_S (arr : list Z) n x : arr !! n = Some x -> be (take (S n) arr) = x + DIG_BASE * be (take n arr).
Proof. intros H. by rewrite (take_S_r _ _ _ H), rev_app_distr. Qed.

(** ** The loops *)

Lemma set_word_spec arr i v :
  0 <= i < Z.of_nat (length arr) -> set_word arr i v = Some (<[Z.to_nat i := v]> arr).
Proof.
  intros Hi. unfold set_word. by rewrite (proj2 (Z.leb_le 0 i)), (proj2 (Z.ltb_lt i _)) by lia.
Qed.

Lemma read_word_spec arr i : 0 <= i -> read_word arr i = arr !! Z.to_nat i.
Proof. intros Hi. unfold read_word. by rewrite (proj2 (Z.ltb_ge _ _)). Qed.

Lemma zero_words_spec n : forall (i : nat) arr,
  (i + n <= length arr)%nat ->
  zero_words n (Z.of_nat i) arr = Some (take i arr ++ replicate n 0 ++ drop (i + n) arr).
Proof.
  induction n as [|n IH]; intros i arr Hi; simpl.
  - by rewrite Nat.add_0_r, take_drop.
  - rewrite set_word_spec by lia. simpl. replace (Z.of_nat i + 1) with (Z.of_nat (S i)) by lia.
    rewrite IH by (rewrite length_insert; lia). rewrite Nat2Z.id. f_equal.
    rewrite drop_insert_lt by lia. rewrite (take_S_r _ _ 0) by (apply list_lookup_insert_eq; lia).
    rewrite take_insert_ge, <- app_assoc by lia. simpl. by rewrite Nat.add_succ_r.
Qed.

(** A carry goes to the left: the number grows by one, and the carry is left only if all words
    were nines. *)
Lemma carry_left_spec n : forall arr,
  (n <= length arr)%nat -> words_ok (take n arr) ->
  exists arr' i c, carry_left n arr = Some (arr', i, c) /\ length arr' = length arr /\
    words_ok (take n arr') /\ drop n arr' = drop n arr /\
    be (take n arr') + (if c then wpow n else 0) = be (take n arr) + 1 /\
    (if c : bool then be (take n arr') = 0
     else 0 <= i < Z.of_nat n /\ exists x, arr' !! Z.to_nat i = Some x /\ x <> 0).
Proof.
  induction n as [|n IH]; intros arr Hn Hok; simpl.
  - exists arr, (-1), true. split; [done|]. split; [done|]. split; [constructor|]. split; [done|]. done.
  - destruct (lookup_lt_is_Some_2 arr n) as [x Hx]; [lia|]. rewrite Hx. simpl.
    rewrite (take_S_r _ _ _ Hx) in Hok. apply words_ok_app in Hok as [Hok Hx1].
    apply words_ok_cons in Hx1 as [Hwx _]. destruct (ADD x 0 1) as [a c] eqn:E.
    destruct (ADD_spec _ _ _ _ _ E Hwx ltac:(done) ltac:(lia)) as (Eq & Ha & Hc).
    rewrite (be_take_S _ _ _ Hx).
    assert (Hn' : <[n:=a]> arr !! n = Some a) by (apply list_lookup_insert_eq; lia).
    destruct (Z.eqb_spec c 0) as [-> |Hc0].
    + exists (<[n:=a]> arr), (Z.of_nat n), false. split; [done|]. rewrite length_insert. split; [done|].
      rewrite (take_S_r _ _ _ Hn'), take_insert_ge by lia.
      split; [apply words_ok_app; split; [done|by apply words_ok_cons; split; [|constructor]]|].
      split; [by rewrite drop_insert_lt by lia|]. split.
      * rewrite rev_app_distr. simpl. lia.
      * split; [lia|]. exists a. rewrite Nat2Z.id. split; [done|]. unfold word_ok in *. lia.
    + destruct (IH (<[n:=a]> arr)) as (arr' & i & c' & E' & Hl & Hok' & Hd & Hv & Hend);
        [rewrite length_insert; lia|by rewrite take_insert_ge by lia|].
      rewrite E'. exists arr', i, c'. split; [done|]. rewrite length_insert in Hl. split; [done|].
      assert (Hx' : arr' !! n = Some a).
      { rewrite <- (Nat.add_0_r n), <- lookup_drop, Hd, lookup_drop, Nat.add_0_r. done. }
      rewrite (take_S_r _ _ _ Hx'). rewrite take_insert_ge in Hv by lia.
      split; [apply words_ok_app; split; [done|by apply words_ok_cons; split; [|constructor]]|].
      assert (a = 0 /\ c = 1) as [-> ->] by (unfold word_ok, DIG_BASE in *; lia).
      rewrite rev_app_distr. simpl. rewrite wpow_S. split; [|split].
      * replace (S n) with (n + 1)%nat by lia. rewrite <- !drop_drop, Hd, !drop_drop.
        by rewrite drop_insert_lt by lia.
      * destruct c'; unfold DIG_BASE in *; lia.
      * destruct c'; [unfold DIG_BASE in *; lia|]. destruct Hend as [Hi Hend]. split; [lia|done].
Qed.

(** ** The end of decimal_round *)

(** The number of fraction words that the code reckons with, and the scale it stands for *)
Definition scale_words (scale frac0 : Z) : Prop :=
  ROUND_UP (Z.max scale 0) = Z.max frac0 0 /\ (scale = 0 -> frac0 = 0) /\ frac0 * 9 < scale + 9.

(** A word that is not zero *)
Lemma be_lookup l : forall i x,
  words_ok l -> l !! i = Some x -> x <> 0 -> 0 < be l.
Proof.
  induction l as [|w l IH]; intros i x Hok Hx Hne; [done|]. apply words_ok_cons in Hok as [Hw Hok].
  rewrite be_cons. pose proof (be_bound l Hok). pose proof (wpow_pos (length l)). unfold word_ok in Hw.
  destruct i as [|i]; simpl in Hx; [simplify_eq; nia|]. specialize (IH i x Hok Hx Hne). nia.
Qed.

Lemma top_word a b r W : a * W + r = b * W -> 0 <= r < W -> a = b /\ r = 0.
Proof. intros E H. assert (a = b) as -> by nia. split; [done|lia]. Qed.

(** The test for one digit more: it looks at a word that is not zero, which is the first one if the
    number has become a power of ten. *)
Lemma leading_digit l i x ti I0 F :
  words_ok l -> Z.of_nat (length l) = I0 + F -> 0 <= F -> 0 <= i < Z.of_nat (length l) ->
  0 <= ti -> ROUND_UP ti = I0 -> 0 <= I0 -> l !! Z.to_nat i = Some x -> x <> 0 ->
  be l <= 10 ^ ti * wpow (Z.to_nat F) ->
  exists ti',
    (if ti mod DIG_PER_DEC1 =? 0 then ti else if power10 (ti mod DIG_PER_DEC1) <=? x then ti + 1 else ti) = ti' /\
    0 <= ti' /\ ROUND_UP ti' = I0 /\ be l < 10 ^ ti' * wpow (Z.to_nat F).
Proof.
  intros Hok Hl HF Hi Hti HR HI Hx Hne Hle. eexists. split; [done|].
  pose proof (ROUND_UP_bounds ti Hti) as HB. rewrite HR in HB. unfold DIG_PER_DEC1.
  pose proof (Z.div_mod ti 9 ltac:(done)) as Hdm. pose proof (Z.mod_pos_bound ti 9 ltac:(done)) as Hmb.
  pose proof (wpow_pos (Z.to_nat F)) as Hp.
  destruct (Z.eqb_spec (ti mod 9) 0) as [E0|E0].
  { split; [done|]. split; [done|]. pose proof (be_bound l Hok) as Hb.
    replace (length l) with (Z.to_nat I0 + Z.to_nat F)%nat in Hb by lia. rewrite wpow_add, (wpow_10 (Z.to_nat I0)) in Hb.
    replace (9 * Z.of_nat (Z.to_nat I0)) with ti in Hb by lia. lia. }
  assert (HR1 : ROUND_UP (ti + 1) = I0) by (apply ROUND_UP_unique; lia).
  assert (Hpow : 10 ^ ti < 10 ^ (ti + 1)) by (apply Z.pow_lt_mono_r; lia).
  destruct (Z.leb_spec (power10 (ti mod 9)) x) as [Hge|Hlt]; (split; [lia|]); (split; [done|]); [nia|].
  destruct (Z.eq_dec (be l) (10 ^ ti * wpow (Z.to_nat F))) as [E|]; [exfalso|lia].
  destruct l as [|w l]; [done|]. apply words_ok_cons in Hok as [Hw Hok]. rewrite be_cons in E.
  simpl length in Hl. pose proof (be_bound l Hok) as Hb.
  assert (Et : 10 ^ ti * wpow (Z.to_nat F) = 10 ^ (ti mod 9) * wpow (length l)).
  { rewrite !wpow_10, <- !Z.pow_add_r by lia. f_equal. lia. }
  rewrite Et in E. apply top_word in E as [-> Hz]; [|done].
  destruct (Z.to_nat i) as [|j] eqn:Ei; simpl in Hx.
  - simplify_eq. assert (power10 (ti mod 9) = 10 ^ (ti mod 9)); [|lia].
    assert (Hc : ti mod 9 = 1 \/ ti mod 9 = 2 \/ ti mod 9 = 3 \/ ti mod 9 = 4 \/ ti mod 9 = 5 \/ ti mod 9 = 6 \/
      ti mod 9 = 7 \/ ti mod 9 = 8) by lia.
    by destruct Hc as [-> |[-> |[-> |[-> |[-> |[-> |[-> | ->]]]]]]].
  - pose proof (be_lookup l j x Hok Hx Hne). lia.
Qed.

(** The words that are in use at the end: those that were kept, and zero words *)
Lemma used_words_spec arr (N : nat) I0 f0 f1 sc L :
  Z.of_nat N = I0 + f0 -> length arr = Z.to_nat L -> 0 < Z.of_nat N <= L -> I0 <= L -> f0 <= f1 ->
  scale_words sc f0 ->
  exists arr',
    (if f0 <? f1 then
       let start := if (sc =? 0) && (I0 =? 0) then 1 else I0 + f0 in
       zero_words (Z.to_nat (L - start)) start arr
     else Some arr) = Some arr' /\
    take N arr' = take N arr /\
    (f0 < f1 \/ f0 = f1 /\ arr' = arr) /\
    (f0 < f1 -> take (Z.to_nat (I0 + Z.max f0 0)) arr' =
       take N arr ++ replicate (Z.to_nat (Z.max f0 0 - f0)) 0).
Proof.
  intros HN Hl HNL HI Hf (_ & Hs0 & _). destruct (Z.ltb_spec f0 f1) as [Hlt|Hge].
  - assert (Hst : (if (sc =? 0) && (I0 =? 0) then 1 else I0 + f0) = Z.of_nat N).
    { destruct (Z.eqb_spec sc 0) as [E|]; [|simpl; lia]. specialize (Hs0 E).
      destruct (Z.eqb_spec I0 0); simpl; lia. }
    rewrite Hst. cbv zeta. rewrite zero_words_spec by lia. eexists. split; [done|].
    split; [rewrite take_app_length'; [done|rewrite length_take; lia]|]. split; [by left|]. intros _.
    rewrite take_app_ge by (rewrite length_take; lia). f_equal.
    rewrite take_app_le by (rewrite length_take, length_replicate; lia).
    rewrite take_replicate, length_take. f_equal. lia.
  - exists arr. split; [done|]. split; [done|]. split; [right; split; [lia|done]|lia].
Qed.

Lemma round_end_spec arr (N : nat) i x I0 f0 f1 ti sc L err s :
  words_ok (take N arr) -> length arr = Z.to_nat L -> Z.of_nat N = I0 + f0 -> Z.of_nat N <= L ->
  0 <= I0 <= L -> f0 <= f1 -> 0 <= f1 -> scale_words sc f0 ->
  0 <= i < Z.of_nat N -> arr !! Z.to_nat i = Some x -> x <> 0 -> 0 <= ti -> ROUND_UP ti = I0 ->
  let M := be (take N arr) * wpow (Z.to_nat (Z.max f0 0 - f0)) in
  M <= 10 ^ ti * wpow (Z.to_nat (Z.max f0 0)) ->
  (10 ^ (9 * Z.max f0 0 - Z.max sc 0) | M) ->
  exists r, round_end arr i I0 f0 f1 ti sc L err s = Some (err, r) /\ decimal_ok r /\
    magnitude r = M /\ sign r = s /\ frac r = Z.max sc 0 /\ len r = L.
Proof.
  intros Hok Hl HN HNL HI Hf Hf1 Hsc Hi Hx Hx0 Hti HR M HM Hdiv.
  destruct (used_words_spec arr N I0 f0 f1 sc L HN Hl ltac:(lia) ltac:(lia) Hf Hsc)
    as (arr' & E & Ht & Hcase & Hused).
  unfold round_end. cbv zeta in E. rewrite E. simpl mbind. clear E.
  assert (Hx' : read_word arr' i = Some x).
  { rewrite read_word_spec by lia. rewrite <- (lookup_take_lt _ N), Ht, lookup_take_lt by lia. done. }
  assert (Hw : exists l, take (Z.to_nat (I0 + Z.max f0 0)) arr' = l /\ words_ok l /\ be l = M /\
    Z.of_nat (length l) = I0 + Z.max f0 0).
  { destruct Hcase as [Hlt|[He ->]].
    - eexists. split; [by apply Hused|]. split; [apply words_ok_app; split; [done|apply words_ok_zeros]|].
      rewrite be_app, be_zeros, length_app, !length_replicate, length_take.
      split; [unfold M; lia|]. lia.
    - replace (Z.to_nat (I0 + Z.max f0 0)) with N by lia.
      eexists. split; [done|]. split; [done|]. split; [|rewrite length_take; lia].
      unfold M. replace (Z.max f0 0 - f0) with 0 by lia. change (wpow (Z.to_nat 0)) with 1. lia. }
  destruct Hw as (l & El & Hwl & Hbl & Hll).
  assert (Hxl : l !! Z.to_nat i = Some x).
  { rewrite <- El, lookup_take_lt by lia. by rewrite <- (lookup_take_lt _ N), Ht, lookup_take_lt by lia. }
  destruct (leading_digit l i x ti I0 (Z.max f0 0) Hwl Hll ltac:(lia) ltac:(lia) Hti HR ltac:(lia) Hxl Hx0
    ltac:(by rewrite Hbl)) as (ti' & Eti & Hti' & HR' & Hlt).
  exists (mk_decimal ti' (Z.max sc 0) L s l). rewrite Hx'. simpl mbind.
  assert (Et : (if ti mod DIG_PER_DEC1 =? 0 then Some ti
    else Some (if power10 (ti mod DIG_PER_DEC1) <=? x then ti + 1 else ti)) = Some ti').
  { rewrite <- Eti. by destruct (_ =? _). }
  rewrite Et. simpl mbind. unfold used_words. destruct Hsc as (HF & _ & _). rewrite HR', HF, El.
  split; [done|]. split; [|done].
  assert (Hfw : forall b, frac_words (mk_decimal ti' (Z.max sc 0) L s b) = Z.to_nat (Z.max f0 0))
    by (intros b; unfold frac_words; simpl; by rewrite HF).
  constructor; simpl; rewrite ?Hfw; try done; try lia.
  - unfold intg_words. simpl. rewrite HR'. lia.
  - unfold magnitude. simpl. rewrite Hbl. by replace (Z.of_nat (Z.to_nat (Z.max f0 0))) with (Z.max f0 0) by lia.
  - intros _. unfold magnitude. simpl. pose proof (be_lookup l (Z.to_nat i) x Hwl Hxl). lia.
Qed.

(** ** Carries and zeros *)

Lemma shift_words_spec n : forall arr,
  (n < length arr)%nat -> shift_words n arr = Some (take 1 arr ++ take n arr ++ drop (S n) arr).
Proof.
  induction n as [|n IH]; intros arr Hn; simpl.
  - by destruct arr.
  - destruct (lookup_lt_is_Some_2 arr n) as [x Hx]; [lia|]. rewrite Hx. simpl.
    rewrite set_word_spec by lia. simpl mbind. rewrite IH by (rewrite length_insert; lia). f_equal.
    rewrite Nat2Z.id, !take_insert_ge by lia. f_equal.
    rewrite (take_S_r _ _ _ Hx), <- app_assoc. f_equal. simpl.
    rewrite (drop_S _ x (S n)) by (apply list_lookup_insert_eq; lia). by rewrite drop_insert_lt by lia.
Qed.

Lemma last_nonzero_spec n : forall arr,
  (n < length arr)%nat ->
  exists res, last_nonzero n arr = Some res /\
    match res with
    | Some k => (k <= n)%nat /\ exists x, arr !! k = Some x /\ x <> 0
    | None => take (S n) arr = replicate (S n) 0
    end.
Proof.
  induction n as [|n IH]; intros arr Hn.
  - destruct arr as [|x arr]; [simpl in Hn; lia|]. simpl. destruct (Z.eqb_spec x 0) as [-> |Hx].
    + by exists None.
    + exists (Some 0%nat). split; [done|]. split; [lia|]. by exists x.
  - destruct (lookup_lt_is_Some_2 arr (S n)) as [x Hx]; [done|]. unfold last_nonzero. fold last_nonzero.
    rewrite Hx. simpl mbind. destruct (Z.eqb_spec x 0) as [-> |Hne].
    + destruct (IH arr ltac:(lia)) as (res & E & Hres). exists res. split; [done|]. destruct res as [k|].
      * destruct Hres as [Hk Hx']. split; [lia|done].
      * rewrite (take_S_r _ _ _ Hx), Hres. by rewrite <- replicate_S_end.
    + exists (Some (S n)). split; [done|]. split; [lia|]. by exists x.
Qed.

Lemma words_zero l : words_ok l -> be l = 0 -> l = replicate (length l) 0.
Proof.
  induction l as [|w l IH]; intros Hok Hz; [done|]. apply words_ok_cons in Hok as [Hw Hok].
  rewrite be_cons in Hz. pose proof (be_bound l Hok). pose proof (wpow_pos (length l)). unfold word_ok in Hw.
  simpl. assert (w = 0) as -> by nia. f_equal. apply IH; [done|lia].
Qed.

(** The result as a value: [A] in units of the word [f0] after the point *)
Definition rounded_to (r : decimal_t) (A f0 : Z) : Prop :=
  magnitude r * wpow (Z.to_nat (Z.max f0 0)) =
    A * wpow (Z.to_nat (Z.max f0 0 - f0)) * wpow (frac_words r).

(** The number has become a power of ten with one word more. *)
Lemma carry_out_spec arr (N : nat) I0 f0 f1 sc L err s :
  be (take N arr) = 0 -> words_ok (take N arr) -> length arr = Z.to_nat L -> Z.of_nat N = I0 + f0 ->
  Z.of_nat N <= L -> 0 <= I0 < L -> f0 <= f1 -> 0 <= f1 -> scale_words sc f0 ->
  exists err' r,
    (let '(frac0, scale, error) :=
       if L <=? f0 + I0 then (f0 - 1, (f0 - 1) * DIG_PER_DEC1, E_DEC_TRUNCATED)
       else (f0, sc, err) in
     arr ← shift_words (Z.to_nat (I0 + Z.max frac0 0)) arr;
     arr ← set_word arr 0 1;
     round_end arr 0 (I0 + 1) frac0 f1 (I0 * 9 + 1) scale L error s) = Some (err', r) /\
    decimal_ok r /\ rounded_to r (wpow N) f0 /\ sign r = s /\
    (err' = err \/ err' = E_DEC_TRUNCATED) /\ len r = L.
Proof.
  intros Hz Hok Hl HN HNL HI Hf Hf1 Hsc.
  set (p := if L <=? f0 + I0 then _ else _).
  assert (Hp : exists f' sc' e', p = (f', sc', e') /\ (e' = err \/ e' = E_DEC_TRUNCATED) /\
    scale_words sc' f' /\ f' <= f0 /\ I0 + f' < L /\ (f' = f0 \/ 0 <= f')).
  { unfold p. destruct (Z.leb_spec L (f0 + I0)); [|by exists f0, sc, err; eauto with lia].
    exists (f0 - 1), ((f0 - 1) * DIG_PER_DEC1), E_DEC_TRUNCATED. split; [done|]. split; [by right|].
    split; [|lia]. unfold scale_words.
    rewrite Z.max_l, ROUND_UP_mul by (unfold DIG_PER_DEC1; lia). unfold DIG_PER_DEC1. lia. }
  destruct Hp as (f' & sc' & e' & -> & He & Hsc' & Hf' & HfL & Hff).
  set (n := Z.to_nat (I0 + Z.max f' 0)). rewrite shift_words_spec by lia. simpl mbind.
  rewrite set_word_spec by (rewrite !length_app, !length_take, length_drop; lia). simpl mbind.
  set (arr1 := <[Z.to_nat 0 := 1]> _).
  assert (Ha : arr1 = 1 :: take n arr ++ drop (S n) arr).
  { unfold arr1. destruct arr as [|y arr]; [simpl in Hl; lia|done]. }
  clearbody arr1. subst arr1. set (N' := S (Z.to_nat (I0 + f'))).
  assert (Ht : take N' (1 :: take n arr ++ drop (S n) arr) = 1 :: replicate (Z.to_nat (I0 + f')) 0).
  { unfold N'. simpl. f_equal. rewrite take_app_le by (rewrite length_take; lia).
    rewrite take_take, Nat.min_l by lia.
    replace (take (Z.to_nat (I0 + f')) arr) with (take (Z.to_nat (I0 + f')) (take N arr))
      by (rewrite take_take; f_equal; lia).
    rewrite (words_zero _ Hok Hz), take_replicate, length_take. f_equal. lia. }
  assert (Hb : be (take N' (1 :: take n arr ++ drop (S n) arr)) = wpow (Z.to_nat (I0 + f'))).
  { rewrite Ht, be_cons, be_zeros, length_replicate. lia. }
  assert (HM : be (take N' (1 :: take n arr ++ drop (S n) arr)) * wpow (Z.to_nat (Z.max f' 0 - f')) =
    wpow (Z.to_nat (I0 + Z.max f' 0))) by (rewrite Hb, <- wpow_add; f_equal; lia).
  destruct (round_end_spec (1 :: take n arr ++ drop (S n) arr) N' 0 1 (I0 + 1) f' f1 (I0 * 9 + 1) sc' L e' s)
    as (r & E & Hr & Hm & Hs & Hfr & Hlen); try done; try lia; try (rewrite HM).
  - rewrite Ht. apply words_ok_cons. split; [done|apply words_ok_zeros].
  - simpl. rewrite length_app, length_take, length_drop. lia.
  - apply ROUND_UP_unique; lia.
  - rewrite !wpow_10, <- Z.pow_add_r by lia. apply Z.pow_le_mono_r; lia.
  - rewrite wpow_10. destruct Hsc' as (Hsc1 & _ & _).
    exists (10 ^ (9 * Z.of_nat (Z.to_nat (I0 + Z.max f' 0)) - (9 * Z.max f' 0 - Z.max sc' 0))).
    pose proof (ROUND_UP_bounds (Z.max sc' 0) ltac:(lia)). rewrite <- Z.pow_add_r by lia. f_equal. lia.
  - exists e', r. split; [exact E|]. split; [done|]. split; [|done].
    unfold rounded_to. rewrite Hm, HM. unfold frac_words. rewrite Hfr. destruct Hsc' as (-> & _ & _).
    rewrite <- !wpow_add. f_equal. lia.
Qed.

(** What is known before the last part of decimal_round: [N] words are kept, the last of which may
    be [DIG_BASE], and they make the number [A] *)
Record rounding (arr : list Z) (N : nat) (I0 f0 f1 ti sc L A : Z) : Prop := {
  rd_length : length arr = Z.to_nat L;
  rd_words : words_ok (take (N - 1) arr);
  rd_N : Z.of_nat N = I0 + f0;
  rd_NL : Z.of_nat N <= L;
  rd_I : 0 <= I0 < L;
  rd_f : f0 <= f1;
  rd_f1 : 0 <= f1 < L;
  rd_scale : scale_words sc f0;
  rd_ti : 0 <= ti;
  rd_round : ROUND_UP ti = I0;
  rd_A : be (take N arr) = A;
  rd_full : A = wpow N -> ti = I0 * 9;
  rd_bound : A * wpow (Z.to_nat (Z.max f0 0 - f0)) <= 10 ^ ti * wpow (Z.to_nat (Z.max f0 0));
  rd_div : (10 ^ (9 * Z.max f0 0 - Z.max sc 0) | A * wpow (Z.to_nat (Z.max f0 0 - f0)));
}.

(** What decimal_round has to return for it *)
Definition round_result (res : option (Z * decimal_t)) (A f0 L : Z) (s : bool) : Prop :=
  exists e r, res = Some (e, r) /\ (e = E_DEC_OK \/ e = E_DEC_TRUNCATED) /\ decimal_ok r /\
    rounded_to r A f0 /\ (A <> 0 -> sign r = s) /\ len r = L.

Lemma frac_words_scale d sc f0 : scale_words sc f0 -> frac d = Z.max sc 0 -> frac_words d = Z.to_nat (Z.max f0 0).
Proof. intros (H & _) E. unfold frac_words. by rewrite E, H. Qed.

Lemma round_end_result arr N i x I0 f0 f1 ti sc L A err s :
  rounding arr N I0 f0 f1 ti sc L A -> words_ok (take N arr) ->
  0 <= i < Z.of_nat N -> arr !! Z.to_nat i = Some x -> x <> 0 ->
  (err = E_DEC_OK \/ err = E_DEC_TRUNCATED) ->
  round_result (round_end arr i I0 f0 f1 ti sc L err s) A f0 L s.
Proof.
  intros [] Hok Hi Hx Hne He. subst A.
  destruct (round_end_spec arr N i x I0 f0 f1 ti sc L err s) as (r & E & Hr & Hm & Hs & Hf & Hl); try done; try lia.
  exists err, r. split; [done|]. split; [done|]. split; [done|]. split; [|done].
  unfold rounded_to. by rewrite Hm, (frac_words_scale r sc f0).
Qed.

Lemma round_zero_result arr N I0 f0 f1 ti sc L A s :
  rounding arr N I0 f0 f1 ti sc L A -> take N arr = replicate N 0 -> (0 < N)%nat ->
  round_result
    (arr ← zero_words (Z.to_nat (f0 + 1)) 0 arr;
     Some (E_DEC_OK, mk_decimal 1 (Z.max sc 0) L false (used_words 1 (Z.max sc 0) arr))) A f0 L s.
Proof.
  intros [] Hz HN. rewrite Hz, be_zeros in rd_A0. subst A.
  rewrite (zero_words_spec _ 0) by lia. simpl mbind. eexists _, _. split; [done|]. split; [by left|].
  set (b := used_words _ _ _).
  assert (Hb : b = replicate (S (Z.to_nat (Z.max f0 0))) 0).
  { unfold b, used_words. destruct rd_scale0 as (-> & _). change (ROUND_UP 1) with 1.
    destruct (Z.lt_ge_cases f0 0) as [Hneg|Hpos].
    - replace (Z.to_nat (f0 + 1)) with 0%nat by lia. simpl app. rewrite drop_0, Z.max_r by lia.
      change (Z.to_nat (1 + 0)) with 1%nat. replace (take 1 arr) with (take 1 (take N arr)) by (rewrite take_take; f_equal; lia).
      rewrite Hz. by destruct N; [lia|].
    - simpl app. rewrite take_app_le by (rewrite length_replicate; lia). rewrite take_replicate. f_equal. lia. }
  clearbody b. subst b. set (r := mk_decimal _ _ _ _ _).
  assert (Hm : magnitude r = 0) by apply be_zeros.
  assert (Hfw : frac_words r = Z.to_nat (Z.max f0 0)) by (by apply (frac_words_scale r sc)).
  split; [|split; [|split; [lia|done]]].
  - constructor; rewrite ?Hm, ?Hfw; try done.
    + simpl. lia.
    + unfold r. cbn [buf]. by rewrite length_replicate.
    + apply words_ok_zeros.
    + pose proof (wpow_pos (Z.to_nat (Z.max f0 0))). simpl. lia.
    + apply Z.divide_0_r.
  - unfold rounded_to. rewrite Hm. lia.
Qed.

(** Changing words does not matter for the rest, as long as the number is the same. *)
Lemma rounding_replace arr arr' N I0 f0 f1 ti sc L A :
  rounding arr N I0 f0 f1 ti sc L A -> length arr' = length arr -> words_ok (take (N - 1) arr') ->
  be (take N arr') = A -> rounding arr' N I0 f0 f1 ti sc L A.
Proof. intros [] Hl Hw Ha. constructor; try done. congruence. Qed.

Lemma round_finish_result arr N w I0 f0 f1 ti sc L A err s :
  rounding arr N I0 f0 f1 ti sc L A -> (0 < N)%nat -> arr !! (N - 1)%nat = Some w -> 0 <= w <= DIG_BASE ->
  (err = E_DEC_OK \/ err = E_DEC_TRUNCATED) ->
  round_result (round_finish arr (Z.of_nat N - 1) I0 f0 f1 ti sc L err s) A f0 L s.
Proof.
  intros Hrd HN Hw Hwb He. pose proof (rd_length _ _ _ _ _ _ _ _ _ Hrd) as Hl.
  pose proof (rd_words _ _ _ _ _ _ _ _ _ Hrd) as Hok. pose proof (rd_NL _ _ _ _ _ _ _ _ _ Hrd) as HNL.
  unfold round_finish. rewrite read_word_spec by lia. replace (Z.to_nat (Z.of_nat N - 1)) with (N - 1)%nat by lia.
  rewrite Hw. simpl mbind. destruct (Z.leb_spec DIG_BASE w) as [Hge|Hlt].
  - assert (w = DIG_BASE) as -> by lia. rewrite Z.sub_diag, set_word_spec by lia. simpl mbind.
    replace (Z.to_nat (Z.of_nat N - 1)) with (N - 1)%nat by lia.
    destruct (carry_left_spec (N - 1) (<[(N - 1)%nat := 0]> arr)) as (arr' & i & c & -> & Hl' & Hok' & Hd & Hv & Hend);
      [rewrite length_insert; lia|by rewrite take_insert_ge by lia|].
    rewrite take_insert_ge in Hv by lia. rewrite length_insert in Hl'. simpl mbind.
    assert (H0 : arr' !! (N - 1)%nat = Some 0).
    { rewrite <- (Nat.add_0_r (N - 1)), <- lookup_drop, Hd, lookup_drop, Nat.add_0_r.
      apply list_lookup_insert_eq. lia. }
    assert (EA : A = DIG_BASE * (be (take (N - 1) arr) + 1)).
    { rewrite <- (rd_A _ _ _ _ _ _ _ _ _ Hrd). replace N with (S (N - 1)) at 1 by lia.
      rewrite (be_take_S _ _ _ Hw). lia. }
    assert (Eb : be (take N arr') = DIG_BASE * be (take (N - 1) arr')).
    { replace N with (S (N - 1)) at 1 by lia. rewrite (be_take_S _ _ _ H0). lia. }
    assert (HokN : words_ok (take N arr')).
    { replace N with (S (N - 1)) by lia. rewrite (take_S_r _ _ _ H0). apply words_ok_app.
      split; [done|]. apply words_ok_cons. split; [done|constructor]. }
    destruct c.
    + assert (EN : A = wpow N). { rewrite EA, <- Hv. replace (wpow N) with (wpow (S (N - 1))) by (f_equal; lia). rewrite wpow_S. lia. }
      rewrite (rd_full _ _ _ _ _ _ _ _ _ Hrd EN). rewrite EN.
      pose proof (rd_I _ _ _ _ _ _ _ _ _ Hrd). pose proof (rd_f1 _ _ _ _ _ _ _ _ _ Hrd).
      destruct (carry_out_spec arr' N I0 f0 f1 sc L err s) as (e' & r & E & Hr & Hv' & Hs & He' & Hlr);
        try done; try lia; try apply Hrd.
      exists e', r. split; [exact E|]. split; [destruct He' as [-> | ->]; auto|]. done.
    + destruct Hend as (Hi & x & Hx & Hne). apply (round_end_result arr' N i x I0 f0 f1 ti sc L A); try done; [|lia].
      apply (rounding_replace arr); try done. rewrite Eb, EA. lia.
  - destruct (last_nonzero_spec (N - 1) arr ltac:(lia)) as (res & -> & Hres). simpl mbind. destruct res as [k|].
    + destruct Hres as (Hk & x & Hx & Hne).
      apply (round_end_result arr N (Z.of_nat k) x I0 f0 f1 ti sc L A); try done; [|lia|by rewrite Nat2Z.id].
      replace N with (S (N - 1)) by lia. rewrite (take_S_r _ _ _ Hw). apply words_ok_app.
      split; [done|]. apply words_ok_cons. split; [unfold word_ok; lia|constructor].
    + apply (round_zero_result arr N I0 f0 f1 ti sc L A s Hrd); [|done]. by replace (S (N - 1)) with N in Hres by lia.
Qed.

(** ** The digits that decide *)

(** The unit of the digit [sc] after the point, in units of the last word of the number *)
Definition digit_unit (d : decimal_t) (sc : Z) : Z := 10 ^ (9 * Z.of_nat (frac_words d) - sc).

Definition round_magnitude (d : decimal_t) (sc : Z) (up : bool) : Z :=
  (magnitude d / digit_unit d sc + (if up then 1 else 0)) * digit_unit d sc.

(** Rounding up is right in the modes that the server uses. *)
Definition rounds_right (mode : decimal_round_mode) (d : decimal_t) (sc : Z) (up : bool) : Prop :=
  (mode = HALF_UP -> up = (digit_unit d sc <=? 2 * (magnitude d mod digit_unit d sc))) /\
  (mode = TRUNCATE -> up = false).

Lemma next_digit m v : 0 < v -> (5 <=? (m / v) mod 10) = (10 * v <=? 2 * (m mod (10 * v))).
Proof.
  intros Hv. rewrite (Z.mul_comm 10 v), Z.rem_mul_r by lia. pose proof (Z.mod_pos_bound m v Hv).
  set (y := (m / v) mod 10). destruct (Z.leb_spec 5 y), (Z.leb_spec (v * 10) (2 * (m mod v + v * y))); nia || done.
Qed.

Lemma some_nonzero_total n : forall i arr,
  0 <= i -> i + Z.of_nat n <= Z.of_nat (length arr) -> exists b, some_nonzero n i arr = Some b.
Proof.
  induction n as [|n IH]; intros i arr Hi Hl; simpl; [by eauto|]. rewrite read_word_spec by done.
  destruct (lookup_lt_is_Some_2 arr (Z.to_nat i)) as [x ->]; [lia|]. simpl.
  destruct (x =? 0); [apply IH; lia|by eauto].
Qed.

Section Digits.
Context (d : decimal_t) (Hd : decimal_ok d) (rest : list Z).
Notation I := (Z.of_nat (intg_words d)).
Notation F := (Z.of_nat (frac_words d)).
Notation arr := (buf d ++ rest).

Lemma arr_lookup n : (n < length (buf d))%nat -> arr !! n = buf d !! n.
Proof using. intros. by rewrite lookup_app_l. Qed.

Lemma arr_take n : (n <= length (buf d))%nat -> take n arr = take n (buf d).
Proof using. intros. by rewrite take_app_le. Qed.

(** Rounding at a word: the next word decides. *)
Lemma border_increment_spec f0 mode :
  0 <= I + f0 -> f0 < F ->
  exists up, border_increment arr (I + f0 - 1) (F - f0) mode (sign d) = Some up /\
    rounds_right mode d (9 * f0) up.
Proof using Hd.
  intros H0 Hf. pose proof (dok_length _ Hd) as Hl. pose proof (dok_words _ Hd) as Hw.
  unfold border_increment. replace (I + f0 - 1 + 1) with (I + f0) by lia.
  assert (Hread : forall i, 0 <= i < I + F -> exists x, read_word arr i = Some x).
  { intros i Hi. rewrite read_word_spec, arr_lookup by lia. apply lookup_lt_is_Some_2. lia. }
  set (n := Z.to_nat (I + f0)). destruct (lookup_lt_is_Some_2 (buf d) n) as [w Ew]; [lia|].
  assert (Ed : drop n (buf d) = w :: drop (S n) (buf d)) by (by apply drop_S).
  assert (Hu : digit_unit d (9 * f0) = wpow (length (drop n (buf d)))).
  { unfold digit_unit. rewrite wpow_10, length_drop. f_equal. lia. }
  assert (Hm : magnitude d mod digit_unit d (9 * f0) = be (drop n (buf d))).
  { rewrite Hu. unfold magnitude. rewrite <- (take_drop n (buf d)) at 1. rewrite be_app.
    pose proof (be_bound _ (words_ok_drop n _ Hw)). rewrite Z.add_comm, Z.mod_add, Z.mod_small by lia. done. }
  pose proof (first_word_tenths (drop n (buf d)) 5 (words_ok_drop n _ Hw) ltac:(by rewrite Ed) ltac:(lia)) as Ht.
  rewrite <- Hu, <- Hm, Ed in Ht. simpl nth in Ht.
  assert (Hx : (5 <=? w / DIG_MASK) = (digit_unit d (9 * f0) <=? 2 * (magnitude d mod digit_unit d (9 * f0)))).
  { transitivity (5 * DIG_MASK <=? w).
    - pose proof (Z.div_mod w DIG_MASK ltac:(done)). pose proof (Z.mod_pos_bound w DIG_MASK ltac:(done)).
      unfold DIG_MASK in *. destruct (Z.leb_spec 5 (w / 100000000)), (Z.leb_spec (5 * 100000000) w); lia.
    - rewrite Ht. set (u := digit_unit d _). destruct (Z.leb_spec (5 * u) (10 * (magnitude d mod u))),
        (Z.leb_spec u (2 * (magnitude d mod u))); lia || done. }
  assert (Erw : read_word arr (I + f0) = Some w) by (rewrite read_word_spec, arr_lookup by lia; done).
  rewrite Erw. destruct (some_nonzero_total (Z.to_nat (F - f0)) (I + f0) arr) as [b Eb];
    [done|rewrite length_app; lia|].
  unfold rounds_right. simpl mbind. rewrite <- Hx.
  destruct mode; simpl round_digit; [by eexists| | |destruct (sign d)|destruct (sign d)];
    cbn [Z.eqb Pos.eqb]; rewrite ?Eb; try by eexists.
  - destruct (5 <? w / DIG_MASK); [by eexists|]. destruct (w / DIG_MASK =? 5); [|by eexists].
    destruct (Z.leb_spec 0 (I + f0 - 1)); [|by eexists].
    destruct (Hread (I + f0 - 1)) as [y ->]; [lia|]. by eexists.
  - exists (5 <=? w / DIG_MASK). split; [|done].
    destruct (Z.ltb_spec 5 (w / DIG_MASK)), (Z.eqb_spec (w / DIG_MASK) 5), (Z.leb_spec 5 (w / DIG_MASK)); lia || done.
Qed.
End Digits.

(** Rounding inside a word *)
Lemma power10_eq pos : 0 <= pos <= 9 -> power10 pos = 10 ^ pos.
Proof.
  intros H. assert (Hc : pos = 0 \/ pos = 1 \/ pos = 2 \/ pos = 3 \/ pos = 4 \/ pos = 5 \/ pos = 6 \/ pos = 7 \/
    pos = 8 \/ pos = 9) by lia.
  by destruct Hc as [-> |[-> |[-> |[-> |[-> |[-> |[-> |[-> |[-> | ->]]]]]]]]].
Qed.

Lemma inside_word_spec w pos mode s :
  0 <= pos <= 7 ->
  exists up : bool, inside_word w pos mode s = 10 ^ (pos + 1) * (w / 10 ^ (pos + 1) + (if up then 1 else 0)) /\
    (mode = HALF_UP -> up = (5 <=? (w / 10 ^ pos) mod 10)) /\ (mode = TRUNCATE -> up = false).
Proof.
  intros Hp. unfold inside_word. rewrite power10_eq by lia.
  assert (Hpos : 0 < 10 ^ pos) by (apply Z.pow_pos_nonneg; lia).
  rewrite Z.pow_add_r, <- Z.div_div by lia. change (10 ^ 1) with 10.
  set (x := w / 10 ^ pos). pose proof (Z.div_mod x 10 ltac:(done)) as Hx.
  pose proof (Z.mod_pos_bound x 10 ltac:(done)) as Hy.
  set (up := orb (round_digit mode s <? x mod 10) _). exists up. split; [|split].
  - destruct up; rewrite Hx at 1; ring_simplify; nia.
  - intros ->. unfold up. simpl.
    destruct (Z.ltb_spec 5 (x mod 10)), (Z.eqb_spec (x mod 10) 5), (Z.leb_spec 5 (x mod 10)); simpl; lia || done.
  - intros ->. unfold up. simpl. by rewrite (proj2 (Z.ltb_ge _ _)) by lia.
Qed.

Lemma inside_bound w pos (up : bool) :
  0 <= pos <= 7 -> word_ok w -> 0 <= 10 ^ (pos + 1) * (w / 10 ^ (pos + 1) + (if up then 1 else 0)) <= DIG_BASE.
Proof.
  intros Hp Hw. assert (Hk : 0 < 10 ^ (pos + 1)) by (apply Z.pow_pos_nonneg; lia).
  assert (HB : DIG_BASE = 10 ^ (pos + 1) * 10 ^ (8 - pos)).
  { rewrite <- Z.pow_add_r by lia. by replace (pos + 1 + (8 - pos)) with 9 by lia. }
  unfold word_ok in Hw. rewrite HB in *. pose proof (Z.div_pos w (10 ^ (pos + 1)) ltac:(lia) Hk).
  pose proof (Z.div_lt_upper_bound w (10 ^ (pos + 1)) _ Hk (proj2 Hw)). destruct up; nia.
Qed.

(** What rounding inside the last word that is kept does to the number *)
Lemma inside_value m w T W pos (up : bool) :
  0 <= pos <= 7 -> 0 < W -> m / W = w + DIG_BASE * T ->
  let u := W * 10 ^ (pos + 1) in
  (10 ^ (pos + 1) * (w / 10 ^ (pos + 1) + (if up then 1 else 0)) + DIG_BASE * T) * W =
    (m / u + (if up then 1 else 0)) * u /\
  (10 ^ (pos + 1) | 10 ^ (pos + 1) * (w / 10 ^ (pos + 1) + (if up then 1 else 0)) + DIG_BASE * T) /\
  (w / 10 ^ pos) mod 10 = (m / (W * 10 ^ pos)) mod 10.
Proof.
  intros Hp HW Hm u. set (v := if up then 1 else 0).
  assert (Hk : 0 < 10 ^ pos /\ 0 < 10 ^ (pos + 1)) by (split; apply Z.pow_pos_nonneg; lia).
  assert (HB : DIG_BASE = 10 ^ (pos + 1) * 10 ^ (8 - pos)).
  { rewrite <- Z.pow_add_r by lia. replace (pos + 1 + (8 - pos)) with 9 by lia. done. }
  assert (HB' : DIG_BASE = 10 ^ pos * (10 * 10 ^ (8 - pos))).
  { rewrite HB, Z.pow_add_r by lia. change (10 ^ 1) with 10. ring. }
  unfold u. rewrite <- !Z.div_div, Hm by lia. split; [|split].
  - rewrite HB. replace (w + 10 ^ (pos + 1) * 10 ^ (8 - pos) * T) with (w + 10 ^ (8 - pos) * T * 10 ^ (pos + 1)) by ring.
    rewrite Z.div_add by lia. ring.
  - rewrite HB. exists (w / 10 ^ (pos + 1) + v + 10 ^ (8 - pos) * T). ring.
  - rewrite HB'. replace (w + 10 ^ pos * (10 * 10 ^ (8 - pos)) * T) with (w + 10 * 10 ^ (8 - pos) * T * 10 ^ pos) by ring.
    rewrite Z.div_add by lia. replace (10 * 10 ^ (8 - pos) * T) with (10 ^ (8 - pos) * T * 10) by ring.
    by rewrite Z.mod_add by lia.
Qed.

(** ** The whole of decimal_round *)

Section Round.
Context (d : decimal_t) (Hd : decimal_ok d) (rest : list Z) (in_place : bool).
Notation I := (Z.of_nat (intg_words d)).
Notation F := (Z.of_nat (frac_words d)).
Notation L := (len d).
Notation arr := (buf d ++ rest).
Context (HL : Z.of_nat (length arr) = L).

Definition to_intg : Z := if in_place then intg d else Z.min I L * DIG_PER_DEC1.

Lemma buf_fits : length (buf d) = (intg_words d + frac_words d)%nat /\ I + F <= L.
Proof using Hd HL. rewrite <- HL, length_app, (dok_length _ Hd). split; [done|lia]. Qed.

Lemma to_intg_spec : intg d <= to_intg /\ 0 <= to_intg /\ ROUND_UP to_intg = I.
Proof using Hd HL.
  pose proof buf_fits as [_ Hb]. pose proof (dok_intg _ Hd) as Hi. pose proof (intg_words_Z d Hd) as HI.
  pose proof (ROUND_UP_bounds _ Hi) as HB. rewrite HI in HB. unfold to_intg. destruct in_place.
  - done.
  - rewrite Z.min_l, ROUND_UP_mul by lia. unfold DIG_PER_DEC1. lia.
Qed.

(** Nothing to round: the number gets more fraction digits. *)
Lemma widen_result arr' f0 sc :
  F <= f0 -> frac d <= sc -> scale_words sc f0 ->
  take (Z.to_nat (I + f0)) arr' = buf d ++ replicate (Z.to_nat (f0 - F)) 0 ->
  let r := mk_decimal to_intg sc L (sign d) (used_words to_intg sc arr') in
  decimal_ok r /\ (value r == value d)%Q.
Proof using Hd HL.
  intros Hf Hsc (HR & _ & H9) Ht. destruct to_intg_spec as (Ht1 & Ht2 & Ht3). pose proof (dok_frac _ Hd) as Hf0.
  rewrite !Z.max_l in HR by lia. unfold used_words. rewrite Ht3, HR, Ht. cbv zeta.
  set (r := mk_decimal _ _ _ _ _). pose proof (ROUND_UP_bounds sc ltac:(lia)) as HB. rewrite HR in HB.
  assert (Hfw : frac_words r = Z.to_nat f0) by (unfold frac_words, r; simpl; by rewrite HR).
  assert (Hm : magnitude r = magnitude d * wpow (Z.to_nat (f0 - F))).
  { unfold magnitude, r. cbn [buf]. rewrite be_app, be_zeros, length_replicate. lia. }
  pose proof (wpow_pos (Z.to_nat (f0 - F))) as Hp.
  assert (Hw : wpow (Z.to_nat f0) = wpow (frac_words d) * wpow (Z.to_nat (f0 - F)))
    by (rewrite <- wpow_add; f_equal; lia).
  split.
  - constructor; rewrite ?Hm, ?Hfw; try done.
    + simpl. lia.
    + unfold r, intg_words. cbn [buf intg]. rewrite Ht3, length_app, length_replicate, (dok_length _ Hd). lia.
    + apply words_ok_app. split; [apply (dok_words _ Hd)|apply words_ok_zeros].
    + unfold r. cbn [intg]. rewrite Hw. pose proof (dok_high _ Hd).
      pose proof (Z.pow_le_mono_r 10 (intg d) to_intg ltac:(lia) Ht1).
      pose proof (wpow_pos (frac_words d)). rewrite Z.mul_assoc. apply Z.mul_lt_mono_pos_r; [done|]. nia.
    + unfold r. cbn [frac]. replace (Z.of_nat (Z.to_nat f0)) with f0 by lia.
      destruct (Z.eq_dec f0 F) as [-> |Hne].
      * apply Z.divide_mul_l. eapply Z.divide_trans; [|apply (dok_low _ Hd)].
        exists (10 ^ (sc - frac d)). rewrite <- Z.pow_add_r by lia. f_equal. lia.
      * apply Z.divide_mul_r. rewrite wpow_10. exists (10 ^ (9 * Z.of_nat (Z.to_nat (f0 - F)) - (9 * f0 - sc))).
        rewrite <- Z.pow_add_r by lia. f_equal. lia.
    + intros Hs. pose proof (dok_sign _ Hd Hs). nia.
  - unfold value. apply fraction_eq; [apply wpow_pos|apply wpow_pos|].
    rewrite Hfw, Hw. unfold signed, r at 1. cbn [sign]. rewrite Hm. destruct (sign d); ring.
Qed.

(** The state before the last part, in terms of the number *)
Lemma rounding_intro arr' N f0 sc up A :
  length arr' = Z.to_nat L -> Z.of_nat N = I + f0 -> f0 <= F -> I < L -> F < L -> scale_words sc f0 ->
  sc <= 9 * f0 -> 0 <= sc + intg d -> words_ok (take (N - 1) arr') -> be (take N arr') = A ->
  A * wpow (Z.to_nat (F - f0)) = round_magnitude d sc up ->
  (0 < f0 -> (10 ^ (9 * f0 - sc) | A)) ->
  rounding arr' N I f0 F to_intg sc L A.
Proof using Hd HL.
  intros Hl HN Hf HI HF Hsc Hs9 Hsi Hw HA HM Hdiv. destruct to_intg_spec as (Ht1 & Ht2 & Ht3).
  pose proof buf_fits as [_ Hfit]. pose proof (wpow_pos (frac_words d)) as Hp.
  assert (Hbound : A * wpow (Z.to_nat (Z.max f0 0 - f0)) <= 10 ^ to_intg * wpow (Z.to_nat (Z.max f0 0))).
  { assert (Hu : 0 < digit_unit d sc) by (apply Z.pow_pos_nonneg; lia).
    assert (Hdu : 10 ^ intg d * wpow (frac_words d) = 10 ^ (sc + intg d) * digit_unit d sc).
    { unfold digit_unit. rewrite wpow_10, <- !Z.pow_add_r by (pose proof (dok_intg _ Hd); lia). f_equal. lia. }
    assert (Hq : magnitude d / digit_unit d sc < 10 ^ (sc + intg d)).
    { apply Z.div_lt_upper_bound; [done|]. pose proof (dok_high _ Hd). lia. }
    assert (Hrm : A * wpow (Z.to_nat (F - f0)) <= 10 ^ intg d * wpow (frac_words d)).
    { rewrite HM, Hdu. unfold round_magnitude. apply Z.mul_le_mono_nonneg_r; [lia|]. destruct up; lia. }
    pose proof (Z.pow_le_mono_r 10 (intg d) to_intg ltac:(lia) Ht1) as Hpow.
    apply (Z.mul_le_mono_pos_r _ _ (wpow (frac_words d)) Hp).
    replace (A * wpow (Z.to_nat (Z.max f0 0 - f0)) * wpow (frac_words d))
      with (A * wpow (Z.to_nat (F - f0)) * wpow (Z.to_nat (Z.max f0 0))).
    2: { rewrite <- !Z.mul_assoc, <- !wpow_add. do 2 f_equal. lia. }
    replace (10 ^ to_intg * wpow (Z.to_nat (Z.max f0 0)) * wpow (frac_words d))
      with (10 ^ to_intg * wpow (frac_words d) * wpow (Z.to_nat (Z.max f0 0))) by ring.
    pose proof (wpow_pos (Z.to_nat (Z.max f0 0))). apply Z.mul_le_mono_nonneg_r; [lia|].
    etransitivity; [exact Hrm|]. apply Z.mul_le_mono_nonneg_r; lia. }
  constructor; try done; try lia.
  - intros EA. pose proof (ROUND_UP_bounds _ Ht2) as HB. rewrite Ht3 in HB.
    cut (9 * I <= to_intg); [lia|]. rewrite EA, <- wpow_add, !wpow_10, <- Z.pow_add_r in Hbound by lia.
    apply Z.pow_le_mono_r_iff in Hbound; lia.
  - destruct (Z.lt_ge_cases 0 f0) as [Hpos|Hneg].
    + destruct Hsc as (HR & _ & H9). replace (Z.max f0 0) with f0 in * by lia. rewrite Z.sub_diag.
      change (wpow (Z.to_nat 0)) with 1. rewrite Z.mul_1_r, Z.max_l by lia. by apply Hdiv.
    + rewrite (Z.max_r f0), (Z.max_r sc) by lia. apply Z.divide_1_l.
Qed.

(** The result that is asked for *)
Definition round_ok (res : option (Z * decimal_t)) (sc : Z) (mode : decimal_round_mode) : Prop :=
  exists e r up, res = Some (e, r) /\ (e = E_DEC_OK \/ e = E_DEC_TRUNCATED) /\ decimal_ok r /\
    rounds_right mode d sc up /\
    (value r == inject_Z ((if sign d then -1 else 1) * round_magnitude d sc up) /
                inject_Z (wpow (frac_words d)))%Q.

Lemma round_result_ok res A f0 sc mode up :
  round_result res A f0 L (sign d) -> f0 <= F -> rounds_right mode d sc up ->
  A * wpow (Z.to_nat (F - f0)) = round_magnitude d sc up -> round_ok res sc mode.
Proof using.
  clear HL Hd. intros (e & r & -> & He & Hr & Hv & Hs & _) Hf Hup HA. exists e, r, up.
  split; [done|]. split; [done|]. split; [done|]. split; [done|].
  unfold value. apply fraction_eq; [apply wpow_pos|apply wpow_pos|]. rewrite <- HA.
  unfold rounded_to in Hv. pose proof (wpow_pos (Z.to_nat (Z.max f0 0))) as Hp.
  assert (Hm : magnitude r * wpow (frac_words d) = A * wpow (Z.to_nat (F - f0)) * wpow (frac_words r)).
  { apply (Z.mul_reg_r _ _ (wpow (Z.to_nat (Z.max f0 0)))); [lia|].
    replace (magnitude r * wpow (frac_words d) * wpow (Z.to_nat (Z.max f0 0)))
      with (magnitude r * wpow (Z.to_nat (Z.max f0 0)) * wpow (frac_words d)) by ring. rewrite Hv.
    rewrite <- !Z.mul_assoc, <- !wpow_add. do 2 f_equal. lia. }
  unfold signed. destruct (Z.eq_dec A 0) as [-> |Hne].
  - assert (magnitude r = 0) as ->; [|destruct (sign r), (sign d); simpl; lia].
    pose proof (wpow_pos (frac_words d)). nia.
  - rewrite (Hs Hne). destruct (sign d); [rewrite Z.mul_opp_l|]; lia.
Qed.

(** A number that is rounded away *)
Lemma zero_ok sc mode :
  round_magnitude d sc false = 0 -> rounds_right mode d sc false ->
  round_ok (Some (E_DEC_OK, decimal_make_zero L)) sc mode.
Proof using.
  clear HL Hd. intros Hz Hup. exists E_DEC_OK, (decimal_make_zero L), false. split; [done|]. split; [by left|].
  split; [apply make_zero_ok|]. split; [done|]. rewrite Hz, Z.mul_0_r.
  unfold value. apply fraction_eq; [apply wpow_pos|apply wpow_pos|]. change (signed (decimal_make_zero L)) with 0. lia.
Qed.

(** A number below one that is rounded up to one, or to a power of ten that it is below: no word of
    it is kept. *)
Lemma whole_carry f0 sc e :
  I + f0 = 0 -> I < L -> 0 <= sc + intg d -> f0 <= F -> scale_words sc f0 -> sc <= 9 * f0 ->
  (e = E_DEC_OK \/ e = E_DEC_TRUNCATED) ->
  round_result
    (arr' ← set_word arr 0 DIG_BASE; round_finish arr' 0 I f0 F to_intg sc L e (sign d)) 1 f0 L (sign d).
Proof using Hd HL.
  intros H0 HI Hsi Hf Hsc Hs9 He. destruct to_intg_spec as (Ht1 & Ht2 & Ht3).
  rewrite set_word_spec by lia. simpl mbind. unfold round_finish. rewrite read_word_spec by done.
  change (Z.to_nat 0) with 0%nat. rewrite list_lookup_insert_eq by lia. simpl mbind.
  rewrite Z.sub_diag, set_word_spec by (rewrite length_insert; lia). simpl mbind.
  pose proof (ROUND_UP_bounds _ Ht2) as HB. rewrite Ht3 in HB.
  replace (to_intg + 1) with (I * 9 + 1) by lia.
  set (arr' := <[0%nat := 0]> (<[0%nat := DIG_BASE]> (buf d ++ rest))).
  destruct (carry_out_spec arr' 0 I f0 F sc L e (sign d)) as (e' & r & E & Hr & Hv & Hs & He' & Hlr);
    try done; try lia; [constructor|unfold arr'; rewrite !length_insert; lia|].
  exists e', r. split; [exact E|]. split; [destruct He' as [-> | ->]; auto|]. done.
Qed.

(** Rounding at the border of two words *)
Lemma border_ok f0 mode e :
  0 <= I + f0 -> f0 < F -> I < L -> F < L -> scale_words (9 * f0) f0 -> 0 <= 9 * f0 + intg d ->
  (e = E_DEC_OK \/ e = E_DEC_TRUNCATED) ->
  round_ok
    (do_inc ← border_increment arr (I + f0 - 1) (F - f0) mode (sign d);
     if do_inc : bool then
       if 0 <? f0 + I then
         w ← read_word arr (I + f0 - 1);
         arr' ← set_word arr (I + f0 - 1) (w + 1);
         round_finish arr' (I + f0 - 1) I f0 F to_intg (9 * f0) L e (sign d)
       else
         arr' ← set_word arr (I + f0 - 1 + 1) DIG_BASE;
         round_finish arr' (I + f0 - 1 + 1) I f0 F to_intg (9 * f0) L e (sign d)
     else if f0 + I =? 0 then Some (E_DEC_OK, decimal_make_zero L)
     else round_finish arr (I + f0 - 1) I f0 F to_intg (9 * f0) L e (sign d)) (9 * f0) mode.
Proof using Hd HL.
  intros H0 Hf HI HF Hsc Hsi He. destruct buf_fits as [Hlb Hfit]. pose proof (dok_words _ Hd) as Hw.
  destruct (border_increment_spec d Hd rest f0 mode H0 Hf) as (up & -> & Hup). simpl mbind.
  assert (Hlead : leading d (I + f0) * wpow (Z.to_nat (F - f0)) = round_magnitude d (9 * f0) false).
  { unfold round_magnitude, digit_unit. rewrite leading_div, Z.add_0_r by (done || lia).
    rewrite (wpow_10 (Z.to_nat (F - f0))). do 3 f_equal; lia. }
  assert (Hinc : (leading d (I + f0) + 1) * wpow (Z.to_nat (F - f0)) = round_magnitude d (9 * f0) true).
  { unfold round_magnitude in *. rewrite Z.mul_add_distr_r, Hlead, Z.add_0_r, Z.mul_add_distr_r.
    f_equal. unfold digit_unit. rewrite wpow_10, !Z.mul_1_l. f_equal. lia. }
  set (N := Z.to_nat (I + f0)).
  assert (Harr : length arr = Z.to_nat L) by lia.
  assert (HtN : be (take N arr) = leading d (I + f0)) by (rewrite arr_take by lia; done).
  destruct (decide (N = 0%nat)) as [E0|HN0].
  - assert (Ef : f0 + I = 0) by lia. rewrite Ef. simpl Z.ltb. simpl Z.eqb. cbv iota.
    assert (Hl0 : leading d (I + f0) = 0) by (unfold leading; by rewrite (Z.add_comm I), Ef).
    rewrite Hl0 in Hlead, Hinc. destruct up.
    + apply (round_result_ok _ 1 f0 _ _ true); [|lia|exact Hup|exact Hinc].
      replace (I + f0 - 1 + 1) with 0 by lia. apply whole_carry; lia || done.
    + by apply zero_ok.
  - rewrite (proj2 (Z.ltb_lt 0 (f0 + I))), (proj2 (Z.eqb_neq (f0 + I) 0)) by lia.
    destruct (lookup_lt_is_Some_2 arr (N - 1)) as [w Ew]; [lia|].
    assert (Hww : word_ok w).
    { rewrite arr_lookup in Ew by lia. apply (Forall_lookup_1 _ _ _ _ Hw Ew). }
    assert (HtN1 : words_ok (take (N - 1) arr)) by (rewrite arr_take by lia; by apply words_ok_take).
    assert (Hlw : leading d (I + f0) = w + DIG_BASE * be (take (N - 1) arr)).
    { rewrite <- HtN. replace N with (S (N - 1)) at 1 by lia. by apply be_take_S. }
    replace (I + f0 - 1) with (Z.of_nat N - 1) by lia. unfold word_ok in Hww. destruct up.
    + rewrite read_word_spec by lia. replace (Z.to_nat (Z.of_nat N - 1)) with (N - 1)%nat by lia. rewrite Ew. simpl mbind.
      rewrite set_word_spec by lia. simpl mbind. replace (Z.to_nat (Z.of_nat N - 1)) with (N - 1)%nat by lia.
      set (arr' := <[(N - 1)%nat := w + 1]> arr).
      assert (Hn : arr' !! (N - 1)%nat = Some (w + 1)) by (apply list_lookup_insert_eq; lia).
      assert (Ht1 : take (N - 1) arr' = take (N - 1) arr) by (by apply take_insert_ge).
      apply (round_result_ok _ (leading d (I + f0) + 1) f0 _ _ true); [|lia|exact Hup|exact Hinc].
      apply (round_finish_result arr' N (w + 1)); try done; try lia.
      apply (rounding_intro arr' N f0 (9 * f0) true); try done; try lia.
      * unfold arr'. by rewrite length_insert.
      * by rewrite Ht1.
      * replace N with (S (N - 1)) at 1 by lia. rewrite (be_take_S _ _ _ Hn), Ht1. lia.
      * intros _. rewrite Z.sub_diag. apply Z.divide_1_l.
    + apply (round_result_ok _ (leading d (I + f0)) f0 _ _ false); [|lia|exact Hup|exact Hlead].
      apply (round_finish_result arr N w); try done; try lia.
      apply (rounding_intro arr N f0 (9 * f0) false); try done; try lia.
      intros _. rewrite Z.sub_diag. apply Z.divide_1_l.
Qed.

(** Rounding inside a word.  The last word that is kept may be one before the last word of the
    number, or the last one itself. *)
Lemma inside_ok f0 sc mode e :
  f0 <= F -> I < L -> F < L -> scale_words sc f0 -> 0 <= sc + intg d -> 1 <= 9 * f0 - sc <= 8 ->
  (e = E_DEC_OK \/ e = E_DEC_TRUNCATED) ->
  round_ok
    (w ← read_word arr (I + f0 - 1);
     arr' ← set_word arr (I + f0 - 1) (inside_word w (f0 * DIG_PER_DEC1 - sc - 1) mode (sign d));
     round_finish arr' (I + f0 - 1) I f0 F to_intg sc L e (sign d)) sc mode.
Proof using Hd HL.
  intros Hf HI HF Hsc Hsi Hk He. destruct buf_fits as [Hlb Hfit]. pose proof (dok_words _ Hd) as Hw.
  assert (HN0 : 0 < I + f0).
  { pose proof (ROUND_UP_bounds _ (dok_intg _ Hd)) as HB. rewrite (intg_words_Z d Hd) in HB. lia. }
  set (N := Z.to_nat (I + f0)). replace (I + f0 - 1) with (Z.of_nat N - 1) by lia.
  assert (HN1 : Z.to_nat (Z.of_nat N - 1) = (N - 1)%nat) by lia.
  destruct (lookup_lt_is_Some_2 arr (N - 1)) as [w Ew]; [lia|].
  rewrite read_word_spec, HN1, Ew by lia. simpl mbind. rewrite set_word_spec, HN1 by lia. simpl mbind.
  assert (Hww : word_ok w) by (rewrite arr_lookup in Ew by lia; apply (Forall_lookup_1 _ _ _ _ Hw Ew)).
  set (pos := f0 * DIG_PER_DEC1 - sc - 1). assert (Hpos : 0 <= pos <= 7) by (unfold pos, DIG_PER_DEC1; lia).
  destruct (inside_word_spec w pos mode (sign d) Hpos) as (up & -> & Hhalf & Htr).
  set (T := be (take (N - 1) arr)). set (W := wpow (Z.to_nat (F - f0))).
  assert (Hlead : magnitude d / W = w + DIG_BASE * T).
  { unfold W. rewrite <- leading_div by (done || lia). unfold leading, T. fold N.
    rewrite <- (arr_take d rest N) by lia. replace N with (S (N - 1)) at 1 by lia. by apply be_take_S. }
  pose proof (wpow_pos (Z.to_nat (F - f0))) as HW. fold W in HW.
  destruct (inside_value (magnitude d) w T W pos up Hpos HW Hlead) as (Hval & Hdiv & Hdig).
  assert (Hu : W * 10 ^ (pos + 1) = digit_unit d sc).
  { unfold W, digit_unit. rewrite wpow_10, <- Z.pow_add_r by lia. f_equal. unfold pos, DIG_PER_DEC1. lia. }
  cbv zeta in Hval. rewrite Hu in Hval. fold (round_magnitude d sc up) in Hval.
  set (w' := 10 ^ (pos + 1) * (w / 10 ^ (pos + 1) + (if up then 1 else 0))) in *.
  assert (Hw' : 0 <= w' <= DIG_BASE) by (by apply inside_bound).
  set (arr' := <[(N - 1)%nat := w']> arr).
  assert (Hn : arr' !! (N - 1)%nat = Some w') by (apply list_lookup_insert_eq; lia).
  assert (Ht1 : take (N - 1) arr' = take (N - 1) arr) by (by apply take_insert_ge).
  assert (HA : be (take N arr') = w' + DIG_BASE * T).
  { replace N with (S (N - 1)) at 1 by lia. by rewrite (be_take_S _ _ _ Hn), Ht1. }
  assert (Hright : rounds_right mode d sc up).
  { split; [|exact Htr]. intros Hm. rewrite (Hhalf Hm), Hdig, next_digit, <- Hu.
    - rewrite Z.pow_add_r by lia. change (10 ^ 1) with 10.
      by replace (W * (10 ^ pos * 10)) with (10 * (W * 10 ^ pos)) by ring.
    - apply Z.mul_pos_pos; [done|]. apply Z.pow_pos_nonneg; lia. }
  apply (round_result_ok _ (w' + DIG_BASE * T) f0 _ _ up); [|lia|done|exact Hval].
  apply (round_finish_result arr' N w'); try done; try lia.
  apply (rounding_intro arr' N f0 sc up); try done; try lia.
  - unfold arr'. rewrite length_insert. lia.
  - rewrite Ht1, arr_take by lia. by apply words_ok_take.
  - intros _. by replace (9 * f0 - sc) with (pos + 1) by (unfold pos, DIG_PER_DEC1; lia).
Qed.
End Round.

Lemma round_away d sc mode :
  decimal_ok d -> sc + intg d < 0 -> round_magnitude d sc false = 0 /\ rounds_right mode d sc false.
Proof.
  intros Hd Hs. pose proof (dok_intg _ Hd). pose proof (dok_high _ Hd) as Hh.
  pose proof (be_bound _ (dok_words _ Hd)) as [Hm _]. fold (magnitude d) in Hm.
  assert (Hu : 10 * (10 ^ intg d * wpow (frac_words d)) <= digit_unit d sc).
  { unfold digit_unit. rewrite wpow_10. change 10 with (10 ^ 1) at 1. rewrite <- !Z.pow_add_r by lia.
    apply Z.pow_le_mono_r; lia. }
  unfold round_magnitude, rounds_right. rewrite Z.div_small, Z.mod_small by lia. split; [lia|].
  split; [|done]. intros _. symmetry. apply Z.leb_gt. lia.
Qed.

(** The scale that there is room for *)
Definition start_frac (scale : Z) : Z := if 0 <? scale then ROUND_UP scale else scale ÷ DIG_PER_DEC1.

Definition effective_scale (d : decimal_t) (scale : Z) : Z :=
  if len d <? start_frac scale + Z.of_nat (intg_words d)
  then (len d - Z.of_nat (intg_words d)) * DIG_PER_DEC1 else scale.

Lemma start_frac_words scale : scale_words scale (start_frac scale) /\ scale <= 9 * start_frac scale.
Proof.
  unfold start_frac, scale_words, DIG_PER_DEC1. destruct (Z.ltb_spec 0 scale) as [H|H].
  - pose proof (ROUND_UP_bounds scale ltac:(lia)). rewrite !Z.max_l by lia. lia.
  - rewrite (Z.max_r scale) by lia. change (ROUND_UP 0) with 0.
    pose proof (Z.quot_rem' scale 9). pose proof (Z.rem_bound_pos_neg scale 9 ltac:(lia) H). lia.
Qed.

(** What decimal_round promises *)
Definition round_spec (d : decimal_t) (sc : Z) (mode : decimal_round_mode) (res : option (Z * decimal_t)) : Prop :=
  if frac d <=? sc then
    exists e r, res = Some (e, r) /\ (e = E_DEC_OK \/ e = E_DEC_TRUNCATED) /\ decimal_ok r /\ (value r == value d)%Q
  else round_ok d res sc mode.

Lemma round_body_ok in_place d rest mode f0 sc e :
  decimal_ok d -> Z.of_nat (length (buf d ++ rest)) = len d -> Z.of_nat (frac_words d) < len d ->
  Z.of_nat (intg_words d) < len d \/ 0 <= sc -> Z.of_nat (intg_words d) + f0 <= len d ->
  scale_words sc f0 -> sc <= 9 * f0 -> (e = E_DEC_OK \/ e = E_DEC_TRUNCATED) ->
  round_spec d sc mode (round_body in_place d rest mode f0 sc e).
Proof.
  intros Hd HL HF HI Hfit Hsc Hs9 He. destruct (buf_fits d Hd rest HL) as [Hlb Hfd].
  pose proof (ROUND_UP_bounds _ (dok_frac _ Hd)) as HR. pose proof (dok_frac _ Hd) as Hf0.
  unfold round_spec, round_body. cbv zeta. rewrite intg_words_Z, frac_words_Z in * by done.
  fold (to_intg d in_place). set (I := Z.of_nat (intg_words d)) in *. set (F := Z.of_nat (frac_words d)) in *.
  destruct (Z.ltb_spec (sc + intg d) 0) as [Haway|Hsi].
  { pose proof (dok_intg _ Hd). rewrite (proj2 (Z.leb_gt _ _)) by lia.
    apply zero_ok; by apply round_away. }
  destruct (Z.ltb_spec F f0) as [Hw|Hw]; [|destruct (Z.leb_spec (frac d) sc) as [Hn|Hn]].
  - rewrite (proj2 (Z.leb_le (frac d) sc)) by (destruct Hsc as (_ & _ & ?); lia).
    replace (I + F) with (Z.of_nat (length (buf d))) by lia. rewrite zero_words_spec by lia. simpl mbind.
    eexists _, _. split; [done|]. split; [done|]. apply (widen_result d Hd rest in_place HL _ f0);
      [lia|destruct Hsc as (_ & _ & ?); lia|done|].
    rewrite take_app_length, app_assoc, take_app_length'; [done|]. rewrite length_app, length_replicate. lia.
  - eexists _, _. split; [done|]. split; [done|].
    assert (f0 = F) as -> by (destruct Hsc as (HR' & _ & _); pose proof (ROUND_UP_bounds (Z.max sc 0)); lia).
    apply (widen_result d Hd rest in_place HL _ F); [done|done|done|].
    rewrite Z.sub_diag. simpl replicate. rewrite app_nil_r, take_app_length'; [done|lia].
  - assert (HIL : I < len d) by (destruct HI as [|HI]; [done|]; lia).
    destruct (Z.eqb_spec sc (f0 * DIG_PER_DEC1)) as [E|E]; unfold DIG_PER_DEC1 in E.
    + replace sc with (9 * f0) in * by lia. apply border_ok; try done; try lia.
      pose proof (ROUND_UP_bounds _ (dok_intg _ Hd)) as HB. rewrite (intg_words_Z d Hd) in HB. lia.
    + apply inside_ok; try done. destruct Hsc as (_ & _ & ?). lia.
Qed.

(** C29: [decimal_round] of a well-formed number whose fraction leaves a word of the buffer free, and
    whose integer part does so too if the scale is negative, into another buffer or in place, in every
    mode: it never leaves its buffers, and returns a well-formed number.  (Without a free
    integer word a carry can make it write behind the buffer, [decimal_round_overrun].)  If no digits are cut off, the value is the
    same; otherwise it is a multiple of the last digit that is kept next to the number, with HALF_UP the
    nearest one (away from zero for a half) and with TRUNCATE the one towards zero, whatever words the
    carry runs through.  A scale that there is no room for is reduced to the words that there are. *)
Theorem decimal_round_correct in_place d rest scale mode :
  decimal_ok d -> Z.of_nat (length (buf d ++ rest)) = len d -> Z.of_nat (frac_words d) < len d ->
  Z.of_nat (intg_words d) < len d \/ 0 <= scale ->
  round_spec d (effective_scale d scale) mode (decimal_round in_place d rest scale mode).
Proof.
  intros Hd HL HF HI. destruct (start_frac_words scale) as [Hsc Hs9].
  destruct (buf_fits d Hd rest HL) as [_ Hfit].
  unfold decimal_round, effective_scale. rewrite intg_words_Z by done. fold (start_frac scale).
  destruct (Z.ltb_spec (len d) (start_frac scale + Z.of_nat (intg_words d))) as [Hlt|Hge].
  - apply round_body_ok; try done; try (unfold DIG_PER_DEC1; lia).
    unfold scale_words. rewrite !Z.max_l, ROUND_UP_mul by (unfold DIG_PER_DEC1; lia). unfold DIG_PER_DEC1. lia.
  - apply round_body_ok; try done; lia || by left.
Qed.

(** 99.995 to two digits *)
Lemma decimal_round_correct_witness :
  exists e r,
    decimal_round true (mk_decimal 2 3 9 true [99; 995000000]) (replicate 7 7) 2 HALF_UP = Some (e, r) /\
    (value r == - 100)%Q.
Proof.
  destruct (decimal_round_correct true (mk_decimal 2 3 9 true [99; 995000000]) (replicate 7 7) 2 HALF_UP)
    as (e & r & up & E & _ & _ & [Hup _] & Hv); try done; [|by left|].
  { constructor; try done; [by repeat constructor|by exists 99995]. }
  exists e, r. split; [exact E|]. rewrite Hv, (Hup eq_refl). reflexivity.
Defined.

(** Forty and forty-one nines *)
Definition nines40 : decimal_t := mk_decimal 40 0 DECIMAL_BUFF_LENGTH false (9999 :: replicate 4 DIG_MAX).
Definition nines41 : decimal_t := mk_decimal 41 0 DECIMAL_BUFF_LENGTH false (99999 :: replicate 4 DIG_MAX).

(** Rounding a number that fills the whole buffer with integer words to a position before the point
    can write behind the end of the buffer, because the carry needs one more word: the last
    precondition of [decimal_round_correct] cannot be dropped.  The product of two numbers of the size
    that the server allows, which is computed without an error, is such a number. *)
Lemma decimal_round_overrun :
  exists d, decimal_ok nines40 /\ decimal_ok nines41 /\ my_decimal_mul nines40 nines41 = Some (E_DEC_OK, d) /\
    decimal_ok d /\ decimal_round false d [] (-42) HALF_UP = None.
Proof.
  eexists. split; [apply decimal_ok_by; reflexivity|]. split; [apply decimal_ok_by; reflexivity|].
  split; [reflexivity|]. split; [apply decimal_ok_by; reflexivity|reflexivity].
Qed.
