(* ===== verification/DecimalBinValue.v ===== *)
(** * Bytes and fields of the binary format of decimals

    The format of strings/decimal.c described on numbers: a field of [g] digits takes
    [digit_bytes g] bytes, a list of fields is one big-endian number, and inverting
    every byte is an exclusive or with -1. *)

From S2P Require Import Prelude Bytes Decimal DecimalValue DecimalBin.

Local Open Scope Z_scope.

(** ** The mask: 0, or -1 for negative numbers *)

Definition mask_of (neg : bool) : Z := if neg then -1 else 0.
Definition masked (neg : bool) (x : Z) : Z := Z.lxor x (mask_of neg).

Lemma masked_eq neg x : masked neg x = if neg then -1 - x else x.
Proof.
  unfold masked, mask_of. destruct neg; [|apply Z.lxor_0_r].
  rewrite Z.lxor_m1_r. unfold Z.lnot. lia.
Qed.

Lemma masked_twice neg x : Z.lxor (masked neg x) (mask_of neg) = x.
Proof. unfold masked. by rewrite Z.lxor_assoc, Z.lxor_nilpotent, Z.lxor_0_r. Qed.

Lemma shiftr_masked neg x n : 0 <= n -> Z.shiftr (masked neg x) n = masked neg (Z.shiftr x n).
Proof.
  intros Hn. unfold masked. rewrite Z.shiftr_lxor. f_equal.
  destruct neg; simpl; [|apply Z.shiftr_0_l].
  rewrite Z.shiftr_div_pow2 by done. pose proof (Z.pow_pos_nonneg 2 n).
  symmetry. apply Z.div_unique with (2 ^ n - 1); lia.
Qed.

(** Two numbers one after the other *)
Lemma store_masked_app neg a b x y :
  0 <= y < bpow b ->
  mi_intstore a (masked neg x) ++ mi_intstore b (masked neg y)
  = mi_intstore (a + b) (masked neg (x * bpow b + y)).
Proof.
  intros Hy. rewrite mi_intstore_app, shiftr_masked by lia. f_equal.
  - do 2 f_equal. rewrite Z.shiftr_div_pow2, <- bpow_2 by lia.
    rewrite Z.div_add_l by (pose proof (bpow_pos b); lia). rewrite Z.div_small by done. lia.
  - apply mi_intstore_mod. rewrite !masked_eq. destruct neg.
    + replace (-1 - (x * bpow b + y)) with ((-1 - y) + (- x) * bpow b) by ring.
      rewrite Z.mod_add; [done|]. pose proof (bpow_pos b). lia.
    + rewrite Z.add_comm, Z.mod_add; [done|]. pose proof (bpow_pos b). lia.
Qed.

Lemma store_masked_0 neg n : mi_intstore n (masked neg 0) = replicate n (Z.land (mask_of neg) 255).
Proof.
  induction n as [|n IH]; [done|]. simpl mi_intstore.
  rewrite shiftr_masked, Z.shiftr_0_l, IH by lia. unfold masked at 1. rewrite Z.lxor_0_l.
  by rewrite <- replicate_cons_app.
Qed.

(** Bytes of padding in front of and behind a number *)
Lemma pad_front neg a b x :
  0 <= x < bpow b ->
  replicate a (Z.land (mask_of neg) 255) ++ mi_intstore b (masked neg x)
  = mi_intstore (a + b) (masked neg x).
Proof. intros Hx. rewrite <- store_masked_0, store_masked_app by done. do 2 f_equal. Qed.

Lemma pad_back neg a b x :
  mi_intstore a (masked neg x) ++ replicate b (Z.land (mask_of neg) 255)
  = mi_intstore (a + b) (masked neg (x * bpow b)).
Proof.
  rewrite <- store_masked_0, store_masked_app by (pose proof (bpow_pos b); lia).
  do 2 f_equal. lia.
Qed.

(** ** The first bit *)

Lemma bit7_small r : 0 <= r < 128 -> Z.testbit r 7 = false.
Proof. intros Hr. by rewrite <- (Z.mod_small r (2 ^ 7)), Z.mod_pow2_bits_high by lia. Qed.

Lemma land_128_small r : 0 <= r < 128 -> Z.land r 128 = 0.
Proof.
  intros Hr. change 128 with (2 ^ 7). apply Z.bits_inj_0. intros i. rewrite Z.land_spec.
  destruct (decide (i = 7)) as [->|]; [by rewrite bit7_small|].
  rewrite Z.pow2_bits_false by done. apply andb_false_r.
Qed.

Lemma lxor_128 q : 0 <= q < 128 -> Z.lxor q 128 = q + 128.
Proof. intros Hq. symmetry. by apply Z.add_nocarry_lxor, land_128_small. Qed.

Lemma lxor_128_high r : 0 <= r < 128 -> Z.lxor (r + 128) 128 = r.
Proof. intros H. by rewrite <- lxor_128, Z.lxor_assoc, Z.lxor_nilpotent, Z.lxor_0_r. Qed.

(** The first byte of a masked number whose first bit is not in use *)
Lemma store_first neg n B :
  0 <= B < 128 * bpow n ->
  exists q, 0 <= q < 128 /\
  mi_intstore (S n) (masked neg B)
    = (if neg then (127 - q) + 128 else q) :: mi_intstore n (masked neg B) /\
  masked neg B mod bpow n = masked neg B - masked neg q * bpow n.
Proof.
  intros HB. pose proof (bpow_pos n). exists (B / bpow n).
  assert (Hq : 0 <= B / bpow n < 128)
    by (split; [apply Z.div_pos; lia | apply Z.div_lt_upper_bound; lia]).
  split; [done|]. split.
  - change (S n) with (1 + n)%nat. rewrite mi_intstore_app, shiftr_masked by lia.
    rewrite Z.shiftr_div_pow2, <- bpow_2 by lia. cbn [mi_intstore app]. f_equal.
    rewrite land_255, masked_eq. destruct neg; [|apply Z.mod_small; lia].
    replace (-1 - B / bpow n) with ((127 - B / bpow n) + 128 + -1 * 256) by ring.
    rewrite Z.mod_add by lia. apply Z.mod_small. lia.
  - pose proof (Z.div_mod B (bpow n)). pose proof (Z.mod_pos_bound B (bpow n)).
    rewrite !masked_eq. destruct neg.
    + symmetry. apply Z.mod_unique with (-1 - B / bpow n); [left|]; lia.
    + rewrite (Z.mod_eq B) by lia. lia.
Qed.

(** Both signs of a number, the first bit inverted, as one number *)
Lemma be256_flip neg n B :
  0 <= B < 128 * bpow n ->
  be256 (flip_first (mi_intstore (S n) (masked neg B))) = 128 * bpow n + masked neg B.
Proof.
  intros HB. destruct (store_first neg n B HB) as (q & Hq & -> & Hm).
  cbn [flip_first be256]. rewrite be256_store, mi_intstore_length, Hm. fold (bpow n).
  rewrite (masked_eq neg q). destruct neg.
  - rewrite lxor_128_high by lia. ring.
  - rewrite lxor_128 by lia. ring.
Qed.

Lemma flip_bytes neg n B :
  0 <= B < 128 * bpow n ->
  Forall byte_ok (flip_first (mi_intstore (S n) (masked neg B))) /\
  length (flip_first (mi_intstore (S n) (masked neg B))) = S n.
Proof.
  intros HB. destruct (store_first neg n B HB) as (q & Hq & -> & _). cbn [flip_first length].
  rewrite mi_intstore_length. split; [|done]. constructor; [|apply mi_intstore_bytes].
  unfold byte_ok. destruct neg; [rewrite lxor_128_high | rewrite lxor_128]; lia.
Qed.

Lemma memcmp_flip n neg1 B1 neg2 B2 :
  0 <= B1 < 128 * bpow n -> 0 <= B2 < 128 * bpow n ->
  memcmp (flip_first (mi_intstore (S n) (masked neg1 B1)))
         (flip_first (mi_intstore (S n) (masked neg2 B2)))
  = match masked neg1 B1 ?= masked neg2 B2 with Lt => -1 | Eq => 0 | Gt => 1 end.
Proof.
  intros H1 H2. destruct (flip_bytes neg1 n B1 H1) as [F1 L1].
  destruct (flip_bytes neg2 n B2 H2) as [F2 L2].
  rewrite memcmp_be256, !be256_flip, compare_shift by congruence || done. done.
Qed.

(** The format is read back: the mask is found in the first bit, and the first bit is
    restored. *)
Lemma flip_flip neg n B :
  0 <= B < 128 * bpow n ->
  let l := flip_first (mi_intstore (S n) (masked neg B)) in
  flip_first l = mi_intstore (S n) (masked neg B) /\
  (if Z.land (nth 0 l 0) 128 =? 0 then -1 else 0) = mask_of neg.
Proof.
  intros HB. destruct (store_first neg n B HB) as (q & Hq & -> & _). cbn [flip_first nth].
  rewrite Z.lxor_assoc, Z.lxor_nilpotent, Z.lxor_0_r. split; [done|].
  destruct neg.
  - by rewrite lxor_128_high, land_128_small by lia.
  - destruct (Z.eqb_spec (Z.land (Z.lxor q 128) 128) 0) as [E|]; [|done].
    apply (f_equal (fun x => Z.testbit x 7)) in E.
    rewrite Z.land_spec, Z.lxor_spec, bit7_small in E by lia. done.
Qed.

(** ** Fields

    [gs] is the number of digits of each field, [vs] are their values. *)

Definition gbytes (g : Z) : nat := Z.to_nat (digit_bytes g).

Fixpoint total (gs : list Z) : nat :=
  match gs with
  | g :: gs' => gbytes g + total gs'
  | [] => 0
  end%nat.

Fixpoint zsum (gs : list Z) : Z :=
  match gs with
  | g :: gs' => g + zsum gs'
  | [] => 0
  end.

Lemma zsum_app gs1 gs2 : zsum (gs1 ++ gs2) = zsum gs1 + zsum gs2.
Proof. induction gs1 as [|g gs1 IH]; simpl; [done|]. rewrite IH. lia. Qed.

Fixpoint store_fields (neg : bool) (gs vs : list Z) : list Z :=
  match gs, vs with
  | g :: gs', v :: vs' => mi_intstore (gbytes g) (masked neg v) ++ store_fields neg gs' vs'
  | _, _ => []
  end.

(** All fields as one number, by their bytes and by their digits *)
Fixpoint bnum (gs vs : list Z) : Z :=
  match gs, vs with
  | g :: gs', v :: vs' => v * bpow (total gs') + bnum gs' vs'
  | _, _ => 0
  end.

Fixpoint num (gs vs : list Z) : Z :=
  match gs, vs with
  | g :: gs', v :: vs' => v * 10 ^ zsum gs' + num gs' vs'
  | _, _ => 0
  end.

Definition field_ok (g v : Z) : Prop := 1 <= g <= 9 /\ 0 <= v < 10 ^ g.
Definition fields_ok (gs vs : list Z) : Prop := Forall2 field_ok gs vs.

Lemma digits_cases g : 1 <= g <= 9 ->
  g = 1 \/ g = 2 \/ g = 3 \/ g = 4 \/ g = 5 \/ g = 6 \/ g = 7 \/ g = 8 \/ g = 9.
Proof. lia. Qed.

(** A field leaves its first bit free. *)
Lemma digits_fit g : 1 <= g <= 9 ->
  exists n, gbytes g = S n /\ 10 ^ g <= 128 * bpow n.
Proof.
  intros [-> | [-> | [-> | [-> | [-> | [-> | [-> | [-> | ->]]]]]]]]%digits_cases;
    eexists; (split; [reflexivity|]); vm_compute; discriminate.
Qed.

Lemma field_bound g v : field_ok g v -> 0 <= v < bpow (gbytes g).
Proof.
  intros [Hg Hv]. destruct (digits_fit g Hg) as (n & -> & Hn). rewrite bpow_S.
  pose proof (bpow_pos n). lia.
Qed.

Lemma bnum_bound gs vs : fields_ok gs vs -> 0 <= bnum gs vs < bpow (total gs).
Proof.
  induction 1 as [|g v gs vs Hf _ IH]; simpl; [by vm_compute|].
  apply field_bound in Hf. rewrite bpow_add. nia.
Qed.

Lemma bnum_first gs vs :
  fields_ok gs vs -> gs <> [] -> exists n, total gs = S n /\ 0 <= bnum gs vs < 128 * bpow n.
Proof.
  destruct 1 as [|g v gs vs [Hg Hv] H]; [done|]. intros _. simpl.
  destruct (digits_fit g Hg) as (n & -> & Hn). pose proof (bnum_bound _ _ H).
  exists (n + total gs)%nat. split; [done|]. rewrite bpow_add. pose proof (bpow_pos (total gs)). nia.
Qed.

Lemma store_fields_num neg gs vs :
  fields_ok gs vs -> store_fields neg gs vs = mi_intstore (total gs) (masked neg (bnum gs vs)).
Proof.
  induction 1 as [|g v gs vs Hf H IH]; simpl; [done|].
  rewrite IH, store_masked_app; [done|]. by apply bnum_bound.
Qed.

Lemma zsum_nonneg gs vs : fields_ok gs vs -> 0 <= zsum gs.
Proof. induction 1 as [|g v gs vs [Hg _] _ IH]; simpl; lia. Qed.

Lemma num_bound gs vs : fields_ok gs vs -> 0 <= num gs vs < 10 ^ zsum gs.
Proof.
  induction 1 as [|g v gs vs [Hg Hv] H IH]; simpl; [lia|].
  pose proof (zsum_nonneg _ _ H). rewrite Z.pow_add_r by lia. nia.
Qed.

Lemma compare_digits p v v' r r' :
  0 <= r < p -> 0 <= r' < p ->
  (v * p + r ?= v' * p + r') = match v ?= v' with Eq => r ?= r' | c => c end.
Proof.
  intros Hr Hr'. destruct (Z.compare_spec v v') as [->| |].
  - apply compare_shift.
  - apply Z.compare_lt_iff. nia.
  - apply Z.compare_gt_iff. nia.
Qed.

(** The bytes are in the order of the digits. *)
Lemma bnum_compare gs vs vs' :
  fields_ok gs vs -> fields_ok gs vs' -> (bnum gs vs ?= bnum gs vs') = (num gs vs ?= num gs vs').
Proof.
  intros H. revert vs'. induction H as [|g v gs vs _ H IH]; intros vs' H'; inversion_clear H' as [|? v' ? vs'' _ H'']; simpl; [done|].
  rewrite !compare_digits by (by apply bnum_bound || by apply num_bound).
  by rewrite IH.
Qed.

Lemma fields_ok_app gs1 gs2 vs1 vs2 :
  fields_ok gs1 vs1 -> fields_ok gs2 vs2 -> fields_ok (gs1 ++ gs2) (vs1 ++ vs2).
Proof. apply Forall2_app. Qed.

Lemma store_fields_app neg gs1 gs2 vs1 vs2 :
  length gs1 = length vs1 ->
  store_fields neg (gs1 ++ gs2) (vs1 ++ vs2) = store_fields neg gs1 vs1 ++ store_fields neg gs2 vs2.
Proof.
  revert vs1. induction gs1 as [|g gs1 IH]; intros [|v vs1] Hl; simplify_eq/=; [done|].
  by rewrite IH, app_assoc.
Qed.

Lemma num_app gs1 gs2 vs1 vs2 :
  length gs1 = length vs1 -> (forall g, g ∈ gs1 ++ gs2 -> 0 <= g) ->
  num (gs1 ++ gs2) (vs1 ++ vs2) = num gs1 vs1 * 10 ^ zsum gs2 + num gs2 vs2.
Proof.
  revert vs1. induction gs1 as [|g gs1 IH]; intros [|v vs1] Hl Hpos; simplify_eq/=; [done|].
  rewrite IH by (done || set_solver). rewrite zsum_app.
  assert (Hs : forall l, (forall g, g ∈ l -> 0 <= g) -> 0 <= zsum l).
  { intros l Hl'. induction l as [|x l IHl]; simpl; [done|].
    pose proof (Hl' x ltac:(set_solver)). pose proof (IHl ltac:(set_solver)). lia. }
  rewrite Z.pow_add_r by (apply Hs; set_solver). ring.
Qed.

Lemma total_app gs1 gs2 : total (gs1 ++ gs2) = (total gs1 + total gs2)%nat.
Proof. induction gs1 as [|g gs1 IH]; simpl; [done|]. rewrite IH. lia. Qed.

(** ** Reading fields *)

Lemma mi_sintkorr_store neg n B :
  0 <= B < 128 * bpow n -> mi_sintkorr (mi_intstore (S n) (masked neg B)) = masked neg B.
Proof.
  intros HB. unfold mi_sintkorr. pose proof (be256_store (S n) (masked neg B)) as Hbe.
  rewrite mi_intstore_length. fold (bpow (S n)). rewrite bpow_S in *. pose proof (bpow_pos n).
  destruct (store_first neg n B HB) as (q & Hq & E & _). rewrite E in *. cbn [nth].
  rewrite Hbe, masked_eq. destruct neg.
  - destruct (Z.ltb_spec (127 - q + 128) 128); [lia|].
    replace (-1 - B) with (256 * bpow n - 1 - B + -1 * (256 * bpow n)) at 1 by ring.
    rewrite Z.mod_add, Z.mod_small by lia. ring.
  - destruct (Z.ltb_spec q 128); [|lia]. apply Z.mod_small. lia.
Qed.

Lemma read_field neg g v rest :
  field_ok g v ->
  Z.lxor (mi_sintkorr (take (gbytes g) (mi_intstore (gbytes g) (masked neg v) ++ rest))) (mask_of neg) = v.
Proof.
  intros [Hg Hv]. rewrite take_app_length' by (by rewrite mi_intstore_length).
  destruct (digits_fit g Hg) as (n & -> & Hn). rewrite mi_sintkorr_store by lia. apply masked_twice.
Qed.

Lemma drop_field neg g v rest :
  drop (gbytes g) (mi_intstore (gbytes g) (masked neg v) ++ rest) = rest.
Proof. apply drop_app_length'. by rewrite mi_intstore_length. Qed.

Lemma read_words_store neg ws gs vs :
  Forall (field_ok 9) ws ->
  read_words (length ws) (mask_of neg) (store_fields neg (replicate (length ws) 9 ++ gs) (ws ++ vs))
  = Some (ws, store_fields neg gs vs).
Proof.
  induction 1 as [|w ws Hw _ IH]; [done|]. cbn [length replicate app store_fields read_words].
  change 4%nat with (gbytes 9). rewrite read_field, drop_field, IH by done.
  destruct Hw as [_ Hw]. change (10 ^ 9) with 1000000000 in Hw.
  rewrite u32_small by (unfold U32_MAX; lia).
  by destruct (Z.ltb_spec DIG_MAX w); [unfold DIG_MAX, DIG_BASE in *; lia|].
Qed.

(** ** The fields of a number with [n] digits before the point and [s] after it *)

Definition igroups (n : Z) : list Z :=
  (if n mod 9 =? 0 then [] else [n mod 9]) ++ replicate (Z.to_nat (n / 9)) 9.
Definition fgroups (s : Z) : list Z :=
  replicate (Z.to_nat (s / 9)) 9 ++ (if s mod 9 =? 0 then [] else [s mod 9]).

(** Bytes for [n] digits *)
Definition size_of (n : Z) : Z := n / 9 * 4 + digit_bytes (n mod 9).

Lemma rest_mod n : n - n / DIG_PER_DEC1 * DIG_PER_DEC1 = n mod 9.
Proof. unfold DIG_PER_DEC1. pose proof (Z.mod_eq n 9). lia. Qed.

Lemma total_replicate n : total (replicate n 9) = (4 * n)%nat.
Proof. induction n as [|n IH]; simpl; [done|]. rewrite IH. change (gbytes 9) with 4%nat. lia. Qed.

Lemma digit_bytes_mod_cases n :
  let r := n mod 9 in
  r = 0 \/ r = 1 \/ r = 2 \/ r = 3 \/ r = 4 \/ r = 5 \/ r = 6 \/ r = 7 \/ r = 8.
Proof. pose proof (Z.mod_pos_bound n 9). cbn zeta. lia. Qed.

(** Split on [n mod 9], evaluating its size. *)
Ltac mod9_cases n :=
  pose proof (Z.div_mod n 9 ltac:(lia));
  destruct (digit_bytes_mod_cases n)
    as [Hmod | [Hmod | [Hmod | [Hmod | [Hmod | [Hmod | [Hmod | [Hmod | Hmod]]]]]]]];
  rewrite Hmod in *.

Lemma total_igroups n : 0 <= n -> Z.of_nat (total (igroups n)) = size_of n.
Proof.
  intros Hn. unfold igroups, size_of. rewrite total_app, total_replicate.
  pose proof (Z.div_pos n 9). mod9_cases n; simpl; unfold gbytes, digit_bytes; simpl; lia.
Qed.

Lemma total_fgroups s : 0 <= s -> Z.of_nat (total (fgroups s)) = size_of s.
Proof.
  intros Hn. unfold fgroups, size_of. rewrite total_app, total_replicate.
  pose proof (Z.div_pos s 9). mod9_cases s; simpl; unfold gbytes, digit_bytes; simpl; lia.
Qed.

Lemma size_of_mono m n : 0 <= m <= n -> size_of m <= size_of n.
Proof.
  intros Hmn. unfold size_of. mod9_cases m; rename Hmod into Hm; mod9_cases n;
    unfold digit_bytes; simpl; lia.
Qed.

Lemma zsum_replicate n : zsum (replicate n 9) = 9 * Z.of_nat n.
Proof. induction n as [|n IH]; simpl; [done|]. lia. Qed.

Lemma zsum_igroups n : 0 <= n -> zsum (igroups n) = n.
Proof.
  intros Hn. unfold igroups. rewrite zsum_app, zsum_replicate. pose proof (Z.div_pos n 9).
  mod9_cases n; simpl; lia.
Qed.

Lemma zsum_fgroups s : 0 <= s -> zsum (fgroups s) = s.
Proof.
  intros Hn. unfold fgroups. rewrite zsum_app, zsum_replicate. pose proof (Z.div_pos s 9).
  mod9_cases s; simpl; lia.
Qed.
