(* ===== verification/DecimalBinProps.v ===== *)
(** * The binary format: encoding, round trip and order

    [decimal2bin] stores the fields of a number, [bin2decimal] reads them back, and
    [memcmp] on the stored bytes is the comparison of the numbers. *)

From Stdlib Require Import QArith.
From S2P Require Import Prelude Bytes Decimal DecimalValue DecimalArith DecimalMul DecimalInt DecimalBin DecimalRound DecimalRoundProps DecimalBinValue.

Local Open Scope Z_scope.

(** ** Leading zeros *)

Lemma nth_powers10 i : (i <= 9)%nat -> nth i powers10 0 = 10 ^ Z.of_nat i.
Proof. intros Hi. do 10 (destruct i as [|i]; [done|]). lia. Qed.

Lemma skip_zero_digits_spec w i n :
  (i <= 9)%nat -> 0 < w < 10 ^ (Z.of_nat i + 1) ->
  exists j, (j <= i)%nat /\ skip_zero_digits w i n = n - (Z.of_nat i - Z.of_nat j) /\
  10 ^ Z.of_nat j <= w < 10 ^ (Z.of_nat j + 1).
Proof.
  revert n. induction i as [|i IH]; intros n Hi Hw; cbn [skip_zero_digits]; rewrite nth_powers10 by done.
  - destruct (Z.ltb_spec w (10 ^ Z.of_nat 0)); [simpl in *; lia|]. exists 0%nat. split_and!; [done|lia..].
  - destruct (Z.ltb_spec w (10 ^ Z.of_nat (S i))) as [Hlt|].
    + rewrite Nat2Z.inj_succ in Hlt. destruct (IH (n - 1)) as (j & Hj & -> & Hb); [lia|lia|].
      exists j. split_and!; [lia|lia|lia|lia].
    + exists (S i). split_and!; [done|lia|lia|lia].
Qed.

(** The integer words [iw] stand for [n] digits, [i] of them in the first word. *)
Lemma skip_zero_words_spec iw f n i :
  (iw = [] -> n = 0) -> (iw <> [] -> n = 9 * (Z.of_nat (length iw) - 1) + i /\ 1 <= i <= 9) ->
  exists k ws n', iw = replicate k 0 ++ ws /\ skip_zero_words (iw ++ f) n i = (ws ++ f, n') /\
  (ws = [] /\ n' = 0 \/
   exists w ws', ws = w :: ws' /\ w <> 0 /\
     n' = if decide (k = 0%nat) then n else 9 * Z.of_nat (length ws)).
Proof.
  revert n i. induction iw as [|w iw IH]; intros n i Hn0 Hn.
  - exists 0%nat, [], 0. rewrite Hn0 by done. split; [done|]. split; [|by left]. by destruct f.
  - destruct (Hn ltac:(done)) as [En Hi]. cbn [app length skip_zero_words] in *.
    assert (0 <? n = true) as -> by (apply Z.ltb_lt; lia).
    destruct (Z.eqb_spec w 0) as [->|Hw]; simpl andb; cbn iota.
    + destruct (IH (n - i) DIG_PER_DEC1) as (k & ws & n' & Ek & Es & Hcase).
      { intros ->. simpl in *. lia. }
      { intros Hne. unfold DIG_PER_DEC1. destruct iw; [done|]. cbn [length] in *. lia. }
      exists (S k), ws, n'. split; [simpl; congruence|]. split; [done|].
      destruct Hcase as [?|(w & ws' & -> & Hw & Hn')]; [by left|right].
      exists w, ws'. split_and!; [done|done|]. rewrite decide_False by lia.
      rewrite Hn'. case_decide as Hk; [|done]. subst k iw. cbn [length replicate app] in *. lia.
    + exists 0%nat, (w :: iw), n. split_and!; [done|done|]. right. eauto 6.
Qed.

(** The integer words and fraction words of a number *)
Definition iwords (d : decimal_t) : list Z := take (intg_words d) (buf d).
Definition fwords (d : decimal_t) : list Z := drop (intg_words d) (buf d).
Definition intpart (d : decimal_t) : Z := le (rev (iwords d)).
Definition fracpart (d : decimal_t) : Z := le (rev (fwords d)).

Section Parts.
Context (d : decimal_t) (Hd : decimal_ok d).

Lemma iwords_length : length (iwords d) = intg_words d.
Proof. unfold iwords. rewrite length_take_le; [done|]. rewrite (dok_length _ Hd). lia. Qed.

Lemma fwords_length : length (fwords d) = frac_words d.
Proof. unfold fwords. rewrite length_drop, (dok_length _ Hd). lia. Qed.

Lemma iwords_ok : words_ok (iwords d).
Proof. apply words_ok_take, dok_words, Hd. Qed.

Lemma fwords_ok : words_ok (fwords d).
Proof. apply words_ok_drop, dok_words, Hd. Qed.

Lemma buf_parts : buf d = iwords d ++ fwords d.
Proof. symmetry. apply take_drop. Qed.

Lemma magnitude_parts : magnitude d = intpart d * wpow (frac_words d) + fracpart d.
Proof.
  unfold magnitude, intpart, fracpart. rewrite buf_parts, rev_app_distr, le_app, length_rev.
  rewrite fwords_length. ring.
Qed.

Lemma fracpart_bound : 0 <= fracpart d < wpow (frac_words d).
Proof. rewrite <- fwords_length. apply be_bound, fwords_ok. Qed.

Lemma intpart_bound n : magnitude d < 10 ^ n * wpow (frac_words d) -> 0 <= intpart d < 10 ^ n.
Proof.
  pose proof fracpart_bound. pose proof (be_bound _ iwords_ok) as Hb. fold (intpart d) in Hb.
  rewrite magnitude_parts. pose proof (wpow_pos (frac_words d)). nia.
Qed.
End Parts.

Lemma be_zeros_app k ws : le (rev (replicate k 0 ++ ws)) = le (rev ws).
Proof. rewrite rev_app_distr, rev_zeros, le_app, le_zeros. lia. Qed.

(** [remove_leading_zeroes] finds the significant integer words [ws] and counts the
    digits [fi] of the integer part. *)
Lemma remove_leading_zeroes_spec d :
  decimal_ok d ->
  exists k ws fi, iwords d = replicate k 0 ++ ws /\
  remove_leading_zeroes d = (ws ++ fwords d, fi) /\ 0 <= fi /\
  length ws = Z.to_nat (ROUND_UP fi) /\ le (rev ws) = intpart d /\
  intpart d < 10 ^ fi /\ (0 < fi -> 10 ^ (fi - 1) <= intpart d).
Proof.
  intros Hd. pose proof (iwords_length _ Hd) as Hlen. pose proof (iwords_ok _ Hd) as Hok.
  pose proof (dok_intg _ Hd) as Hpos. pose proof (ROUND_UP_bounds _ Hpos) as Hru.
  rewrite intg_words_Z in Hru by done.
  destruct (skip_zero_words_spec (iwords d) (fwords d) (intg d) (Z.rem (intg d - 1) DIG_PER_DEC1 + 1))
    as (k & ws & n' & Ek & Es & Hcase).
  { intros E. rewrite E in Hlen. simpl in Hlen. lia. }
  { intros Hne. assert (intg_words d <> 0)%nat by (rewrite <- Hlen; by destruct (iwords d)).
    unfold DIG_PER_DEC1. rewrite Hlen, Z.rem_mod_nonneg by lia.
    assert ((intg d - 1) mod 9 = intg d - 1 - 9 * (Z.of_nat (intg_words d) - 1))
      by (symmetry; apply Z.mod_unique with (Z.of_nat (intg_words d) - 1); lia). lia. }
  unfold remove_leading_zeroes. rewrite buf_parts, Es.
  assert (Hv : le (rev ws) = intpart d) by (unfold intpart; by rewrite Ek, be_zeros_app).
  destruct Hcase as [[-> ->] | (w & ws' & -> & Hw & Hn')].
  { exists k, [], 0. simpl in Hv. split_and!; [done|done|done|done|done|simpl; lia|lia]. }
  rewrite Ek in Hok. apply words_ok_app in Hok as [_ Hok]. apply words_ok_cons in Hok as [Hwok Hok].
  pose proof (be_bound _ Hok) as Hb. rewrite be_cons in Hv. pose proof (wpow_pos (length ws')).
  assert (Hn : 9 * Z.of_nat (length ws') < n' <= 9 * Z.of_nat (length ws') + 9).
  { rewrite Hn'. case_decide as Hk; [|cbn [length]; lia]. subst k. rewrite Ek in Hlen. simpl in Hlen. lia. }
  assert (Hwb : 0 < w < 10 ^ (n' - 9 * Z.of_nat (length ws'))).
  { unfold word_ok in Hwok. split; [lia|]. rewrite Hn' in *. case_decide.
    - pose proof (intpart_bound _ Hd _ (dok_high _ Hd)) as [_ Hi].
      replace (intg d) with (intg d - 9 * Z.of_nat (length ws') + 9 * Z.of_nat (length ws')) in Hi by lia.
      rewrite Z.pow_add_r, <- wpow_10 in Hi by lia. nia.
    - replace (9 * Z.of_nat (length (w :: ws')) - _) with 9 by (cbn [length]; lia). apply Hwok. }
  assert (0 <? n' = true) as -> by (apply Z.ltb_lt; lia).
  assert (Emod : (n' - 1) mod DIG_PER_DEC1 = n' - 1 - 9 * Z.of_nat (length ws'))
    by (symmetry; apply Z.mod_unique with (Z.of_nat (length ws')); unfold DIG_PER_DEC1; lia).
  rewrite Emod. set (i := Z.to_nat (n' - 1 - 9 * Z.of_nat (length ws'))).
  destruct (skip_zero_digits_spec w i n') as (j & Hj & Ej & Hjb);
    [lia|replace (Z.of_nat i + 1) with (n' - 9 * Z.of_nat (length ws')) by lia; done|].
  exists k, (w :: ws'), (n' - (Z.of_nat i - Z.of_nat j)). rewrite be_cons. cbn [nth app].
  rewrite Ej. split_and!; [done|done|lia| |done| |].
  - cbn [length]. rewrite (ROUND_UP_unique _ (Z.of_nat (length ws') + 1)); lia.
  - replace (n' - _) with (Z.of_nat j + 1 + 9 * Z.of_nat (length ws')) by lia.
    rewrite Z.pow_add_r, <- wpow_10 by lia. nia.
  - intros _. replace (n' - _ - 1) with (Z.of_nat j + 9 * Z.of_nat (length ws')) by lia.
    rewrite Z.pow_add_r, <- wpow_10 by lia. nia.
Qed.

(** ** The integer fields *)

Lemma flat_map_fields neg ws :
  flat_map (fun w => mi_intstore 4 (Z.lxor w (mask_of neg))) ws
  = store_fields neg (replicate (length ws) 9) ws.
Proof.
  induction ws as [|w ws IH]; [done|]. cbn [flat_map length replicate store_fields]. by rewrite IH.
Qed.

Lemma word_field w : word_ok w <-> field_ok 9 w.
Proof. unfold word_ok, field_ok. change (10 ^ 9) with DIG_BASE. lia. Qed.

Lemma words_fields ws : words_ok ws -> fields_ok (replicate (length ws) 9) ws.
Proof. induction 1 as [|w ws Hw _ IH]; simpl; constructor; [by apply word_field|done]. Qed.

Lemma ROUND_UP_div n : 0 <= n -> ROUND_UP n = n / 9 + (if n mod 9 =? 0 then 0 else 1).
Proof.
  intros Hn. apply ROUND_UP_unique; [done|]. pose proof (Z.div_mod n 9).
  pose proof (Z.mod_pos_bound n 9). destruct (Z.eqb_spec (n mod 9) 0); lia.
Qed.

(** The groups of [n] digits: the first one may be shorter. *)
Lemma igroups_cases n (ws : list Z) :
  0 <= n -> length ws = Z.to_nat (ROUND_UP n) ->
  (n mod 9 = 0 /\ igroups n = replicate (length ws) 9 /\ length ws = Z.to_nat (n / 9)) \/
  (n mod 9 <> 0 /\ exists w ws', ws = w :: ws' /\ length ws' = Z.to_nat (n / 9) /\
     igroups n = n mod 9 :: replicate (length ws') 9).
Proof.
  intros Hn Hl. rewrite ROUND_UP_div in Hl by done. unfold igroups.
  pose proof (Z.div_pos n 9 Hn). destruct (Z.eqb_spec (n mod 9) 0); [left|right].
  - split_and!; [done| |]; [simpl; f_equal|]; lia.
  - split; [done|]. destruct ws as [|w ws']; simpl in Hl; [lia|].
    exists w, ws'. split_and!; [done|lia|]. simpl. do 2 f_equal. lia.
Qed.

Lemma igroups_fields_ok n ws :
  0 <= n -> length ws = Z.to_nat (ROUND_UP n) -> words_ok ws -> le (rev ws) < 10 ^ n ->
  fields_ok (igroups n) ws.
Proof.
  intros Hn Hl Hok Hv. destruct (igroups_cases n ws Hn Hl) as [(_ & -> & _) | (Hm & w & ws' & -> & Hl' & ->)].
  - by apply words_fields.
  - apply words_ok_cons in Hok as [Hw Hok]. constructor; [|by apply words_fields].
    pose proof (Z.mod_pos_bound n 9). split; [lia|]. unfold word_ok in Hw. split; [lia|].
    rewrite be_cons in Hv. pose proof (be_bound _ Hok). pose proof (Z.div_mod n 9).
    pose proof (Z.div_pos n 9 Hn).
    rewrite wpow_10 in Hv. replace n with (n mod 9 + 9 * Z.of_nat (length ws')) in Hv by lia.
    rewrite Z.pow_add_r in Hv by lia. pose proof (Z.pow_pos_nonneg 10 (9 * Z.of_nat (length ws'))). nia.
Qed.

Lemma bnum_igroups n ws :
  0 <= n -> length ws = Z.to_nat (ROUND_UP n) ->
  bnum (igroups n) ws = bnum (replicate (length ws) 9) ws.
Proof.
  intros Hn Hl. by destruct (igroups_cases n ws Hn Hl) as [(_ & -> & _) | (_ & w & ws' & -> & _ & ->)].
Qed.

Lemma bnum_zeros k ws :
  bnum (replicate (length (replicate k 0 ++ ws)) 9) (replicate k 0 ++ ws)
  = bnum (replicate (length ws) 9) ws.
Proof. induction k as [|k IH]; simpl; [done|]. exact IH. Qed.

(** More digits than needed: bytes of the mask in front *)
Lemma igroups_pad neg n0 n ws :
  0 <= n <= n0 -> length ws = Z.to_nat (ROUND_UP n) -> words_ok ws -> le (rev ws) < 10 ^ n ->
  let zs := replicate (Z.to_nat (ROUND_UP n0 - ROUND_UP n)) 0 ++ ws in
  fields_ok (igroups n0) zs /\
  replicate (Z.to_nat (size_of n0 - size_of n)) (Z.land (mask_of neg) 255) ++
    store_fields neg (igroups n) ws
  = store_fields neg (igroups n0) zs.
Proof.
  intros Hn Hl Hok Hv zs. pose proof (ROUND_UP_bounds n). pose proof (ROUND_UP_bounds n0).
  assert (Hf : fields_ok (igroups n) ws) by (apply igroups_fields_ok; (done || lia)).
  assert (Hz : fields_ok (igroups n0) zs).
  { apply igroups_fields_ok; [lia| | |].
    - unfold zs. rewrite length_app, length_replicate. lia.
    - apply words_ok_app. split; [apply words_ok_zeros|done].
    - unfold zs. rewrite be_zeros_app. pose proof (Z.pow_le_mono_r 10 n n0). lia. }
  split; [done|]. rewrite !store_fields_num, pad_front by (done || by apply bnum_bound).
  pose proof (size_of_mono n n0 Hn). rewrite <- !total_igroups in * by lia.
  rewrite (bnum_igroups n0), (bnum_igroups n) by (done || lia || unfold zs; rewrite length_app, length_replicate; lia).
  unfold zs. rewrite bnum_zeros. f_equal. lia.
Qed.

(** What the loops store for the significant words [ws] and [m] fraction words *)
Lemma int_store neg fi ws f m :
  0 <= fi -> length ws = Z.to_nat (ROUND_UP fi) -> fields_ok (igroups fi) ws ->
  0 <= m <= Z.of_nat (length f) ->
  let x := fi mod 9 in
  let '(ix, b) :=
    if x =? 0 then ([], ws ++ f)
    else (mi_intstore (Z.to_nat (digit_bytes x))
            (Z.lxor (nth 0 (ws ++ f) 0 mod power10 x) (mask_of neg)), drop 1 (ws ++ f)) in
  let n := Z.to_nat (fi / 9 + m) in
  ix ++ flat_map (fun w => mi_intstore 4 (Z.lxor w (mask_of neg))) (take n b)
    = store_fields neg (igroups fi) ws ++
      store_fields neg (replicate (Z.to_nat m) 9) (take (Z.to_nat m) f) /\
  drop n b = drop (Z.to_nat m) f.
Proof.
  intros Hfi Hl Hf Hm. cbn zeta. pose proof (Z.div_pos fi 9 Hfi).
  destruct (igroups_cases fi ws Hfi Hl) as [(Hx & Hg & Hk) | (Hx & w & ws' & -> & Hk & Hg)].
  - rewrite Hx, Hg. simpl Z.eqb. cbn iota.
    replace (Z.to_nat (fi / 9 + m)) with (length ws + Z.to_nat m)%nat by lia.
    rewrite take_app_add, drop_app_add, flat_map_app, !flat_map_fields, length_take_le by lia. done.
  - rewrite Hg in *. apply Forall2_cons in Hf as [[Hx9 Hw] Hf].
    destruct (Z.eqb_spec (fi mod 9) 0); [done|]. change (drop 1 ((w :: ws') ++ f)) with (ws' ++ f). cbn [app nth].
    replace (Z.to_nat (fi / 9 + m)) with (length ws' + Z.to_nat m)%nat by lia.
    rewrite take_app_add, drop_app_add, flat_map_app, !flat_map_fields, length_take_le by lia.
    unfold power10. rewrite nth_powers10, Z2Nat.id, (Z.mod_small w) by lia.
    cbn [store_fields]. by rewrite <- app_assoc.
Qed.

(** ** The fraction fields *)

(** The fields of [s] digits after the point *)
Definition ffields (f : list Z) (s : Z) : list Z :=
  take (Z.to_nat (s / 9)) (f ++ replicate (Z.to_nat (s / 9)) 0) ++
  (if s mod 9 =? 0 then [] else [nth (Z.to_nat (s / 9)) f 0 / 10 ^ (9 - s mod 9)]).

Lemma store_zeros neg gs :
  store_fields neg gs (replicate (length gs) 0) = replicate (total gs) (Z.land (mask_of neg) 255).
Proof.
  induction gs as [|g gs IH]; simpl; [done|]. by rewrite IH, store_masked_0, <- replicate_add.
Qed.

Lemma widen_spec x y :
  1 <= x <= y -> y <= 9 -> digit_bytes x = digit_bytes y -> widen 9 x y (digit_bytes x) = y.
Proof.
  intros Hx Hy.
  destruct (digits_cases x) as [-> | [-> | [-> | [-> | [-> | [-> | [-> | [-> | ->]]]]]]]]; [lia|..];
  destruct (digits_cases y) as [-> | [-> | [-> | [-> | [-> | [-> | [-> | [-> | ->]]]]]]]];
    (lia || reflexivity || discriminate).
Qed.

(** Digits that take no fewer bytes *)
Lemma digit_bytes_range x : 0 <= x <= 9 -> 0 <= digit_bytes x <= 4.
Proof.
  intros Hx. destruct (decide (x = 0)) as [->|]; [by vm_compute|].
  destruct (digits_cases x) as [-> | [-> | [-> | [-> | [-> | [-> | [-> | [-> | ->]]]]]]]];
    [lia|by vm_compute..].
Qed.

(** All words are stored as whole words, and zero bytes follow. *)
Lemma ffields_whole neg f s :
  0 <= s -> Z.of_nat (length f) <= s / 9 ->
  store_fields neg (fgroups s) (ffields f s)
  = store_fields neg (replicate (length f) 9) f ++
    replicate (Z.to_nat (size_of s - 4 * Z.of_nat (length f))) (Z.land (mask_of neg) 255).
Proof.
  intros Hs Hl. set (m := (Z.to_nat (s / 9) - length f)%nat).
  assert (Eg : fgroups s = replicate (length f) 9 ++
                 (replicate m 9 ++ (if s mod 9 =? 0 then [] else [s mod 9]))).
  { unfold fgroups. rewrite app_assoc, <- replicate_add. do 2 f_equal. lia. }
  assert (Ef : ffields f s = f ++ replicate (length (replicate m 9 ++ (if s mod 9 =? 0 then [] else [s mod 9]))) 0).
  { unfold ffields. rewrite take_app_ge, take_replicate, <- app_assoc by lia. f_equal.
    rewrite nth_overflow by lia. rewrite length_app, length_replicate, replicate_add. f_equal.
    - f_equal. lia.
    - by destruct (s mod 9 =? 0). }
  rewrite Eg, Ef, store_fields_app, store_zeros by (by rewrite length_replicate). do 2 f_equal.
  pose proof (total_fgroups s Hs) as Ht. rewrite Eg, total_app, total_replicate in Ht. lia.
Qed.

(** The last word is stored in the digits after the last whole word. *)
Lemma ffields_part neg f s :
  0 <= s -> Z.of_nat (length f) = s / 9 + 1 -> s mod 9 <> 0 ->
  store_fields neg (fgroups s) (ffields f s)
  = store_fields neg (replicate (Z.to_nat (s / 9)) 9) (take (Z.to_nat (s / 9)) f) ++
    mi_intstore (gbytes (s mod 9)) (masked neg (nth (Z.to_nat (s / 9)) f 0 / power10 (9 - s mod 9))).
Proof.
  intros Hs Hl Hx. pose proof (Z.div_pos s 9 Hs). pose proof (Z.mod_pos_bound s 9).
  unfold fgroups, ffields. destruct (Z.eqb_spec (s mod 9) 0); [done|].
  rewrite take_app_le by lia.
  rewrite store_fields_app by (rewrite length_replicate, length_take; lia).
  unfold power10. rewrite nth_powers10, Z2Nat.id by lia. cbn [store_fields]. by rewrite app_nil_r.
Qed.

Lemma store_fields_length neg gs vs :
  length gs = length vs -> length (store_fields neg gs vs) = total gs.
Proof.
  revert vs. induction gs as [|g gs IH]; intros [|v vs] H; simplify_eq/=; [done|].
  rewrite length_app, mi_intstore_length, IH; done.
Qed.

Lemma last_word (f : list Z) n :
  length f = S n -> f = take n f ++ [nth 0 (drop n f) 0].
Proof.
  intros Hl. rewrite <- (take_drop n f) at 1. f_equal.
  destruct (drop n f) as [|y [|z l]] eqn:E; apply (f_equal length) in E; rewrite length_drop in E;
    simpl in *; (done || lia).
Qed.

Lemma nth_drop0 (f : list Z) n : nth 0 (drop n f) 0 = nth n f 0.
Proof. revert f. induction n as [|n IH]; intros [|x f]; simpl; done. Qed.

Lemma store_snoc neg l w n :
  length l = n ->
  store_fields neg (replicate (S n) 9) (l ++ [w])
  = store_fields neg (replicate n 9) l ++ mi_intstore 4 (masked neg w).
Proof.
  intros Hl. rewrite replicate_S_end, store_fields_app by (by rewrite length_replicate).
  cbn [store_fields]. by rewrite app_nil_r.
Qed.

(** What is stored behind the integer part, for a number with no more than [s] digits
    after the point *)
Lemma frac_store neg fd f s e fr frx fs e' :
  0 <= fd <= s -> length f = Z.to_nat (ROUND_UP fd) ->
  bin_frac e (fd / 9) (fd mod 9) (s / 9) (s mod 9) (size_of s) (size_of fd) = (fr, frx, fs, e') ->
  e' = e /\ 0 <= fr <= Z.of_nat (length f) /\
  let fx := if frx =? 0 then []
            else mi_intstore (Z.to_nat (digit_bytes frx))
                   (Z.lxor (nth 0 (drop (Z.to_nat fr) f) 0 /
                      power10 (DIG_PER_DEC1 - widen 9 frx (if fr <? s / 9 then DIG_PER_DEC1 else s mod 9)
                                                (digit_bytes frx))) (mask_of neg)) in
  let out := store_fields neg (replicate (Z.to_nat fr) 9) (take (Z.to_nat fr) f) ++ fx in
  out ++ (if size_of fd <? fs
          then replicate (Z.to_nat (Z.min (fs - size_of fd) (size_of s - Z.of_nat (length out))))
                 (Z.land (mask_of neg) 255)
          else [])
  = store_fields neg (fgroups s) (ffields f s).
Proof.
  intros Hfd Hl. pose proof (Z.div_mod fd 9). pose proof (Z.div_mod s 9).
  pose proof (Z.mod_pos_bound fd 9) as Hx. pose proof (Z.mod_pos_bound s 9) as HX.
  pose proof (Z.div_pos fd 9). pose proof (size_of_mono fd s Hfd) as Hsz.
  rewrite ROUND_UP_div in Hl by lia.
  assert (Hs9 : Z.of_nat (length f) <= s / 9 ->
    forall out, out = store_fields neg (replicate (length f) 9) f ->
    forall fs0, size_of s - 4 * Z.of_nat (length f) <= fs0 - size_of fd ->
    out ++ (if size_of fd <? fs0
            then replicate (Z.to_nat (Z.min (fs0 - size_of fd) (size_of s - Z.of_nat (length out))))
                   (Z.land (mask_of neg) 255) else [])
    = store_fields neg (fgroups s) (ffields f s)).
  { intros Hle out -> fs0 Hfs. rewrite ffields_whole by lia. f_equal.
    rewrite store_fields_length, total_replicate by (by rewrite length_replicate).
    assert (4 * Z.of_nat (length f) <= size_of s).
    { unfold size_of. pose proof (digit_bytes_range (s mod 9)). lia. }
    destruct (Z.ltb_spec (size_of fd) fs0).
    - f_equal. lia.
    - by replace (Z.to_nat _) with 0%nat by lia. }
  unfold bin_frac. destruct (Z.ltb_spec (size_of s) (size_of fd)); [lia|].
  destruct (Z.eqb_spec (fd mod 9) 0) as [Hx0|Hx0].
  - (* whole words only *)
    rewrite andb_false_r. intros [= <- <- <- <-]. rewrite Hx0. simpl Z.eqb. cbn iota zeta.
    replace (Z.to_nat (fd / 9)) with (length f) by lia. rewrite take_ge, app_nil_r by lia.
    split_and!; [done|lia|lia|]. apply Hs9; [lia|done|].
    assert (size_of fd = 4 * Z.of_nat (length f))
      by (unfold size_of; rewrite Hx0; change (digit_bytes 0) with 0; lia). lia.
  - pose proof (digit_bytes_range (fd mod 9)). pose proof (digit_bytes_range (s mod 9)).
    rewrite andb_true_r. destruct (Z.ltb_spec (size_of fd) (size_of s)) as [Hlt|Hge].
    + destruct (Z.eqb_spec (s / 9) (fd / 9)) as [Eq|Hne]; intros [= <- <- <- <-].
      * split_and!; [done|lia|lia|]. rewrite Z.ltb_irrefl, <- Eq, Z.ltb_irrefl. cbn iota zeta.
        destruct (Z.eqb_spec (s mod 9) 0) as [E0|]; [unfold size_of in Hlt; rewrite E0, Eq in Hlt; simpl in *; lia|].
        rewrite app_nil_r, ffields_part by lia. f_equal. rewrite nth_drop0. unfold gbytes, DIG_PER_DEC1.
        rewrite widen_spec by lia. done.
      * simpl Z.eqb. cbn iota zeta. replace (Z.to_nat (fd / 9 + 1)) with (length f) by lia.
        rewrite take_ge, app_nil_r by lia. split_and!; [done|lia|lia|]. apply Hs9; [lia|done|].
        assert (size_of fd <= 4 * Z.of_nat (length f)) by (unfold size_of; lia). lia.
    + intros [= <- <- <- <-]. split_and!; [done|lia|lia|]. cbn zeta.
      destruct (Z.eqb_spec (fd mod 9) 0); [done|].
      assert (size_of fd = size_of s) as Heq by lia. rewrite Heq, Z.ltb_irrefl, app_nil_r.
      unfold size_of in Heq. destruct (Z.ltb_spec (fd / 9) (s / 9)) as [Hq|Hq].
      * assert (Hb : s / 9 = fd / 9 + 1 /\ digit_bytes (fd mod 9) = 4) by lia. destruct Hb as [Hb1 Hb2].
        unfold DIG_PER_DEC1. rewrite (widen_spec _ 9) by (rewrite ?Hb2; (done || lia)).
        rewrite ffields_whole, Hb2 by lia.
        replace (Z.to_nat (size_of s - _)) with 0%nat by (unfold size_of; lia).
        rewrite app_nil_r. replace (length f) with (S (Z.to_nat (fd / 9))) by lia.
        rewrite (last_word f (Z.to_nat (fd / 9))) at 3 by lia.
        rewrite store_snoc by (rewrite length_take; lia).
        change (power10 (9 - 9)) with 1. by rewrite Z.div_1_r.
      * assert (s / 9 = fd / 9) as Eq by lia. unfold DIG_PER_DEC1.
        rewrite widen_spec, ffields_part by lia. rewrite Eq, nth_drop0.
        replace (digit_bytes (fd mod 9)) with (digit_bytes (s mod 9)) by lia. done.
Qed.

(** ** Encoding *)

(** A number fits [precision] digits, [scale] of them after the point. *)
Definition bin_fits (d : decimal_t) (precision scale : Z) : Prop :=
  0 <= scale <= precision /\ 0 < precision /\ frac d <= scale /\
  magnitude d < 10 ^ (precision - scale) * wpow (frac_words d).

(** [decimal2bin] after [remove_leading_zeroes], on sizes in digits *)
Definition bin_store (mask intg from_intg fd s isize0 : Z) (buf1 : list Z) (n0 : Z) : Z * list Z :=
  let '(ipad, buf1, intg1, intg1x, error) :=
    bin_intg mask intg from_intg buf1 (n0 / 9) (n0 mod 9) isize0 in
  let '(frac1, frac1x, fsize0', error) :=
    bin_frac error (fd / 9) (fd mod 9) (s / 9) (s mod 9) (size_of s) (size_of fd) in
  let '(ix, buf1) :=
    if intg1x =? 0 then ([], buf1)
    else (mi_intstore (Z.to_nat (digit_bytes intg1x))
            (Z.lxor (nth 0 buf1 0 mod power10 intg1x) mask), drop 1 buf1) in
  let n := Z.to_nat (intg1 + frac1) in
  let full := flat_map (fun w => mi_intstore 4 (Z.lxor w mask)) (take n buf1) in
  let buf1 := drop n buf1 in
  let fx :=
    if frac1x =? 0 then []
    else
      let i := digit_bytes frac1x in
      let lim := if frac1 <? s / 9 then DIG_PER_DEC1 else s mod 9 in
      mi_intstore (Z.to_nat i)
        (Z.lxor (nth 0 buf1 0 / power10 (DIG_PER_DEC1 - widen 9 frac1x lim i)) mask) in
  let to := ipad ++ ix ++ full ++ fx in
  let pad :=
    if size_of fd <? fsize0'
    then replicate (Z.to_nat (Z.min (fsize0' - size_of fd) (size_of s + isize0 - Z.of_nat (length to))))
           (Z.land mask 255)
    else [] in
  (error, flip_first (to ++ pad)).

Lemma decimal2bin_store d p s :
  decimal2bin d p s =
  let '(buf1, from_intg) := remove_leading_zeroes d in
  let '(mask, intg, buf1) :=
    if from_intg + size_of (frac d) =? 0 then (0, 1, [0]) else (mask_of (sign d), p - s, buf1) in
  bin_store mask intg from_intg (frac d) s (size_of (p - s)) buf1 (p - s).
Proof.
  unfold decimal2bin, bin_store. rewrite !rest_mod. unfold DIG_PER_DEC1. fold (size_of (frac d)).
  destruct (remove_leading_zeroes d) as [b fi]. fold (mask_of (sign d)).
  by destruct (fi + size_of (frac d) =? 0).
Qed.

(** The words [ws ++ f] are stored in the fields. *)
Lemma bin_store_spec neg intg n0 fi fd s ws f :
  0 <= fi <= n0 -> fi <= intg -> 0 <= fd <= s ->
  length ws = Z.to_nat (ROUND_UP fi) -> words_ok ws -> le (rev ws) < 10 ^ fi ->
  length f = Z.to_nat (ROUND_UP fd) ->
  bin_store (mask_of neg) intg fi fd s (size_of n0) (ws ++ f) n0
  = (E_DEC_OK, flip_first (store_fields neg (igroups n0 ++ fgroups s)
       ((replicate (Z.to_nat (ROUND_UP n0 - ROUND_UP fi)) 0 ++ ws) ++ ffields f s))).
Proof.
  intros Hfi Hint Hfd Hl Hok Hv Hlf. unfold bin_store.
  destruct (igroups_pad neg n0 fi ws Hfi Hl Hok Hv) as [Hz Hpad].
  assert (Hf : fields_ok (igroups fi) ws) by (apply igroups_fields_ok; (done || lia)).
  assert (Ei : bin_intg (mask_of neg) intg fi (ws ++ f) (n0 / 9) (n0 mod 9) (size_of n0)
    = (replicate (Z.to_nat (size_of n0 - size_of fi)) (Z.land (mask_of neg) 255), ws ++ f,
       fi / 9, fi mod 9, E_DEC_OK)).
  { unfold bin_intg. rewrite rest_mod. destruct (Z.ltb_spec intg fi); [lia|].
    pose proof (size_of_mono fi n0 Hfi). unfold DIG_PER_DEC1. fold (size_of fi).
    destruct (Z.ltb_spec (size_of fi) (size_of n0)); [done|].
    by replace (Z.to_nat (size_of n0 - size_of fi)) with 0%nat by lia. }
  rewrite Ei. destruct (bin_frac _ _ _ _ _ _ _) as [[[fr frx] fs] e'] eqn:Eb.
  destruct (frac_store neg fd f s _ _ _ _ _ Hfd Hlf Eb) as (-> & Hfr & Hout).
  pose proof (int_store neg fi ws f fr ltac:(lia) Hl Hf Hfr) as Hint'. cbn zeta in Hint'.
  destruct (if fi mod 9 =? 0 then _ else _) as [ix b]. destruct Hint' as [Efull Erest].
  rewrite Erest. do 2 f_equal. cbn zeta in Hout.
  set (fx := if frx =? 0 then [] else _) in *.
  set (full := flat_map _ _) in *.
  assert (Eto : replicate (Z.to_nat (size_of n0 - size_of fi)) (Z.land (mask_of neg) 255) ++ ix ++ full ++ fx
    = store_fields neg (igroups n0) (replicate (Z.to_nat (ROUND_UP n0 - ROUND_UP fi)) 0 ++ ws) ++
      (store_fields neg (replicate (Z.to_nat fr) 9) (take (Z.to_nat fr) f) ++ fx)).
  { by rewrite (app_assoc ix), Efull, <- Hpad, <- !app_assoc. }
  rewrite Eto, store_fields_app, <- Hout by (by apply Forall2_length in Hz).
  rewrite <- (app_assoc (store_fields neg (igroups n0) _)). do 2 f_equal.
  rewrite (length_app (store_fields neg (igroups n0) _)), store_fields_length by (by apply Forall2_length in Hz).
  pose proof (total_igroups n0 ltac:(lia)).
  destruct (size_of fd <? fs); [|done]. f_equal. f_equal. lia.
Qed.

Lemma bin_store_zero s n0 :
  0 <= s -> bin_store 0 1 0 0 s (size_of n0) [0] n0 = bin_store 0 1 0 0 s (size_of n0) [] n0.
Proof.
  intros Hs. assert (0 <= size_of s) by (rewrite <- total_fgroups by done; lia).
  assert (Ei : forall b, bin_intg 0 1 0 b (n0 / 9) (n0 mod 9) (size_of n0)
    = (if 0 <? size_of n0 then replicate (Z.to_nat (size_of n0 - 0)) 0 else [], b, 0, 0, E_DEC_OK)).
  { intros b. unfold bin_intg. change (0 / DIG_PER_DEC1) with 0.
    change (0 - 0 * DIG_PER_DEC1) with 0. change (0 * 4 + digit_bytes 0) with 0.
    by destruct (0 <? size_of n0). }
  assert (Ef : bin_frac E_DEC_OK (0 / 9) (0 mod 9) (s / 9) (s mod 9) (size_of s) (size_of 0)
    = (0, 0, size_of s, E_DEC_OK)).
  { unfold bin_frac. change (size_of 0) with 0. destruct (Z.ltb_spec (size_of s) 0); [lia|].
    by rewrite andb_false_r. }
  unfold bin_store. rewrite !Ei, Ef. reflexivity.
Qed.

(** The integer fields of a number *)
Lemma decimal2bin_fields d p s :
  decimal_ok d -> bin_fits d p s ->
  exists vi, fields_ok (igroups (p - s)) vi /\ words_ok vi /\
  length vi = Z.to_nat (ROUND_UP (p - s)) /\ le (rev vi) = intpart d /\
  decimal2bin d p s
  = (E_DEC_OK, flip_first (store_fields (sign d) (igroups (p - s) ++ fgroups s)
       (vi ++ ffields (fwords d) s))).
Proof.
  intros Hd (Hs & Hp & Hfs & Hm). pose proof (dok_frac _ Hd) as Hf0.
  destruct (remove_leading_zeroes_spec d Hd) as (k & ws & fi & Ek & Er & Hfi & Hl & Hv & Hlt & Hge).
  pose proof (intpart_bound _ Hd _ Hm) as Hi.
  assert (Hfin : fi <= p - s).
  { destruct (decide (0 < fi)) as [Hpos|]; [|lia]. specialize (Hge Hpos).
    destruct (decide (fi <= p - s)); [done|].
    pose proof (Z.pow_le_mono_r 10 (p - s) (fi - 1)). lia. }
  assert (Hok : words_ok ws).
  { pose proof (iwords_ok _ Hd) as H. rewrite Ek in H. by apply words_ok_app in H as [_ H]. }
  rewrite <- Hv in Hlt. pose proof (ROUND_UP_bounds fi Hfi). pose proof (ROUND_UP_bounds (p - s)).
  assert (Hlf : length (fwords d) = Z.to_nat (ROUND_UP (frac d))) by (by rewrite fwords_length).
  exists (replicate (Z.to_nat (ROUND_UP (p - s) - ROUND_UP fi)) 0 ++ ws).
  destruct (igroups_pad (sign d) (p - s) fi ws) as [Hz _]; [done..|].
  split_and!; [done|apply words_ok_app; split; [apply words_ok_zeros|done]
              |rewrite length_app, length_replicate; lia|by rewrite be_zeros_app|].
  rewrite decimal2bin_store, Er.
  destruct (Z.eqb_spec (fi + size_of (frac d)) 0) as [E0|].
  - assert (size_of 0 <= size_of (frac d)) by (apply size_of_mono; lia).
    change (size_of 0) with 0 in *. assert (fi = 0) by lia. assert (frac d = 0) as Efd.
    { assert (Hs0 : size_of (frac d) = 0) by lia. rewrite <- total_fgroups in Hs0 by lia.
      destruct (decide (frac d = 0)); [done|]. exfalso.
      assert (size_of 1 <= size_of (frac d)) by (apply size_of_mono; lia).
      change (size_of 1) with 1 in *. rewrite <- total_fgroups in * by lia. lia. }
    subst fi. rewrite Efd in *. change (Z.to_nat (ROUND_UP 0)) with 0%nat in *.
    apply nil_length_inv in Hl as ->. apply nil_length_inv in Hlf. rewrite Hlf.
    assert (sign d = false) as ->.
    { destruct (sign d) eqn:Es; [|done]. exfalso. apply (dok_sign _ Hd Es).
      rewrite magnitude_parts, <- Hv by done. unfold fracpart. by rewrite Hlf. }
    rewrite bin_store_zero by lia. change 0 with (mask_of false) at 1.
    change (@nil Z) with (@nil Z ++ @nil Z) at 1. apply bin_store_spec; (done || lia).
  - apply bin_store_spec; (done || lia).
Qed.

(** ** The number in the fields *)

Lemma num_replicate ws : num (replicate (length ws) 9) ws = le (rev ws).
Proof.
  induction ws as [|w ws IH]; [done|]. cbn [length replicate num].
  by rewrite IH, be_cons, zsum_replicate, wpow_10.
Qed.

Lemma num_igroups n ws :
  0 <= n -> length ws = Z.to_nat (ROUND_UP n) -> num (igroups n) ws = le (rev ws).
Proof.
  intros Hn Hl. destruct (igroups_cases n ws Hn Hl) as [(_ & -> & _) | (_ & w & ws' & -> & _ & ->)].
  - apply num_replicate.
  - cbn [num]. by rewrite num_replicate, be_cons, zsum_replicate, wpow_10.
Qed.

Lemma groups_nonneg n s : forall g, g ∈ igroups n ++ fgroups s -> 0 <= g.
Proof.
  intros g. unfold igroups, fgroups. pose proof (Z.mod_pos_bound n 9). pose proof (Z.mod_pos_bound s 9).
  rewrite !elem_of_app, !elem_of_replicate.
  destruct (n mod 9 =? 0), (s mod 9 =? 0); rewrite ?list_elem_of_singleton, ?elem_of_nil; lia.
Qed.

Lemma num_groups n s vi vf :
  0 <= s -> length (igroups n) = length vi ->
  num (igroups n ++ fgroups s) (vi ++ vf) = num (igroups n) vi * 10 ^ s + num (fgroups s) vf.
Proof.
  intros Hs Hl. rewrite num_app by (done || apply groups_nonneg). by rewrite zsum_fgroups.
Qed.

Lemma fracpart_low d :
  decimal_ok d -> (10 ^ (9 * Z.of_nat (frac_words d) - frac d) | fracpart d).
Proof.
  intros Hd. pose proof (dok_low _ Hd) as H. rewrite magnitude_parts in H by done.
  pose proof (dok_frac _ Hd). pose proof (ROUND_UP_bounds (frac d)). rewrite frac_words_Z in * by done.
  apply Z.divide_add_cancel_r in H; [done|]. apply Z.divide_mul_r. rewrite wpow_10.
  exists (10 ^ frac d). rewrite <- Z.pow_add_r by lia. f_equal. lia.
Qed.

Lemma pow10_nonneg n : 0 <= n -> 0 < 10 ^ n.
Proof. intros. by apply Z.pow_pos_nonneg. Qed.

(** The fraction fields: whole words, and the digits after them *)
Lemma ffields_split f s :
  0 <= s -> words_ok f ->
  let ws := take (Z.to_nat (s / 9)) (f ++ replicate (Z.to_nat (s / 9)) 0) in
  let v := nth (Z.to_nat (s / 9)) f 0 / 10 ^ (9 - s mod 9) in
  fields_ok (fgroups s) (ffields f s) /\ length ws = Z.to_nat (s / 9) /\
  num (fgroups s) (ffields f s) = le (rev ws) * 10 ^ (s mod 9) + (if s mod 9 =? 0 then 0 else v).
Proof.
  intros Hs Hok ws v. pose proof (Z.mod_pos_bound s 9) as HX. pose proof (Z.div_pos s 9).
  assert (Hl : length ws = Z.to_nat (s / 9))
    by (unfold ws; rewrite length_take, length_app, length_replicate; lia).
  assert (Hws : words_ok ws) by (apply words_ok_take, words_ok_app; split; [done|apply words_ok_zeros]).
  assert (Hv : word_ok (nth (Z.to_nat (s / 9)) f 0)).
  { destruct (nth_in_or_default (Z.to_nat (s / 9)) f 0) as [Hin | ->]; [|done].
    apply list_elem_of_In in Hin. by apply (proj1 (Forall_forall _ _) Hok). }
  assert (Hwf : fields_ok (replicate (Z.to_nat (s / 9)) 9) ws) by (rewrite <- Hl; by apply words_fields).
  assert (Hwn : num (replicate (Z.to_nat (s / 9)) 9) ws = le (rev ws)) by (rewrite <- Hl; apply num_replicate).
  split_and!; [|done|].
  - apply fields_ok_app; [done|].
    destruct (Z.eqb_spec (s mod 9) 0); constructor; [|constructor]. split; [lia|].
    unfold word_ok, DIG_BASE in Hv. pose proof (pow10_nonneg (9 - s mod 9)).
    split; [apply Z.div_pos; lia|]. apply Z.div_lt_upper_bound; [lia|].
    rewrite <- Z.pow_add_r by lia. replace (9 - s mod 9 + s mod 9) with 9 by lia.
    change (10 ^ 9) with 1000000000. lia.
  - unfold ffields, fgroups. fold ws v.
    destruct (Z.eqb_spec (s mod 9) 0) as [->|].
    + rewrite !app_nil_r, Hwn. lia.
    + rewrite num_app, Hwn.
      * cbn [num zsum]. rewrite !Z.add_0_r. lia.
      * by rewrite length_replicate.
      * intros g. rewrite elem_of_app, elem_of_replicate, list_elem_of_singleton. lia.
Qed.

(** The last digits of a number of [length f] fraction words, cut off after [s] digits *)
Lemma last_digits f s :
  words_ok f -> Z.of_nat (length f) = s / 9 + 1 -> 0 <= s ->
  (10 ^ (9 - s mod 9) | le (rev f)) ->
  le (rev f) = le (rev (take (Z.to_nat (s / 9)) f)) * DIG_BASE
    + nth (Z.to_nat (s / 9)) f 0 / 10 ^ (9 - s mod 9) * 10 ^ (9 - s mod 9).
Proof.
  intros Hok Hl Hs Hdiv. pose proof (Z.mod_pos_bound s 9). pose proof (Z.div_pos s 9).
  pose proof (pow10_nonneg (9 - s mod 9)) as Hp.
  rewrite (last_word f (Z.to_nat (s / 9))) in Hdiv |- * at 1 by lia.
  rewrite nth_drop0, rev_app_distr in *. cbn [rev app le] in *.
  set (w := nth (Z.to_nat (s / 9)) f 0) in *.
  assert (Hw : (10 ^ (9 - s mod 9) | w)).
  { rewrite Z.add_comm in Hdiv. apply Z.divide_add_cancel_r in Hdiv; [done|].
    apply Z.divide_mul_l. exists (10 ^ (s mod 9)). rewrite <- Z.pow_add_r by lia.
    by replace (s mod 9 + (9 - s mod 9)) with 9 by lia. }
  destruct Hw as [q ->]. rewrite Z.div_mul by lia. lia.
Qed.

(** The fraction in units of the last of [s] digits *)
Lemma ffields_num d s :
  decimal_ok d -> frac d <= s ->
  fields_ok (fgroups s) (ffields (fwords d) s) /\
  num (fgroups s) (ffields (fwords d) s) * wpow (frac_words d) = fracpart d * 10 ^ s.
Proof.
  intros Hd Hs. pose proof (dok_frac _ Hd). pose proof (ROUND_UP_bounds (frac d)) as Hru.
  rewrite frac_words_Z in Hru by done. pose proof (fwords_length _ Hd) as Hl.
  pose proof (fwords_ok _ Hd) as Hok. pose proof (fracpart_low _ Hd) as Hlow.
  pose proof (Z.div_mod s 9). pose proof (Z.mod_pos_bound s 9) as HX. pose proof (Z.div_pos s 9).
  unfold fracpart in *. set (f := fwords d) in *. rewrite <- Hl in *. clearbody f.
  destruct (ffields_split f s ltac:(lia) Hok) as (Hf & _ & En). split; [done|]. rewrite En. clear En Hf.
  assert (Es : 10 ^ s = 10 ^ (s mod 9) * wpow (Z.to_nat (s / 9)))
    by (rewrite wpow_10, <- Z.pow_add_r by lia; f_equal; lia).
  destruct (decide (Z.of_nat (length f) <= s / 9)) as [Hle|Hgt].
  - rewrite take_app_ge, take_replicate, rev_app_distr, rev_zeros, le_app, le_zeros, length_replicate by lia.
    rewrite nth_overflow, Z.div_0_l by (lia || pose proof (pow10_nonneg (9 - s mod 9)); lia).
    replace (if s mod 9 =? 0 then 0 else 0) with 0 by (by destruct (s mod 9 =? 0)).
    rewrite Es. replace (Z.to_nat (s / 9)) with (Z.to_nat (s / 9) - length f + length f)%nat at 3 by lia.
    rewrite wpow_add. replace (Nat.min _ _) with (Z.to_nat (s / 9) - length f)%nat by lia. ring.
  - destruct (Z.eqb_spec (s mod 9) 0) as [|HX0]; [lia|]. rewrite take_app_le by lia.
    assert (Hlow' : (10 ^ (9 - s mod 9) | le (rev f))).
    { eapply Z.divide_trans; [|exact Hlow]. exists (10 ^ (s - frac d)).
      rewrite <- Z.pow_add_r by lia. f_equal. lia. }
    rewrite (last_digits f s Hok ltac:(lia) ltac:(lia) Hlow') at 1.
    replace (length f) with (S (Z.to_nat (s / 9))) by lia. rewrite wpow_S, Es.
    assert (EB : DIG_BASE = 10 ^ (9 - s mod 9) * 10 ^ (s mod 9))
      by (rewrite <- Z.pow_add_r by lia; by replace (9 - s mod 9 + s mod 9) with 9 by lia).
    rewrite EB. ring.
Qed.

Definition groups (p s : Z) : list Z := igroups (p - s) ++ fgroups s.

Lemma groups_nonempty p s : 0 <= s <= p -> 0 < p -> groups p s <> [].
Proof.
  intros Hs Hp E. assert (Hz : zsum (groups p s) = 0) by (by rewrite E). unfold groups in Hz.
  rewrite zsum_app, zsum_igroups, zsum_fgroups in Hz by lia. lia.
Qed.

Lemma decimal2bin_num d p s :
  decimal_ok d -> bin_fits d p s ->
  exists vi vf, fields_ok (igroups (p - s)) vi /\ fields_ok (fgroups s) vf /\
  length vi = Z.to_nat (ROUND_UP (p - s)) /\
  decimal2bin d p s
  = (E_DEC_OK, flip_first (store_fields (sign d) (groups p s) (vi ++ vf))) /\
  num (groups p s) (vi ++ vf) * wpow (frac_words d) = magnitude d * 10 ^ s.
Proof.
  intros Hd Hfit. destruct (decimal2bin_fields d p s Hd Hfit) as (vi & Hvi & Hw & Hl & Hv & E).
  destruct Hfit as (Hs & Hp & Hfs & Hm). destruct (ffields_num d s Hd Hfs) as [Hvf Hn].
  exists vi, (ffields (fwords d) s). split_and!; [done..|]. unfold groups.
  rewrite num_groups, num_igroups, Hv, magnitude_parts by (done || lia || by apply Forall2_length in Hvi).
  rewrite Z.mul_add_distr_r, Hn. ring.
Qed.

(** ** Order *)

(** Numbers in the same unit *)
Lemma num_compare d1 d2 n1 n2 s :
  0 <= s ->
  n1 * wpow (frac_words d1) = magnitude d1 * 10 ^ s ->
  n2 * wpow (frac_words d2) = magnitude d2 * 10 ^ s ->
  (n1 ?= n2) = compare_magnitudes d1 d2.
Proof.
  intros Hs E1 E2. unfold compare_magnitudes. pose proof (wpow_pos (frac_words d1)).
  pose proof (wpow_pos (frac_words d2)). pose proof (pow10_nonneg s Hs).
  rewrite <- (compare_mul n1 n2 (wpow (frac_words d1) * wpow (frac_words d2))) by nia.
  rewrite <- (compare_mul (magnitude d1 * _) _ (10 ^ s)) by done.
  f_equal; nia.
Qed.

Lemma masked_compare d1 d2 b1 b2 :
  decimal_ok d1 -> decimal_ok d2 -> 0 <= b1 -> 0 <= b2 -> (b1 ?= b2) = compare_magnitudes d1 d2 ->
  (masked (sign d1) b1 ?= masked (sign d2) b2) = (value d1 ?= value d2)%Q.
Proof.
  intros H1 H2 P1 P2 Hc. rewrite value_compare, !masked_eq.
  pose proof (wpow_pos (frac_words d1)). pose proof (wpow_pos (frac_words d2)).
  destruct (sign d1) eqn:S1, (sign d2) eqn:S2.
  - unfold signed, compare_magnitudes in *. rewrite S1, S2, !Z.mul_opp_l.
    unfold Z.sub. rewrite compare_shift, !compare_opp, (Z.compare_antisym b1 b2), Hc.
    symmetry. apply Z.compare_antisym.
  - pose proof (signed_neg _ H1 S1). pose proof (signed_pos _ H2 S2).
    transitivity Lt; [apply Z.compare_lt_iff; lia|symmetry; apply Z.compare_lt_iff; nia].
  - pose proof (signed_pos _ H1 S1). pose proof (signed_neg _ H2 S2).
    transitivity Gt; [apply Z.compare_gt_iff; lia|symmetry; apply Z.compare_gt_iff; nia].
  - unfold signed, compare_magnitudes in *. by rewrite S1, S2.
Qed.

(** Property 2 of the format: [memcmp] compares the values. *)
Lemma decimal2bin_memcmp (d1 d2 : decimal_t) (p s : Z)
    (H1 : decimal_ok d1) (H2 : decimal_ok d2) (F1 : bin_fits d1 p s) (F2 : bin_fits d2 p s) :
  memcmp (snd (decimal2bin d1 p s)) (snd (decimal2bin d2 p s))
  = match (value d1 ?= value d2)%Q with Lt => -1 | Eq => 0 | Gt => 1 end.
Proof.
  destruct (decimal2bin_num _ _ _ H1 F1) as (vi1 & vf1 & I1 & J1 & _ & -> & E1).
  destruct (decimal2bin_num _ _ _ H2 F2) as (vi2 & vf2 & I2 & J2 & _ & -> & E2).
  pose proof (fields_ok_app _ _ _ _ I1 J1) as K1. pose proof (fields_ok_app _ _ _ _ I2 J2) as K2.
  fold (groups p s) in K1, K2. destruct F1 as (Hs & Hp & _).
  pose proof (groups_nonempty p s Hs Hp) as Hne.
  destruct (bnum_first _ _ K1 Hne) as (n & Hn & B1). destruct (bnum_first _ _ K2 Hne) as (n' & Hn' & B2).
  assert (n' = n) as -> by congruence. cbn [snd]. rewrite !store_fields_num, Hn, memcmp_flip by done.
  pose proof (bnum_compare _ _ _ K1 K2) as Hc.
  rewrite (num_compare d1 d2 _ _ s ltac:(lia) E1 E2) in Hc.
  rewrite (masked_compare d1 d2); [done..|lia|lia|done].
Qed.

(** ** Reading *)

Lemma bin_size_total p s :
  0 <= s <= p -> decimal_bin_size p s = Z.of_nat (total (groups p s)).
Proof.
  intros Hs. unfold groups. rewrite total_app, Nat2Z.inj_add, total_igroups, total_fgroups by lia.
  unfold decimal_bin_size. rewrite !rest_mod. unfold size_of, DIG_PER_DEC1. lia.
Qed.

Lemma read_intg0x_store neg n v gs vs :
  0 <= n -> n mod 9 <> 0 -> field_ok (n mod 9) v ->
  read_intg0x (n mod 9) (mask_of neg) (store_fields neg (n mod 9 :: gs) (v :: vs))
  = Some ([v], store_fields neg gs vs).
Proof.
  intros Hn Hx Hv. unfold read_intg0x. destruct (Z.eqb_spec (n mod 9) 0); [done|].
  cbn [store_fields]. fold (gbytes (n mod 9)). rewrite read_field, drop_field by done.
  destruct Hv as [Hx9 Hv]. assert (10 ^ (n mod 9) <= 10 ^ 9) by (apply Z.pow_le_mono_r; lia).
  unfold u64. rewrite (Z.mod_small v) by (change (10 ^ 9) with 1000000000 in *; lia).
  unfold power10. pose proof (Z.mod_pos_bound n 9). rewrite nth_powers10, Z2Nat.id by lia.
  assert (10 ^ (n mod 9) <= 10 ^ (n mod 9 + 1)) by (apply Z.pow_le_mono_r; lia).
  by destruct (Z.leb_spec (10 ^ (n mod 9 + 1)) v); [lia|].
Qed.

Lemma fields_replicate n ws : fields_ok (replicate n 9) ws -> Forall (field_ok 9) ws.
Proof.
  revert ws. induction n as [|n IH]; intros ws H; inversion_clear H; constructor; auto.
Qed.

(** The integer fields, as the words [x] and [iw] of the reader *)
Lemma read_intg neg n vi gs vs :
  0 <= n -> length vi = Z.to_nat (ROUND_UP n) -> fields_ok (igroups n) vi ->
  exists x iw from1, read_intg0x (n mod 9) (mask_of neg) (store_fields neg (igroups n ++ gs) (vi ++ vs))
    = Some (x, from1) /\
  read_words (Z.to_nat (n / 9)) (mask_of neg) from1 = Some (iw, store_fields neg gs vs) /\
  vi = x ++ iw /\ length iw = Z.to_nat (n / 9) /\ length x = (if n mod 9 =? 0 then 0%nat else 1%nat).
Proof.
  intros Hn Hl Hf. destruct (igroups_cases n vi Hn Hl) as [(Hx & Hg & Hk) | (Hx & w & ws & -> & Hk & Hg)].
  - exists [], vi, (store_fields neg (igroups n ++ gs) (vi ++ vs)). rewrite Hg, Hx in *.
    split_and!; [done| |done|lia|done]. rewrite <- Hk. apply read_words_store.
    by apply fields_replicate in Hf.
  - rewrite Hg in *. apply Forall2_cons in Hf as [Hw Hf].
    exists [w], ws, (store_fields neg (replicate (length ws) 9 ++ gs) (ws ++ vs)).
    split_and!; [by apply read_intg0x_store| |done|done|by rewrite (proj2 (Z.eqb_neq _ _) Hx)].
    rewrite <- Hk. apply read_words_store. by apply fields_replicate in Hf.
Qed.

(** The fraction fields: the words the reader stores *)
Lemma read_frac neg s vf :
  0 <= s -> fields_ok (fgroups s) vf ->
  exists fw from2 fx, read_words (Z.to_nat (s / 9)) (mask_of neg) (store_fields neg (fgroups s) vf)
    = Some (fw, from2) /\
  read_frac0x (s mod 9) (mask_of neg) from2 = Some fx /\
  words_ok (fw ++ fx) /\ length (fw ++ fx) = Z.to_nat (ROUND_UP s) /\
  le (rev (fw ++ fx)) * 10 ^ s = num (fgroups s) vf * wpow (length (fw ++ fx)).
Proof.
  intros Hs Hf. pose proof (Z.div_pos s 9 Hs). pose proof (Z.mod_pos_bound s 9) as HX.
  unfold fgroups in *. apply Forall2_app_inv_l in Hf as (fw & vx & Hfw & Hvx & ->).
  pose proof (Forall2_length _ _ _ Hfw) as Hl. rewrite length_replicate in Hl.
  apply fields_replicate in Hfw. exists fw, (store_fields neg (if s mod 9 =? 0 then [] else [s mod 9]) vx).
  assert (Hok : words_ok fw) by (eapply Forall_impl; [exact Hfw|intros w; apply word_field]).
  rewrite Hl. pose proof (Z.div_mod s 9).
  assert (Es : 10 ^ s = 10 ^ (s mod 9) * wpow (length fw))
    by (rewrite wpow_10, <- Z.pow_add_r by lia; f_equal; lia).
  rewrite ROUND_UP_div by done. destruct (Z.eqb_spec (s mod 9) 0) as [Hx|Hx].
  - apply Forall2_nil_inv_l in Hvx as ->. exists []. rewrite !app_nil_r, num_replicate, Es, Hx.
    split_and!; [|done|done|lia|ring]. pose proof (read_words_store neg fw [] [] Hfw) as Hr.
    by rewrite !app_nil_r in Hr.
  - inversion_clear Hvx as [|? v ? ? Hv Hnil]. apply Forall2_nil_inv_l in Hnil as ->.
    exists [v * 10 ^ (9 - s mod 9)]. destruct Hv as [Hx9 Hv].
    assert (EB : DIG_BASE = 10 ^ (9 - s mod 9) * 10 ^ (s mod 9))
      by (rewrite <- Z.pow_add_r by lia; by replace (9 - s mod 9 + s mod 9) with 9 by lia).
    pose proof (pow10_nonneg (9 - s mod 9)).
    assert (Hw : word_ok (v * 10 ^ (9 - s mod 9))) by (unfold word_ok; nia).
    split_and!.
    + by apply read_words_store.
    + unfold read_frac0x. destruct (Z.eqb_spec (s mod 9) 0); [done|]. cbn [store_fields].
      fold (gbytes (s mod 9)). rewrite read_field by done. unfold power10, DIG_PER_DEC1.
      rewrite nth_powers10, Z2Nat.id by lia. unfold word_ok in Hw.
      rewrite u32_small by (unfold U32_MAX, DIG_BASE in *; lia).
      by destruct (Z.ltb_spec DIG_MAX (v * 10 ^ (9 - s mod 9))); [unfold DIG_MAX in *; lia|].
    + apply words_ok_app. split; [done|]. by constructor.
    + rewrite length_app. simpl. lia.
    + rewrite num_app, num_replicate.
      2: by rewrite length_replicate.
      2: { intros g. rewrite elem_of_app, elem_of_replicate, list_elem_of_singleton. lia. }
      cbn [num zsum]. rewrite rev_app_distr, length_app, wpow_add. cbn [rev app le length].
      change (wpow 1) with DIG_BASE. rewrite Es, !Z.add_0_r, EB. simpl (10 ^ 0). ring.
Qed.

Lemma store_intg_words iw :
  store_intg (map (fun w => (w, DIG_PER_DEC1)) iw) (9 * Z.of_nat (length iw))
  = (drop_zeros iw, 9 * Z.of_nat (length (drop_zeros iw))).
Proof.
  induction iw as [|w iw IH]; [done|]. cbn [map store_intg length].
  destruct (Z.eqb_spec w 0) as [->|Hw].
  - replace (9 * Z.of_nat (S (length iw)) - DIG_PER_DEC1) with (9 * Z.of_nat (length iw))
      by (unfold DIG_PER_DEC1; lia). exact IH.
  - replace (drop_zeros (w :: iw)) with (w :: iw) by (by destruct w).
    cbn [map fst length]. by rewrite map_map, map_id.
Qed.

(** The integer words that are kept, and their digits *)
Lemma store_intg_spec n x iw :
  0 <= n -> length iw = Z.to_nat (n / 9) -> length x = (if n mod 9 =? 0 then 0%nat else 1%nat) ->
  words_ok (x ++ iw) -> le (rev (x ++ iw)) < 10 ^ n ->
  exists st n', store_intg (map (fun w => (w, n mod 9)) x ++ map (fun w => (w, DIG_PER_DEC1)) iw)
                  (n / 9 * DIG_PER_DEC1 + n mod 9) = (st, n') /\
  0 <= n' <= n /\ words_ok st /\ length st = Z.to_nat (ROUND_UP n') /\
  le (rev st) = le (rev (x ++ iw)) /\ le (rev st) < 10 ^ n'.
Proof.
  intros Hn Hl Hx Hok Hv. pose proof (Z.div_pos n 9 Hn). pose proof (Z.mod_pos_bound n 9).
  pose proof (Z.div_mod n 9).
  assert (Hiw : forall e, e = 9 * Z.of_nat (length iw) -> words_ok iw ->
    exists st n', store_intg (map (fun w => (w, DIG_PER_DEC1)) iw) e = (st, n') /\
    0 <= n' <= n /\ words_ok st /\ length st = Z.to_nat (ROUND_UP n') /\
    le (rev st) = le (rev iw) /\ le (rev st) < 10 ^ n').
  { intros e -> Hiw. rewrite store_intg_words. destruct (drop_zeros_spec iw) as (k & Ek & _).
    set (st := drop_zeros iw) in *. clearbody st. subst iw.
    apply words_ok_app in Hiw as [_ Hst]. rewrite length_app, length_replicate in Hl.
    exists st, (9 * Z.of_nat (length st)). rewrite be_zeros_app, <- wpow_10.
    split_and!; [done|lia|lia|done| |done|by apply be_bound].
    rewrite (ROUND_UP_unique _ (Z.of_nat (length st))); lia. }
  destruct (Z.eqb_spec (n mod 9) 0) as [E0|Hne].
  - apply nil_length_inv in Hx as ->. apply Hiw; [unfold DIG_PER_DEC1; lia|done].
  - destruct x as [|v [|? ?]]; simplify_eq/=. destruct (Z.eqb_spec v 0) as [->|Hvz].
    + apply words_ok_cons in Hok as [_ Hok]. rewrite le_app. cbn [le]. rewrite Z.mul_0_r, !Z.add_0_r.
      apply Hiw; [unfold DIG_PER_DEC1; lia|done].
    + exists (v :: iw), n. rewrite map_map, map_id.
      split_and!; [f_equal; unfold DIG_PER_DEC1; lia|lia|lia|done| |done|done].
      rewrite ROUND_UP_div by done. rewrite (proj2 (Z.eqb_neq _ _) Hne). simpl. lia.
Qed.

(** A number with the words [st ++ fw] *)
Lemma built_ok neg n' s L st fw N :
  0 <= n' -> 0 <= s -> words_ok st -> words_ok fw -> length st = Z.to_nat (ROUND_UP n') ->
  length fw = Z.to_nat (ROUND_UP s) -> le (rev st) < 10 ^ n' ->
  le (rev (st ++ fw)) * 10 ^ s = N * wpow (length fw) -> (neg = true -> N <> 0) ->
  let r := mk_decimal n' s L neg (st ++ fw) in
  decimal_ok r /\ magnitude r * 10 ^ s = N * wpow (frac_words r).
Proof.
  intros Hn Hs Hst Hfw Lst Lfw Hv HN Hneg r.
  pose proof (ROUND_UP_bounds n' Hn). pose proof (ROUND_UP_bounds s Hs).
  assert (Hfr : frac_words r = length fw) by (unfold frac_words; simpl; lia).
  split; [|by rewrite Hfr]. pose proof (be_bound _ Hfw). pose proof (wpow_pos (length fw)).
  pose proof (pow10_nonneg s Hs).
  constructor; rewrite ?Hfr; unfold magnitude; simpl; [done|done| | | | |].
  - unfold intg_words. simpl. rewrite length_app. lia.
  - by apply words_ok_app.
  - rewrite rev_app_distr, le_app, length_rev. nia.
  - rewrite wpow_10 in HN.
    replace (9 * Z.of_nat (length fw)) with (9 * Z.of_nat (length fw) - s + s) in HN by lia.
    rewrite Z.pow_add_r, Z.mul_assoc in HN by lia. apply Z.mul_reg_r in HN; [|lia].
    rewrite HN. apply Z.divide_factor_r.
  - intros ->. specialize (Hneg eq_refl). nia.
Qed.

Lemma fields_words gs vs : fields_ok gs vs -> words_ok vs.
Proof.
  induction 1 as [|g v gs vs [Hg Hv] _ IH]; constructor; [|done].
  pose proof (Z.pow_le_mono_r 10 g 9). unfold word_ok. change (10 ^ 9) with DIG_BASE in *. lia.
Qed.

Lemma bin2decimal_fields neg p s L vi vf :
  0 <= s <= p -> 0 < p -> ROUND_UP (p - s) + ROUND_UP s <= L ->
  fields_ok (igroups (p - s)) vi -> fields_ok (fgroups s) vf ->
  length vi = Z.to_nat (ROUND_UP (p - s)) ->
  (neg = true -> num (groups p s) (vi ++ vf) <> 0) ->
  exists r, bin2decimal (flip_first (store_fields neg (groups p s) (vi ++ vf))) L p s = (E_DEC_OK, r) /\
  decimal_ok r /\ sign r = neg /\
  magnitude r * 10 ^ s = num (groups p s) (vi ++ vf) * wpow (frac_words r).
Proof.
  intros Hs Hp HL Hvi Hvf Hl Hneg. pose proof (fields_ok_app _ _ _ _ Hvi Hvf) as Hf.
  fold (groups p s) in Hf. destruct (bnum_first _ _ Hf (groups_nonempty p s Hs Hp)) as (n & Hn & HB).
  assert (Hst : store_fields neg (groups p s) (vi ++ vf)
    = mi_intstore (S n) (masked neg (bnum (groups p s) (vi ++ vf)))) by (rewrite <- Hn; by apply store_fields_num).
  destruct (flip_flip neg n _ HB) as [Hff Hmask]. destruct (flip_bytes neg n _ HB) as [_ Hlen].
  rewrite <- Hst in *. set (l := flip_first (store_fields neg (groups p s) (vi ++ vf))) in *.
  unfold bin2decimal. rewrite Hmask, bin_size_total, Nat2Z.id, take_ge, Hff by (lia || done).
  rewrite !rest_mod.
  assert (Hru : forall m, 0 <= m -> m / DIG_PER_DEC1 + (if 0 <? m mod 9 then 1 else 0) = ROUND_UP m).
  { intros m Hm. rewrite ROUND_UP_div by done. pose proof (Z.mod_pos_bound m 9).
    destruct (Z.ltb_spec 0 (m mod 9)), (Z.eqb_spec (m mod 9) 0); (done || lia). }
  rewrite !Hru by lia. unfold FIX_INTG_FRAC_ERROR. destruct (Z.ltb_spec L (ROUND_UP (p - s) + ROUND_UP s)); [lia|].
  simpl (E_DEC_OK =? E_DEC_OK). cbn iota. change DIG_PER_DEC1 with 9.
  destruct (read_intg neg (p - s) vi (fgroups s) vf) as (x & iw & from1 & Er1 & Er2 & -> & Liw & Lx); [lia|done|done|].
  fold (groups p s) in Er1. rewrite Er1, Er2.
  destruct (read_frac neg s vf) as (fw & from2 & fx & Er3 & Er4 & Wf & Lf & Vf); [lia|done|]. rewrite Er3, Er4.
  pose proof (fields_words _ _ Hvi) as Wi.
  pose proof (num_igroups (p - s) (x ++ iw) ltac:(lia) Hl) as Ni.
  pose proof (num_bound _ _ Hvi) as Bi. rewrite Ni, zsum_igroups in Bi by lia.
  destruct (store_intg_spec (p - s) x iw) as (st & n' & Est & Hn' & Wst & Lst & Vst & Bst);
    [lia|done|done|done|lia|]. unfold DIG_PER_DEC1 in Est. rewrite Est.
  assert (HN : le (rev (st ++ (fw ++ fx))) * 10 ^ s
    = num (groups p s) ((x ++ iw) ++ vf) * wpow (length (fw ++ fx))).
  { unfold groups. rewrite num_groups, Ni, <- Vst by (lia || by apply Forall2_length in Hvi).
    rewrite rev_app_distr, le_app, length_rev, Z.mul_add_distr_r, Vf. ring. }
  pose proof (Z.div_mod s 9). replace (s / 9 * 9 + s mod 9) with s by lia.
  destruct (built_ok neg n' s L st (fw ++ fx) _ ltac:(lia) ltac:(lia) Wst Wf Lst Lf Bst HN Hneg) as [Rok Rval].
  destruct ((n' =? 0) && (s =? 0)) eqn:Ez.
  2: { replace (negb (mask_of neg =? 0)) with neg by (by destruct neg). by eexists. }
  apply andb_true_iff in Ez as [->%Z.eqb_eq ->%Z.eqb_eq].
  exists (decimal_make_zero L). split; [done|]. split; [apply make_zero_ok|].
  apply nil_length_inv in Lst as ->. apply nil_length_inv in Lf. rewrite Lf in HN.
  change (0 * 10 ^ 0 = num (groups p 0) ((x ++ iw) ++ vf) * 1) in HN.
  assert (num (groups p 0) ((x ++ iw) ++ vf) = 0) as HN0 by lia. rewrite HN0 in *.
  destruct neg; [by destruct (Hneg eq_refl)|done].
Qed.

Lemma value_eq d r s n :
  0 <= s -> sign r = sign d ->
  magnitude d * 10 ^ s = n * wpow (frac_words d) ->
  magnitude r * 10 ^ s = n * wpow (frac_words r) -> (value r == value d)%Q.
Proof.
  intros Hs Hsg Ed Er. pose proof (wpow_pos (frac_words d)). pose proof (wpow_pos (frac_words r)).
  pose proof (pow10_nonneg s Hs). apply Qeq_alt. rewrite value_compare. apply Z.compare_eq_iff.
  assert (magnitude r * wpow (frac_words d) = magnitude d * wpow (frac_words r)).
  { apply Z.mul_reg_r with (10 ^ s); [lia|]. nia. }
  unfold signed. rewrite Hsg. destruct (sign d); nia.
Qed.

Lemma decimal2bin_read (d : decimal_t) (p s L : Z)
    (Hd : decimal_ok d) (Hf : bin_fits d p s) (HL : ROUND_UP (p - s) + ROUND_UP s <= L) :
  exists b r, decimal2bin d p s = (E_DEC_OK, b) /\
  Z.of_nat (length b) = decimal_bin_size p s /\
  bin2decimal b L p s = (E_DEC_OK, r) /\ decimal_ok r /\ (value r == value d)%Q.
Proof.
  destruct (decimal2bin_num d p s Hd Hf) as (vi & vf & Hvi & Hvf & Hl & -> & Hn).
  destruct Hf as (Hs & Hp & _ & _). pose proof (pow10_nonneg s ltac:(lia)).
  destruct (bin2decimal_fields (sign d) p s L vi vf) as (r & Er & Hr & Hsg & Hm); [done..| |].
  { intros Hneg E0. pose proof (dok_sign _ Hd Hneg). rewrite E0 in Hn. nia. }
  eexists _, r. split; [done|]. split; [|split; [exact Er|]].
  - pose proof (fields_ok_app _ _ _ _ Hvi Hvf) as Hok. fold (groups p s) in Hok.
    destruct (bnum_first _ _ Hok (groups_nonempty p s Hs Hp)) as (n & Hn' & HB).
    rewrite bin_size_total, store_fields_num, Hn' by done. by destruct (flip_bytes (sign d) n _ HB) as [_ ->].
  - split; [done|]. eapply value_eq; [|exact Hsg|symmetry; exact Hn|exact Hm]. lia.
Qed.

(** C17: numbers with no more than [s] digits after the point and [p - s] before it are each stored
    without error in exactly [decimal_bin_size p s] bytes, and reading them into a buffer with enough
    words gives a well-formed number of the same value.  The bytes of two such numbers compare with
    [memcmp] as their values do, whatever their signs and however many words each has. *)
Theorem decimal2bin_correct (d1 d2 : decimal_t) (p s L : Z)
    (H1 : decimal_ok d1) (H2 : decimal_ok d2) (F1 : bin_fits d1 p s) (F2 : bin_fits d2 p s)
    (HL : ROUND_UP (p - s) + ROUND_UP s <= L) :
  (exists b r, decimal2bin d1 p s = (E_DEC_OK, b) /\
     Z.of_nat (length b) = decimal_bin_size p s /\
     bin2decimal b L p s = (E_DEC_OK, r) /\ decimal_ok r /\ (value r == value d1)%Q) /\
  memcmp (snd (decimal2bin d1 p s)) (snd (decimal2bin d2 p s))
    = match (value d1 ?= value d2)%Q with Lt => -1 | Eq => 0 | Gt => 1 end.
Proof. split; [by apply decimal2bin_read|by apply decimal2bin_memcmp]. Qed.

(** Two ways in which the error code of [decimal2bin] is wrong for a number that has
    more digits than asked for.  If the digits after the point take the same number of
    bytes, they are not cut off and no error is reported, and [bin2decimal] then
    rejects the result: here for 0.10 to 0.21, stored with one digit after the point.
    And if digits are lost on both sides of the point, as for 10.123 with one digit
    each, the error is [E_DEC_TRUNCATED] and not [E_DEC_OVERFLOW]. *)
Lemma decimal2bin_error_codes :
  (forall v, 10 <= v <= 21 ->
     let d := mk_decimal 1 2 9 false [0; v * 10000000] in
     decimal_ok d /\ decimal2bin d 2 1 = (E_DEC_OK, [128; v]) /\
     bin2decimal [128; v] 9 2 1 = (E_DEC_BAD_NUM, decimal_make_zero 9)) /\
  (let d := mk_decimal 2 3 9 false [10; 123000000] in
   decimal_ok d /\ decimal2bin d 2 1 = (E_DEC_TRUNCATED, [128; 1])).
Proof.
  split.
  - intros v Hv. assert (v = 10 \/ v = 11 \/ v = 12 \/ v = 13 \/ v = 14 \/ v = 15 \/ v = 16 \/
      v = 17 \/ v = 18 \/ v = 19 \/ v = 20 \/ v = 21) as Hc by lia.
    repeat destruct Hc as [-> | Hc]; [..|subst v];
      (split; [apply decimal_ok_by; vm_compute; reflexivity | split; vm_compute; reflexivity]).
  - split; [apply decimal_ok_by|]; vm_compute; reflexivity.
Qed.

(** ** Examples *)

Lemma bin_fits_by d p s :
  (0 <=? s) && (s <=? p) && (0 <? p) && (frac d <=? s) &&
  (magnitude d <? 10 ^ (p - s) * wpow (frac_words d)) = true -> bin_fits d p s.
Proof. rewrite !andb_true_iff, !Z.leb_le, !Z.ltb_lt. unfold bin_fits. lia. Qed.

(** -1234567890.1234: the example of the format's documentation *)
Definition dec_doc : decimal_t := with_sign dec_a true.

Lemma decimal2bin_correct_witness :
  snd (decimal2bin dec_doc 14 4) = [126; 242; 4; 199; 45; 251; 45] /\
  snd (decimal2bin dec_b 14 4) = [127; 255; 255; 255; 255; 234; 131] /\
  (exists b r, decimal2bin dec_doc 14 4 = (E_DEC_OK, b) /\
     Z.of_nat (length b) = decimal_bin_size 14 4 /\
     bin2decimal b 9 14 4 = (E_DEC_OK, r) /\ decimal_ok r /\ (value r == value dec_doc)%Q) /\
  memcmp (snd (decimal2bin dec_doc 14 4)) (snd (decimal2bin dec_b 14 4))
    = match (value dec_doc ?= value dec_b)%Q with Lt => -1 | Eq => 0 | Gt => 1 end.
Proof.
  split; [vm_compute; reflexivity|]. split; [vm_compute; reflexivity|].
  apply (decimal2bin_correct dec_doc dec_b 14 4 9);
    [apply decimal_ok_by | apply decimal_ok_by | apply bin_fits_by | apply bin_fits_by |];
    vm_compute; first [reflexivity | discriminate].
Defined.

(** C30: four places where the result of the decimal library is wrong.
    The sum of two negative numbers that is out of range: [my_decimal_add] keeps the sign
    [decimal_add] left in the result, but [do_add] has filled that in with [max_decimal], which
    makes it positive.  The result is the greatest positive number, for a sum that is less than zero.
    [decimal2bin], for a number that has more digits than asked for: if the digits after the
    point take the same number of bytes, they are not cut off and no error is reported, and
    [bin2decimal] then rejects the result, here for 0.10 to 0.21, stored with one digit after the point;
    and if digits are lost on both sides of the point, as for 10.123 with one digit each, the error
    is [E_DEC_TRUNCATED] and not [E_DEC_OVERFLOW].
    Rounding a number that fills the whole buffer with integer words to a position before the point
    writes behind the end of the buffer, because the carry needs one more word; the product of two
    numbers of the size that the server allows, which is computed without an error, is such a
    number. *)
Theorem decimal_wrong_results :
  (forall a b, decimal_ok a -> decimal_ok b ->
   Z.of_nat (Nat.max (intg_words a) (intg_words b)) <= DECIMAL_BUFF_LENGTH ->
   sign a = true -> sign b = true -> fst (decimal_add a b DECIMAL_BUFF_LENGTH) = E_DEC_OVERFLOW ->
   (value a + value b < 0)%Q /\
   my_decimal_add a b = (E_DEC_OVERFLOW, max_internal_decimal) /\
   (0 < value max_internal_decimal)%Q) /\
  (forall v, 10 <= v <= 21 ->
     let d := mk_decimal 1 2 9 false [0; v * 10000000] in
     decimal_ok d /\ decimal2bin d 2 1 = (E_DEC_OK, [128; v]) /\
     bin2decimal [128; v] 9 2 1 = (E_DEC_BAD_NUM, decimal_make_zero 9)) /\
  (let d := mk_decimal 2 3 9 false [10; 123000000] in
   decimal_ok d /\ decimal2bin d 2 1 = (E_DEC_TRUNCATED, [128; 1])) /\
  (exists d, decimal_ok nines40 /\ decimal_ok nines41 /\
    my_decimal_mul nines40 nines41 = Some (E_DEC_OK, d) /\
    decimal_ok d /\ decimal_round false d [] (-42) HALF_UP = None).
Proof.
  destruct decimal2bin_error_codes.
  split; [exact my_decimal_add_overflow_sign|]. split; [done|]. split; [done|exact decimal_round_overrun].
Qed.

Lemma decimal_wrong_results_witness :
  (value dec_min + value dec_min < 0)%Q /\
  my_decimal_add dec_min dec_min = (E_DEC_OVERFLOW, max_internal_decimal) /\
  (0 < value max_internal_decimal)%Q.
Proof.
  apply (proj1 decimal_wrong_results dec_min dec_min);
    [apply decimal_ok_by; vm_compute; reflexivity | apply decimal_ok_by; vm_compute; reflexivity
    | vm_compute; discriminate | reflexivity | reflexivity | vm_compute; reflexivity].
Defined.
