(* ===== verification/Queue.v ===== *)
(** * Priority queues

    mysys/queues.c and include/queues.h.  The heap is an array of pointers whose
    first element has index 1; a queue can keep, in each element, the index it is
    stored at, so that the element can be removed later.  [compare] is the
    comparison function the caller has given, applied to the keys of two elements. *)

From S2P Require Import Prelude.

Local Open Scope nat_scope.

Notation elem := nat (only parsing).

Record QUEUE := mk_queue {
  root : list elem;
  elements : nat;
  max_elements : nat;
  auto_extent : nat;
  max_at_top : Z;
  has_queue_pos : bool;         (* offset_to_queue_pos is not 0 *)
  queue_pos : gmap elem nat;    (* the positions stored in the elements *)
}.

Definition queue_element (q : QUEUE) (i : nat) : elem := nth i (root q) 0.
Definition queue_top (q : QUEUE) : elem := queue_element q 1.
Definition queue_empty (q : QUEUE) : bool := elements q =? 0.
Definition queue_is_full (q : QUEUE) : bool := elements q =? max_elements q.

Definition set_elements (q : QUEUE) (n : nat) : QUEUE :=
  mk_queue (root q) n (max_elements q) (auto_extent q) (max_at_top q) (has_queue_pos q)
    (queue_pos q).

Definition set_root (q : QUEUE) (i : nat) (x : elem) : QUEUE :=
  mk_queue (<[i := x]> (root q)) (elements q) (max_elements q) (auto_extent q) (max_at_top q)
    (has_queue_pos q) (queue_pos q).

(** Store an element and, if asked for, its position in it. *)
Definition put (q : QUEUE) (i : nat) (x : elem) : QUEUE :=
  mk_queue (<[i := x]> (root q)) (elements q) (max_elements q) (auto_extent q) (max_at_top q)
    (has_queue_pos q) (if has_queue_pos q then <[x := i]> (queue_pos q) else queue_pos q).

Definition queue_set_max_at_top (q : QUEUE) (set_arg : bool) : QUEUE :=
  mk_queue (root q) (elements q) (max_elements q) (auto_extent q)
    (if set_arg then -1 else 1)%Z (has_queue_pos q) (queue_pos q).

(** ** Creation and size; [oom] says that memory cannot be allocated *)

(** [pos] are the positions in the elements before the queue is used. *)
Definition init_queue (oom : bool) (max : nat) (max_top pos_offset : bool) (extent : nat)
    (pos : gmap elem nat) : option QUEUE :=
  if oom then None
  else Some (mk_queue (replicate (S max) 0) 0 max extent (if max_top then -1 else 1)%Z pos_offset pos).

Definition resize_queue (oom : bool) (q : QUEUE) (max : nat) : Z * QUEUE :=
  if max_elements q =? max then (0%Z, q)
  else if oom then (1%Z, q)
  else (0%Z, mk_queue (take (S max) (root q) ++ replicate (S max - length (root q)) 0)
               (Nat.min (elements q) max) max (auto_extent q) (max_at_top q) (has_queue_pos q)
               (queue_pos q)).

Definition reinit_queue (oom : bool) (q : QUEUE) (max : nat) (max_top pos_offset : bool)
    (extent : nat) : Z * QUEUE :=
  resize_queue oom
    (mk_queue (root q) 0 (max_elements q) extent (if max_top then -1 else 1)%Z pos_offset
       (queue_pos q)) max.

Definition queue_remove_all (q : QUEUE) : QUEUE := set_elements q 0.

Section Operations.
Context (compare : elem -> elem -> Z).

(** [compare(a, b) * max_at_top] *)
Definition cmp_top (q : QUEUE) (a b : elem) : Z := (compare a b * max_at_top q)%Z.

(** The loop of [insert_at]: the index halves, so [fuel] at the index is enough. *)
Fixpoint insert_loop (fuel : nat) (q : QUEUE) (element : elem) (idx : nat) : QUEUE :=
  let next_index := Nat.div2 idx in
  match fuel with
  | S fuel' =>
      if (0 <? next_index) && (cmp_top q element (queue_element q next_index) <? 0)%Z
      then insert_loop fuel' (put q idx (queue_element q next_index)) element next_index
      else put q idx element
  | O => put q idx element
  end.

Definition insert_at (q : QUEUE) (element : elem) (idx : nat) : QUEUE :=
  insert_loop idx q element idx.

Definition queue_insert (q : QUEUE) (element : elem) : QUEUE :=
  let n := S (elements q) in insert_at (set_elements q n) element n.

Definition queue_insert_safe (oom : bool) (q : QUEUE) (element : elem) : Z * QUEUE :=
  if elements q =? max_elements q then
    if auto_extent q =? 0 then (2%Z, q)
    else
      let '(error, q') := resize_queue oom q (max_elements q + auto_extent q) in
      if (error =? 0)%Z then (0%Z, queue_insert q' element) else (1%Z, q')
  else (0%Z, queue_insert q element).

(** The child of [idx] that is to be on top of the other *)
Definition top_child (q : QUEUE) (idx : nat) : nat :=
  let next_index := idx + idx in
  if (next_index <? elements q) &&
     (0 <? cmp_top q (queue_element q next_index) (queue_element q (S next_index)))%Z
  then S next_index else next_index.

(** The loop of [_downheap]; the index doubles, so [fuel] at [elements] is enough. *)
Fixpoint down_loop (fuel : nat) (q : QUEUE) (element : elem) (idx : nat) : QUEUE :=
  match fuel with
  | S fuel' =>
      if idx <=? Nat.div2 (elements q) then
        let next_index := top_child q idx in
        if (0 <=? cmp_top q (queue_element q next_index) element)%Z then put q idx element
        else down_loop fuel' (put q idx (queue_element q next_index)) element next_index
      else put q idx element
  | O => put q idx element
  end.

Definition _downheap (q : QUEUE) (idx : nat) : QUEUE :=
  down_loop (elements q) q (queue_element q idx) idx.

Definition queue_replace_top (q : QUEUE) : QUEUE := _downheap q 1.

(** [queue_fix]: from index [i] down to 1 *)
Fixpoint fix_loop (q : QUEUE) (i : nat) : QUEUE :=
  match i with
  | S i' => fix_loop (_downheap q i) i'
  | O => q
  end.

Definition queue_fix (q : QUEUE) : QUEUE := fix_loop q (Nat.div2 (elements q)).

(** The loop of [queue_replace]: only the first step compares with the element, the
    others go down to the end; then the element goes up from there. *)
Fixpoint replace_loop (fuel : nat) (q : QUEUE) (element : elem) (idx : nat) (first : bool)
    : QUEUE * nat :=
  match fuel with
  | S fuel' =>
      if idx <=? Nat.div2 (elements q) then
        let next_index := top_child q idx in
        if first && (0 <=? cmp_top q (queue_element q next_index) element)%Z
        then (put q idx element, idx)
        else replace_loop fuel' (put q idx (queue_element q next_index)) element next_index false
      else (q, idx)
  | O => (q, idx)
  end.

Definition queue_replace (q : QUEUE) (idx : nat) : QUEUE :=
  let element := queue_element q idx in
  let '(q', idx') := replace_loop (elements q) q element idx true in
  insert_at q' element idx'.

Definition queue_remove (q : QUEUE) (idx : nat) : elem * QUEUE :=
  let element := queue_element q idx in
  let q1 := set_elements (set_root q idx (queue_element q (elements q))) (elements q - 1) in
  (element, queue_replace q1 idx).

Definition queue_remove_top (q : QUEUE) : elem * QUEUE := queue_remove q 1.

End Operations.
