(* ===== verification/QueueProps.v ===== *)
(** * The heap of a priority queue

    The invariant of queues.c: the array has the size it claims, every element is at
    least as near to the top as its children, and the positions stored in the
    elements are where the elements are.  An operation moves a hole through the array
    ([moves]) and then fills it; what this does to the contents and to the positions
    is shown once, the order is shown for each loop. *)

From S2P Require Import Prelude Queue.

Local Open Scope nat_scope.

(** ** Halving an index *)

Lemma div2_iff i p : Nat.div2 i = p <-> i = p + p \/ i = S (p + p).
Proof.
  pose proof (Nat.div2_odd i) as Hi. destruct (Nat.odd i); simpl in Hi; lia.
Qed.

Ltac halves :=
  repeat match goal with
  | _ : context [Nat.div2 ?i] |- _ =>
      let p := fresh "p" in let E := fresh "E" in
      remember (Nat.div2 i) as p eqn:E; symmetry in E; apply div2_iff in E
  | |- context [Nat.div2 ?i] =>
      let p := fresh "p" in let E := fresh "E" in
      remember (Nat.div2 i) as p eqn:E; symmetry in E; apply div2_iff in E
  end; try lia.

Definition contents (q : QUEUE) : list elem := take (elements q) (drop 1 (root q)).

Record shape_ok (q : QUEUE) : Prop := {
  shape_length : length (root q) = S (max_elements q);
  shape_elements : elements q <= max_elements q;
  shape_top : max_at_top q = 1%Z \/ max_at_top q = (-1)%Z;
}.

Definition positions_ok (q : QUEUE) : Prop :=
  has_queue_pos q = true ->
  forall i, 1 <= i <= elements q -> queue_pos q !! queue_element q i = Some i.

(** Positions, when [e] is to be put in the hole [h] *)
Definition positions_but (q : QUEUE) (e : elem) (h : nat) : Prop :=
  has_queue_pos q = true ->
  forall i, 1 <= i <= elements q -> i <> h ->
    queue_pos q !! queue_element q i = Some i /\ queue_element q i <> e.

(** ** Stores into the array *)

Lemma element_put q i x j :
  i < length (root q) ->
  queue_element (put q i x) j = if decide (j = i) then x else queue_element q j.
Proof.
  intros Hi. unfold queue_element, put; simpl. rewrite !nth_lookup.
  case_decide as Hj.
  - subst. by rewrite list_lookup_insert_eq.
  - by rewrite list_lookup_insert_ne.
Qed.

Lemma shape_put q i x : shape_ok q -> shape_ok (put q i x).
Proof. intros [Hl He Ht]. split; simpl; [by rewrite length_insert|done|done]. Qed.

Lemma insert_perm (l : list elem) i x y :
  l !! i = Some x -> x :: <[i := y]> l ≡ₚ y :: l.
Proof.
  revert i. induction l as [|z l IH]; intros [|i] Hi; simplify_eq/=; [apply perm_swap|].
  by rewrite perm_swap, (IH i Hi), perm_swap.
Qed.

Lemma insert_move_perm (l : list elem) i j y e :
  i <> j -> i < length l -> l !! j = Some y ->
  <[j := e]> (<[i := y]> l) ≡ₚ <[i := e]> l.
Proof.
  intros Hij Hi Hj. destruct (lookup_lt_is_Some_2 l i Hi) as [x Hx].
  apply (Permutation_cons_inv (a := y)), (Permutation_cons_inv (a := x)).
  rewrite (insert_perm (<[i := y]> l) j y e) by (by rewrite list_lookup_insert_ne).
  rewrite (perm_swap e x), (insert_perm l i x y Hx).
  rewrite (perm_swap y x), (insert_perm l i x e Hx). apply perm_swap.
Qed.

Lemma contents_put q i x :
  1 <= i <= elements q -> contents (put q i x) = <[i - 1 := x]> (contents q).
Proof.
  intros Hi. unfold contents, put; simpl. destruct i as [|i]; [lia|].
  destruct (root q) as [|r0 rs]; simpl.
  - by rewrite !take_nil.
  - rewrite !drop_0, Nat.sub_0_r. apply take_insert_lt; lia.
Qed.

Lemma contents_lookup q i :
  shape_ok q -> 1 <= i <= elements q -> contents q !! (i - 1) = Some (queue_element q i).
Proof.
  intros [Hl He _] Hi. unfold contents, queue_element.
  rewrite lookup_take_lt by lia. rewrite lookup_drop, nth_lookup.
  replace (1 + (i - 1)) with i by lia.
  destruct (root q !! i) eqn:E; [done|]. apply lookup_ge_None in E. lia.
Qed.

Lemma contents_length q : shape_ok q -> length (contents q) = elements q.
Proof. intros [Hl He _]. unfold contents. rewrite length_take, length_drop. lia. Qed.

Lemma elem_of_contents q x :
  shape_ok q -> x ∈ contents q <-> exists i, 1 <= i <= elements q /\ queue_element q i = x.
Proof.
  intros Hq. rewrite list_elem_of_lookup. split.
  - intros [k Hk]. exists (S k). pose proof (lookup_lt_Some _ _ _ Hk) as Hlt.
    rewrite contents_length in Hlt by done.
    pose proof (contents_lookup q (S k) Hq) as Hc.
    replace (S k - 1) with k in Hc by lia. rewrite Hk in Hc.
    split; [lia|]. specialize (Hc ltac:(lia)). congruence.
  - intros (i & Hi & <-). exists (i - 1). by apply contents_lookup.
Qed.

(** ** Moving the hole *)

Inductive moves (e : elem) : QUEUE -> nat -> QUEUE -> nat -> Prop :=
  | moves_refl q h : moves e q h q h
  | moves_step q h p q' h' :
      1 <= p <= elements q -> p <> h ->
      moves e (put q h (queue_element q p)) p q' h' ->
      moves e q h q' h'.

Lemma positions_but_move q e h p :
  shape_ok q -> 1 <= h <= elements q -> 1 <= p <= elements q -> p <> h ->
  positions_but q e h -> positions_but (put q h (queue_element q p)) e p.
Proof.
  intros [Hl He _] Hh Hp Hph Hpos Hb i Hi Hip. simpl in Hb, Hi.
  specialize (Hpos Hb). rewrite element_put by lia. simpl. rewrite Hb.
  destruct (Hpos p Hp Hph) as [Hpp Hpe].
  case_decide as Hih; [subst; by rewrite lookup_insert_eq|].
  destruct (Hpos i Hi Hih) as [Hii Hie]. split; [|done].
  rewrite lookup_insert_ne; [done|]. intros E. rewrite E in Hpp. congruence.
Qed.

Lemma moves_facts e q h q' h' :
  moves e q h q' h' -> shape_ok q -> 1 <= h <= elements q ->
  shape_ok q' /\ elements q' = elements q /\ 1 <= h' <= elements q /\
  contents (put q' h' e) ≡ₚ contents (put q h e) /\
  (positions_but q e h -> positions_but q' e h') /\
  has_queue_pos q' = has_queue_pos q /\ max_elements q' = max_elements q /\
  max_at_top q' = max_at_top q /\ auto_extent q' = auto_extent q.
Proof.
  induction 1 as [q h|q h p q' h' Hp Hph _ IH]; intros Hq Hh; [done|].
  destruct (IH (shape_put _ _ _ Hq) Hp) as (Hs & Hn & Hh' & Hperm & Hpos & Hrest).
  split; [done|split; [done|split; [done|split]]];
    [|split; [by eauto using positions_but_move|done]].
  rewrite Hperm, !contents_put by done.
  apply insert_move_perm; [lia|rewrite contents_length by done; lia|].
  by apply contents_lookup.
Qed.

Lemma positions_fill q e h :
  shape_ok q -> 1 <= h <= max_elements q -> positions_but q e h -> positions_ok (put q h e).
Proof.
  intros [Hl He _] Hh Hpos Hb i Hi. simpl in Hb, Hi. specialize (Hpos Hb).
  rewrite element_put by lia. simpl. rewrite Hb.
  case_decide as Hih; [subst; by rewrite lookup_insert_eq|].
  destruct (Hpos i Hi Hih). by rewrite lookup_insert_ne.
Qed.

(** ** The order *)

Section Order.
Context (compare : elem -> elem -> Z) `{!TotalCompare compare}.

(** [a] may be above [b] *)
Definition above (q : QUEUE) (a b : elem) : Prop := (cmp_top compare q a b <= 0)%Z.

(** The order holds between each element from index [k] on and its children. *)
Definition heap_from (k : nat) (q : QUEUE) : Prop :=
  forall i, 2 <= i <= elements q -> k <= Nat.div2 i ->
    above q (queue_element q (Nat.div2 i)) (queue_element q i).

(** The same, with a hole at [h]: its parent is above its children. *)
Definition hole_from (k : nat) (q : QUEUE) (h : nat) : Prop :=
  (forall i, 2 <= i <= elements q -> k <= Nat.div2 i -> i <> h -> Nat.div2 i <> h ->
     above q (queue_element q (Nat.div2 i)) (queue_element q i)) /\
  (forall i, 2 <= i <= elements q -> k <= Nat.div2 h -> 1 < h -> Nat.div2 i = h ->
     above q (queue_element q (Nat.div2 h)) (queue_element q i)).

(** The element is above the children of the hole. *)
Definition above_children (q : QUEUE) (e : elem) (h : nat) : Prop :=
  forall i, 2 <= i <= elements q -> Nat.div2 i = h -> above q e (queue_element q i).

Record queue_ok (q : QUEUE) : Prop := {
  ok_shape : shape_ok q;
  ok_heap : heap_from 1 q;
  ok_positions : positions_ok q;
}.

Lemma above_trans q a b c : shape_ok q -> above q a b -> above q b c -> above q a c.
Proof.
  intros [_ _ [Ht|Ht]]; unfold above, cmp_top; rewrite Ht.
  - rewrite !Z.mul_1_r. apply cmp_trans.
  - intros H1 H2.
    assert (compare b a <= 0)%Z by (apply cmp_flip; lia).
    assert (compare c b <= 0)%Z by (apply cmp_flip; lia).
    assert (0 <= compare a c)%Z; [|lia]. apply cmp_flip. by apply (cmp_trans c b a).
Qed.

Lemma above_flip q a b : shape_ok q -> (0 <= cmp_top compare q a b)%Z <-> above q b a.
Proof.
  intros [_ _ [Ht|Ht]]; unfold above, cmp_top; rewrite Ht.
  - rewrite !Z.mul_1_r. symmetry. apply cmp_flip.
  - pose proof (cmp_flip (compare := compare) a b). lia.
Qed.

Lemma above_refl q a : shape_ok q -> above q a a.
Proof.
  intros Hq. destruct (Z.le_gt_cases (cmp_top compare q a a) 0) as [|H]; [done|].
  apply above_flip; [done|lia].
Qed.

Lemma above_lt q a b : (cmp_top compare q a b < 0)%Z -> above q a b.
Proof. unfold above. lia. Qed.

Lemma fill_heap k q e h :
  shape_ok q -> 1 <= h <= max_elements q -> hole_from k q h -> above_children q e h ->
  (h <= elements q -> 1 < h -> k <= Nat.div2 h -> above q (queue_element q (Nat.div2 h)) e) ->
  heap_from k (put q h e).
Proof.
  intros [Hl He _] Hh [H1 _] H2 H4 i Hi Hk. change (elements (put q h e)) with (elements q) in Hi.
  change (above (put q h e)) with (above q). rewrite !element_put by lia.
  repeat case_decide; subst; auto; try (halves; fail).
  apply H4; lia.
Qed.

Lemma hole_up q e h :
  shape_ok q -> 1 <= h <= elements q -> 0 < Nat.div2 h ->
  above q e (queue_element q (Nat.div2 h)) -> hole_from 1 q h ->
  hole_from 1 (put q h (queue_element q (Nat.div2 h))) (Nat.div2 h) /\
  above_children (put q h (queue_element q (Nat.div2 h))) e (Nat.div2 h).
Proof.
  intros Hq Hh Hp Hep [H1 H3]. pose proof (shape_length _ Hq). pose proof (shape_elements _ Hq).
  assert (Hup : forall i, 2 <= i <= elements q -> Nat.div2 i = Nat.div2 h ->
    above q (queue_element q (Nat.div2 h)) (if decide (i = h) then queue_element q (Nat.div2 h)
                                            else queue_element q i)).
  { intros i Hi E. case_decide; [by apply above_refl|]. rewrite <- E. apply H1; halves. }
  split; [split|]; intros i Hi; simpl in Hi;
    change (above (put q h ?x)) with (above q); rewrite !element_put by lia.
  - intros Hk Hn1 Hn2. rewrite (decide_False (P := i = h)) by congruence.
    case_decide as E; [apply H3; halves|]. apply H1; halves.
  - intros Hk Hlt E. rewrite (decide_False (P := Nat.div2 (Nat.div2 h) = h)) by halves.
    eapply above_trans; [done| |by apply Hup]. apply H1; halves.
  - intros E. eapply above_trans; [done|exact Hep|by apply Hup].
Qed.

Lemma insert_loop_moves fuel q e h :
  h <= fuel -> 1 <= h <= elements q -> exists q' h',
    moves e q h q' h' /\ insert_loop compare fuel q e h = put q' h' e.
Proof.
  revert q h. induction fuel as [|fuel IH]; intros q h Hf Hh; [lia|]. simpl.
  destruct (_ && _) eqn:E; [|by eauto using moves_refl].
  apply andb_true_iff in E as [Hp%Nat.ltb_lt _].
  destruct (IH (put q h (queue_element q (Nat.div2 h))) (Nat.div2 h)) as (q' & h' & Hm & ->);
    [halves|simpl; halves|].
  exists q', h'. split; [|done]. apply moves_step with (Nat.div2 h); [halves|halves|done].
Qed.

Lemma insert_loop_heap fuel q e h :
  h <= fuel -> shape_ok q -> 1 <= h <= elements q -> hole_from 1 q h -> above_children q e h ->
  heap_from 1 (insert_loop compare fuel q e h).
Proof.
  revert q h. induction fuel as [|fuel IH]; intros q h Hf Hq Hh Hho Hc; [lia|]. simpl.
  pose proof (shape_elements _ Hq).
  destruct (_ && _) eqn:E.
  - apply andb_true_iff in E as [Hp%Nat.ltb_lt Hlt%Z.ltb_lt].
    destruct (hole_up q e h) as [Hho' Hc']; auto using above_lt.
    apply IH; auto using shape_put; simpl; halves.
  - apply fill_heap; auto; [lia|]. intros _ H1h Hk.
    apply andb_false_iff in E as [E%Nat.ltb_ge|E%Z.ltb_ge]; [lia|]. by apply above_flip.
Qed.

(** ** Going down *)

Lemma top_child_spec q h :
  shape_ok q -> 1 <= h -> h <= Nat.div2 (elements q) ->
  let c := top_child compare q h in
  2 <= c <= elements q /\ Nat.div2 c = h /\ above_children q (queue_element q c) h.
Proof.
  intros Hq Hh Hn. unfold top_child.
  assert (Hkids : forall i, Nat.div2 i = h -> i = h + h \/ i = S (h + h)) by (intros; halves).
  destruct (_ && _) eqn:E.
  - apply andb_true_iff in E as [Hlt%Nat.ltb_lt Hc%Z.ltb_lt].
    split; [lia|split; [apply div2_iff; lia|]].
    intros i Hi [-> | ->]%Hkids; [|by apply above_refl]. apply above_flip; [done|lia].
  - split; [halves|split; [apply div2_iff; lia|]].
    intros i Hi [-> | ->]%Hkids; [by apply above_refl|].
    apply andb_false_iff in E as [E%Nat.ltb_ge|E%Z.ltb_ge]; [lia|done].
Qed.

Lemma hole_down k q h c :
  shape_ok q -> 1 <= h -> k <= h -> 2 <= c <= elements q -> Nat.div2 c = h ->
  above_children q (queue_element q c) h -> hole_from k q h ->
  hole_from k (put q h (queue_element q c)) c.
Proof.
  intros Hq Hh Hkh Hc Hdc Hkids [H1 H3].
  pose proof (shape_length _ Hq). pose proof (shape_elements _ Hq).
  assert (h <> c) by halves.
  split; intros i Hi; simpl in Hi; change (above (put q h ?x)) with (above q);
    rewrite !element_put by halves.
  - intros Hk Hn1 Hn2. repeat case_decide; subst; try (halves; fail); auto.
    apply H3; auto; lia.
  - intros Hk Hlt E. rewrite (decide_True (P := Nat.div2 c = h)) by done.
    rewrite decide_False by halves. rewrite <- E. apply H1; halves.
Qed.

Lemma down_loop_moves fuel q e h :
  1 <= h <= elements q -> shape_ok q -> exists q' h',
    moves e q h q' h' /\ down_loop compare fuel q e h = put q' h' e.
Proof.
  revert q h. induction fuel as [|fuel IH]; intros q h Hh Hq; [by eauto using moves_refl|]. simpl.
  destruct (h <=? _) eqn:E; [apply Nat.leb_le in E|by eauto using moves_refl].
  destruct (0 <=? _)%Z; [by eauto using moves_refl|].
  destruct (top_child_spec q h) as (Hc & Hd & _); [done|lia|done|].
  destruct (IH (put q h (queue_element q (top_child compare q h))) (top_child compare q h))
    as (q' & h' & Hm & ->); [simpl; lia|by apply shape_put|].
  exists q', h'. split; [|done]. apply moves_step with (top_child compare q h); [lia|halves|done].
Qed.

Lemma down_loop_heap k fuel q e h :
  elements q < fuel + h -> shape_ok q -> 1 <= h <= elements q -> k <= h -> hole_from k q h ->
  (1 < h -> k <= Nat.div2 h -> above q (queue_element q (Nat.div2 h)) e) ->
  heap_from k (down_loop compare fuel q e h).
Proof.
  revert q h. induction fuel as [|fuel IH]; intros q h Hf Hq Hh Hkh Hho Hpe; [lia|]. simpl.
  pose proof (shape_elements _ Hq). pose proof (shape_length _ Hq).
  destruct (h <=? _) eqn:E; [apply Nat.leb_le in E|apply Nat.leb_gt in E].
  - destruct (top_child_spec q h) as (Hc & Hd & Hkids); [done|lia|done|].
    destruct (0 <=? _)%Z eqn:Ez; [apply Z.leb_le in Ez|apply Z.leb_gt in Ez].
    + apply fill_heap; auto; [lia|]. intros i Hi Hdi.
      eapply above_trans; [done|by apply above_flip|by apply Hkids].
    + assert (Hlow : h < top_child compare q h) by halves.
      apply IH; [simpl; lia|by apply shape_put|simpl; lia|lia|by apply hole_down; auto; lia|].
      intros _ _. change (above (put q h ?x)) with (above q).
      rewrite element_put by halves. rewrite decide_True by done. by apply above_lt.
  - apply fill_heap; auto; [lia|]. intros i Hi Hdi. halves.
Qed.

Lemma replace_loop_moves fuel q e h first :
  1 <= h <= elements q -> shape_ok q ->
  let '(q', h') := replace_loop compare fuel q e h first in
  exists q1, moves e q h q1 h' /\ (q' = q1 \/ q' = put q1 h' e).
Proof.
  revert q h first. induction fuel as [|fuel IH]; intros q h first Hh Hq;
    [by exists q; eauto using moves_refl|]. simpl.
  destruct (h <=? _) eqn:E; [apply Nat.leb_le in E|by exists q; eauto using moves_refl].
  destruct (first && _); [by exists q; eauto using moves_refl|].
  destruct (top_child_spec q h) as (Hc & Hd & _); [done|lia|done|].
  specialize (IH (put q h (queue_element q (top_child compare q h))) (top_child compare q h) false).
  destruct (replace_loop _ _ _ _ _ _) as [q' h'].
  destruct IH as (q1 & Hm & Hq1); [simpl; lia|by apply shape_put|].
  exists q1. split; [|done]. apply moves_step with (top_child compare q h); [lia|halves|done].
Qed.

Lemma replace_loop_heap fuel q e h first :
  elements q < fuel + h -> 1 <= h <= elements q -> shape_ok q -> hole_from 1 q h ->
  let '(q', h') := replace_loop compare fuel q e h first in
  hole_from 1 q' h' /\ above_children q' e h'.
Proof.
  revert q h first. induction fuel as [|fuel IH]; intros q h first Hf Hh Hq Hho; [lia|]. simpl.
  pose proof (shape_elements _ Hq). pose proof (shape_length _ Hq).
  destruct (h <=? _) eqn:E; [apply Nat.leb_le in E|apply Nat.leb_gt in E].
  - destruct (top_child_spec q h) as (Hc & Hd & Hkids); [done|lia|done|].
    destruct (first && _) eqn:Ez.
    + apply andb_true_iff in Ez as [_ Ez%Z.leb_le]. destruct Hho as [H1 H3].
      split; [split|]; intros i Hi; simpl in Hi; change (above (put q h e)) with (above q);
        intros; rewrite !element_put by lia; repeat case_decide; subst; try (halves; fail); auto.
      eapply above_trans; [done|by apply above_flip|by apply Hkids].
    + assert (Hlow : h < top_child compare q h) by halves.
      apply IH; [simpl; lia|simpl; lia|by apply shape_put|by apply hole_down; auto; lia].
  - split; [done|]. intros i Hi Hdi. halves.
Qed.

(** ** The operations *)

Lemma moves_fill e q h q' h' :
  moves e q h q' h' -> shape_ok q -> 1 <= h <= elements q -> positions_but q e h ->
  shape_ok (put q' h' e) /\ positions_ok (put q' h' e) /\
  contents (put q' h' e) ≡ₚ contents (put q h e) /\ elements (put q' h' e) = elements q.
Proof.
  intros Hm Hq Hh Hpos.
  destruct (moves_facts _ _ _ _ _ Hm Hq Hh) as (Hq' & Hn & Hh' & Hperm & Hpos' & Hb & Hmax & _).
  pose proof (shape_elements _ Hq').
  split_and!; auto using shape_put. apply positions_fill; auto; lia.
Qed.

Lemma insert_at_ok q e h :
  shape_ok q -> 1 <= h <= elements q -> positions_but q e h ->
  hole_from 1 q h -> above_children q e h ->
  queue_ok (insert_at compare q e h) /\
  contents (insert_at compare q e h) ≡ₚ contents (put q h e) /\
  elements (insert_at compare q e h) = elements q.
Proof.
  intros Hq Hh Hpos Hho Hc. unfold insert_at.
  pose proof (insert_loop_heap h q e h (le_n h) Hq Hh Hho Hc) as Hheap.
  destruct (insert_loop_moves h q e h) as (q' & h' & Hm & E); [lia|done|].
  rewrite E in *. destruct (moves_fill _ _ _ _ _ Hm Hq Hh Hpos) as (? & ? & ? & ?).
  split; [by constructor|done].
Qed.

Lemma put_same_contents q h :
  shape_ok q -> 1 <= h <= elements q -> contents (put q h (queue_element q h)) = contents q.
Proof.
  intros Hq Hh. rewrite contents_put by done. apply list_insert_id. by apply contents_lookup.
Qed.

Lemma queue_replace_ok q h :
  shape_ok q -> 1 <= h <= elements q -> positions_but q (queue_element q h) h ->
  hole_from 1 q h ->
  queue_ok (queue_replace compare q h) /\ contents (queue_replace compare q h) ≡ₚ contents q /\
  elements (queue_replace compare q h) = elements q.
Proof.
  intros Hq Hh Hpos Hho. unfold queue_replace. set (e := queue_element q h) in *.
  pose proof (replace_loop_heap (elements q) q e h true) as Hheap.
  pose proof (replace_loop_moves (elements q) q e h true Hh Hq) as Hmv.
  destruct (replace_loop _ _ _ _ _ _) as [q' h'].
  destruct Hheap as [Hho' Hc']; [lia|done|done|done|]. destruct Hmv as (q1 & Hm & Hq').
  destruct (moves_facts _ _ _ _ _ Hm Hq Hh) as (Hq1 & Hn & Hh' & Hperm & Hpos' & _).
  specialize (Hpos' Hpos). rewrite <- Hn in Hh'.
  assert (shape_ok q' /\ elements q' = elements q1 /\ positions_but q' e h' /\
    contents (put q' h' e) = contents (put q1 h' e)) as (Hs' & Hn' & Hp' & Hcon).
  { pose proof (shape_length _ Hq1). pose proof (shape_elements _ Hq1).
    destruct Hq' as [-> | ->]; [done|]. split_and!; auto using shape_put.
    - intros Hb i Hi Hih. pose proof (positions_fill q1 e h' Hq1 ltac:(lia) Hpos' Hb i Hi) as Hf.
      split; [done|]. rewrite element_put by lia. rewrite decide_False by done.
      by apply Hpos'.
    - rewrite !contents_put by (simpl; lia). apply list_insert_insert_eq. }
  destruct (insert_at_ok q' e h') as (Hok & Hp & He); auto; [by rewrite Hn'|].
  split; [done|split]; [|congruence].
  rewrite Hp, Hcon, Hperm. unfold e. by rewrite put_same_contents.
Qed.

Lemma downheap_ok k q h :
  shape_ok q -> 1 <= h <= elements q -> k <= h -> hole_from k q h ->
  (1 < h -> k <= Nat.div2 h ->
   above q (queue_element q (Nat.div2 h)) (queue_element q h)) ->
  let q' := _downheap compare q h in
  shape_ok q' /\ heap_from k q' /\ contents q' ≡ₚ contents q /\ elements q' = elements q /\
  (positions_ok q -> positions_ok q').
Proof.
  intros Hq Hh Hkh Hho Hpe q'. unfold q', _downheap. clear q'.
  pose proof (down_loop_heap k (elements q) q (queue_element q h) h ltac:(lia) Hq Hh Hkh Hho Hpe)
    as Hheap.
  destruct (down_loop_moves (elements q) q (queue_element q h) h Hh Hq) as (q' & h' & Hm & E).
  rewrite E in *.
  destruct (moves_facts _ _ _ _ _ Hm Hq Hh) as (Hq' & Hn & Hh' & Hperm & Hpos' & _).
  pose proof (shape_elements _ Hq').
  split_and!; auto using shape_put; [by rewrite Hperm, put_same_contents|].
  intros Hpos. apply positions_fill; [done|lia|]. apply Hpos'. intros Hb i Hi Hih.
  split; [by apply Hpos|]. intros Eq. pose proof (Hpos Hb i Hi) as E1.
  rewrite Eq, (Hpos Hb h Hh) in E1. congruence.
Qed.

Lemma init_queue_ok max max_top pos_offset extent pos q :
  init_queue false max max_top pos_offset extent pos = Some q -> queue_ok q /\ contents q = [].
Proof.
  intros [= <-]. split; [split|done].
  - split; simpl; [by rewrite length_replicate|lia|by destruct max_top; auto].
  - intros i Hi. simpl in Hi. lia.
  - intros _ i Hi. simpl in Hi. lia.
Qed.

Lemma resize_element oom q max i :
  shape_ok q -> i <= max -> i <= max_elements q ->
  queue_element (resize_queue oom q max).2 i = queue_element q i.
Proof.
  intros [Hl _ _] Hi Hm. unfold resize_queue.
  destruct (_ =? _); [done|]. destruct oom; [done|].
  unfold queue_element; simpl root. rewrite !nth_lookup.
  rewrite lookup_app_l by (rewrite length_take; lia). by rewrite lookup_take_lt by lia.
Qed.

(** A queue that is made smaller keeps the front of the array, which is a heap. *)
Lemma resize_queue_ok oom q max :
  queue_ok q -> queue_ok (resize_queue oom q max).2.
Proof.
  intros [Hq Hh Hp]. pose proof (resize_element oom q max) as Hel.
  pose proof (shape_elements _ Hq) as He. pose proof (shape_length _ Hq) as Hl.
  unfold resize_queue in *. destruct (_ =? _); [done|]. destruct oom; [done|]. simpl in *. split.
  - split; simpl; [|lia|apply Hq]. rewrite length_app, length_take, length_replicate. lia.
  - intros i Hi Hk. simpl in Hi. rewrite !Hel by (done || halves). apply Hh; [lia|done].
  - intros Hb i Hi. simpl in Hb, Hi. rewrite Hel by (done || lia). apply Hp; [done|lia].
Qed.

Lemma resize_contents oom q max :
  shape_ok q -> elements q <= max -> contents (resize_queue oom q max).2 = contents q.
Proof.
  intros [Hl He _] Hm. unfold resize_queue. destruct (_ =? _); [done|]. destruct oom; [done|].
  unfold contents; simpl. rewrite Nat.min_l by lia. destruct (root q) as [|r0 rs]; simpl in *; [lia|].
  rewrite !drop_0. rewrite take_app_le by (rewrite length_take; lia).
  by rewrite take_take, Nat.min_l by lia.
Qed.

Lemma contents_grow q n e :
  shape_ok q -> elements q < max_elements q -> n = S (elements q) ->
  contents (put (set_elements q n) n e) = contents q ++ [e].
Proof.
  intros [Hl He _] Hlt ->. unfold contents, put, set_elements; simpl.
  destruct (root q) as [|r0 rs]; simpl in *; [lia|]. rewrite !drop_0.
  erewrite take_S_r by (apply list_lookup_insert_eq; lia).
  by rewrite take_insert_ge by lia.
Qed.

Lemma queue_insert_ok q e :
  queue_ok q -> elements q < max_elements q -> (has_queue_pos q = true -> e ∉ contents q) ->
  queue_ok (queue_insert compare q e) /\ contents (queue_insert compare q e) ≡ₚ e :: contents q.
Proof.
  intros [Hq Hh Hp] Hlt Hnew. unfold queue_insert.
  assert (Hq1 : shape_ok (set_elements q (S (elements q)))).
  { destruct Hq as [Hl He Ht]. split; simpl; auto. }
  destruct (insert_at_ok (set_elements q (S (elements q))) e (S (elements q)))
    as (Hok & Hperm & _); auto.
  - simpl. lia.
  - intros Hb i Hi Hn. simpl in Hb, Hi. split; [apply Hp; [done|lia]|].
    intros E. apply (Hnew Hb), elem_of_contents; [done|]. exists i. split; [lia|done].
  - split; intros i Hi; simpl in Hi; intros; [apply Hh; lia|halves].
  - intros i Hi Hd. simpl in Hi. halves.
  - split; [done|]. rewrite Hperm, (contents_grow q _ e Hq Hlt eq_refl).
    by rewrite Permutation_app_comm.
Qed.

Lemma top_above q i :
  shape_ok q -> heap_from 1 q -> 1 <= i <= elements q ->
  above q (queue_element q 1) (queue_element q i).
Proof.
  intros Hq Hh. induction i as [i IH] using lt_wf_ind. intros Hi.
  destruct (decide (i = 1)) as [-> |Hne]; [by apply above_refl|].
  eapply above_trans; [done|apply (IH (Nat.div2 i)); halves|apply Hh; halves].
Qed.

Lemma insert_loop_stop fuel q e h :
  (0 < Nat.div2 h -> (0 <= cmp_top compare q e (queue_element q (Nat.div2 h)))%Z) ->
  insert_loop compare fuel q e h = put q h e.
Proof.
  intros Hs. destruct fuel as [|fuel]; [done|]. cbn -[Nat.div2 Nat.ltb].
  destruct (_ && _) eqn:E; [|done]. apply andb_true_iff in E as [Hp%Nat.ltb_lt E%Z.ltb_lt].
  specialize (Hs Hp). lia.
Qed.

Lemma remove_last_ok q :
  queue_ok q -> 1 <= elements q ->
  let q1 := set_elements (set_root q (elements q) (queue_element q (elements q)))
              (elements q - 1) in
  queue_replace compare q1 (elements q) = put q1 (elements q) (queue_element q (elements q)).
Proof.
  intros [Hq Hh _] Hn q1. pose proof (shape_length _ Hq). pose proof (shape_elements _ Hq).
  assert (Hel : forall i, queue_element q1 i = queue_element q i).
  { intros i. unfold queue_element at 1, q1; simpl. rewrite list_insert_id; [done|].
    unfold queue_element. rewrite nth_lookup.
    destruct (root q !! elements q) eqn:E; [done|]. apply lookup_ge_None in E. lia. }
  assert (Hr : forall fuel e, replace_loop compare fuel q1 e (elements q) true = (q1, elements q)).
  { intros [|fuel] e; [done|]. simpl.
    destruct (_ <=? _) eqn:E; [apply Nat.leb_le in E; halves|done]. }
  unfold queue_replace. rewrite Hr, Hel. apply insert_loop_stop. intros Hp. rewrite Hel.
  apply (above_flip q); [done|]. apply Hh; halves.
Qed.

Lemma contents_last q :
  shape_ok q -> 1 <= elements q ->
  contents q ≡ₚ queue_element q (elements q) :: take (elements q - 1) (contents q).
Proof.
  intros Hq Hn. rewrite <- (take_drop (elements q - 1) (contents q)) at 1.
  rewrite (drop_S _ _ _ (contents_lookup q (elements q) Hq ltac:(lia))).
  rewrite drop_ge by (rewrite contents_length by done; lia).
  by rewrite Permutation_app_comm.
Qed.

Lemma remove_inner_ok q idx :
  queue_ok q -> 1 <= idx < elements q ->
  let q1 := set_elements (set_root q idx (queue_element q (elements q))) (elements q - 1) in
  queue_ok (queue_replace compare q1 idx) /\
  contents q ≡ₚ queue_element q idx :: contents (queue_replace compare q1 idx).
Proof.
  intros [Hq Hh Hp] Hi q1. pose proof (shape_length _ Hq). pose proof (shape_elements _ Hq).
  assert (Hel : forall i, queue_element q1 i =
    if decide (i = idx) then queue_element q (elements q) else queue_element q i).
  { intros i. pose proof (element_put q idx (queue_element q (elements q)) i) as E.
    apply E. lia. }
  assert (Hq1 : shape_ok q1).
  { destruct Hq. split; simpl; [by rewrite length_insert|lia|done]. }
  destruct (queue_replace_ok q1 idx) as (Hok & Hperm & _); auto.
  - simpl. lia.
  - intros Hb i Hii Hne. simpl in Hb, Hii. rewrite !Hel.
    rewrite (decide_False (P := i = idx)), (decide_True (P := idx = idx)) by done.
    split; [apply Hp; [done|lia]|]. intros E. pose proof (Hp Hb i ltac:(lia)) as E1.
    rewrite E, (Hp Hb (elements q)) in E1 by lia. simplify_eq. lia.
  - split; intros i Hii; simpl in Hii; change (above q1) with (above q); intros; rewrite !Hel;
      rewrite !decide_False by halves; [apply Hh; halves|].
    apply (above_trans q _ (queue_element q idx)); [done|apply Hh; halves|].
    subst idx. apply Hh; halves.
  - split; [done|]. rewrite Hperm.
    assert (Hc1 : contents q1 = <[idx - 1 := queue_element q (elements q)]>
              (take (elements q - 1) (contents q))).
    { pose proof (contents_put (set_elements q (elements q - 1)) idx
                    (queue_element q (elements q)) ltac:(simpl; lia)) as E.
      etransitivity; [exact E|]. f_equal. unfold contents; simpl. by rewrite take_take, Nat.min_l by lia. }
    rewrite Hc1, insert_perm
      by (rewrite lookup_take_lt by lia; apply contents_lookup; [done|lia]).
    apply contents_last; [done|lia].
Qed.

Lemma remove_end_ok q :
  queue_ok q -> 1 <= elements q ->
  let q1 := set_elements (set_root q (elements q) (queue_element q (elements q)))
              (elements q - 1) in
  queue_ok (queue_replace compare q1 (elements q)) /\
  contents q ≡ₚ queue_element q (elements q) :: contents (queue_replace compare q1 (elements q)).
Proof.
  intros Hok Hn q1. unfold q1. rewrite remove_last_ok by done. fold q1. set (n := elements q) in *.
  destruct Hok as [Hq Hh Hp]. pose proof (shape_length _ Hq) as Hl.
  pose proof (shape_elements _ Hq) as He.
  assert (Hel : forall i, i < n ->
    queue_element (put q1 n (queue_element q n)) i = queue_element q i).
  { intros i Hi. rewrite element_put by (simpl; rewrite length_insert; lia).
    rewrite decide_False by lia. unfold queue_element, q1; simpl. rewrite !nth_lookup.
    by rewrite list_lookup_insert_ne by lia. }
  split; [split|].
  - destruct Hq. split; simpl; [by rewrite !length_insert|lia|done].
  - intros i Hi Hk. simpl in Hi. rewrite !Hel by halves. apply Hh; lia.
  - intros Hb i Hi. simpl in Hb, Hi. rewrite Hel by lia. simpl. rewrite Hb.
    rewrite lookup_insert_ne; [apply Hp; [done|lia]|]. intros E.
    pose proof (Hp Hb i ltac:(lia)) as E1. rewrite <- E, (Hp Hb n) in E1 by lia.
    simplify_eq. lia.
  - assert (Hc : contents (put q1 n (queue_element q n)) = take (n - 1) (contents q)).
    { unfold contents, q1; simpl. fold n. destruct (root q) as [|r0 rs]; [simpl in Hl; lia|].
      destruct n as [|m] eqn:En; [lia|]. simpl. rewrite !drop_0, Nat.sub_0_r.
      rewrite !take_insert_ge by lia. by rewrite take_take, Nat.min_l by lia. }
    rewrite Hc. by apply contents_last.
Qed.

Lemma fix_loop_ok q i :
  shape_ok q -> i <= elements q -> heap_from (S i) q ->
  shape_ok (fix_loop compare q i) /\ heap_from 1 (fix_loop compare q i) /\
  contents (fix_loop compare q i) ≡ₚ contents q /\
  (positions_ok q -> positions_ok (fix_loop compare q i)).
Proof.
  revert q. induction i as [|i IH]; intros q Hq Hi Hh; [done|]. cbn [fix_loop].
  destruct (downheap_ok (S i) q (S i)) as (Hq' & Hh' & Hc & Hn & Hp); auto; [lia|..].
  - split; intros j Hj; intros; [apply Hh; lia|halves].
  - intros. halves.
  - destruct (IH (_downheap compare q (S i))) as (? & ? & Hc' & ?); auto; [lia|].
    split_and!; auto. by rewrite Hc', Hc.
Qed.

Lemma remove_correct q idx :
  queue_ok q -> 1 <= idx <= elements q ->
  let '(x, q') := queue_remove compare q idx in
  x = queue_element q idx /\ queue_ok q' /\ contents q ≡ₚ x :: contents q' /\
  (idx = 1 -> Forall (above q x) (contents q)).
Proof.
  intros Hok Hi. unfold queue_remove. split; [done|].
  assert (Htop : idx = 1 -> Forall (above q (queue_element q idx)) (contents q)).
  { destruct Hok as [Hq Hh _]. intros ->. apply Forall_forall.
    intros x (i & Hii & <-)%elem_of_contents; [|done]. by apply top_above. }
  destruct (decide (idx = elements q)) as [-> |Hne].
  - destruct (remove_end_ok q Hok) as [? ?]; [lia|]. done.
  - destruct (remove_inner_ok q idx Hok) as [? ?]; [lia|]. done.
Qed.

Lemma insert_safe_correct oom q e :
  queue_ok q -> (has_queue_pos q = true -> e ∉ contents q) ->
  let '(r, q') := queue_insert_safe compare oom q e in
  (r = 0%Z \/ r = 1%Z \/ r = 2%Z) /\
  (r = 0%Z -> queue_ok q' /\ contents q' ≡ₚ e :: contents q) /\
  (r <> 0%Z -> q' = q) /\
  (r = 2%Z <-> queue_is_full q = true /\ auto_extent q = 0) /\
  (r = 1%Z <-> queue_is_full q = true /\ auto_extent q <> 0 /\ oom = true).
Proof.
  intros Hok Hnew. unfold queue_insert_safe, queue_is_full.
  pose proof (shape_elements _ (ok_shape _ Hok)) as He.
  destruct (elements q =? max_elements q) eqn:Ef.
  - apply Nat.eqb_eq in Ef. destruct (auto_extent q =? 0) eqn:Ea;
      [apply Nat.eqb_eq in Ea; naive_solver|apply Nat.eqb_neq in Ea].
    pose proof (resize_queue_ok oom q (max_elements q + auto_extent q) Hok) as Hok'.
    pose proof (resize_contents oom q (max_elements q + auto_extent q) (ok_shape _ Hok)
      ltac:(lia)) as Hc.
    unfold resize_queue in *. rewrite (proj2 (Nat.eqb_neq _ _)) in * by lia.
    destruct oom; simpl in *; [naive_solver|].
    destruct (queue_insert_ok _ e Hok') as [Hi1 Hi2]; simpl; [lia|by rewrite Hc|].
    rewrite Hc in Hi2. naive_solver.
  - apply Nat.eqb_neq in Ef. destruct (queue_insert_ok q e Hok) as [Hi1 Hi2]; [lia|done|].
    naive_solver.
Qed.

Lemma fix_correct q :
  shape_ok q ->
  shape_ok (queue_fix compare q) /\ heap_from 1 (queue_fix compare q) /\
  contents (queue_fix compare q) ≡ₚ contents q /\
  (positions_ok q -> positions_ok (queue_fix compare q)).
Proof.
  intros Hq. apply fix_loop_ok; [done|halves|]. intros i Hi Hk. halves.
Qed.

(** C18: [queue_insert_safe] adds the element and keeps the queue in order, extending
    the array when it is full; it fails with 2 exactly when the queue is full and may
    not grow, with 1 exactly when it may grow but memory is out, and then the queue is
    unchanged.  Removing the element at any index of a queue returns that element, leaves
    exactly the other elements, in heap order and with the positions stored in them
    right; the element at the top is one that no other element should precede.
    [queue_fix] makes a queue of any array: the elements are the same, they are in
    heap order, and if the stored positions were right they still are. *)
Theorem queue_operations_correct q :
  (forall oom e, queue_ok q -> (has_queue_pos q = true -> e ∉ contents q) ->
   let '(r, q') := queue_insert_safe compare oom q e in
   (r = 0%Z \/ r = 1%Z \/ r = 2%Z) /\
   (r = 0%Z -> queue_ok q' /\ contents q' ≡ₚ e :: contents q) /\
   (r <> 0%Z -> q' = q) /\
   (r = 2%Z <-> queue_is_full q = true /\ auto_extent q = 0) /\
   (r = 1%Z <-> queue_is_full q = true /\ auto_extent q <> 0 /\ oom = true)) /\
  (forall idx, queue_ok q -> 1 <= idx <= elements q ->
   let '(x, q') := queue_remove compare q idx in
   x = queue_element q idx /\ queue_ok q' /\ contents q ≡ₚ x :: contents q' /\
   (idx = 1 -> Forall (above q x) (contents q))) /\
  (shape_ok q ->
   shape_ok (queue_fix compare q) /\ heap_from 1 (queue_fix compare q) /\
   contents (queue_fix compare q) ≡ₚ contents q /\
   (positions_ok q -> positions_ok (queue_fix compare q))).
Proof.
  split; [intros oom e; apply insert_safe_correct|]. split; [intros idx; apply remove_correct|apply fix_correct].
Qed.

End Order.

(** After the key of one element has changed, so that [compare] now differs from
    the comparison [before] that the queue was ordered by, but only for that element,
    [queue_replace] at its index gives an ordered queue of the same elements. *)
Lemma queue_replace_correct (compare before : elem -> elem -> Z) q idx :
  TotalCompare compare -> TotalCompare before ->
  shape_ok q -> positions_ok q -> 1 <= idx <= elements q -> NoDup (contents q) ->
  heap_from before 1 q ->
  (forall a b, a <> queue_element q idx -> b <> queue_element q idx ->
     compare a b = before a b) ->
  queue_ok compare (queue_replace compare q idx) /\
  contents (queue_replace compare q idx) ≡ₚ contents q.
Proof.
  intros Hcmp Hbef Hq Hp Hidx Hnd Hold Hsame.
  assert (Hne : forall i, 1 <= i <= elements q -> i <> idx ->
    queue_element q i <> queue_element q idx).
  { intros i Hi Hn E. apply Hn.
    cut (i - 1 = idx - 1); [lia|]. apply (NoDup_lookup _ _ _ (queue_element q i) Hnd).
    - by apply contents_lookup.
    - rewrite E. by apply contents_lookup. }
  assert (Hedge : forall i, 2 <= i <= elements q -> i <> idx -> Nat.div2 i <> idx ->
    above compare q (queue_element q (Nat.div2 i)) (queue_element q i)).
  { intros i Hi Hn1 Hn2. unfold above, cmp_top. rewrite Hsame by (apply Hne; halves).
    apply Hold; halves. }
  destruct (queue_replace_ok compare q idx) as (? & ? & _); auto.
  - intros Hb i Hi Hn. split; [by apply Hp|by apply Hne].
  - split; [auto|]. intros i Hi Hk Hlt E. unfold above, cmp_top.
    rewrite Hsame by (apply Hne; halves).
    apply (above_trans before q _ (queue_element q idx)); [done|apply Hold; halves|].
    subst idx. apply Hold; halves.
Qed.

(** ** Examples *)

Definition cmp_mod7 (a b : elem) : Z := (Z.of_nat (a mod 7) - Z.of_nat (b mod 7))%Z.

#[export] Instance cmp_mod7_total : TotalCompare cmp_mod7.
Proof. split; unfold cmp_mod7; lia. Qed.

(** A queue with the largest element on top that stores positions *)
Definition queue_example : QUEUE :=
  queue_insert cmp_mod7 (queue_insert cmp_mod7 (queue_insert cmp_mod7
    (mk_queue (replicate 4 0) 0 3 2 (-1) true ∅) 8) 20) 3.

Lemma queue_example_ok : queue_ok cmp_mod7 queue_example.
Proof.
  destruct (init_queue_ok cmp_mod7 3 true true 2 ∅ _ eq_refl) as [H0 _].
  do 3 (refine (proj1 (queue_insert_ok _ _ _ _ _ _)); [|vm_compute; lia|by_decide]).
  exact H0.
Qed.

Lemma queue_operations_correct_witness :
  contents (queue_insert_safe cmp_mod7 false queue_example 11).2 ≡ₚ 11 :: contents queue_example /\
  contents queue_example ≡ₚ 20 :: contents (queue_remove cmp_mod7 queue_example 1).2 /\
  contents (queue_fix cmp_mod7 (mk_queue [0; 3; 20; 8] 3 3 0 1 false ∅)) ≡ₚ [3; 20; 8].
Proof.
  destruct (queue_operations_correct cmp_mod7 queue_example) as (Hi & Hr & _). split; [|split].
  - specialize (Hi false 11 queue_example_ok ltac:(by_decide)).
    change (queue_insert_safe cmp_mod7 false queue_example 11) with
      (0%Z, (queue_insert_safe cmp_mod7 false queue_example 11).2) in Hi.
    apply Hi. reflexivity.
  - specialize (Hr 1 queue_example_ok ltac:(vm_compute; lia)).
    destruct (queue_remove cmp_mod7 queue_example 1) as [x q'] eqn:E.
    destruct Hr as (Hx & _ & Hp & _). rewrite Hp, Hx. by vm_compute queue_element.
  - apply (queue_operations_correct cmp_mod7 (mk_queue [0; 3; 20; 8] 3 3 0 1 false ∅)).
    split; [reflexivity|simpl; lia|by left].
Defined.
