(* ===== verification/Hash.v ===== *)
(** * Hash tables

    mysys/hash.c and include/hash.h: linear hashing in one array.  The records of a
    bucket are linked by their indexes in the array; the first record of a bucket is
    at the index of the bucket.  The functions a caller gives to the table (the key of
    a record, the hash function and the comparison of the character set) are
    parameters.  An index is a natural number, and NO_RECORD is [None]. *)

From S2P Require Import Prelude.

Local Open Scope nat_scope.

Notation rptr := nat (only parsing).

Record HASH_LINK := mk_hlink {
  next : option nat;
  hash_nr : Z;
  data : rptr;
}.

Record HASH := mk_hash {
  key_offset : nat;
  key_length : nat;
  blength : nat;
  records : nat;
  flags : Z;
  array : list HASH_LINK;
  has_free : bool;              (* free is not 0 *)
}.

Definition HASH_UNIQUE : Z := 1.
Definition LOWFIND : Z := 1.
Definition LOWUSED : Z := 2.
Definition HIGHFIND : Z := 4.
Definition HIGHUSED : Z := 8.

Definition dynamic_element (d : list HASH_LINK) (i : nat) : HASH_LINK :=
  nth i d (mk_hlink None 0 0).

Definition set_next (d : list HASH_LINK) (i : nat) (o : option nat) : list HASH_LINK :=
  <[i := mk_hlink o (hash_nr (dynamic_element d i)) (data (dynamic_element d i))]> d.

Definition set_array (hash : HASH) (b n : nat) (d : list HASH_LINK) : HASH :=
  mk_hash (key_offset hash) (key_length hash) b n (flags hash) d (has_free hash).

(** [res] is what [init_dynamic_array2] returns. *)
Definition my_hash_init2 (res : bool) (offset length : nat) (fl : Z) (free_element : bool)
    : bool * HASH :=
  (res, mk_hash offset length 1 0 fl [] free_element).

(** The second component is what the [free] function is called for. *)
Definition my_hash_free_elements (hash : HASH) : HASH * list rptr :=
  if records hash =? 0 then (hash, [])
  else (set_array hash (blength hash) 0 (array hash),
        if has_free hash then map data (take (records hash) (array hash)) else []).

Definition my_hash_reset (hash : HASH) : HASH * list rptr :=
  let '(hash', freed) := my_hash_free_elements hash in
  (set_array hash' 1 (records hash') [], freed).

Definition my_hash_free (hash : HASH) : HASH * list rptr :=
  let '(hash', freed) := my_hash_free_elements hash in
  (mk_hash (key_offset hash') (key_length hash') 0 (records hash') (flags hash') [] false, freed).

Definition my_hash_mask (hashnr : Z) (buffmax maxlength : nat) : nat :=
  let low := Z.to_nat (Z.land hashnr (Z.of_nat buffmax - 1)) in
  if low <? maxlength then low
  else Z.to_nat (Z.land hashnr (Z.of_nat (Nat.div2 buffmax) - 1)).

Definition my_hash_rec_mask (pos : HASH_LINK) (buffmax maxlength : nat) : nat :=
  my_hash_mask (hash_nr pos) buffmax maxlength.

(** Change the link to [find] to [newlink]; the walk starts at [next_link]. *)
Fixpoint movelink (fuel : nat) (d : list HASH_LINK) (find : option nat) (next_link : nat)
    (newlink : option nat) : list HASH_LINK :=
  match fuel with
  | S fuel' =>
      let old := dynamic_element d next_link in
      if bool_decide (next old = find) then set_next d next_link newlink
      else match next old with
           | Some i => movelink fuel' d find i newlink
           | None => d
           end
  | O => d
  end.

(** ** Splitting a bucket, in [my_hash_insert] *)

Record split_state := mk_split {
  s_data : list HASH_LINK;
  s_flag : Z;
  s_gpos : nat; s_rec : Z * rptr;
  s_gpos2 : nat; s_rec2 : Z * rptr;
  s_empty : nat;
}.

Definition rec_of (l : HASH_LINK) : Z * rptr := (hash_nr l, data l).

Definition has_flag (flag bit : Z) : bool := negb (Z.land flag bit =? 0)%Z.

Definition store_link (d : list HASH_LINK) (i : nat) (r : Z * rptr) (o : option nat)
    : list HASH_LINK := <[i := mk_hlink o r.1 r.2]> d.

(** The body of the loop for the record at [pos] *)
Definition split_step (halfbuff : nat) (st : split_state) (pos : nat) : split_state :=
  let '(mk_split d flag gpos rec gpos2 rec2 empty) := st in
  let link := dynamic_element d pos in
  if (Z.land (hash_nr link) (Z.of_nat halfbuff) =? 0)%Z then
    if negb (has_flag flag LOWFIND) then
      if has_flag flag HIGHFIND
      then mk_split d (Z.lor LOWFIND HIGHFIND) empty (rec_of link) gpos2 rec2 pos
      else mk_split d (Z.lor LOWFIND LOWUSED) pos (rec_of link) gpos2 rec2 empty
    else if negb (has_flag flag LOWUSED)
      then mk_split (store_link d gpos rec (Some pos))
             (Z.lor (Z.land flag HIGHFIND) (Z.lor LOWFIND LOWUSED)) pos (rec_of link) gpos2 rec2 empty
      else mk_split d flag pos (rec_of link) gpos2 rec2 empty
  else
    if negb (has_flag flag HIGHFIND)
    then mk_split d (Z.lor (Z.land flag LOWFIND) HIGHFIND) gpos rec empty (rec_of link) pos
    else if negb (has_flag flag HIGHUSED)
      then mk_split (store_link d gpos2 rec2 (Some pos))
             (Z.lor (Z.land flag LOWFIND) (Z.lor HIGHFIND HIGHUSED)) gpos rec pos (rec_of link) empty
      else mk_split d flag gpos rec pos (rec_of link) empty.

Fixpoint split_loop (fuel halfbuff b n first_index : nat) (st : split_state) (idx : nat)
    : split_state :=
  match fuel with
  | S fuel' =>
      let link := dynamic_element (s_data st) idx in
      if (s_flag st =? 0)%Z && negb (my_hash_mask (hash_nr link) b n =? first_index) then st
      else
        let st' := split_step halfbuff st idx in
        match next (dynamic_element (s_data st') idx) with
        | Some idx' => split_loop fuel' halfbuff b n first_index st' idx'
        | None => st'
        end
  | O => st
  end.

(** The records that are still to be stored end their chains. *)
Definition split_finish (st : split_state) : list HASH_LINK :=
  let d1 :=
    if (Z.land (s_flag st) (Z.lor LOWFIND LOWUSED) =? LOWFIND)%Z
    then store_link (s_data st) (s_gpos st) (s_rec st) None else s_data st in
  if (Z.land (s_flag st) (Z.lor HIGHFIND HIGHUSED) =? HIGHFIND)%Z
  then store_link d1 (s_gpos2 st) (s_rec2 st) None else d1.

(** The array with its new last element, and the index that is free after the split *)
Definition split_bucket (d : list HASH_LINK) (b n : nat) : list HASH_LINK * nat :=
  let halfbuff := Nat.div2 b in
  let first_index := n - halfbuff in
  if first_index =? n then (d, n)
  else
    let st := split_loop n halfbuff b n first_index (mk_split d 0 0 (0%Z, 0) 0 (0%Z, 0) n)
                first_index in
    (split_finish st, s_empty st).

(** Store a new record, in an array of [n] elements of which [empty] is free. *)
Definition insert_record (d : list HASH_LINK) (b n empty : nat) (hashnr : Z) (record : rptr)
    : list HASH_LINK :=
  let pos := my_hash_mask hashnr b n in
  let d1 :=
    if pos =? empty then set_next d pos None
    else
      let d' := <[empty := dynamic_element d pos]> d in
      let gpos := my_hash_rec_mask (dynamic_element d' pos) b n in
      if pos =? gpos then set_next d' pos (Some empty)
      else movelink n (set_next d' pos None) (Some pos) gpos (Some empty) in
  <[pos := mk_hlink (next (dynamic_element d1 pos)) hashnr record]> d1.

(** ** Unlinking a record, in [my_hash_delete] and [my_hash_update] *)

(** Walk a chain to [record]: its index and the index before it. *)
Fixpoint find_record (fuel : nat) (d : list HASH_LINK) (record : rptr) (idx : nat)
    (previous : option nat) : option (nat * option nat) :=
  match fuel with
  | S fuel' =>
      let pos := dynamic_element d idx in
      if data pos =? record then Some (idx, previous)
      else match next pos with
           | Some idx' => find_record fuel' d record idx' (Some idx)
           | None => None
           end
  | O => None
  end.

(** The array without the link at [idx], and the index that is free *)
Definition unlink (d : list HASH_LINK) (idx : nat) (previous : option nat)
    : list HASH_LINK * nat :=
  let pos := dynamic_element d idx in
  match previous with
  | Some g => (set_next d g (next pos), idx)
  | None =>
      match next pos with
      | Some e => (<[idx := dynamic_element d e]> d, e)
      | None => (d, idx)
      end
  end.

(** Move the last record to the free element: [b] is the size before and [b'] after
    the removal, [n] the number of records after it. *)
Definition move_last (d : list HASH_LINK) (b b' n empty : nat) : list HASH_LINK :=
  let lastpos := dynamic_element d n in
  if empty =? n then d
  else
    let pos := my_hash_mask (hash_nr lastpos) b' n in
    if pos =? empty then <[empty := lastpos]> d
    else
      let pos_hashnr := hash_nr (dynamic_element d pos) in
      let pos3 := my_hash_mask pos_hashnr b' n in
      if negb (pos =? pos3) then
        movelink (S n) (<[pos := lastpos]> (<[empty := dynamic_element d pos]> d))
          (Some pos) pos3 (Some empty)
      else
        let pos2 := my_hash_mask (hash_nr lastpos) b (S n) in
        let same := pos2 =? my_hash_mask pos_hashnr b (S n) in
        let d1 := <[empty := lastpos]> d in
        if same && negb (pos2 =? n)
        then movelink (S n) d1 (Some n) pos (Some empty)
        else
          let idx := if same then Some pos else None in
          set_next (movelink (S n) d1 idx empty (next (dynamic_element d1 pos))) pos (Some empty).

(** ** The operations *)

Section Operations.
Context (memory : rptr -> list Z) (get_key : option (rptr -> list Z)).
Context (hash_function : list Z -> Z) (strnncoll_eq : list Z -> list Z -> bool).

Definition my_hash_key (hash : HASH) (record : rptr) : list Z :=
  match get_key with
  | Some f => f record
  | None => take (key_length hash) (drop (key_offset hash) (memory record))
  end.

Definition rec_hashnr (hash : HASH) (record : rptr) : Z :=
  hash_function (my_hash_key hash record).

(** The key that a caller passes with its length; 0 stands for the fixed length. *)
Definition given_key (hash : HASH) (key : list Z) (length : nat) : list Z :=
  take (if length =? 0 then key_length hash else length) key.

Definition hashcmp (hash : HASH) (pos : HASH_LINK) (key : list Z) : bool :=
  negb (strnncoll_eq (my_hash_key hash (data pos)) key).

Fixpoint search_loop (fuel : nat) (hash : HASH) (key : list Z) (idx : nat) (flag : bool)
    : option nat :=
  match fuel with
  | S fuel' =>
      let pos := dynamic_element (array hash) idx in
      if negb (hashcmp hash pos key) then Some idx
      else if flag && negb (my_hash_rec_mask pos (blength hash) (records hash) =? idx) then None
      else match next pos with
           | Some idx' => search_loop fuel' hash key idx' false
           | None => None
           end
  | O => None
  end.

(** The record that is found, and the search state *)
Definition found (hash : HASH) (current_record : option nat) : option rptr * option nat :=
  ((fun i => data (dynamic_element (array hash) i)) <$> current_record, current_record).

Definition my_hash_first_from_hash_value (hash : HASH) (hash_value : Z) (key : list Z)
    (length : nat) : option rptr * option nat :=
  found hash
    (if records hash =? 0 then None
     else search_loop (records hash) hash (given_key hash key length)
            (my_hash_mask hash_value (blength hash) (records hash)) true).

Definition my_hash_first (hash : HASH) (key : list Z) (length : nat)
    : option rptr * option nat :=
  my_hash_first_from_hash_value hash (hash_function (given_key hash key length)) key length.

Definition my_hash_search (hash : HASH) (key : list Z) (length : nat) : option rptr :=
  (my_hash_first hash key length).1.

Definition my_hash_search_using_hash_value (hash : HASH) (hash_value : Z) (key : list Z)
    (length : nat) : option rptr :=
  (my_hash_first_from_hash_value hash hash_value key length).1.

Definition my_hash_next (hash : HASH) (key : list Z) (length : nat)
    (current_record : option nat) : option rptr * option nat :=
  match current_record with
  | Some i =>
      found hash
        match next (dynamic_element (array hash) i) with
        | Some idx => search_loop (records hash) hash (given_key hash key length) idx false
        | None => None
        end
  | None => (None, None)
  end.

(** [junk] is what the new element of the array holds before it is written. *)
Definition my_hash_insert (oom : bool) (junk : HASH_LINK) (info : HASH) (record : rptr)
    : bool * HASH :=
  let key := my_hash_key info record in
  let current_hash_nr := hash_function key in
  if has_flag (flags info) HASH_UNIQUE &&
     bool_decide (is_Some (my_hash_search_using_hash_value info current_hash_nr key (length key)))
  then (true, info)
  else if oom then (true, info)
  else
    let b := blength info in
    let n := records info in
    let '(d, empty) := split_bucket (array info ++ [junk]) b n in
    (false, set_array info (if S n =? b then b + b else b) (S n)
              (insert_record d b (S n) empty current_hash_nr record)).

(** The third component is what the [free] function is called for. *)
Definition my_hash_delete (hash : HASH) (record : rptr) : bool * HASH * list rptr :=
  if records hash =? 0 then (true, hash, [])
  else
    let b := blength hash in
    let d := array hash in
    match find_record (records hash) d record
            (my_hash_mask (rec_hashnr hash record) b (records hash)) None with
    | None => (true, hash, [])
    | Some (pos, gpos) =>
        let n := records hash - 1 in
        let b' := if n <? Nat.div2 b then Nat.div2 b else b in
        let '(d1, empty) := unlink d pos gpos in
        (false, set_array hash b' n (take n (move_last d1 b b' n empty)),
         if has_free hash then [record] else [])
    end.

(** The loop of [my_hash_update] that looks for another record with the new key *)
Fixpoint other_loop (fuel : nat) (hash : HASH) (record : rptr) (key : list Z)
    (res : option rptr * option nat) : bool :=
  match fuel, res with
  | S fuel', (Some r, state) =>
      if negb (r =? record) then true
      else other_loop fuel' hash record key (my_hash_next hash key (length key) state)
  | _, _ => false
  end.

(** Store [record] in the free element, for a new hash number; [idx] is where the
    record was and [n] the number of records. *)
Definition relink (d : list HASH_LINK) (b n new_index empty idx : nat) (org_link : HASH_LINK)
    (hashnr : Z) : list HASH_LINK :=
  let renumbered o := mk_hlink o hashnr (data org_link) in
  if new_index =? empty then
    let d1 := if negb (empty =? idx) then <[empty := org_link]> d else d in
    <[empty := mk_hlink None hashnr (data (dynamic_element d1 empty))]> d1
  else
    let pos := dynamic_element d new_index in
    let new_pos_index := my_hash_rec_mask pos b n in
    if negb (new_index =? new_pos_index) then
      <[new_index := renumbered None]>
        (movelink n (<[empty := pos]> d) (Some new_index) new_pos_index (Some empty))
    else
      set_next (<[empty := renumbered (next pos)]> d) new_index (Some empty).

(** [None]: the first link to be looked at is not an element of the array; there is no check for an
    empty table as in [my_hash_delete]. *)
Definition my_hash_update (hash : HASH) (record : rptr) (old_key : list Z)
    (old_key_length : nat) : option (bool * HASH) :=
  let new_key := my_hash_key hash record in
  let hashnr := hash_function new_key in
  if has_flag (flags hash) HASH_UNIQUE &&
     other_loop (S (records hash)) hash record new_key
       (my_hash_first_from_hash_value hash hashnr new_key (length new_key))
  then Some (true, hash)
  else
    let d := array hash in
    let b := blength hash in
    let n := records hash in
    let org_index := my_hash_mask (hash_function (given_key hash old_key old_key_length)) b n in
    let new_index := my_hash_mask hashnr b n in
    if n <=? org_index then None else
    match find_record n d record org_index None with
    | None => Some (true, hash)
    | Some (idx, previous) =>
        let pos := dynamic_element d idx in
        if org_index =? new_index then
          Some (false, set_array hash b n (<[idx := mk_hlink (next pos) hashnr (data pos)]> d))
        else
          let '(d1, empty) := unlink d idx previous in
          Some (false, set_array hash b n (relink d1 b n new_index empty idx pos hashnr))
    end.

(** ** [my_hash_check] *)

(** The links after the first one of bucket [i]: how many records of the bucket have
    been found, and whether there is an error *)
Fixpoint check_chain (fuel : nat) (hash : HASH) (i : nat) (idx : option nat) (found : nat)
    (error : bool) : nat * bool :=
  match idx with
  | None => (found, error)
  | Some j =>
      if found <? S (records hash) then
        match fuel with
        | S fuel' =>
            let hash_info := dynamic_element (array hash) j in
            let in_link := my_hash_rec_mask hash_info (blength hash) (records hash) =? i in
            check_chain fuel' hash i (next hash_info) (if in_link then S found else found)
              (error || negb (j <? records hash) || negb in_link)
        | O => (found, true)
        end
      else (found, error)
  end.

Definition check_step (hash : HASH) (acc : nat * bool) (i : nat) : nat * bool :=
  let '(found, error) := acc in
  let link := dynamic_element (array hash) i in
  let error1 := error || negb (hash_nr link =? rec_hashnr hash (data link))%Z in
  if my_hash_rec_mask link (blength hash) (records hash) =? i
  then check_chain (records hash) hash i (next link) (S found) error1
  else (found, error1).

Definition my_hash_check (hash : HASH) : bool :=
  let '(found, error) := foldl (check_step hash) (0, false) (seq 0 (records hash)) in
  error || negb (found =? records hash).

End Operations.

Definition my_hash_element (hash : HASH) (idx : nat) : option rptr :=
  if idx <? records hash then Some (data (dynamic_element (array hash) idx)) else None.

Definition my_hash_replace (hash : HASH) (current_record : option nat) (new_row : rptr) : HASH :=
  match current_record with
  | Some i =>
      let l := dynamic_element (array hash) i in
      set_array hash (blength hash) (records hash)
        (<[i := mk_hlink (next l) (hash_nr l) new_row]> (array hash))
  | None => hash
  end.

(** The records [action] is called for, up to the one it returns true for *)
Fixpoint iterate_loop (action : rptr -> bool) (l : list HASH_LINK) : bool * list rptr :=
  match l with
  | [] => (false, [])
  | x :: r =>
      if action (data x) then (true, [data x])
      else let '(aborted, seen) := iterate_loop action r in (aborted, data x :: seen)
  end.

Definition my_hash_iterate (hash : HASH) (action : rptr -> bool) : bool * list rptr :=
  iterate_loop action (take (records hash) (array hash)).
