(* ===== verification/HashInv.v ===== *)
(** * Hash tables: the invariant

    The arithmetic of [my_hash_mask], the chains of an array of links, and what
    [movelink] does to them. *)

From stdpp Require Import functions.
From S2P Require Import Prelude Hash.

Local Open Scope nat_scope.

(** ** The bucket of a hash number *)

Definition pow2 (b : nat) : Prop := exists k, Z.of_nat b = (2 ^ Z.of_nat k)%Z.

(** The size of the hash for [n] records *)
Definition sized (b n : nat) : Prop := pow2 b /\ Nat.div2 b <= n < b.

(** The low bits of a hash number *)
Definition low_bits (h : Z) (b : nat) : nat := Z.to_nat (h mod Z.of_nat b)%Z.

Lemma land_low_bits h b : pow2 b -> Z.to_nat (Z.land h (Z.of_nat b - 1)) = low_bits h b.
Proof.
  intros [k Hk]. unfold low_bits. rewrite Hk.
  rewrite <- Z.land_ones by lia. f_equal. f_equal. rewrite Z.ones_equiv. lia.
Qed.

Lemma pow2_pos b : pow2 b -> 1 <= b.
Proof. intros [k Hk]. assert (0 < 2 ^ Z.of_nat k)%Z by lia. lia. Qed.

Lemma low_bits_lt h b : pow2 b -> low_bits h b < b.
Proof.
  intros Hb%pow2_pos. unfold low_bits. pose proof (Z.mod_pos_bound h (Z.of_nat b)). lia.
Qed.

Lemma pow2_half b : pow2 b -> b <> 1 -> pow2 (Nat.div2 b) /\ b = Nat.div2 b + Nat.div2 b.
Proof.
  intros [[|k] Hk] H1; [simpl in Hk; lia|].
  rewrite Nat2Z.inj_succ, Z.pow_succ_r in Hk by lia.
  assert (Hd : b = Z.to_nat (2 ^ Z.of_nat k) + Z.to_nat (2 ^ Z.of_nat k)) by lia.
  assert (E : Nat.div2 b = Z.to_nat (2 ^ Z.of_nat k)).
  { rewrite Hd. replace (_ + _) with (2 * Z.to_nat (2 ^ Z.of_nat k)) by lia.
    apply Nat.div2_double. }
  rewrite E. split; [exists k; lia|done].
Qed.

Lemma pow2_double b : pow2 b -> pow2 (b + b).
Proof.
  intros [k Hk]. exists (S k). rewrite Nat2Z.inj_succ, Z.pow_succ_r by lia. lia.
Qed.

(** One more bit *)
Lemma low_bits_double h b :
  pow2 b ->
  low_bits h (b + b) = if (Z.land h (Z.of_nat b) =? 0)%Z then low_bits h b else low_bits h b + b.
Proof.
  intros [k Hk]. unfold low_bits. rewrite Nat2Z.inj_add, Hk.
  set (p := (2 ^ Z.of_nat k)%Z) in *. assert (Hp : (0 < p)%Z) by (unfold p; lia).
  assert (Hl : (Z.land h p = p * Z.b2z (Z.testbit h (Z.of_nat k)))%Z).
  { apply Z.bits_inj'. intros n Hn. rewrite Z.land_spec. unfold p.
    rewrite Z.pow2_bits_eqb by lia. destruct (Z.testbit h (Z.of_nat k)) eqn:E; simpl.
    - rewrite Z.mul_1_r, Z.pow2_bits_eqb by lia.
      destruct (Z.eqb_spec (Z.of_nat k) n); [subst; by rewrite E|by rewrite andb_false_r].
    - rewrite Z.mul_0_r, Z.bits_0.
      destruct (Z.eqb_spec (Z.of_nat k) n); [subst; by rewrite E|by rewrite andb_false_r]. }
  replace (p + p)%Z with (p * 2)%Z by lia. rewrite Z.rem_mul_r by lia.
  assert (Hbit : ((h `div` p) `mod` 2 = Z.b2z (Z.testbit h (Z.of_nat k)))%Z)
    by (symmetry; apply Z.testbit_spec'; lia).
  rewrite Hl, Hbit.
  pose proof (Z.mod_pos_bound h p Hp).
  destruct (Z.testbit h (Z.of_nat k)); simpl.
  - rewrite (proj2 (Z.eqb_neq _ _)) by lia. lia.
  - rewrite (proj2 (Z.eqb_eq _ _)) by lia. lia.
Qed.

Lemma mask_low_bits h b n :
  pow2 b -> (b = 1 -> 1 <= n) ->
  my_hash_mask h b n = if low_bits h b <? n then low_bits h b else low_bits h (Nat.div2 b).
Proof.
  intros Hb Hn. unfold my_hash_mask. rewrite land_low_bits by done.
  destruct (_ <? _) eqn:E; [done|]. apply Nat.ltb_ge in E.
  apply land_low_bits, pow2_half; [done|]. intros ->. pose proof (low_bits_lt h 1 Hb). lia.
Qed.

Lemma mask_lt h b n : pow2 b -> Nat.div2 b <= n -> 1 <= n -> my_hash_mask h b n < n.
Proof.
  intros Hb Hn H1. rewrite mask_low_bits by done.
  destruct (_ <? _) eqn:E; [by apply Nat.ltb_lt|]. apply Nat.ltb_ge in E.
  assert (b <> 1) as Hb1 by (intros ->; pose proof (low_bits_lt h 1 Hb); lia).
  destruct (pow2_half b Hb Hb1) as [Hh _]. pose proof (low_bits_lt h _ Hh). lia.
Qed.

(** A new bucket [n] takes records from the bucket [n - b / 2] only. *)
Lemma mask_grow h b n :
  sized b n -> 1 <= n ->
  my_hash_mask h b (S n) =
    if my_hash_mask h b n =? n - Nat.div2 b
    then if (Z.land h (Z.of_nat (Nat.div2 b)) =? 0)%Z then n - Nat.div2 b else n
    else my_hash_mask h b n.
Proof.
  intros [Hb Hn] H1. rewrite !mask_low_bits by (done || lia).
  destruct (pow2_half b Hb) as [Hh Hd]; [lia|]. remember (Nat.div2 b) as p.
  pose proof (low_bits_lt h p Hh). pose proof (low_bits_double h p Hh) as Hlow.
  rewrite <- Hd in Hlow. rewrite Hlow.
  destruct (Z.land h (Z.of_nat p) =? 0)%Z;
    repeat (match goal with |- context [?x <? ?y] => destruct (Nat.ltb_spec x y) end);
    repeat (match goal with |- context [?x =? ?y] => destruct (Nat.eqb_spec x y) end); lia.
Qed.

Lemma mask_double h b : pow2 b -> my_hash_mask h (b + b) b = my_hash_mask h b b.
Proof.
  intros Hb. pose proof (pow2_pos b Hb). rewrite !mask_low_bits by (try apply pow2_double; done || lia).
  rewrite low_bits_double by done. pose proof (low_bits_lt h b Hb).
  replace (Nat.div2 (b + b)) with b
    by (replace (b + b) with (2 * b) by lia; by rewrite Nat.div2_double).
  destruct (Z.land _ _ =? 0)%Z;
    repeat (match goal with |- context [?x <? ?y] => destruct (Nat.ltb_spec x y) end); lia.
Qed.

(** The size after a record has been removed *)
Lemma sized_shrink b n :
  sized b (S n) ->
  let b' := if n <? Nat.div2 b then Nat.div2 b else b in
  sized b' n /\ forall h, my_hash_mask h b (S n) = my_hash_mask h b' (S n).
Proof.
  intros [Hb Hn]. destruct (pow2_half b Hb) as [Hh Hd]; [lia|]. remember (Nat.div2 b) as p.
  cbv zeta. destruct (Nat.ltb_spec n p); [|split; [split; [done|rewrite <- Heqp; lia]|done]].
  split; [split; [done|]|].
  - pose proof (Nat.div2_odd p). destruct (Nat.odd p); simpl in *; lia.
  - intros h. replace (S n) with p by lia. rewrite Hd. by apply mask_double.
Qed.

Lemma sized_grow b n :
  sized b n ->
  let b' := if S n =? b then b + b else b in
  sized b' (S n) /\ forall h, my_hash_mask h b' (S n) = my_hash_mask h b (S n).
Proof.
  intros [Hb Hn]. cbv zeta. destruct (Nat.eqb_spec (S n) b) as [E|]; [|split; [split; [done|lia]|done]].
  rewrite E. split; [split; [by apply pow2_double|]|intros h; by apply mask_double].
  replace (b + b) with (2 * b) by lia. rewrite Nat.div2_double. lia.
Qed.

(** ** Chains *)

Definition hd_or (l : list nat) (o : option nat) : option nat :=
  match l with [] => o | i :: _ => Some i end.

(** The elements [slots] hold the records [recs], each linked to the next one and the
    last one to [o]. *)
Fixpoint holds (d : list HASH_LINK) (slots : list nat) (recs : list (Z * rptr)) (o : option nat)
    : Prop :=
  match slots, recs with
  | [], [] => True
  | i :: slots', r :: recs' =>
      d !! i = Some (mk_hlink (hd_or slots' o) r.1 r.2) /\ holds d slots' recs' o
  | _, _ => False
  end.

Lemma holds_length d s r o : holds d s r o -> length s = length r.
Proof.
  revert r. induction s as [|i s IH]; intros [|x r]; simpl; try done.
  intros [_ H]. by rewrite (IH r H).
Qed.

Lemma hd_or_app l1 l2 o : hd_or (l1 ++ l2) o = hd_or l1 (hd_or l2 o).
Proof. by destruct l1. Qed.

Lemma holds_app d s1 s2 r1 r2 o :
  length s1 = length r1 ->
  holds d (s1 ++ s2) (r1 ++ r2) o <-> holds d s1 r1 (hd_or s2 o) /\ holds d s2 r2 o.
Proof.
  revert r1. induction s1 as [|i s1 IH]; intros [|x r1] Hl; simplify_eq/=; [naive_solver|].
  rewrite hd_or_app, (IH r1 Hl). naive_solver.
Qed.

(** A chain cut at one of its elements *)
Lemma holds_cut d s1 i s2 r o :
  holds d (s1 ++ i :: s2) r o -> exists r1 x r2,
    r = r1 ++ x :: r2 /\ length s1 = length r1 /\ holds d s1 r1 (Some i) /\
    d !! i = Some (mk_hlink (hd_or s2 o) x.1 x.2) /\ holds d s2 r2 o.
Proof.
  intros H. pose proof (holds_length _ _ _ _ H) as Hl. rewrite length_app in Hl. simpl in Hl.
  rewrite <- (take_drop (length s1) r) in H.
  rewrite holds_app in H by (rewrite length_take; lia). destruct H as [H1 H2].
  destruct (drop (length s1) r) as [|x r2] eqn:E; [done|]. destruct H2 as [H2 H3].
  exists (take (length s1) r), x, r2. rewrite <- E, take_drop, length_take.
  split_and!; auto; lia.
Qed.

Lemma holds_ext d d' s r o :
  (forall i, i ∈ s -> d' !! i = d !! i) -> holds d s r o -> holds d' s r o.
Proof.
  revert r. induction s as [|i s IH]; intros [|x r] He; simpl; try done.
  intros [H1 H2]. split; [by rewrite He by set_solver|]. apply IH; [set_solver|done].
Qed.

Lemma holds_lookup d s r o i :
  holds d s r o -> i ∈ s -> exists x o', x ∈ r /\ d !! i = Some (mk_hlink o' x.1 x.2).
Proof.
  intros H (s1 & s2 & ->)%list_elem_of_split.
  destruct (holds_cut _ _ _ _ _ _ H) as (r1 & x & r2 & -> & _ & _ & Hi & _).
  exists x, (hd_or s2 o). split; [set_solver|done].
Qed.

Lemma element_lookup d i l : d !! i = Some l -> dynamic_element d i = l.
Proof. intros H. unfold dynamic_element. by rewrite nth_lookup, H. Qed.

Lemma set_next_lookup d i l o :
  d !! i = Some l -> set_next d i o = <[i := mk_hlink o (hash_nr l) (data l)]> d.
Proof. intros H. unfold set_next. by rewrite (element_lookup d i l H). Qed.

Lemma set_next_ne d i j o : i <> j -> set_next d i o !! j = d !! j.
Proof. intros H. unfold set_next. by rewrite list_lookup_insert_ne. Qed.

Lemma set_next_length d i o : length (set_next d i o) = length d.
Proof. apply length_insert. Qed.

Lemma insert_eq (d : list HASH_LINK) i l x : d !! i = Some x -> <[i := l]> d !! i = Some l.
Proof. intros H. apply list_lookup_insert_eq. by eapply lookup_lt_Some. Qed.

(** Another end for a chain *)
Lemma holds_relink d s p r o o' :
  holds d (s ++ [p]) r o -> p ∉ s -> holds (set_next d p o') (s ++ [p]) r o'.
Proof.
  intros H Hp. destruct (holds_cut _ _ _ _ _ _ H) as (r1 & x & r2 & -> & Hl & H1 & Hi & H2).
  destruct r2; [|done]. apply holds_app; [done|]. split; [|split; [|done]].
  - eapply holds_ext; [|exact H1]. intros i Hi'. apply set_next_ne. set_solver.
  - rewrite (set_next_lookup _ _ _ _ Hi). by erewrite insert_eq.
Qed.

(** [movelink] changes the last link of the chain that leads to [find]. *)
Lemma movelink_holds fuel d s p r find new :
  holds d (s ++ [p]) r find -> length s < fuel -> (forall i, Some i = find -> i ∉ s ++ [p]) ->
  forall start, hd_or (s ++ [p]) None = Some start ->
  movelink fuel d find start new = set_next d p new.
Proof.
  revert s r. induction fuel as [|fuel IH]; intros s r H Hf Hn start Hs; [lia|].
  destruct s as [|i s]; destruct r as [|x r]; simpl in H; try done; destruct H as [Hi H];
    injection Hs as <-; simpl; rewrite (element_lookup _ _ _ Hi); simpl.
  - by rewrite bool_decide_eq_true_2.
  - assert (exists j, hd_or (s ++ [p]) find = Some j /\ j ∈ s ++ [p]) as (j & Hj & Hin).
    { destruct s; simpl; eexists; (split; [done|set_solver]). }
    rewrite Hj, bool_decide_eq_false_2 by (intros E; apply (Hn j E); set_solver).
    apply (IH s r H); [simpl in Hf; lia| |].
    + intros k Hk Hin'. apply (Hn k Hk). set_solver.
    + destruct s; simpl in *; congruence.
Qed.

(** ** Buckets *)

Definition flat {A} (f : nat -> list A) (n : nat) : list A := concat (map f (seq 0 n)).

Lemma flat_S {A} (f : nat -> list A) n : flat f (S n) = flat f n ++ f n.
Proof. unfold flat. rewrite seq_S, map_app, concat_app. simpl. by rewrite app_nil_r. Qed.

Lemma elem_of_flat {A} (f : nat -> list A) n x : x ∈ flat f n <-> exists c, c < n /\ x ∈ f c.
Proof.
  induction n as [|n IH]; [split; [by intros ?%elem_of_nil|intros (c & ? & _); lia]|].
  rewrite flat_S, elem_of_app, IH. split.
  - intros [(c & Hc & Hx)|Hx]; [exists c|exists n]; (split; [lia|done]).
  - intros (c & Hc & Hx). destruct (decide (c = n)) as [-> |]; [by right|].
    left. exists c. split; [lia|done].
Qed.

Lemma flat_ext {A} (f g : nat -> list A) n :
  (forall c, c < n -> f c = g c) -> flat f n = flat g n.
Proof.
  induction n as [|n IH]; intros H; [done|]. rewrite !flat_S, IH, H by (intros; apply H || lia; lia).
  done.
Qed.

Lemma flat_insert {A} (f : nat -> list A) n c l :
  c < n -> f c ++ flat (<[c := l]> f) n ≡ₚ l ++ flat f n.
Proof.
  induction n as [|n IH]; intros Hc; [lia|]. rewrite !flat_S.
  destruct (decide (c = n)) as [-> |Hne].
  - rewrite fn_lookup_insert. rewrite (flat_ext (<[n := l]> f) f)
      by (intros c' Hc'; apply fn_lookup_insert_ne; lia). solve_Permutation.
  - rewrite fn_lookup_insert_ne by done. rewrite !(assoc_L (++)), IH by lia. done.
Qed.

(** The array has [n] elements; those of the list [free] are in no bucket, the others
    hold the records of their buckets. *)
Record table (d : list HASH_LINK) (home : Z -> nat) (n : nat) (free : list nat)
    (slots : nat -> list nat) (recs : nat -> list (Z * rptr)) : Prop := {
  tb_length : length d = n;
  tb_cover : free ++ flat slots n ≡ₚ seq 0 n;
  tb_holds c : c < n -> holds d (slots c) (recs c) None;
  tb_head c : c < n -> slots c = [] \/ exists t, slots c = c :: t;
  tb_home c r : c < n -> r ∈ recs c -> home r.1 = c;
}.

Section Table.
Context (d : list HASH_LINK) (home : Z -> nat) (n : nat) (free : list nat).
Context (slots : nat -> list nat) (recs : nat -> list (Z * rptr)).
Context (T : table d home n free slots recs).

Lemma tb_NoDup : NoDup (free ++ flat slots n).
Proof using T. rewrite (tb_cover _ _ _ _ _ _ T). apply NoDup_seq. Qed.

Lemma tb_not_free c i : c < n -> i ∈ slots c -> i ∉ free /\ i < n.
Proof using T.
  intros Hc Hi. assert (Hf : i ∈ flat slots n) by (apply elem_of_flat; eauto).
  pose proof tb_NoDup as (_ & Hd & _)%NoDup_app. split.
  - intros H. by apply (Hd i).
  - assert (i ∈ seq 0 n) as ?%elem_of_seq by (rewrite <- (tb_cover _ _ _ _ _ _ T); set_solver). lia.
Qed.

(** The bucket of an element is the home of its record. *)
Lemma tb_bucket c i :
  c < n -> i ∈ slots c -> exists o x, x ∈ recs c /\ d !! i = Some (mk_hlink o x.1 x.2) /\
    home (hash_nr (dynamic_element d i)) = c.
Proof using T.
  intros Hc Hi.
  destruct (holds_lookup _ _ _ _ i (tb_holds _ _ _ _ _ _ T c Hc) Hi) as (x & o & Hx & Hd).
  exists o, x. split_and!; [done|done|]. rewrite (element_lookup _ _ _ Hd). simpl.
  by apply (tb_home _ _ _ _ _ _ T).
Qed.

Lemma tb_disjoint c c' i : c < n -> c' < n -> i ∈ slots c -> i ∈ slots c' -> c = c'.
Proof using T.
  intros Hc Hc' H1 H2. destruct (tb_bucket c i Hc H1) as (? & ? & _ & _ & <-).
  by destruct (tb_bucket c' i Hc' H2) as (? & ? & _ & _ & <-).
Qed.

Lemma tb_NoDup_slots c : c < n -> NoDup (slots c).
Proof using T.
  intros Hc. pose proof tb_NoDup as (_ & _ & H)%NoDup_app.
  clear T. induction n as [|m IH]; [lia|]. rewrite flat_S in H.
  apply NoDup_app in H as (H1 & _ & H2). destruct (decide (c = m)) as [-> |]; [done|].
  apply IH; [lia|done].
Qed.

Lemma tb_slots_length c : c < n -> length (slots c) <= n.
Proof using T.
  intros Hc. pose proof (length_seq n 0) as Hs. cut (length (slots c) <= length (seq 0 n)); [lia|].
  apply submseteq_length, NoDup_submseteq.
  - by apply tb_NoDup_slots.
  - intros i Hi. apply elem_of_seq. destruct (tb_not_free c i Hc Hi). lia.
Qed.

(** Every other element is in the bucket of its record. *)
Lemma tb_element i :
  i < n -> i ∉ free -> let c := home (hash_nr (dynamic_element d i)) in c < n /\ i ∈ slots c.
Proof using T.
  intros Hi Hf. assert (Hin : i ∈ free ++ flat slots n)
    by (rewrite (tb_cover _ _ _ _ _ _ T); apply elem_of_seq; lia).
  apply elem_of_app in Hin as [?|(c & Hc & Hic)%elem_of_flat]; [done|].
  by destruct (tb_bucket c i Hc Hic) as (? & ? & _ & _ & ->).
Qed.

(** A bucket whose first element is not its own is empty. *)
Lemma tb_empty c : c < n -> c ∉ slots c -> slots c = [] /\ recs c = [].
Proof using T.
  intros Hc Hn. destruct (tb_head _ _ _ _ _ _ T c Hc) as [E|[t E]].
  - split; [done|]. pose proof (holds_length _ _ _ _ (tb_holds _ _ _ _ _ _ T c Hc)) as Hl.
    rewrite E in Hl. by destruct (recs c).
  - rewrite E in Hn. set_solver.
Qed.

(** One bucket is changed, using its own elements and the free ones. *)
Lemma table_update d' free' c l r :
  c < n -> length d' = n ->
  (forall i, i ∉ free -> i ∉ slots c -> d' !! i = d !! i) ->
  free' ++ l ≡ₚ free ++ slots c ->
  holds d' l r None ->
  l = [] \/ (exists t, l = c :: t) ->
  (forall x, x ∈ r -> home x.1 = c) ->
  table d' home n free' (<[c := l]> slots) (<[c := r]> recs).
Proof using T.
  intros Hc Hlen Hsame Hperm Hholds Hhead Hhome. split; [done|..].
  - apply (Permutation_app_inv_l (slots c)). rewrite (assoc_L (++)).
    rewrite (Permutation_app_comm (slots c) free'), <- (assoc_L (++)), flat_insert by done.
    rewrite (assoc_L (++)), Hperm, (Permutation_app_comm free), <- (assoc_L (++)).
    by rewrite (tb_cover _ _ _ _ _ _ T).
  - intros c' Hc'. destruct (decide (c' = c)) as [-> |Hne]; [by rewrite !fn_lookup_insert|].
    rewrite !fn_lookup_insert_ne by done.
    eapply holds_ext; [|by apply (tb_holds _ _ _ _ _ _ T)]. intros i Hi. apply Hsame.
    + by eapply tb_not_free.
    + intros Hi'. by apply Hne, (tb_disjoint c' c i).
  - intros c' Hc'. destruct (decide (c' = c)) as [-> |Hne]; [by rewrite fn_lookup_insert|].
    rewrite fn_lookup_insert_ne by done. by apply (tb_head _ _ _ _ _ _ T).
  - intros c' x Hc'. destruct (decide (c' = c)) as [-> |Hne].
    + rewrite fn_lookup_insert. apply Hhome.
    + rewrite fn_lookup_insert_ne by done. by apply (tb_home _ _ _ _ _ _ T).
Qed.
End Table.

(** The array is a table, with these records. *)
Definition chained (d : list HASH_LINK) (home : Z -> nat) (n : nat) (free : list nat)
    (R : list (Z * rptr)) : Prop :=
  exists slots recs, table d home n free slots recs /\ flat recs n ≡ₚ R.

Lemma flat_swap {A} (f : nat -> list A) n c l x R :
  c < n -> l ≡ₚ x ++ f c -> flat f n ≡ₚ R -> flat (<[c := l]> f) n ≡ₚ x ++ R.
Proof.
  intros Hc Hl HR. apply (Permutation_app_inv_l (f c)). rewrite flat_insert by done.
  rewrite Hl, HR. solve_Permutation.
Qed.

Lemma flat_remove {A} (f : nat -> list A) n c l x R :
  c < n -> f c ≡ₚ x ++ l -> flat f n ≡ₚ R -> R ≡ₚ x ++ flat (<[c := l]> f) n.
Proof.
  intros Hc Hl HR. apply (Permutation_app_inv_l l). rewrite <- HR, <- flat_insert by done.
  rewrite Hl. solve_Permutation.
Qed.

Lemma holds_recs d s r o : holds d s r o -> r = map (fun i => rec_of (dynamic_element d i)) s.
Proof.
  revert r. induction s as [|i s IH]; intros [|x r]; simpl; try done.
  intros [Hi H]. rewrite (element_lookup _ _ _ Hi), <- (IH r H). by destruct x.
Qed.

Lemma map_elements d : map (fun i => rec_of (dynamic_element d i)) (seq 0 (length d)) = map rec_of d.
Proof.
  apply list_eq. intros i. rewrite !list_lookup_fmap.
  destruct (decide (i < length d)) as [Hi|Hi].
  - rewrite lookup_seq_lt by done. destruct (lookup_lt_is_Some_2 d i Hi) as [l Hl].
    simpl. by rewrite Hl, (element_lookup _ _ _ Hl).
  - rewrite lookup_seq_ge, (lookup_ge_None_2 d i) by lia. done.
Qed.

(** Without free elements the records are those of the array. *)
Lemma chained_records d home n R : chained d home n [] R -> map rec_of d ≡ₚ R.
Proof.
  intros (slots & recs & T & <-). rewrite <- map_elements, (tb_length _ _ _ _ _ _ T).
  rewrite <- (tb_cover _ _ _ _ _ _ T). simpl. unfold flat. rewrite concat_map, map_map.
  apply (reflexive_eq (R := (≡ₚ))). f_equal. apply map_ext_in. intros c Hc%in_seq. symmetry.
  eapply holds_recs, (tb_holds _ _ _ _ _ _ T). lia.
Qed.

Lemma chained_lookup d home n free R p :
  chained d home n free R -> p < n -> exists l, d !! p = Some l /\ dynamic_element d p = l.
Proof.
  intros (slots & recs & T & _) Hp.
  destruct (lookup_lt_is_Some_2 d p) as [l Hl]; [by rewrite (tb_length _ _ _ _ _ _ T)|].
  exists l. split; [done|by apply element_lookup].
Qed.

Lemma chained_perm d home n free R R' : chained d home n free R -> R ≡ₚ R' -> chained d home n free R'.
Proof. intros (slots & recs & T & HR) E. exists slots, recs. split; [done|]. by rewrite HR. Qed.

Lemma chained_length d home n free R : chained d home n free R -> length d = n.
Proof. intros (slots & recs & T & _). apply T. Qed.

(** ** Moving an element and storing a record *)

(** A record in the chain of another bucket is moved from [p] to the free element [e];
    [d1] already has the copy, and anything at [p]. *)
Lemma chained_displace fuel d d1 home n e p R :
  chained d home n [e] R -> p < n -> p <> e -> n <= fuel ->
  home (hash_nr (dynamic_element d p)) <> p -> length d1 = n ->
  (forall i, i <> p -> i <> e -> d1 !! i = d !! i) -> d1 !! e = d !! p ->
  let d2 := movelink fuel d1 (Some p) (home (hash_nr (dynamic_element d p))) (Some e) in
  chained d2 home n [p] R /\ d2 !! p = d1 !! p /\
  (forall i, i < n -> i <> p -> i <> e ->
     home (hash_nr (dynamic_element d i)) <> home (hash_nr (dynamic_element d p)) ->
     d2 !! i = d !! i).
Proof.
  intros (slots & recs & T & HR) Hp Hpe Hf Hc Hl Hsame He. set (c := home _) in *.
  destruct (tb_element _ _ _ _ _ _ T p Hp) as [Hcn Hin]; [set_solver|]. fold c in Hcn, Hin.
  pose proof (tb_NoDup_slots _ _ _ _ _ _ T c Hcn) as Hnd.
  assert (Hen : e ∉ slots c) by (intros H; apply (tb_not_free _ _ _ _ _ _ T) in H; set_solver).
  destruct (tb_head _ _ _ _ _ _ T c Hcn) as [E|[t E]]; [rewrite E in Hin; set_solver|].
  assert (Hpt : p ∈ t)
    by (rewrite E in Hin; by apply elem_of_cons in Hin as [?|?]; [congruence|]).
  apply list_elem_of_split in Hpt as (t1 & t2 & ->).
  destruct (exists_last (l := c :: t1)) as (s & q & Es); [done|].
  assert (Ec : slots c = (s ++ [q]) ++ p :: t2) by (rewrite E, <- Es; done).
  pose proof (tb_holds _ _ _ _ _ _ T c Hcn) as Hh. rewrite Ec in Hh, Hnd, Hen.
  destruct (holds_cut _ _ _ _ _ _ Hh) as (r1 & x & r2 & Er & Hlr & H1 & Hx & H2).
  assert (Hh1 : holds d1 (s ++ [q]) r1 (Some p)).
  { eapply holds_ext; [|exact H1]. intros i Hi. apply Hsame; [|set_solver].
    intros ->. apply NoDup_app in Hnd as (_ & Hn & _). apply (Hn p Hi). set_solver. }
  pose proof (tb_slots_length _ _ _ _ _ _ T c Hcn) as Hlen.
  rewrite Ec, !length_app in Hlen. simpl in Hlen.
  assert (Hq : q <> p /\ q <> e /\ q ∉ s /\ e ∉ s /\ p ∉ s ++ [q] /\ e ∉ t2 /\ q ∉ t2 /\ p ∉ t2).
  { apply NoDup_app in Hnd as (Hn1 & Hn2 & Hn3). apply NoDup_app in Hn1 as (_ & Hn4 & _).
    apply NoDup_cons in Hn3 as [Hn3 _]. pose proof (Hn2 q ltac:(set_solver)) as Hq2.
    rewrite !not_elem_of_app, not_elem_of_cons in Hen.
    split_and!; set_solver. }
  cbv zeta. rewrite (movelink_holds fuel d1 s q r1 (Some p) (Some e) Hh1) by
    (lia || (intros i [= ->]; apply Hq) || (rewrite <- Es; done)).
  split; [|split; [apply set_next_ne, Hq|]].
  2: { intros i Hi Hip Hie Hic. rewrite set_next_ne; [by apply Hsame|]. intros <-. apply Hic.
       by destruct (tb_bucket _ _ _ _ _ _ T c q Hcn) as (? & ? & _ & _ & ->); [rewrite Ec; set_solver|]. }
  exists (<[c := (s ++ [q]) ++ e :: t2]> slots), (<[c := recs c]> recs). split.
  - apply (table_update _ _ _ _ _ _ T); auto.
    + by rewrite set_next_length.
    + intros i Hi Hi'. rewrite Ec in Hi'. rewrite set_next_ne by set_solver.
      apply Hsame; set_solver.
    + rewrite Ec. solve_Permutation.
    + rewrite Er. apply holds_app; [done|]. split; [|split].
      * by eapply holds_relink; [exact Hh1|apply Hq].
      * rewrite set_next_ne by apply Hq. by rewrite He.
      * eapply holds_ext; [|exact H2]. intros i Hi.
        rewrite set_next_ne by set_solver. apply Hsame; set_solver.
    + right. rewrite <- Es. by eexists.
    + intros y Hy. by apply (tb_home _ _ _ _ _ _ T).
  - by apply (flat_swap recs n c (recs c) []).
Qed.

(** A record is stored in the free first element of its bucket. *)
Lemma chained_place d home n h x R :
  chained d home n [home h] R -> home h < n ->
  chained (<[home h := mk_hlink None h x]> d) home n [] ((h, x) :: R).
Proof.
  intros (slots & recs & T & HR) Hp.
  assert (Hno : home h ∉ slots (home h))
    by (intros H; apply (tb_not_free _ _ _ _ _ _ T) in H; set_solver).
  destruct (tb_empty _ _ _ _ _ _ T _ Hp Hno) as [Es Er].
  exists (<[home h := [home h]]> slots), (<[home h := [(h, x)]]> recs). split.
  - apply (table_update _ _ _ _ _ _ T); auto.
    + rewrite length_insert. apply (tb_length _ _ _ _ _ _ T).
    + intros i Hi _. apply list_lookup_insert_ne. set_solver.
    + by rewrite Es, app_nil_r.
    + split; [|done]. apply list_lookup_insert_eq. by rewrite (tb_length _ _ _ _ _ _ T).
    + by right; eexists.
    + intros y ->%list_elem_of_singleton. done.
  - apply (flat_swap recs n (home h) _ [(h, x)]); [done| |done]. by rewrite Er.
Qed.

Lemma chained_home d home home' n free R :
  chained d home n free R -> (forall h, home' h = home h) -> chained d home' n free R.
Proof.
  intros (slots & recs & [] & HR) E. exists slots, recs. split; [|done].
  split; auto. intros c r Hc Hr. rewrite E. auto.
Qed.
