(* ===== verification/HashOps.v ===== *)
(** * Hash tables: storing, unlinking and moving records

    What the steps of my_hash_insert, my_hash_update and my_hash_delete do to the
    chains of the table. *)

From stdpp Require Import functions.
From S2P Require Import Prelude Hash HashInv.

Local Open Scope nat_scope.

Lemma insert_insert (d : list HASH_LINK) i x y : <[i := x]> (<[i := y]> d) = <[i := x]> d.
Proof. apply list_insert_insert_eq. Qed.

(** ** Storing a record *)

(** The bucket [p] starts with the element [p]. *)
Lemma table_head d home n free slots recs p :
  table d home n free slots recs -> p < n -> p ∉ free ->
  home (hash_nr (dynamic_element d p)) = p -> exists t x r,
    slots p = p :: t /\ recs p = x :: r /\ p ∉ t /\
    d !! p = Some (mk_hlink (hd_or t None) x.1 x.2) /\ holds d t r None.
Proof.
  intros T Hp Hf Hh. destruct (tb_element _ _ _ _ _ _ T p Hp Hf) as [_ Hin]. rewrite Hh in Hin.
  destruct (tb_head _ _ _ _ _ _ T p Hp) as [E|[t E]]; [rewrite E in Hin; set_solver|].
  pose proof (tb_holds _ _ _ _ _ _ T p Hp) as H. pose proof (tb_NoDup_slots _ _ _ _ _ _ T p Hp) as Hnd.
  rewrite E in H, Hnd. destruct (recs p) as [|x r]; [done|]. destruct H as [H1 H2].
  apply NoDup_cons in Hnd as [Hnd _]. by exists t, x, r.
Qed.

(** A new record in a bucket that is not empty: [d'] has it and the former first
    record in the elements [p] and [e], in some order. *)
Lemma chained_push d d' home n e h x R :
  let p := home h in
  chained d home n [e] R -> p < n -> p <> e -> e < n ->
  home (hash_nr (dynamic_element d p)) = p -> length d' = n ->
  (forall i, i <> p -> i <> e -> d' !! i = d !! i) ->
  let old := dynamic_element d p in
  (d' !! p = Some (mk_hlink (Some e) h x) /\ d' !! e = Some old) \/
  (d' !! p = Some (mk_hlink (Some e) (hash_nr old) (data old)) /\
   d' !! e = Some (mk_hlink (next old) h x)) ->
  chained d' home n [] ((h, x) :: R).
Proof.
  intros p (slots & recs & T & HR) Hp Hpe He Hh Hl Hsame old Hcase.
  destruct (table_head _ _ _ _ _ _ p T Hp ltac:(set_solver) Hh) as (t & y & r & Es & Er & Hpt & Hy & Ht).
  assert (Hno : e ∉ slots p) by (intros H; apply (tb_not_free _ _ _ _ _ _ T) in H; set_solver).
  rewrite Es in Hno.
  assert (Ht' : holds d' t r None).
  { eapply holds_ext; [|exact Ht]. intros i Hi. apply Hsame; set_solver. }
  unfold old in Hcase. rewrite (element_lookup _ _ _ Hy) in Hcase. simpl in Hcase.
  assert (exists r', holds d' (p :: e :: t) r' None /\ r' ≡ₚ (h, x) :: recs p) as (r' & Hr & Hr').
  { rewrite Er. destruct Hcase as [[H1 H2]|[H1 H2]];
      [exists ((h, x) :: y :: r)|exists (y :: (h, x) :: r)]; (split; [by repeat split|]);
      [done|apply perm_swap]. }
  exists (<[p := p :: e :: t]> slots), (<[p := r']> recs). split.
  - apply (table_update _ _ _ _ _ _ T); auto.
    + intros i Hi Hi'. rewrite Es in Hi'. apply Hsame; set_solver.
    + rewrite Es. simpl. apply perm_swap.
    + by right; eexists.
    + intros z Hz. rewrite Hr' in Hz. apply elem_of_cons in Hz as [-> |Hz]; [done|].
      by apply (tb_home _ _ _ _ _ _ T).
  - by apply (flat_swap recs n p _ [(h, x)]).
Qed.

Lemma insert_record_ok d b n e h x R :
  let home := fun k => my_hash_mask k b n in
  chained d home n [e] R -> (forall k, home k < n) -> e < n ->
  chained (insert_record d b n e h x) home n [] ((h, x) :: R).
Proof.
  intros home Hd Hlt He. unfold insert_record. fold (home h).
  destruct (chained_lookup _ _ _ _ _ (home h) Hd (Hlt h)) as (l & Hl & El).
  assert (Hlen : length d = n) by (destruct Hd as (? & ? & T & _); apply T).
  destruct (Nat.eqb_spec (home h) e) as [E|Hne].
  - subst e. rewrite (set_next_lookup _ _ _ _ Hl).
    rewrite (element_lookup _ _ _ (insert_eq _ _ _ _ Hl)), insert_insert. simpl.
    by apply chained_place.
  - rewrite El. set (d' := <[e := l]> d).
    assert (Hl' : d' !! home h = Some l) by (unfold d'; by rewrite list_lookup_insert_ne).
    rewrite (element_lookup _ _ _ Hl'). unfold my_hash_rec_mask. fold (home (hash_nr l)).
    destruct (Nat.eqb_spec (home h) (home (hash_nr l))) as [E|Hg].
    + rewrite (set_next_lookup _ _ _ _ Hl').
      rewrite (element_lookup _ _ _ (insert_eq _ _ _ _ Hl')), insert_insert. simpl.
      apply (chained_push d _ home n e); auto.
      * by rewrite El.
      * unfold d'. by rewrite !length_insert.
      * intros i Hi Hi'. unfold d'. by rewrite !list_lookup_insert_ne.
      * left. split; [by eapply insert_eq|]. rewrite El, list_lookup_insert_ne by done.
        apply list_lookup_insert_eq. lia.
    + destruct (chained_displace n d (set_next d' (home h) None) home n e (home h) R)
        as (H1 & H2 & _); auto; try lia.
      * rewrite El. congruence.
      * unfold d'. by rewrite set_next_length, length_insert.
      * intros i Hi Hi'. unfold d'. rewrite set_next_ne by done. by apply list_lookup_insert_ne.
      * rewrite set_next_ne by done. unfold d'. rewrite list_lookup_insert_eq by lia. congruence.
      * rewrite El in H1, H2. rewrite (set_next_lookup _ _ _ _ Hl') in H1, H2 |- *.
        rewrite (insert_eq _ _ _ _ Hl') in H2. rewrite (element_lookup _ _ _ H2). simpl.
        by apply chained_place.
Qed.

(** ** Finding and unlinking a record *)

Lemma find_record_holds fuel d record i s r o prev :
  holds d (i :: s) r o -> length (i :: s) <= fuel -> o = None ->
  match find_record fuel d record i prev with
  | Some (idx, prev') => exists s1 s2, i :: s = s1 ++ idx :: s2 /\
      data (dynamic_element d idx) = record /\
      prev' = match last s1 with Some q => Some q | None => prev end
  | None => forall x, x ∈ r -> x.2 <> record
  end.
Proof.
  intros H Hf ->. revert i s r prev H Hf. induction fuel as [|fuel IH]; intros i s r prev H Hf;
    [simpl in Hf; lia|].
  destruct r as [|x r]; [done|]. destruct H as [Hi H]. simpl.
  rewrite (element_lookup _ _ _ Hi). simpl. destruct (Nat.eqb_spec x.2 record) as [E|Hne].
  - exists [], s. by rewrite (element_lookup _ _ _ Hi).
  - destruct s as [|j s]; simpl.
    + destruct r; [|done]. intros y ->%list_elem_of_singleton. done.
    + specialize (IH j s r (Some i) H ltac:(simpl in *; lia)).
      destruct (find_record fuel d record j (Some i)) as [[idx prev']|].
      * destruct IH as (s1 & s2 & E & Hd & Hp). exists (i :: s1), s2.
        rewrite E. split_and!; [done|done|]. rewrite Hp, last_cons. by destruct (last s1).
      * intros y [-> |Hy]%elem_of_cons; [done|by apply IH].
Qed.

Lemma unlink_ok d home n c slots recs s1 idx s2 :
  table d home n [] slots recs -> c < n -> slots c = s1 ++ idx :: s2 ->
  let '(d1, e) := unlink d idx (last s1) in
  e < n /\ (e = idx -> data (dynamic_element d1 e) = data (dynamic_element d idx)) /\
  exists R, chained d1 home n [e] R /\ flat recs n ≡ₚ rec_of (dynamic_element d idx) :: R.
Proof.
  intros T Hc Es. pose proof (tb_holds _ _ _ _ _ _ T c Hc) as Hh. rewrite Es in Hh.
  destruct (holds_cut _ _ _ _ _ _ Hh) as (r1 & x & r2 & Er & Hl & H1 & Hx & H2).
  pose proof (tb_NoDup_slots _ _ _ _ _ _ T c Hc) as Hnd. rewrite Es in Hnd.
  pose proof (tb_length _ _ _ _ _ _ T) as Hlen.
  assert (Hidx : idx < n) by (rewrite <- Hlen; by eapply lookup_lt_Some).
  unfold unlink. rewrite (element_lookup _ _ _ Hx). simpl.
  assert (Hrec : recs c ≡ₚ [x] ++ (r1 ++ r2)) by (rewrite Er; solve_Permutation).
  assert (Hhome : forall y, y ∈ r1 ++ r2 -> home y.1 = c).
  { intros y Hy. apply (tb_home _ _ _ _ _ _ T); [done|]. rewrite Er. set_solver. }
  assert (Hup : forall d' l e,
    length d' = n -> (forall i, i ∉ slots c -> d' !! i = d !! i) ->
    [e] ++ l ≡ₚ slots c -> holds d' l (r1 ++ r2) None -> l = [] \/ (exists t, l = c :: t) ->
    exists R, chained d' home n [e] R /\ flat recs n ≡ₚ rec_of (mk_hlink (hd_or s2 None) x.1 x.2) :: R).
  { intros d' l e Hl' Hs Hp Hd' Hhd. exists (flat (<[c := r1 ++ r2]> recs) n). split.
    - exists (<[c := l]> slots), (<[c := r1 ++ r2]> recs). split; [|done].
      apply (table_update _ _ _ _ _ _ T); auto.
    - rewrite (flat_remove recs n c (r1 ++ r2) [x] (flat recs n)) by done. by destruct x. }
  rewrite Es in Hup.
  destruct s1 as [|g s1' _] using rev_ind.
  - simpl in Es, Hnd, Hup. destruct r1; [|done]. simpl in *.
    destruct (tb_head _ _ _ _ _ _ T c Hc) as [E|[t E]]; [congruence|].
    assert (idx = c) as -> by congruence. apply NoDup_cons in Hnd as [Hn _].
    destruct s2 as [|e s3]; simpl.
    + destruct r2; [|done]. split_and!; [done|by rewrite (element_lookup _ _ _ Hx)|].
      apply (Hup d []); auto.
    + destruct r2 as [|y r3]; [done|]. destruct H2 as [He H2].
      assert (e < n) by (rewrite <- Hlen; by eapply lookup_lt_Some).
      split_and!; [done|intros ->; set_solver|]. rewrite (element_lookup _ _ _ He).
      apply (Hup _ (c :: s3)); [by rewrite length_insert| |apply perm_swap| |by right; eexists].
      * intros i Hi. apply list_lookup_insert_ne. set_solver.
      * split; [by eapply insert_eq|]. eapply holds_ext; [|exact H2].
        intros i Hi. apply list_lookup_insert_ne. set_solver.
  - rewrite last_snoc in *. apply NoDup_app in Hnd as (Hn1 & Hn2 & Hn3).
    apply NoDup_app in Hn1 as (_ & Hn4 & _). apply NoDup_cons in Hn3 as [Hn3 _].
    assert (Hgi : g <> idx) by (intros ->; apply (Hn2 idx); set_solver).
    split_and!; [done|intros _; rewrite (element_lookup _ idx _ (eq_trans (set_next_ne _ _ _ _ Hgi) Hx)); done|].
    apply (Hup _ ((s1' ++ [g]) ++ s2)); [by rewrite set_next_length| |solve_Permutation| |].
    + intros i Hi. apply set_next_ne. set_solver.
    + apply holds_app; [done|]. split.
      * eapply holds_relink; [exact H1|]. intros Hg. apply (Hn4 g Hg). set_solver.
      * eapply holds_ext; [|exact H2]. intros i Hi. apply set_next_ne. intros ->.
        apply (Hn2 i); set_solver.
    + right. destruct (tb_head _ _ _ _ _ _ T c Hc) as [E|[t E]]; rewrite Es in E.
      * by destruct s1'.
      * destruct s1' as [|k s1']; simpl in E; injection E as -> _; by eexists.
Qed.

Lemma relink_ok d b n e idx org h R :
  let home := fun k => my_hash_mask k b n in
  chained d home n [e] R -> (forall k, home k < n) -> e < n ->
  (e = idx -> data (dynamic_element d e) = data org) ->
  chained (relink d b n (home h) e idx org h) home n [] ((h, data org) :: R).
Proof.
  intros home Hd Hlt He Hidx. unfold relink.
  destruct (chained_lookup _ _ _ _ _ (home h) Hd (Hlt h)) as (l & Hl & El).
  assert (Hlen : length d = n) by (destruct Hd as (? & ? & T & _); apply T).
  destruct (Nat.eqb_spec (home h) e) as [E|Hne].
  - assert (Hgoal : chained (<[e := mk_hlink None h (data org)]> d) home n [] ((h, data org) :: R))
      by (subst e; by apply chained_place).
    destruct (Nat.eqb_spec e idx) as [Ei|Ei]; simpl; [by rewrite Hidx|].
    rewrite insert_insert. by rewrite (element_lookup _ e org) by (apply list_lookup_insert_eq; lia).
  - rewrite El. unfold my_hash_rec_mask. fold (home (hash_nr l)).
    destruct (Nat.eqb_spec (home h) (home (hash_nr l))) as [E|Hg]; simpl.
    + assert (Hl' : <[e := mk_hlink (next l) h (data org)]> d !! home h = Some l)
        by (by rewrite list_lookup_insert_ne).
      rewrite (set_next_lookup _ _ _ _ Hl'). apply (chained_push d _ home n e); auto.
      * by rewrite El.
      * by rewrite !length_insert.
      * intros i Hi Hi'. by rewrite !list_lookup_insert_ne.
      * right. rewrite El. split; [by eapply insert_eq|]. rewrite list_lookup_insert_ne by done.
        apply list_lookup_insert_eq. lia.
    + destruct (chained_displace n d (<[e := l]> d) home n e (home h) R)
        as (H1 & H2 & _); auto; try lia.
      * rewrite El. congruence.
      * by rewrite length_insert.
      * intros i Hi Hi'. by apply list_lookup_insert_ne.
      * rewrite list_lookup_insert_eq by lia. congruence.
      * rewrite El in H1. by apply chained_place.
Qed.

(** ** Removing the last bucket *)

(** The records of the bucket [m] go to the bucket [f]. *)
Definition merges (home1 home0 : Z -> nat) (m f : nat) : Prop :=
  forall h, home0 h = if home1 h =? m then f else home1 h.

Lemma table_merge d d' home1 home0 slots recs free free' l r m f :
  table d home1 (S m) free slots recs -> merges home1 home0 m f -> f < m -> length d' = S m ->
  (forall i, i ∉ free -> i ∉ slots f -> i ∉ slots m -> d' !! i = d !! i) ->
  m :: free' ++ l ≡ₚ free ++ slots f ++ slots m ->
  holds d' l r None -> l = [] \/ (exists t, l = f :: t) -> r ≡ₚ recs f ++ recs m ->
  chained (take m d') home0 m free' (flat recs (S m)).
Proof.
  intros T Hmerge Hf Hlen Hsame Hperm Hh Hhd Hr.
  assert (Hcover : free' ++ flat (<[f := l]> slots) m ≡ₚ seq 0 m).
  { apply (Permutation_cons_inv (a := m)), (Permutation_app_inv_l (slots f)).
    transitivity ((m :: free') ++ slots f ++ flat (<[f := l]> slots) m); [solve_Permutation|].
    rewrite flat_insert by done.
    transitivity ((m :: free' ++ l) ++ flat slots m); [solve_Permutation|]. rewrite Hperm.
    transitivity (slots f ++ free ++ flat slots (S m)); [rewrite flat_S; solve_Permutation|].
    rewrite (tb_cover _ _ _ _ _ _ T), seq_S. solve_Permutation. }
  assert (Hlow : forall c i, c < m -> i ∈ (<[f := l]> slots : nat -> list nat) c -> i < m).
  { intros c i Hc Hi. assert (i ∈ seq 0 m) as ?%elem_of_seq; [|lia].
    rewrite <- Hcover. apply elem_of_app. right. apply elem_of_flat. eauto. }
  exists (<[f := l]> slots), (<[f := r]> recs). split.
  - split; [rewrite length_take; lia|done|..].
    + intros c Hc. apply (holds_ext d').
      { intros i Hi. apply lookup_take_lt. by eapply Hlow. }
      destruct (decide (c = f)) as [-> |Hne]; [by rewrite !fn_lookup_insert|].
      rewrite !fn_lookup_insert_ne by done.
      eapply holds_ext; [|apply (tb_holds _ _ _ _ _ _ T); lia].
      intros i Hi. apply Hsame.
      * eapply (tb_not_free _ _ _ _ _ _ T c); [lia|done].
      * intros Hi'. apply Hne. apply (tb_disjoint _ _ _ _ _ _ T c f i); auto; lia.
      * intros Hi'. cut (c = m); [lia|]. apply (tb_disjoint _ _ _ _ _ _ T c m i); auto; lia.
    + intros c Hc. destruct (decide (c = f)) as [-> |Hne]; [by rewrite fn_lookup_insert|].
      rewrite fn_lookup_insert_ne by done. apply (tb_head _ _ _ _ _ _ T). lia.
    + intros c x Hc. rewrite Hmerge. destruct (decide (c = f)) as [-> |Hne].
      * rewrite fn_lookup_insert, Hr, elem_of_app.
        intros [Hx|Hx]; apply (tb_home _ _ _ _ _ _ T) in Hx as ->; try lia.
        -- by rewrite (proj2 (Nat.eqb_neq f m)) by lia.
        -- by rewrite Nat.eqb_refl.
      * rewrite fn_lookup_insert_ne by done. intros Hx.
        apply (tb_home _ _ _ _ _ _ T) in Hx as ->; [|lia].
        by rewrite (proj2 (Nat.eqb_neq c m)) by lia.
  - apply (Permutation_app_inv_l (recs f)). rewrite flat_insert, flat_S, Hr by done.
    solve_Permutation.
Qed.

(** The last element is free. *)
Lemma chained_pop d home1 home0 m f R :
  chained d home1 (S m) [m] R -> (m <> 0 -> merges home1 home0 m f /\ f < m) ->
  chained (take m d) home0 m [] R.
Proof.
  intros (slots & recs & T & HR) Hmf.
  assert (Hno : m ∉ slots m) by (intros H; apply (tb_not_free _ _ _ _ _ _ T) in H; [set_solver|lia]).
  destruct (tb_empty _ _ _ _ _ _ T m ltac:(lia) Hno) as [Es Er].
  destruct (decide (m = 0)) as [-> |Hm].
  - exists slots, recs. rewrite flat_S, Er, app_nil_r in HR. by split; [split; intros; simpl in *; lia || done|].
  - destruct (Hmf Hm) as [Hmerge Hf].
    destruct (table_merge d d home1 home0 slots recs [m] [] (slots f) (recs f) m f)
      as (s' & r' & T' & HR'); auto.
    + apply (tb_length _ _ _ _ _ _ T).
    + by rewrite Es, app_nil_r.
    + apply (tb_holds _ _ _ _ _ _ T). lia.
    + apply (tb_head _ _ _ _ _ _ T). lia.
    + by rewrite Er, app_nil_r.
    + exists s', r'. split; [done|]. by rewrite HR'.
Qed.

(** The first record of the last bucket is moved to the free element, which is the
    first of the bucket it goes to. *)
Lemma chained_move_head d home1 home0 m f l R :
  chained d home1 (S m) [f] R -> merges home1 home0 m f -> f < m ->
  d !! m = Some l -> home1 (hash_nr l) = m -> chained (take m (<[f := l]> d)) home0 m [] R.
Proof.
  intros (slots & recs & T & HR) Hmerge Hf Hl Hh. pose proof (tb_length _ _ _ _ _ _ T) as Hlen.
  assert (Hfs : forall c, c < S m -> f ∉ slots c)
    by (intros c Hc H; apply (tb_not_free _ _ _ _ _ _ T) in H; [set_solver|done]).
  destruct (tb_empty _ _ _ _ _ _ T f ltac:(lia) (Hfs f ltac:(lia))) as [Es Er].
  destruct (table_head _ _ _ _ _ _ m T) as (t & x & r & Em & Erm & Hmt & Hx & Ht);
    [lia|set_solver by lia|by rewrite (element_lookup _ _ _ Hl)|].
  pose proof (Hfs m ltac:(lia)) as Hfm. rewrite Em in Hfm.
  destruct (table_merge d (<[f := l]> d) home1 home0 slots recs [f] [] (f :: t) (recs m) m f)
    as (s' & r' & T' & HR'); auto.
  - by rewrite length_insert.
  - intros i Hi _ _. apply list_lookup_insert_ne. set_solver.
  - rewrite Es, Em. apply perm_swap.
  - rewrite Erm. split.
    + rewrite list_lookup_insert_eq by lia. congruence.
    + eapply holds_ext; [|exact Ht]. intros i Hi. apply list_lookup_insert_ne. set_solver.
  - by right; eexists.
  - by rewrite Er.
  - exists s', r'. split; [done|]. by rewrite HR'.
Qed.

(** The chain [e :: a] is put between the element [f] and what followed it. *)
Lemma splice_holds fuel d find e a ra f x bs rb :
  holds d (e :: a) ra find -> length a < fuel -> (forall i, Some i = find -> i ∉ e :: a) ->
  d !! f = Some (mk_hlink (hd_or bs None) x.1 x.2) -> holds d bs rb None ->
  NoDup (f :: (e :: a) ++ bs) ->
  let d2 := set_next (movelink fuel d find e (next (dynamic_element d f))) f (Some e) in
  length d2 = length d /\ (forall i, i ∉ f :: e :: a -> d2 !! i = d !! i) /\
  holds d2 (f :: (e :: a) ++ bs) (x :: ra ++ rb) None.
Proof.
  intros Ha Hfu Hfind Hf Hb [Hn1 (Hn2 & Hn3 & _)%NoDup_app]%NoDup_cons d2.
  unfold d2. clear d2. rewrite (element_lookup _ _ _ Hf). simpl next.
  destruct (exists_last (l := e :: a)) as (s & q & Es); [done|].
  assert (Hls : length s < fuel).
  { apply (f_equal length) in Es. rewrite length_app in Es. simpl in Es. lia. }
  pose proof (holds_length _ _ _ _ Ha) as Hlen. rewrite Es in Ha, Hfind, Hn1, Hn2, Hn3, Hlen |- *.
  rewrite (movelink_holds fuel d s q ra find _ Ha Hls Hfind) by (rewrite <- Es; done).
  apply NoDup_app in Hn2 as (_ & Hn2 & _).
  assert (Hqs : q ∉ s) by (intros Hq; apply (Hn2 q Hq); set_solver).
  assert (Hfq : q <> f) by set_solver.
  assert (Hf' : set_next d q (hd_or bs None) !! f = Some (mk_hlink (hd_or bs None) x.1 x.2))
    by (by rewrite set_next_ne).
  split; [by rewrite !set_next_length|]. split.
  - intros i Hi. rewrite !set_next_ne; [done|set_solver|]. intros <-. set_solver.
  - split; [|apply holds_app; [done|]; split].
    + rewrite (set_next_lookup _ _ _ _ Hf'), (insert_eq _ _ _ _ Hf'). rewrite <- Es. done.
    + apply (holds_ext (set_next d q (hd_or bs None))).
      * intros i Hi. apply set_next_ne. set_solver.
      * eapply holds_relink; [exact Ha|done].
    + eapply holds_ext; [|exact Hb]. intros i Hi. rewrite !set_next_ne; [done| |set_solver].
      intros <-. apply (Hn3 q); set_solver.
Qed.

(** The last bucket is merged with the bucket [f] whose first element has a record of
    either of the two. *)
Lemma chained_splice d home1 home0 m f e l R :
  chained d home1 (S m) [e] R -> merges home1 home0 m f -> f < m -> e < m -> f <> e ->
  d !! m = Some l -> home1 (hash_nr l) = m ->
  home0 (hash_nr (dynamic_element d f)) = f ->
  let idx := if m =? home1 (hash_nr (dynamic_element d f)) then Some f else None in
  let d1 := <[e := l]> d in
  chained (take m (set_next (movelink (S m) d1 idx e (next (dynamic_element d1 f))) f (Some e)))
    home0 m [] R.
Proof.
  intros (slots & recs & T & HR) Hmerge Hf He Hfe Hl Hh Hh0 idx d1.
  pose proof (tb_length _ _ _ _ _ _ T) as Hlen.
  destruct (table_head _ _ _ _ _ _ m T) as (t & x & r & Em & Erm & Hmt & Hx & Ht);
    [lia|set_solver by lia|by rewrite (element_lookup _ _ _ Hl)|].
  assert (Hes : forall c, c < S m -> e ∉ slots c)
    by (intros c Hc H; apply (tb_not_free _ _ _ _ _ _ T) in H; [set_solver|done]).
  pose proof (Hes m ltac:(lia)) as Hem. rewrite Em in Hem.
  assert (l = mk_hlink (hd_or t None) x.1 x.2) as El by congruence.
  assert (Hlast : d1 !! e = Some (mk_hlink (hd_or t None) x.1 x.2))
    by (rewrite <- El; apply list_lookup_insert_eq; lia).
  assert (Hd1 : forall i, i <> e -> d1 !! i = d !! i)
    by (intros i Hi; by apply list_lookup_insert_ne).
  pose proof (tb_slots_length _ _ _ _ _ _ T m ltac:(lia)) as Hlt. rewrite Em in Hlt. simpl in Hlt.
  pose proof (tb_NoDup_slots _ _ _ _ _ _ T m ltac:(lia)) as Hnd. rewrite Em in Hnd.
  apply NoDup_cons in Hnd as [_ Hnd].
  enough (exists a ra y bs rb,
    holds d1 (e :: a) ra idx /\ length a < S m /\ (forall i, Some i = idx -> i ∉ e :: a) /\
    d1 !! f = Some (mk_hlink (hd_or bs None) y.1 y.2) /\ holds d1 bs rb None /\
    NoDup (f :: (e :: a) ++ bs) /\ f :: a ++ bs ≡ₚ slots f ++ t /\
    y :: ra ++ rb ≡ₚ recs f ++ recs m)
    as (a & ra & y & bs & rb & H1 & H2 & H3 & H4 & H5 & H6 & H7 & H8).
  { destruct (splice_holds (S m) d1 idx e a ra f y bs rb H1 H2 H3 H4 H5 H6) as (Hl2 & Hs2 & Hh2).
    assert (Hin : forall i, i ∈ f :: a -> i ∈ slots f ++ t) by (intros i; rewrite <- H7; set_solver).
    set (d2 := set_next _ f _) in *.
    destruct (table_merge d d2 home1 home0 slots recs [e] [] (f :: (e :: a) ++ bs) (y :: ra ++ rb)
      m f) as (s' & r' & T' & HR'); auto.
    - rewrite Hl2. unfold d1. by rewrite length_insert.
    - intros i Hi1 Hi2 Hi3. rewrite Em in Hi3. rewrite Hs2; [apply Hd1; set_solver|].
      intros Hi. specialize (Hin i). set_solver.
    - rewrite Em. transitivity (e :: m :: (f :: a ++ bs)); [solve_Permutation|].
      rewrite H7. solve_Permutation.
    - by right; eexists.
    - exists s', r'. split; [done|]. by rewrite HR'. }
  assert (Hkeep : forall s r o, e ∉ s -> holds d s r o -> holds d1 s r o)
    by (intros s r' o Hs; apply holds_ext; intros i Hi; apply Hd1; set_solver).
  rewrite Hmerge in Hh0. unfold idx.
  destruct (tb_element _ _ _ _ _ _ T f ltac:(lia) ltac:(set_solver)) as [_ Hfin].
  rewrite (Nat.eqb_sym m). destruct (Nat.eqb_spec (home1 (hash_nr (dynamic_element d f))) m) as [E|E].
  - rewrite E, Em in Hfin. apply elem_of_cons in Hfin as [?|Hfin]; [lia|].
    destruct (tb_empty _ _ _ _ _ _ T f ltac:(lia)) as [Es Er].
    { intros H. cut (f = m); [lia|]. apply (tb_disjoint _ _ _ _ _ _ T f m f); [lia|lia|done|].
      rewrite Em. set_solver. }
    apply list_elem_of_split in Hfin as (a & bs & ->).
    destruct (holds_cut _ _ _ _ _ _ Ht) as (r1 & y & r2 & -> & Hl1 & H1 & H2 & H3).
    apply NoDup_app in Hnd as (Hn1 & Hn2 & Hn3). apply NoDup_cons in Hn3 as [Hn3 Hn4].
    rewrite length_app in Hlt. simpl in Hlt.
    exists a, (x :: r1), y, bs, r2. split_and!.
    + split; [rewrite Hlast; by rewrite hd_or_app|]. apply Hkeep; [set_solver|done].
    + lia.
    + intros i [= ->]. set_solver.
    + by rewrite Hd1.
    + apply Hkeep; [set_solver|done].
    + apply NoDup_cons. split; [set_solver|]. apply NoDup_cons. split; [set_solver|].
      apply NoDup_app. split_and!; [done| |done]. intros i Hi. specialize (Hn2 i Hi). set_solver.
    + rewrite Es. solve_Permutation.
    + rewrite Er, Erm. solve_Permutation.
  - destruct (table_head _ _ _ _ _ _ f T) as (tf & y & rf & Ef & Erf & Hft & Hy & Hf2);
      [lia|set_solver|done|].
    assert (Hdis : forall i, i ∈ t -> i ∉ f :: tf).
    { intros i Hi Hi'. cut (m = f); [lia|].
      apply (tb_disjoint _ _ _ _ _ _ T m f i); [lia|lia|rewrite Em; set_solver|by rewrite Ef]. }
    pose proof (Hes f ltac:(lia)) as Hef. rewrite Ef in Hef.
    pose proof (tb_NoDup_slots _ _ _ _ _ _ T f ltac:(lia)) as Hndf. rewrite Ef in Hndf.
    exists t, (x :: r), y, tf, rf. split_and!.
    + split; [done|]. apply Hkeep; [set_solver|done].
    + lia.
    + done.
    + by rewrite Hd1.
    + apply Hkeep; [set_solver|done].
    + apply NoDup_cons in Hndf as [Hn1 Hn2]. apply NoDup_cons. split; [set_solver|].
      apply NoDup_cons. split; [set_solver|]. apply NoDup_app. split_and!; [done| |done].
      intros i Hi. specialize (Hdis i Hi). set_solver.
    + rewrite Ef. solve_Permutation.
    + rewrite Erf, Erm. solve_Permutation.
Qed.

Lemma move_last_ok d b b' m e R :
  let home1 := fun h => my_hash_mask h b (S m) in
  let home0 := fun h => my_hash_mask h b' m in
  let f := m - Nat.div2 b' in
  chained d home1 (S m) [e] R -> e <= m -> (m <> 0 -> merges home1 home0 m f /\ f < m) ->
  chained (take m (move_last d b b' m e)) home0 m [] R.
Proof.
  intros home1 home0 f Hd He Hmf. unfold move_last. cbv zeta.
  destruct (Nat.eqb_spec e m) as [-> |Hem]; [by eapply chained_pop|].
  destruct (Hmf ltac:(lia)) as [Hmerge Hf].
  destruct (chained_lookup _ _ _ _ _ m Hd ltac:(lia)) as (l & Hl & ->).
  fold (home0 (hash_nr l)) (home1 (hash_nr l)). pose proof (Hmerge (hash_nr l)) as Hp.
  pose proof (chained_length _ _ _ _ _ Hd) as Hlen.
  destruct (Nat.eqb_spec (home1 (hash_nr l)) m) as [E|E].
  - rewrite Hp, E. clear Hp. destruct (Nat.eqb_spec f e) as [<- |Hfe].
    { eapply chained_move_head; eauto. }
    fold (home0 (hash_nr (dynamic_element d f))) (home1 (hash_nr (dynamic_element d f))).
    change (negb true) with false. rewrite andb_false_r.
    destruct (Nat.eqb_spec f (home0 (hash_nr (dynamic_element d f)))) as [Ef|Ef]; simpl negb; cbv iota.
    + eapply chained_splice; eauto; lia.
    + pose proof (Hmerge (hash_nr (dynamic_element d f))) as Hpf.
      destruct (Nat.eqb_spec (home1 (hash_nr (dynamic_element d f))) m) as [?|Hn]; [congruence|].
      destruct (chained_displace (S m) d (<[f := l]> (<[e := dynamic_element d f]> d)) home1 (S m) e f R)
        as (H1 & H2 & H3); auto; try lia.
      * by rewrite !length_insert.
      * intros i Hi1 Hi2. by rewrite !list_lookup_insert_ne.
      * destruct (chained_lookup _ _ _ _ _ f Hd ltac:(lia)) as (lf & -> & ->).
        rewrite list_lookup_insert_ne by done. apply list_lookup_insert_eq. lia.
      * rewrite Hpf. set (d2 := movelink _ _ _ _ _) in *.
        assert (E2 : d2 = <[f := l]> d2).
        { symmetry. apply list_insert_id. rewrite H2. apply list_lookup_insert_eq.
          rewrite length_insert. lia. }
        rewrite E2. eapply chained_move_head; eauto.
        rewrite H3; [done|lia|lia|lia|]. by rewrite (element_lookup _ _ _ Hl), E.
  - rewrite Hp.
    assert (Hb : home1 (hash_nr l) <> e /\ home1 (hash_nr l) < S m /\
      home1 (hash_nr (dynamic_element d (home1 (hash_nr l)))) = home1 (hash_nr l)).
    { destruct Hd as (slots & recs & T & _).
      destruct (tb_element _ _ _ _ _ _ T m ltac:(lia) ltac:(set_solver by lia)) as [Hc Hin].
      rewrite (element_lookup _ _ _ Hl) in Hc, Hin.
      destruct (tb_head _ _ _ _ _ _ T _ Hc) as [E'|[t E']]; [rewrite E' in Hin; set_solver|].
      assert (Hs : home1 (hash_nr l) ∈ slots (home1 (hash_nr l))) by (rewrite E'; set_solver).
      destruct (tb_not_free _ _ _ _ _ _ T _ _ Hc Hs).
      destruct (tb_bucket _ _ _ _ _ _ T _ _ Hc Hs) as (? & ? & _ & _ & ?). set_solver. }
    destruct Hb as (Hb1 & Hb2 & Hb3). rewrite (proj2 (Nat.eqb_neq _ _) Hb1).
    fold (home0 (hash_nr (dynamic_element d (home1 (hash_nr l))))).
    fold (home1 (hash_nr (dynamic_element d (home1 (hash_nr l))))).
    rewrite Hmerge, Hb3, !Nat.eqb_refl, (proj2 (Nat.eqb_neq _ _) E), Nat.eqb_refl. simpl negb. cbv iota.
    
    destruct (chained_displace (S m) d (<[e := l]> d) home1 (S m) e m R) as (H1 & _); auto; try lia.
    + by rewrite (element_lookup _ _ _ Hl).
    + by rewrite length_insert.
    + intros i _ Hi. by apply list_lookup_insert_ne.
    + rewrite list_lookup_insert_eq by lia. congruence.
    + rewrite (element_lookup _ _ _ Hl) in H1. by eapply chained_pop.
Qed.

(** A record gets another hash number of the same bucket. *)
Lemma chained_renumber d home n slots recs c s1 idx s2 h :
  table d home n [] slots recs -> c < n -> slots c = s1 ++ idx :: s2 -> home h = c ->
  let l := dynamic_element d idx in
  exists R, chained (<[idx := mk_hlink (next l) h (data l)]> d) home n [] ((h, data l) :: R) /\
    flat recs n ≡ₚ rec_of l :: R.
Proof.
  intros T Hc Es Hh l. pose proof (tb_holds _ _ _ _ _ _ T c Hc) as Hs. rewrite Es in Hs.
  destruct (holds_cut _ _ _ _ _ _ Hs) as (r1 & x & r2 & Er & Hl & H1 & Hx & H2).
  pose proof (tb_NoDup_slots _ _ _ _ _ _ T c Hc) as Hnd. rewrite Es in Hnd.
  apply NoDup_app in Hnd as (_ & Hn1 & Hn2). apply NoDup_cons in Hn2 as [Hn2 _].
  unfold l. rewrite (element_lookup _ _ _ Hx). simpl. clear l.
  exists (flat (<[c := r1 ++ r2]> recs) n). split.
  - exists (<[c := slots c]> slots), (<[c := r1 ++ (h, x.2) :: r2]> recs). split.
    + apply (table_update _ _ _ _ _ _ T); auto.
      * rewrite length_insert. apply T.
      * intros i _ Hi. rewrite Es in Hi. apply list_lookup_insert_ne. set_solver.
      * rewrite Es. apply holds_app; [done|]. split; [|split].
        -- eapply holds_ext; [|exact H1]. intros i Hi. apply list_lookup_insert_ne. intros <-.
           apply (Hn1 idx Hi). set_solver.
        -- by eapply insert_eq.
        -- eapply holds_ext; [|exact H2]. intros i Hi. apply list_lookup_insert_ne. set_solver.
      * by apply (tb_head _ _ _ _ _ _ T).
      * intros y Hy. apply elem_of_app in Hy. rewrite elem_of_cons in Hy.
        destruct Hy as [Hy|[-> |Hy]]; [|done|]; apply (tb_home _ _ _ _ _ _ T); auto;
          rewrite Er; set_solver.
    + apply (Permutation_app_inv_l (recs c)). rewrite flat_insert by done.
      transitivity ((h, x.2) :: (recs c ++ flat (<[c := r1 ++ r2]> recs) n)); [|solve_Permutation].
      rewrite flat_insert by done. solve_Permutation.
  - rewrite (flat_remove recs n c (r1 ++ r2) [x] (flat recs n)); [by destruct x|done| |done].
    rewrite Er. solve_Permutation.
Qed.

