(* ===== verification/HashSplit.v ===== *)
(** * Hash tables: splitting a bucket

    The loop of my_hash_insert that divides the chain of one bucket between that bucket
    and the new one.  It moves the first record of each part to the first element of
    its bucket, and stores a record only when its link has to change. *)

From stdpp Require Import functions.
From S2P Require Import Prelude Hash HashInv HashOps.

Local Open Scope nat_scope.

Definition flag_if (b : bool) (v : Z) : Z := if b then v else 0%Z.

Definition flags_of (lf lu hf hu : bool) : Z :=
  (flag_if lf LOWFIND + flag_if lu LOWUSED + flag_if hf HIGHFIND + flag_if hu HIGHUSED)%Z.

Lemma has_LOWFIND lf lu hf hu : has_flag (flags_of lf lu hf hu) LOWFIND = lf.
Proof. by destruct lf, lu, hf, hu. Qed.

Lemma has_LOWUSED lf lu hf hu : has_flag (flags_of lf lu hf hu) LOWUSED = lu.
Proof. by destruct lf, lu, hf, hu. Qed.

Lemma has_HIGHFIND lf lu hf hu : has_flag (flags_of lf lu hf hu) HIGHFIND = hf.
Proof. by destruct lf, lu, hf, hu. Qed.

Lemma has_HIGHUSED lf lu hf hu : has_flag (flags_of lf lu hf hu) HIGHUSED = hu.
Proof. by destruct lf, lu, hf, hu. Qed.

Lemma low_again lf lu hf hu :
  Z.lor (Z.land (flags_of lf lu hf hu) HIGHFIND) (Z.lor LOWFIND LOWUSED) = flags_of true true hf false.
Proof. by destruct lf, lu, hf, hu. Qed.

Lemma high_again lf lu hf hu :
  Z.lor (Z.land (flags_of lf lu hf hu) LOWFIND) (Z.lor HIGHFIND HIGHUSED) = flags_of lf false true true.
Proof. by destruct lf, lu, hf, hu. Qed.

Lemma high_first lf lu hf hu :
  Z.lor (Z.land (flags_of lf lu hf hu) LOWFIND) HIGHFIND = flags_of lf false true false.
Proof. by destruct lf, lu, hf, hu. Qed.

Lemma rec_of_pair o (r : Z * rptr) : rec_of (mk_hlink o r.1 r.2) = r.
Proof. by destruct r. Qed.

(** One part of the chain: the elements [ss] are to hold the records [rs], of which the
    last, [rec] for the element [g], may not be stored.  If [used], it is there, with a
    link to [o]. *)
Definition side (d : list HASH_LINK) (found used : bool) (ss : list nat) (rs : list (Z * rptr))
    (g : nat) (rec : Z * rptr) (o : option nat) : Prop :=
  if found then
    exists s' r', ss = s' ++ [g] /\ rs = r' ++ [rec] /\ holds d s' r' (Some g) /\
      (used = true -> d !! g = Some (mk_hlink o rec.1 rec.2))
  else ss = [] /\ rs = [] /\ used = false.

Lemma side_keep d d' found used ss rs g rec o o' :
  side d found used ss rs g rec o -> (forall i, i ∈ ss -> d' !! i = d !! i) ->
  side d' found false ss rs g rec o'.
Proof.
  unfold side. destruct found; [|naive_solver].
  intros (s' & r' & -> & -> & H & _) He. exists s', r'. split_and!; auto; [|done].
  eapply holds_ext; [|exact H]. intros i Hi. apply He. set_solver.
Qed.

Lemma side_found d used ss rs g rec o : side d true used ss rs g rec o -> g ∈ ss.
Proof. intros (s' & r' & -> & _). set_solver. Qed.

(** The whole part, once its last record is stored *)
Lemma side_stored d ss rs g rec o :
  side d true true ss rs g rec o -> holds d ss rs o.
Proof.
  intros (s' & r' & -> & -> & H & Hg). specialize (Hg eq_refl).
  apply holds_app; [by eapply holds_length|]. by repeat split.
Qed.

Lemma side_store d used ss rs g rec o o' :
  side d true used ss rs g rec o -> NoDup ss -> g < length d ->
  holds (store_link d g rec o') ss rs o'.
Proof.
  intros (s' & r' & -> & -> & H & _) (_ & Hn & _)%NoDup_app Hg. unfold store_link.
  apply holds_app; [by eapply holds_length|]. split; [|split; [|done]].
  - eapply holds_ext; [|exact H]. intros i Hi. apply list_lookup_insert_ne. intros <-.
    apply (Hn g Hi). set_solver.
  - by apply list_lookup_insert_eq.
Qed.

Lemma side_first d g rec o : side d true false [g] [rec] g rec o.
Proof. by exists [], []. Qed.

(** The next record, when the part so far links to it *)
Lemma side_snoc d ss rs pos r o :
  holds d ss rs (Some pos) -> d !! pos = Some (mk_hlink o r.1 r.2) ->
  side d true true (ss ++ [pos]) (rs ++ [r]) pos r o.
Proof. intros H Hp. by exists ss, rs. Qed.

(** ** The invariant of the loop *)

Section Split.
Context (d0 : list HASH_LINK) (half m f : nat).

Definition is_low (r : Z * rptr) : Prop := Z.land r.1 (Z.of_nat half) = 0%Z.

(** [vs] are the elements that have been visited, with the records [vr]; [ws] and [wr]
    are the others. *)
Record split_inv (vs : list nat) (vr : list (Z * rptr)) (ws : list nat) (wr : list (Z * rptr))
    (st : split_state) (lf lu hf hu : bool) (ls hs : list nat) (rl rh : list (Z * rptr)) : Prop := {
  si_flag : s_flag st = flags_of lf lu hf hu;
  si_excl : lu && hu = false;
  si_low : side (s_data st) lf lu ls rl (s_gpos st) (s_rec st) (hd_or ws None);
  si_high : side (s_data st) hf hu hs rh (s_gpos2 st) (s_rec2 st) (hd_or ws None);
  si_rest : holds (s_data st) ws wr None;
  si_perm : s_empty st :: ls ++ hs ≡ₚ m :: vs;
  si_nodup : NoDup (m :: vs ++ ws);
  si_recs : rl ++ rh ≡ₚ vr;
  si_islow : Forall is_low rl;
  si_ishigh : Forall (fun r => ~ is_low r) rh;
  si_same i : i ∉ m :: vs -> s_data st !! i = d0 !! i;
  si_length : length (s_data st) = S m;
  si_range : Forall (fun i => i <= m) (m :: vs ++ ws);
  si_lowhd : ls = [] \/ exists t, ls = f :: t;
  si_highhd : hs = [] \/ exists t, hs = m :: t;
  si_start : hd_or (vs ++ ws) None = Some f;
  si_empty0 : hf = false -> s_empty st = m;
  si_empty1 : lf = false -> hf = true -> s_empty st = f;
  si_none : lf = false -> hf = false -> vs = [];
}.

(** What a step is to establish *)
Definition stepped (vs : list nat) (vr : list (Z * rptr)) ws wr st : Prop :=
  exists lf lu hf hu ls hs rl rh, split_inv vs vr ws wr st lf lu hf hu ls hs rl rh /\
    (lf || hf = true).

Context (vs : list nat) (vr : list (Z * rptr)) (pos : nat) (r : Z * rptr).
Context (ws : list nat) (wr : list (Z * rptr)).

Lemma split_facts st lf lu hf hu ls hs rl rh :
  split_inv vs vr (pos :: ws) (r :: wr) st lf lu hf hu ls hs rl rh ->
  s_data st !! pos = Some (mk_hlink (hd_or ws None) r.1 r.2) /\
  holds (s_data st) ws wr None /\
  NoDup (s_empty st :: ls ++ hs) /\ pos ∉ s_empty st :: ls ++ hs /\
  (forall i, i ∈ pos :: ws -> i ∉ ls /\ i ∉ hs) /\
  NoDup ls /\ NoDup hs /\ (forall i, i ∈ ls -> i ∉ hs) /\
  (forall i, i ∈ s_empty st :: ls ++ hs -> i < length (s_data st)).
Proof.
  intros I. destruct (si_rest _ _ _ _ _ _ _ _ _ _ _ _ _ I) as [H1 H2].
  pose proof (si_perm _ _ _ _ _ _ _ _ _ _ _ _ _ I) as Hp.
  pose proof (si_nodup _ _ _ _ _ _ _ _ _ _ _ _ _ I) as Hn.
  change (NoDup ((m :: vs) ++ pos :: ws)) in Hn. apply NoDup_app in Hn as (Hn1 & Hn2 & Hn3).
  rewrite <- Hp in Hn1.
  assert (Hout : forall i, i ∈ pos :: ws -> i ∉ s_empty st :: ls ++ hs).
  { intros i Hi Hi'. rewrite Hp in Hi'. by apply (Hn2 i). }
  pose proof (NoDup_cons_1_2 _ _ Hn1) as (Hl & Hd & Hh)%NoDup_app.
  split_and!; auto.
  - apply Hout. set_solver.
  - intros i Hi. specialize (Hout i Hi). set_solver.
  - intros i Hi. rewrite Hp in Hi. rewrite (si_length _ _ _ _ _ _ _ _ _ _ _ _ _ I).
    pose proof (si_range _ _ _ _ _ _ _ _ _ _ _ _ _ I) as Hr. rewrite Forall_forall in Hr.
    specialize (Hr i). cut (i <= m); [lia|]. apply Hr. set_solver.
Qed.

(** A step visits [pos]: what is left to show of the new state *)
Lemma split_next st lf lu hf hu ls hs rl rh st' lf' lu' hf' hu' ls' hs' rl' rh' :
  split_inv vs vr (pos :: ws) (r :: wr) st lf lu hf hu ls hs rl rh ->
  s_flag st' = flags_of lf' lu' hf' hu' -> lu' && hu' = false -> lf' || hf' = true ->
  (forall i, i ∉ ls -> i ∉ hs -> s_data st' !! i = s_data st !! i) ->
  length (s_data st') = length (s_data st) ->
  side (s_data st') lf' lu' ls' rl' (s_gpos st') (s_rec st') (hd_or ws None) ->
  side (s_data st') hf' hu' hs' rh' (s_gpos2 st') (s_rec2 st') (hd_or ws None) ->
  s_empty st' :: ls' ++ hs' ≡ₚ pos :: s_empty st :: ls ++ hs ->
  rl' ++ rh' ≡ₚ r :: rl ++ rh -> Forall (is_low) rl' -> Forall (fun r => ~ is_low r) rh' ->
  (ls' = [] \/ exists t, ls' = f :: t) -> (hs' = [] \/ exists t, hs' = m :: t) ->
  (hf' = false -> s_empty st' = m) -> (lf' = false -> hf' = true -> s_empty st' = f) ->
  stepped (vs ++ [pos]) (vr ++ [r]) ws wr st'.
Proof.
  intros I Hfl Hex Hlh Hsame Hlen Hlow Hhigh Hperm Hrecs Hl Hh Hlhd Hhhd He0 He1.
  destruct (split_facts st lf lu hf hu ls hs rl rh I)
    as (_ & Hrest & _ & _ & Hout & _).
  exists lf', lu', hf', hu', ls', hs', rl', rh'. split; [|done]. destruct I as [].
  assert (Happ : (vs ++ [pos]) ++ ws = vs ++ pos :: ws) by (by rewrite <- (assoc_L (++))).
  split; auto.
  - eapply holds_ext; [|exact Hrest]. intros i Hi. apply Hsame; apply Hout; set_solver.
  - rewrite Hperm, si_perm0. solve_Permutation.
  - by rewrite Happ.
  - rewrite Hrecs, si_recs0. solve_Permutation.
  - intros i Hi. assert (Hi' : i ∉ s_empty st :: ls ++ hs) by (rewrite si_perm0; set_solver).
    rewrite Hsame by set_solver. apply si_same0. set_solver.
  - congruence.
  - by rewrite Happ.
  - by rewrite Happ.
  - intros E1 E2. by rewrite E1, E2 in Hlh.
Qed.

Lemma store_same d g rec o i : i <> g -> store_link d g rec o !! i = d !! i.
Proof. intros H. unfold store_link. by apply list_lookup_insert_ne. Qed.

Lemma store_length d g rec o : length (store_link d g rec o) = length d.
Proof. apply length_insert. Qed.

Lemma snoc_hd (ss : list nat) g x :
  ss = [] \/ (exists t, ss = g :: t) -> (ss = [] -> x = g) ->
  ss ++ [x] = [] \/ exists t, ss ++ [x] = g :: t.
Proof. intros [-> |[t ->]] H; right; [rewrite H by done|]; by eexists. Qed.

Lemma side_nil d used ss rs g rec o : side d true used ss rs g rec o -> ss <> [].
Proof. intros (s' & r' & -> & _). by destruct s'. Qed.

Lemma first_visited st lf lu hf hu ls hs rl rh :
  split_inv vs vr (pos :: ws) (r :: wr) st lf lu hf hu ls hs rl rh ->
  lf = false -> hf = false -> pos = f.
Proof.
  intros I H1 H2. pose proof (si_none _ _ _ _ _ _ _ _ _ _ _ _ _ I H1 H2) as ->.
  pose proof (si_start _ _ _ _ _ _ _ _ _ _ _ _ _ I). simpl in *. congruence.
Qed.

(** The record stays in its bucket. *)
Lemma split_step_low st lf lu hf hu ls hs rl rh :
  split_inv vs vr (pos :: ws) (r :: wr) st lf lu hf hu ls hs rl rh -> is_low r ->
  stepped (vs ++ [pos]) (vr ++ [r]) ws wr (split_step half st pos).
Proof.
  intros I Hr.
  destruct (split_facts st lf lu hf hu ls hs rl rh I)
    as (Hp & _ & Hnd & Hpos & Hout & Hnl & Hnh & Hdis & Hlt).
  destruct (Hout pos) as [Hpl Hph]; [set_solver|].
  pose proof (first_visited st lf lu hf hu ls hs rl rh I) as Hfirst.
  pose proof (split_next st lf lu hf hu ls hs rl rh) as Hnext. pose proof I as I0.
  destruct I as []. destruct st as [d flag g rec g2 rec2 e]. simpl in *.
  unfold split_step. rewrite (element_lookup _ _ _ Hp). simpl hash_nr. rewrite Hr. simpl.
  subst flag. rewrite rec_of_pair, has_LOWFIND, has_HIGHFIND, has_LOWUSED, low_again.
  destruct lf; simpl.
  - assert (Hkeep : forall d', (forall i, i ∉ ls -> d' !! i = d !! i) ->
      side d' hf false hs rh g2 rec2 (hd_or ws None)).
    { intros d' Hd'. eapply side_keep; [exact si_high0|]. intros i Hi. apply Hd'. by intros Hi'; apply (Hdis i). }
    assert (Hfor : Forall is_low (rl ++ [r])) by (apply Forall_app; auto).
    assert (Hhd : ls ++ [pos] = [] \/ exists t, ls ++ [pos] = f :: t)
      by (apply snoc_hd; [done|]; intros E; by apply side_nil in si_low0).
    destruct lu; simpl.
    + destruct hu; [done|].
      apply (Hnext _ true true hf false (ls ++ [pos]) hs (rl ++ [r]) rh); auto; simpl;
        [|solve_Permutation|solve_Permutation].
      apply side_snoc; [by eapply side_stored|done].
    + pose proof (side_found _ _ _ _ _ _ _ si_low0) as Hg.
      apply (Hnext _ true true hf false (ls ++ [pos]) hs (rl ++ [r]) rh); auto; simpl;
        [..|solve_Permutation|solve_Permutation].
      * intros i Hi _. apply store_same. set_solver.
      * apply store_length.
      * apply side_snoc; [eapply side_store; [done|done|apply Hlt; set_solver]|].
        rewrite store_same; [done|set_solver].
      * apply Hkeep. intros i Hi. apply store_same. set_solver.
  - destruct si_low0 as (-> & -> & ->). destruct hf; simpl.
    + assert (side d true false [e] [r] e r (hd_or ws None)) by apply side_first.
      assert (side d true false hs rh g2 rec2 (hd_or ws None)) by (by eapply side_keep).
      apply (Hnext _ true false true false [e] hs [r] rh); auto; simpl; try done.
      rewrite si_empty3 by done. right. by eexists.
    + destruct si_high0 as (-> & -> & ->). rewrite (Hfirst eq_refl eq_refl) in *.
      assert (side d true true [f] [r] f r (hd_or ws None)) by (by apply (side_snoc d [] [])).
      apply (Hnext _ true true false false [f] [] [r] []); auto; simpl; try done.
      * apply perm_swap.
      * right. by eexists.
Qed.

(** The record goes to the new bucket. *)
Lemma split_step_high st lf lu hf hu ls hs rl rh :
  split_inv vs vr (pos :: ws) (r :: wr) st lf lu hf hu ls hs rl rh -> ~ is_low r ->
  stepped (vs ++ [pos]) (vr ++ [r]) ws wr (split_step half st pos).
Proof.
  intros I Hr.
  destruct (split_facts st lf lu hf hu ls hs rl rh I)
    as (Hp & _ & Hnd & Hpos & Hout & Hnl & Hnh & Hdis & Hlt).
  destruct (Hout pos) as [Hpl Hph]; [set_solver|].
  pose proof (first_visited st lf lu hf hu ls hs rl rh I) as Hfirst.
  pose proof (split_next st lf lu hf hu ls hs rl rh) as Hnext. pose proof I as I0.
  destruct I as []. destruct st as [d flag g rec g2 rec2 e]. simpl in *.
  unfold split_step. rewrite (element_lookup _ _ _ Hp). simpl hash_nr.
  rewrite (proj2 (Z.eqb_neq _ _) Hr). simpl.
  subst flag. rewrite rec_of_pair, has_HIGHFIND, has_HIGHUSED, high_first, high_again.
  assert (Hkeep : forall d', (forall i, i ∉ hs -> d' !! i = d !! i) ->
    side d' lf false ls rl g rec (hd_or ws None)).
  { intros d' Hd'. eapply side_keep; [exact si_low0|]. intros i Hi. apply Hd'. by apply Hdis. }
  assert (Hor : lf || true = true) by apply orb_true_r.
  destruct hf; simpl.
  - assert (Hfor : Forall (fun r => ~ is_low r) (rh ++ [r])) by (apply Forall_app; auto).
    assert (Hhd : hs ++ [pos] = [] \/ exists t, hs ++ [pos] = m :: t)
      by (apply snoc_hd; [done|]; intros E; by apply side_nil in si_high0).
    destruct hu; simpl.
    + destruct lu; [done|].
      apply (Hnext _ lf false true true ls (hs ++ [pos]) rl (rh ++ [r])); auto; simpl;
        [|solve_Permutation|solve_Permutation].
      apply side_snoc; [by eapply side_stored|done].
    + pose proof (side_found _ _ _ _ _ _ _ si_high0) as Hg.
      apply (Hnext _ lf false true true ls (hs ++ [pos]) rl (rh ++ [r])); auto; simpl;
        [..|solve_Permutation|solve_Permutation].
      * intros i _ Hi. apply store_same. set_solver.
      * apply store_length.
      * apply Hkeep. intros i Hi. apply store_same. set_solver.
      * apply side_snoc; [eapply side_store; [done|done|apply Hlt; set_solver]|].
        rewrite store_same; [done|set_solver].
  - destruct si_high0 as (-> & -> & ->).
    assert (side d true false [e] [r] e r (hd_or ws None)) by apply side_first.
    apply (Hnext _ lf false true false ls [e] rl [r]); auto; simpl; try done.
    + rewrite app_nil_r. solve_Permutation.
    + rewrite app_nil_r. solve_Permutation.
    + rewrite si_empty2 by done. right. by eexists.
Qed.
End Split.

(** ** The loop *)

Lemma split_step_ok d0 half m f vs vr pos r ws wr st lf lu hf hu ls hs rl rh :
  split_inv d0 half m f vs vr (pos :: ws) (r :: wr) st lf lu hf hu ls hs rl rh ->
  stepped d0 half m f (vs ++ [pos]) (vr ++ [r]) ws wr (split_step half st pos).
Proof.
  intros I. destruct (Z.eq_dec (Z.land r.1 (Z.of_nat half)) 0%Z).
  - by eapply split_step_low.
  - by eapply split_step_high.
Qed.

(** A step does not change the element it visits. *)
Lemma split_step_pos d0 half m f vs vr pos r ws wr st lf lu hf hu ls hs rl rh :
  split_inv d0 half m f vs vr (pos :: ws) (r :: wr) st lf lu hf hu ls hs rl rh ->
  s_data (split_step half st pos) !! pos = s_data st !! pos.
Proof.
  intros I. destruct (split_facts d0 half m f vs vr pos r ws wr st lf lu hf hu ls hs rl rh I)
    as (_ & _ & _ & _ & Hout & _).
  destruct (Hout pos) as [Hpl Hph]; [set_solver|].
  destruct I as []. destruct st as [d flag g rec g2 rec2 e]. simpl in *. subst flag.
  unfold split_step. rewrite has_LOWFIND, has_HIGHFIND, has_LOWUSED, has_HIGHUSED.
  destruct (_ =? 0)%Z.
  - destruct lf; simpl; [|by destruct hf]. apply side_found in si_low0.
    destruct lu; simpl; [done|]. apply store_same. set_solver.
  - destruct hf; simpl; [|done]. apply side_found in si_high0.
    destruct hu; simpl; [done|]. apply store_same. set_solver.
Qed.

Lemma split_loop_ok fuel d0 b half m f vs vr pos ws wr st lf lu hf hu ls hs rl rh :
  split_inv d0 half m f vs vr (pos :: ws) wr st lf lu hf hu ls hs rl rh ->
  length (pos :: ws) <= fuel ->
  (vs = [] -> forall r, r ∈ wr -> my_hash_mask r.1 b m = f) -> (vs <> [] -> lf || hf = true) ->
  stepped d0 half m f (vs ++ pos :: ws) (vr ++ wr) [] [] (split_loop fuel half b m f st pos).
Proof.
  revert vs vr pos ws wr st lf lu hf hu ls hs rl rh.
  induction fuel as [|fuel IH]; intros vs vr pos ws wr st lf lu hf hu ls hs rl rh I Hf Hhome Hnz;
    [simpl in Hf; lia|].
  destruct wr as [|r wr]; [by destruct (si_rest _ _ _ _ _ _ _ _ _ _ _ _ _ _ _ _ _ I)|]. simpl.
  pose proof (split_facts d0 half m f vs vr pos r ws wr st lf lu hf hu ls hs rl rh I) as (Hp & _).
  rewrite (element_lookup _ _ _ Hp). simpl.
  assert (Hguard : (s_flag st =? 0)%Z && negb (my_hash_mask r.1 b m =? f) = false).
  { rewrite (si_flag _ _ _ _ _ _ _ _ _ _ _ _ _ _ _ _ _ I). destruct vs as [|v vs'].
    - rewrite Hhome by (done || set_solver). by rewrite Nat.eqb_refl, andb_false_r.
    - specialize (Hnz ltac:(done)). destruct lf, hf, lu, hu; done. }
  rewrite Hguard.
  destruct (split_step_ok d0 half m f vs vr pos r ws wr st lf lu hf hu ls hs rl rh I)
    as (lf' & lu' & hf' & hu' & ls' & hs' & rl' & rh' & I' & Hor).
  pose proof (split_step_pos d0 half m f vs vr pos r ws wr st lf lu hf hu ls hs rl rh I) as Hpos.
  rewrite (element_lookup _ _ _ (eq_trans Hpos Hp)). simpl next.
  destruct ws as [|w ws]; simpl.
  - destruct wr; [|by destruct (si_rest _ _ _ _ _ _ _ _ _ _ _ _ _ _ _ _ _ I')].
    by exists lf', lu', hf', hu', ls', hs', rl', rh'.
  - replace (vs ++ pos :: w :: ws) with ((vs ++ [pos]) ++ w :: ws) by (by rewrite <- (assoc_L (++))).
    replace (vr ++ r :: wr) with ((vr ++ [r]) ++ wr) by (by rewrite <- (assoc_L (++))).
    eapply IH; [exact I'|simpl in *; lia| |done]. intros E. by destruct vs.
Qed.

Lemma finish_low lf lu hf hu :
  lu && negb lf = false ->
  (Z.land (flags_of lf lu hf hu) (Z.lor LOWFIND LOWUSED) =? LOWFIND)%Z = lf && negb lu.
Proof. by destruct lf, lu, hf, hu. Qed.

Lemma finish_high lf lu hf hu :
  hu && negb hf = false ->
  (Z.land (flags_of lf lu hf hu) (Z.lor HIGHFIND HIGHUSED) =? HIGHFIND)%Z = hf && negb hu.
Proof. by destruct lf, lu, hf, hu. Qed.

Lemma side_used d found used ss rs g rec o :
  side d found used ss rs g rec o -> used && negb found = false.
Proof. destruct found; [by rewrite andb_false_r|]. by intros (_ & _ & ->). Qed.

(** At the end of the chain the last record of a part is stored if it has to be. *)
Lemma side_finish d found used ss rs g rec :
  side d found used ss rs g rec None -> NoDup ss -> (forall i, i ∈ ss -> i < length d) ->
  let d' := if found && negb used then store_link d g rec None else d in
  holds d' ss rs None /\ length d' = length d /\ (forall i, i ∉ ss -> d' !! i = d !! i).
Proof.
  intros Hs Hn Hl. destruct found; simpl.
  - pose proof (side_found _ _ _ _ _ _ _ Hs) as Hg. destruct used; simpl.
    + split; [by eapply side_stored|done].
    + split; [by eapply side_store; auto|]. split; [apply store_length|].
      intros i Hi. apply store_same. set_solver.
  - by destruct Hs as (-> & -> & ->).
Qed.

Lemma split_finish_ok d0 half m f vs vr st lf lu hf hu ls hs rl rh :
  split_inv d0 half m f vs vr [] [] st lf lu hf hu ls hs rl rh ->
  holds (split_finish st) ls rl None /\ holds (split_finish st) hs rh None /\
  length (split_finish st) = S m /\
  (forall i, i ∉ m :: vs -> split_finish st !! i = d0 !! i).
Proof.
  intros []. simpl in *. unfold split_finish. rewrite si_flag0.
  rewrite finish_low, finish_high by (by eapply side_used).
  assert (Hnd : NoDup (s_empty st :: ls ++ hs)).
  { rewrite si_perm0. by rewrite app_nil_r in si_nodup0. }
  assert (Hin : forall i, i ∈ ls ++ hs -> i ∈ m :: vs) by (intros i; rewrite <- si_perm0; set_solver).
  assert (Hlt : forall i, i ∈ ls ++ hs -> i < S m).
  { intros i Hi. rewrite app_nil_r, Forall_forall in si_range0.
    cut (i <= m); [lia|]. by apply si_range0, Hin. }
  apply NoDup_cons_1_2, NoDup_app in Hnd as (Hnl & Hdis & Hnh).
  destruct (side_finish (s_data st) lf lu ls rl (s_gpos st) (s_rec st)) as (H1 & H2 & H3); auto.
  { intros i Hi. rewrite si_length0. apply Hlt. set_solver. }
  set (d1 := if lf && negb lu then _ else _) in *.
  assert (Hs1 : side d1 hf hu hs rh (s_gpos2 st) (s_rec2 st) None).
  { destruct hf; [|done]. destruct si_high0 as (s' & r' & -> & -> & Hh & Hu). exists s', r'.
    split_and!; auto.
    - eapply holds_ext; [|exact Hh]. intros i Hi. apply H3. intros Hi'. apply (Hdis i Hi'). set_solver.
    - intros E. rewrite H3; [by apply Hu|]. intros Hi'. apply (Hdis _ Hi'). set_solver. }
  destruct (side_finish d1 hf hu hs rh (s_gpos2 st) (s_rec2 st)) as (H4 & H5 & H6); auto.
  { intros i Hi. rewrite H2, si_length0. apply Hlt. set_solver. }
  split_and!; auto.
  - eapply holds_ext; [|exact H1]. intros i Hi. apply H6. by apply Hdis.
  - congruence.
  - intros i Hi. rewrite H6, H3, si_same0; auto; intros Hi'; apply Hi, Hin; set_solver.
Qed.

(** ** The table after the split *)

Definition splits (home0 home1 : Z -> nat) (half m f : nat) : Prop :=
  forall h, home1 h =
    if home0 h =? f then if (Z.land h (Z.of_nat half) =? 0)%Z then f else m else home0 h.

Lemma table_split d d' home0 home1 half m f slots recs e ls hs rl rh :
  table d home0 m [] slots recs -> splits home0 home1 half m f -> f < m -> length d' = S m ->
  (forall i, i < m -> i ∉ slots f -> d' !! i = d !! i) ->
  e :: ls ++ hs ≡ₚ m :: slots f -> holds d' ls rl None -> holds d' hs rh None ->
  ls = [] \/ (exists t, ls = f :: t) -> hs = [] \/ (exists t, hs = m :: t) ->
  rl ++ rh ≡ₚ recs f -> Forall (is_low half) rl -> Forall (fun r => ~ is_low half r) rh ->
  chained d' home1 (S m) [e] (flat recs m).
Proof.
  intros T Hs Hf Hlen Hsame Hperm Hl Hh Hlhd Hhhd Hr Hlow Hhigh.
  rewrite Forall_forall in Hlow, Hhigh.
  assert (Hflat : forall {A} (g : nat -> list A) (l h : list A),
    flat (<[m := h]> (<[f := l]> g)) (S m) = flat (<[f := l]> g) m ++ h).
  { intros A g l h. rewrite flat_S, fn_lookup_insert. f_equal. apply flat_ext.
    intros c Hc. apply fn_lookup_insert_ne. lia. }
  exists (<[m := hs]> (<[f := ls]> slots)), (<[m := rh]> (<[f := rl]> recs)). split.
  - assert (Hcase : forall (P : nat -> list nat -> list (Z * rptr) -> Prop),
      P m hs rh -> P f ls rl -> (forall c, c < m -> c <> f -> P c (slots c) (recs c)) ->
      forall c, c < S m -> P c ((<[m := hs]> (<[f := ls]> slots) : nat -> list nat) c)
                             ((<[m := rh]> (<[f := rl]> recs) : nat -> list (Z * rptr)) c)).
    { intros P Hm Hff Hc c Hcm. destruct (decide (c = m)) as [-> |]; [by rewrite !fn_lookup_insert|].
      rewrite !(fn_lookup_insert_ne _ m c) by done.
      destruct (decide (c = f)) as [-> |]; [by rewrite !fn_lookup_insert|].
      rewrite !fn_lookup_insert_ne by done. apply Hc; [lia|done]. }
    split; [done|..].
    + rewrite Hflat. apply (Permutation_app_inv_l (slots f)).
      transitivity ([e] ++ (slots f ++ flat (<[f := ls]> slots) m) ++ hs); [solve_Permutation|].
      rewrite flat_insert by done.
      transitivity ((e :: ls ++ hs) ++ flat slots m); [solve_Permutation|].
      rewrite Hperm. pose proof (tb_cover _ _ _ _ _ _ T) as Hc. simpl in Hc. rewrite Hc, seq_S.
      solve_Permutation.
    + apply (Hcase (fun _ s r => holds d' s r None)); auto.
      intros c Hc Hne. eapply holds_ext; [|by apply (tb_holds _ _ _ _ _ _ T)].
      intros i Hi. apply Hsame; [by eapply (tb_not_free _ _ _ _ _ _ T)|].
      intros Hi'. by apply Hne, (tb_disjoint _ _ _ _ _ _ T c f i).
    + apply (Hcase (fun c s _ => s = [] \/ exists t, s = c :: t)); auto.
      intros c Hc _. by apply (tb_head _ _ _ _ _ _ T).
    + intros c r Hc. revert r. apply (Hcase (fun c _ rs => forall r, r ∈ rs -> home1 r.1 = c)); auto.
      * intros r Hin. rewrite Hs, (tb_home _ _ _ _ _ _ T f r), Nat.eqb_refl
          by (done || (rewrite <- Hr; apply elem_of_app; auto)).
        by rewrite (proj2 (Z.eqb_neq _ _) (Hhigh r Hin)).
      * intros r Hin. rewrite Hs, (tb_home _ _ _ _ _ _ T f r), Nat.eqb_refl
          by (done || (rewrite <- Hr; apply elem_of_app; auto)).
        by rewrite (Hlow r Hin).
      * intros c' Hc' Hne r Hin. rewrite Hs, (tb_home _ _ _ _ _ _ T c' r) by done.
        by rewrite (proj2 (Nat.eqb_neq _ _) Hne).
  - rewrite Hflat. apply (Permutation_app_inv_l (recs f)).
    rewrite (assoc_L (++)), flat_insert by done. rewrite <- Hr. solve_Permutation.
Qed.

Lemma split_init d junk home m f slots recs :
  table d home m [] slots recs -> f < m -> slots f <> [] ->
  forall half, split_inv (d ++ [junk]) half m f [] [] (slots f) (recs f)
    (mk_split (d ++ [junk]) 0 0 (0%Z, 0) 0 (0%Z, 0) m) false false false false [] [] [] [].
Proof.
  intros T Hf Hne half. pose proof (tb_length _ _ _ _ _ _ T) as Hlen.
  assert (Hlt : forall i, i ∈ slots f -> i < m) by (intros i Hi; by eapply (tb_not_free _ _ _ _ _ _ T)).
  split; simpl; try done; auto.
  - eapply holds_ext; [|by apply (tb_holds _ _ _ _ _ _ T)]. intros i Hi.
    apply lookup_app_l. rewrite Hlen. by apply Hlt.
  - apply NoDup_cons. split; [|by apply (tb_NoDup_slots _ _ _ _ _ _ T)].
    intros Hi. specialize (Hlt m Hi). lia.
  - rewrite length_app. simpl. lia.
  - apply Forall_cons. split; [lia|]. apply Forall_forall. intros i Hi. specialize (Hlt i Hi). lia.
  - destruct (tb_head _ _ _ _ _ _ T f Hf) as [E|[t E]]; [done|]. by rewrite E.
Qed.

(** A new element and the split make room for one more record. *)
Lemma split_bucket_ok d junk b m R :
  sized b m -> chained d (fun h => my_hash_mask h b m) m [] R ->
  let '(d', e) := split_bucket (d ++ [junk]) b m in
  chained d' (fun h => my_hash_mask h b (S m)) (S m) [e] R.
Proof.
  intros Hsz (slots & recs & T & HR). unfold split_bucket.
  pose proof (tb_length _ _ _ _ _ _ T) as Hlen. destruct (Hsz) as [Hb Hm].
  destruct (Nat.eqb_spec (m - Nat.div2 b) m) as [E|E].
  - assert (m = 0) as ->.
    { destruct (decide (b = 1)) as [-> |Hb1]; [lia|]. destruct (pow2_half b Hb Hb1). lia. }
    exists (fun _ => []), (fun _ => []). split; [|by rewrite <- HR].
    split; try done; [by rewrite length_app, Hlen|by left|set_solver].
  - assert (Hf : m - Nat.div2 b < m) by (remember (Nat.div2 b); lia). set (f := m - Nat.div2 b) in *.
    assert (Hs : splits (fun h => my_hash_mask h b m) (fun h => my_hash_mask h b (S m)) (Nat.div2 b) m f)
      by (intros h; apply mask_grow; [done|lia]).
    pose proof (tb_element _ _ _ _ _ _ T f Hf ltac:(set_solver)) as [_ Hin].
    assert (Hfirst : forall i, i < m -> (d ++ [junk]) !! i = d !! i)
      by (intros i Hi; apply lookup_app_l; lia).
    destruct (tb_head _ _ _ _ _ _ T f Hf) as [Ef|[t Ef]].
    + assert (Hno : my_hash_mask (hash_nr (dynamic_element (d ++ [junk]) f)) b m <> f).
      { unfold dynamic_element in *. rewrite nth_lookup, Hfirst, <- nth_lookup by done.
        intros Eq. rewrite Eq, Ef in Hin. set_solver. }
      destruct m as [|m']; [lia|]. simpl split_loop.
      rewrite (proj2 (Nat.eqb_neq _ _) Hno). simpl.
      pose proof (holds_length _ _ _ _ (tb_holds _ _ _ _ _ _ T f Hf)) as Hl. rewrite Ef in Hl.
      eapply chained_perm; [|exact HR].
      eapply (table_split d _ _ _ _ (S m') f slots recs (S m') [] [] [] [] T Hs Hf);
        auto; simpl; try done.
      * change (length (d ++ [junk]) = S (S m')). rewrite length_app. simpl. lia.
      * by rewrite Ef.
      * destruct (recs f); [done|]. simpl in Hl. lia.
    + pose proof (split_init d junk _ m f slots recs T Hf ltac:(by rewrite Ef) (Nat.div2 b)) as I.
      pose proof (tb_slots_length _ _ _ _ _ _ T f Hf) as Hl. rewrite Ef in I, Hl.
      destruct (split_loop_ok m _ b _ _ _ _ _ _ _ _ _ _ _ _ _ _ _ _ _ I Hl)
        as (lf & lu & hf & hu & ls & hs & rl & rh & I' & _); [|done|].
      { intros _ r Hr. by apply (tb_home _ _ _ _ _ _ T). }
      destruct (split_finish_ok _ _ _ _ _ _ _ _ _ _ _ _ _ _ _ I') as (H1 & H2 & H3 & H4).
      destruct I' as [].
      eapply chained_perm; [|exact HR].
      eapply (table_split d _ _ _ _ m f slots recs _ ls hs rl rh T Hs Hf H3); auto.
      * intros i Hi Hi'. rewrite H4, Hfirst; [done|done|]. rewrite Ef in Hi'. simpl. set_solver by lia.
      * rewrite Ef. by rewrite si_perm0.
Qed.
