(* ===== verification/HashProps.v ===== *)
(** * Hash tables: what the operations do

    The table as a multiset of records: inserting, deleting, updating and searching,
    for every key and hash function that agree. *)

From stdpp Require Import functions.
From S2P Require Import Prelude Hash HashInv HashOps HashSplit.

Local Open Scope nat_scope.

(** Keys that compare as equal have the same hash number, as the hash functions of the
    character sets do. *)
Class KeyHash (hash_function : list Z -> Z) (strnncoll_eq : list Z -> list Z -> bool) : Prop :=
  eq_hash k1 k2 : strnncoll_eq k1 k2 = true -> hash_function k1 = hash_function k2.

Definition rows (hash : HASH) : list rptr := map data (array hash).

(** The bucket of a hash number *)
Definition bucket (hash : HASH) (h : Z) : nat := my_hash_mask h (blength hash) (records hash).

(** The array is a table for the hash numbers that are stored in it. *)
Record links_ok (hash : HASH) : Prop := {
  lo_sized : sized (blength hash) (records hash);
  lo_chained : exists R, chained (array hash) (bucket hash) (records hash) [] R;
}.

Lemma rows_recs hash R :
  chained (array hash) (bucket hash) (records hash) [] R -> rows hash ≡ₚ map snd R.
Proof.
  intros H%chained_records. unfold rows. rewrite <- H, map_map. by apply (reflexive_eq (R := (≡ₚ))), map_ext.
Qed.

Lemma links_length hash : links_ok hash -> length (array hash) = records hash.
Proof. intros [_ [R HR]]. by eapply chained_length. Qed.

Lemma bucket_lt hash h : links_ok hash -> records hash <> 0 -> bucket hash h < records hash.
Proof. intros [[Hb Hs] _] Hn. apply mask_lt; [done|lia|lia]. Qed.

Section Keys.
Context (memory : rptr -> list Z) (get_key : option (rptr -> list Z)).
Context (hash_function : list Z -> Z) (strnncoll_eq : list Z -> list Z -> bool).

Notation key_of := (my_hash_key memory get_key).
Notation hashnr_of := (rec_hashnr memory get_key hash_function).

Record hash_ok (hash : HASH) : Prop := {
  ok_links : links_ok hash;
  ok_keys : Forall (fun l => hash_nr l = hashnr_of hash (data l)) (array hash);
}.

Definition matches (hash : HASH) (k : list Z) (x : rptr) : Prop :=
  strnncoll_eq (key_of hash x) k = true.

#[global] Instance matches_dec hash k x : Decision (matches hash k x).
Proof. unfold matches. apply _. Defined.

(** ** Walking a chain *)

Lemma given_whole hash k : given_key hash k (length k) = k.
Proof. unfold given_key. destruct k; simpl; [by destruct (key_length hash)|]. f_equal. apply firstn_all. Qed.

Notation search := (search_loop memory get_key strnncoll_eq).

(** The search finds the first record of the chain that matches. *)
Lemma search_loop_spec fuel hash k i s r flag :
  holds (array hash) (i :: s) r None -> length (i :: s) <= fuel ->
  (flag = true -> bucket hash (hash_nr (dynamic_element (array hash) i)) = i) ->
  match search fuel hash k i flag with
  | Some j => exists s1 s2 r1 x r2, i :: s = s1 ++ j :: s2 /\ r = r1 ++ x :: r2 /\
      (array hash) !! j = Some (mk_hlink (hd_or s2 None) x.1 x.2) /\
      holds (array hash) s2 r2 None /\ matches hash k x.2 /\
      Forall (fun y => ~ matches hash k y.2) r1
  | None => Forall (fun y => ~ matches hash k y.2) r
  end.
Proof.
  revert i s r flag. induction fuel as [|fuel IH]; intros i s r flag H Hf Hflag; [simpl in Hf; lia|].
  destruct r as [|x r]; [done|]. destruct H as [Hi H]. simpl. rewrite (element_lookup _ _ _ Hi) in *.
  simpl in *. unfold hashcmp. simpl. rewrite negb_involutive.
  destruct (strnncoll_eq (key_of hash x.2) k) eqn:E.
  - exists [], s, [], x, r. by split_and!.
  - assert (Hx : ~ matches hash k x.2) by (unfold matches; congruence).
    assert (Hg : flag && negb (my_hash_rec_mask (mk_hlink (hd_or s None) x.1 x.2) (blength hash)
                   (records hash) =? i) = false).
    { destruct flag; [|done]. simpl. unfold my_hash_rec_mask. simpl.
      fold (bucket hash x.1). by rewrite (proj2 (Nat.eqb_eq _ _) (Hflag eq_refl)). }
    rewrite Hg. destruct s as [|j s]; simpl.
    + destruct r; [|done]. auto.
    + specialize (IH j s r false H ltac:(simpl in *; lia) ltac:(done)).
      destruct (search fuel hash k j false) as [j'|].
      * destruct IH as (s1 & s2 & r1 & y & r2 & E1 & -> & H1 & H2 & H3 & H4).
        exists (i :: s1), s2, (x :: r1), y, r2. rewrite E1. split_and!; auto.
      * auto.
Qed.

Notation first_hv := (my_hash_first_from_hash_value memory get_key strnncoll_eq).
Notation hnext := (my_hash_next memory get_key strnncoll_eq).

(** All records a caller gets with my_hash_first and my_hash_next *)
Fixpoint collect (fuel : nat) (hash : HASH) (key : list Z) (len : nat)
    (res : option rptr * option nat) : list rptr :=
  match fuel, res with
  | S fuel', (Some x, state) => x :: collect fuel' hash key len (hnext hash key len state)
  | _, _ => []
  end.

Definition matching (hash : HASH) (k : list Z) (r : list (Z * rptr)) : list rptr :=
  filter (matches hash k) (map snd r).

Lemma matching_cut hash k r1 x r2 :
  matches hash k x.2 -> Forall (fun y => ~ matches hash k y.2) r1 ->
  matching hash k (r1 ++ x :: r2) = x.2 :: matching hash k r2.
Proof.
  intros Hx H. unfold matching. induction r1 as [|y r1 IH]; simpl.
  - by rewrite filter_cons_True.
  - apply Forall_cons in H as [Hy H]. rewrite filter_cons_False by done. by apply IH.
Qed.

Lemma matching_none hash k r :
  Forall (fun y => ~ matches hash k y.2) r -> matching hash k r = [].
Proof.
  unfold matching. induction 1 as [|y r Hy _ IH]; [done|]. simpl. by rewrite filter_cons_False.
Qed.

Lemma collect_chain fuel hash key len i s r flag :
  holds (array hash) (i :: s) r None -> length (i :: s) <= records hash -> length r < fuel ->
  (flag = true -> bucket hash (hash_nr (dynamic_element (array hash) i)) = i) ->
  collect fuel hash key len
    (found hash (search (records hash) hash (given_key hash key len) i flag)) =
  matching hash (given_key hash key len) r.
Proof.
  revert i s r flag. induction fuel as [|fuel IH]; intros i s r flag H Hl Hf Hflag; [lia|].
  pose proof (search_loop_spec (records hash) hash (given_key hash key len) i s r flag H Hl Hflag) as Hs.
  destruct (search _ _ _ _ _) as [j|].
  - destruct Hs as (s1 & s2 & r1 & x & r2 & E & -> & Hj & H2 & Hx & H1).
    rewrite matching_cut by done. unfold found. simpl. rewrite (element_lookup _ _ _ Hj). simpl.
    f_equal. apply (f_equal length) in E. rewrite !length_app in *. simpl in *.
    destruct s2 as [|j' s2]; simpl.
    + destruct r2; [|done]. destruct fuel; done.
    + apply (IH j' s2); [done|simpl in *; lia|lia|done].
  - by rewrite (matching_none _ _ r Hs).
Qed.

Lemma matching_app hash k r1 r2 :
  matching hash k (r1 ++ r2) = matching hash k r1 ++ matching hash k r2.
Proof. unfold matching. by rewrite map_app, filter_app. Qed.

Lemma matching_flat hash k (recs : nat -> list (Z * rptr)) n c :
  (forall c', c' < n -> c' <> c -> matching hash k (recs c') = []) ->
  matching hash k (flat recs n) = if decide (c < n) then matching hash k (recs c) else [].
Proof.
  induction n as [|n IH]; intros H; [by rewrite decide_False by lia|].
  rewrite flat_S, matching_app, IH by (intros; apply H; lia).
  destruct (decide (n = c)) as [-> |Hn].
  - by rewrite decide_False, decide_True by lia.
  - rewrite (H n), app_nil_r by lia. repeat case_decide; done || lia.
Qed.

Context `{!KeyHash hash_function strnncoll_eq}.

Lemma keyed_recs hash slots recs c r :
  table (array hash) (bucket hash) (records hash) [] slots recs ->
  Forall (fun l => hash_nr l = hashnr_of hash (data l)) (array hash) ->
  c < records hash -> r ∈ recs c -> r.1 = hashnr_of hash r.2.
Proof.
  intros T Hk Hc Hr.
  pose proof (holds_recs _ _ _ _ (tb_holds _ _ _ _ _ _ T c Hc)) as E. rewrite E in Hr.
  apply list_elem_of_fmap in Hr as (i & -> & Hi).
  destruct (tb_bucket _ _ _ _ _ _ T c i Hc Hi) as (o & x & _ & Hd & _).
  rewrite (element_lookup _ _ _ Hd). simpl.
  rewrite Forall_forall in Hk. apply (Hk _ (list_elem_of_lookup_2 _ _ _ Hd)).
Qed.

Lemma match_hash hash k x : matches hash k x -> hashnr_of hash x = hash_function k.
Proof using KeyHash0. intros H. unfold rec_hashnr. by apply eq_hash. Qed.

(** The records with a key are all in the bucket of its hash number. *)
Lemma matching_bucket hash slots recs k :
  table (array hash) (bucket hash) (records hash) [] slots recs ->
  Forall (fun l => hash_nr l = hashnr_of hash (data l)) (array hash) ->
  records hash <> 0 -> links_ok hash ->
  matching hash k (flat recs (records hash)) =
  matching hash k (recs (bucket hash (hash_function k))).
Proof using KeyHash0.
  intros T Hk Hn Hok. rewrite (matching_flat hash k recs _ (bucket hash (hash_function k))).
  - by rewrite decide_True by (by apply bucket_lt).
  - intros c Hc Hne. apply matching_none, Forall_forall. intros r Hr Hm. apply Hne.
    rewrite <- (tb_home _ _ _ _ _ _ T c r Hc Hr), (keyed_recs hash slots recs c r T Hk Hc Hr).
    f_equal. by apply match_hash.
Qed.

Lemma filter_rows hash k slots recs :
  table (array hash) (bucket hash) (records hash) [] slots recs ->
  filter (matches hash k) (rows hash) ≡ₚ matching hash k (flat recs (records hash)).
Proof.
  intros T. unfold matching. by rewrite (rows_recs hash (flat recs (records hash))) by (by exists slots, recs).
Qed.

Notation first := (my_hash_first memory get_key hash_function strnncoll_eq).

Lemma collect_first hash key len :
  hash_ok hash ->
  collect (S (records hash)) hash key len (first hash key len) ≡ₚ
    filter (matches hash (given_key hash key len)) (rows hash).
Proof using KeyHash0.
  intros [Hl Hk]. destruct (lo_chained _ Hl) as (R & slots & recs & T & _).
  rewrite (filter_rows hash _ slots recs T). unfold my_hash_first, my_hash_first_from_hash_value.
  set (k := given_key hash key len). destruct (Nat.eqb_spec (records hash) 0) as [E|E].
  - rewrite E. done.
  - rewrite (matching_bucket hash slots recs k T Hk E Hl).
    set (c := bucket hash (hash_function k)). fold (bucket hash (hash_function k)). fold c.
    assert (Hc : c < records hash) by (by apply bucket_lt).
    destruct (tb_head _ _ _ _ _ _ T c Hc) as [Es|[t Es]].
    + assert (Hno : c ∉ slots c) by (rewrite Es; set_solver).
      destruct (tb_empty _ _ _ _ _ _ T c Hc Hno) as [_ ->].
      destruct (lookup_lt_is_Some_2 (array hash) c) as [l Hlk];
        [by rewrite (tb_length _ _ _ _ _ _ T)|].
      destruct (tb_element _ _ _ _ _ _ T c Hc ltac:(set_solver)) as [Hb Hin].
      rewrite (element_lookup _ _ _ Hlk) in Hb, Hin.
      assert (Hbc : bucket hash (hash_nr l) <> c) by (intros Eb; by rewrite Eb in Hin).
      assert (Hnm : ~ matches hash k (data l)).
      { intros Hm. apply Hbc. rewrite Forall_forall in Hk.
        rewrite (Hk l (list_elem_of_lookup_2 _ _ _ Hlk)). unfold c. f_equal. by apply match_hash. }
      destruct (records hash) as [|n] eqn:En; [lia|]. simpl. rewrite (element_lookup _ _ _ Hlk).
      unfold hashcmp. rewrite negb_involutive. unfold matches in Hnm. apply not_true_is_false in Hnm.
      fold k. rewrite Hnm. unfold my_hash_rec_mask. rewrite En. simpl.
      unfold bucket in Hbc. rewrite En in Hbc. by rewrite (proj2 (Nat.eqb_neq _ _) Hbc).
    + pose proof (tb_holds _ _ _ _ _ _ T c Hc) as Hh.
      pose proof (tb_slots_length _ _ _ _ _ _ T c Hc) as Hlen. rewrite Es in Hh, Hlen.
      rewrite (collect_chain _ hash key len c t (recs c)); [done|done|done| |].
      * rewrite <- (holds_length _ _ _ _ Hh). lia.
      * intros _. destruct (tb_bucket _ _ _ _ _ _ T c c Hc) as (? & ? & _ & _ & ?); [|done].
        rewrite Es. set_solver.
Qed.

Lemma first_none hash key len :
  hash_ok hash ->
  (first hash key len).1 = None <->
  forall x, x ∈ rows hash -> ~ matches hash (given_key hash key len) x.
Proof using KeyHash0.
  intros Hok. pose proof (collect_first hash key len Hok) as H.
  destruct (first hash key len) as [[x|] st]; simpl in *; split; intros Hx; try done.
  - exfalso. assert (Hin : x ∈ filter (matches hash (given_key hash key len)) (rows hash))
      by (rewrite <- H; set_solver).
    apply list_elem_of_filter in Hin as [Hm Hin]. by apply (Hx x).
  - intros y Hy Hm.
    assert (Hin : y ∈ filter (matches hash (given_key hash key len)) (rows hash))
      by (by apply list_elem_of_filter).
    rewrite <- H in Hin. set_solver.
Qed.

(** C22: the calls my_hash_first, my_hash_next, ... return exactly the records of the
    table whose key is the given one, each as often as it is in the table, and then
    none; my_hash_search finds a record if and only if there is one. *)
Theorem hash_search_correct hash key len :
  hash_ok hash ->
  collect (S (records hash)) hash key len (first hash key len) ≡ₚ
    filter (matches hash (given_key hash key len)) (rows hash) /\
  (my_hash_search memory get_key hash_function strnncoll_eq hash key len = None <->
   forall x, x ∈ rows hash -> ~ matches hash (given_key hash key len) x).
Proof using KeyHash0.
  intros Hok. split; [by apply collect_first|by apply first_none].
Qed.

(** ** Inserting *)

Lemma hash_ok_intro hash R :
  sized (blength hash) (records hash) ->
  chained (array hash) (bucket hash) (records hash) [] R ->
  Forall (fun r => r.1 = hashnr_of hash r.2) R -> hash_ok hash.
Proof.
  intros Hs HR Hk. split; [by split; [|eexists]|].
  rewrite <- (chained_records _ _ _ _ HR) in Hk. by rewrite Forall_map in Hk.
Qed.

Lemma hash_ok_recs hash R :
  hash_ok hash -> chained (array hash) (bucket hash) (records hash) [] R ->
  Forall (fun r => r.1 = hashnr_of hash r.2) R.
Proof.
  intros [_ Hk] HR. rewrite <- (chained_records _ _ _ _ HR). by rewrite Forall_map.
Qed.

Definition is_unique (hash : HASH) : bool := has_flag (flags hash) HASH_UNIQUE.

(** What my_hash_insert stores when it does not fail *)
Lemma insert_done junk info record :
  hash_ok info ->
  let '(d, e) := split_bucket (array info ++ [junk]) (blength info) (records info) in
  let info' := set_array info
    (if S (records info) =? blength info then blength info + blength info else blength info)
    (S (records info))
    (insert_record d (blength info) (S (records info)) e (hashnr_of info record) record) in
  hash_ok info' /\ rows info' ≡ₚ record :: rows info.
Proof using.
  clear KeyHash0 strnncoll_eq.
  intros Hok. set (k := key_of info record).
  destruct (lo_chained _ (ok_links _ Hok)) as [R HR].
  pose proof (lo_sized _ (ok_links _ Hok)) as Hsz.
  pose proof (split_bucket_ok (array info) junk (blength info) (records info) R Hsz HR) as Hsplit.
  destruct (split_bucket _ _ _) as [d e].
  assert (Hlt : forall h, my_hash_mask h (blength info) (S (records info)) < S (records info)).
  { intros h. destruct Hsz. apply mask_lt; [done|lia|lia]. }
  assert (He : e < S (records info)).
  { destruct Hsplit as (s' & r' & T' & _). pose proof (tb_cover _ _ _ _ _ _ T') as Hc.
    assert (e ∈ seq 0 (S (records info))) as ?%elem_of_seq; [rewrite <- Hc; set_solver|lia]. }
  pose proof (insert_record_ok d (blength info) (S (records info)) e (hash_function k) record R
    Hsplit Hlt He) as Hins.
  destruct (sized_grow (blength info) (records info) Hsz) as [Hsz' Hmask].
  cbv zeta. change (hashnr_of info record) with (hash_function k). set (info' := set_array _ _ _ _).
  assert (HR' : chained (array info') (bucket info') (records info') []
    ((hash_function k, record) :: R)) by (eapply chained_home; [exact Hins|]; intros h; apply Hmask).
  split.
  - apply (hash_ok_intro info' _ Hsz' HR'). apply Forall_cons. split; [done|].
    by apply (hash_ok_recs info).
  - by rewrite (rows_recs info' _ HR'), (rows_recs info _ HR).
Qed.

(** C19: my_hash_insert adds exactly the given record, and the table stays a linear hash
    table in which every record can be found; it fails, without a change, if and only
    if the table is unique and has a record with an equal key, or memory is out. *)
Theorem hash_insert_correct oom junk info record :
  hash_ok info ->
  let '(err, info') :=
    my_hash_insert memory get_key hash_function strnncoll_eq oom junk info record in
  hash_ok info' /\ (err = false -> rows info' ≡ₚ record :: rows info) /\
  (err = true -> info' = info) /\
  (err = true <-> oom = true \/
     (is_unique info = true /\ exists x, x ∈ rows info /\ matches info (key_of info record) x)).
Proof using KeyHash0.
  intros Hok. unfold my_hash_insert. fold (is_unique info).
  set (k := key_of info record). unfold my_hash_search_using_hash_value.
  assert (Hdup : is_Some (first_hv info (hash_function k) k (length k)).1 <->
    exists x, x ∈ rows info /\ matches info k x).
  { pose proof (first_none info k (length k) Hok) as Hn. unfold my_hash_first in Hn.
    rewrite given_whole in Hn. destruct (first_hv _ _ _ _) as [[x|] st]; simpl in *.
    - split; [|by eexists]. intros _. destruct (Exists_dec (matches info k) (rows info)) as [He|He].
      + by apply Exists_exists in He.
      + exfalso. assert (Some x = None); [|done]. apply Hn. intros y Hy Hm. apply He, Exists_exists. eauto.
    - split; [by intros [? ?]|]. intros (x & Hx & Hm). by destruct (proj1 Hn eq_refl x Hx). }
  destruct (is_unique info && bool_decide _) eqn:E.
  { apply andb_true_iff in E as [E1 E2%bool_decide_eq_true]. naive_solver. }
  assert (Hno : ~ (is_unique info = true /\ exists x, x ∈ rows info /\ matches info k x)).
  { intros [E1 E2]. rewrite E1 in E. simpl in E. apply bool_decide_eq_false in E. by apply E, Hdup. }
  destruct oom; [naive_solver|].
  pose proof (insert_done junk info record Hok) as Hdone.
  destruct (split_bucket _ _ _) as [d e]. destruct Hdone as [Hok' Hrows].
  split_and!; [done|intros _; done|done|naive_solver].
Qed.

(** ** Deleting *)

Lemma rows_table hash slots recs x :
  table (array hash) (bucket hash) (records hash) [] slots recs ->
  x ∈ rows hash <-> exists c r, c < records hash /\ r ∈ recs c /\ r.2 = x.
Proof.
  intros T. rewrite (rows_recs hash (flat recs (records hash))) by (by exists slots, recs).
  rewrite list_elem_of_fmap. split.
  - intros (r & -> & (c & Hc & Hr)%elem_of_flat). eauto.
  - intros (c & r & Hc & Hr & <-). exists r. split; [done|]. apply elem_of_flat. eauto.
Qed.

(** The walk from the bucket of the key finds the record if it is in the table. *)
Lemma find_record_ok hash slots recs record :
  hash_ok hash -> records hash <> 0 ->
  table (array hash) (bucket hash) (records hash) [] slots recs ->
  let c := bucket hash (hashnr_of hash record) in
  match find_record (records hash) (array hash) record c None with
  | Some (idx, prev) => exists s1 s2, slots c = s1 ++ idx :: s2 /\
      data (dynamic_element (array hash) idx) = record /\ prev = last s1
  | None => record ∉ rows hash
  end.
Proof using.
  clear KeyHash0 strnncoll_eq.
  intros [Hl Hk] Hn T c. assert (Hc : c < records hash) by (by apply bucket_lt).
  assert (Hhome : forall c' r, c' < records hash -> r ∈ recs c' -> r.2 = record -> c' = c).
  { intros c' r Hc' Hr E. rewrite <- (tb_home _ _ _ _ _ _ T c' r Hc' Hr).
    by rewrite (keyed_recs hash slots recs c' r T Hk Hc' Hr), E. }
  destruct (tb_head _ _ _ _ _ _ T c Hc) as [Es|[t Es]].
  - destruct (tb_element _ _ _ _ _ _ T c Hc ltac:(set_solver)) as [Hb Hin].
    set (c' := bucket hash _) in Hb, Hin. pose proof (tb_holds _ _ _ _ _ _ T c' Hb) as Hh.
    pose proof (tb_slots_length _ _ _ _ _ _ T c' Hb) as Hlen.
    apply list_elem_of_split in Hin as (s1 & s2 & Es'). rewrite Es' in Hh, Hlen.
    destruct (holds_cut _ _ _ _ _ _ Hh) as (r1 & x & r2 & Er & _ & _ & Hx & H2).
    rewrite length_app in Hlen. simpl in Hlen.
    pose proof (find_record_holds (records hash) (array hash) record c s2 (x :: r2) None None
      (conj Hx H2) ltac:(simpl; lia) eq_refl) as Hf.
    assert (Hout : record ∉ rows hash).
    { intros (c1 & r & Hc1 & Hr & E)%(rows_table hash slots recs _ T).
      assert (c1 = c) as -> by eauto. assert (Hno : c ∉ slots c) by (rewrite Es; set_solver).
      destruct (tb_empty _ _ _ _ _ _ T c Hc Hno) as [_ Er0]. rewrite Er0 in Hr. set_solver. }
    destruct (find_record _ _ _ _ _) as [[idx prev]|]; [|done]. exfalso. apply Hout.
    destruct Hf as (t1 & t2 & E & <- & _).
    assert (Hidx : idx ∈ slots c') by (rewrite Es', E; set_solver).
    destruct (tb_bucket _ _ _ _ _ _ T c' idx Hb Hidx) as (o & y & Hy & Hd & _).
    apply (rows_table hash slots recs _ T). exists c', y. by rewrite (element_lookup _ _ _ Hd).
  - pose proof (tb_holds _ _ _ _ _ _ T c Hc) as Hh.
    pose proof (tb_slots_length _ _ _ _ _ _ T c Hc) as Hlen. rewrite Es in Hh, Hlen |- *.
    pose proof (find_record_holds (records hash) (array hash) record c t (recs c) None None Hh Hlen
      eq_refl) as Hf.
    destruct (find_record _ _ _ _ _) as [[idx prev]|].
    + destruct Hf as (s1 & s2 & E & Hd & ->). exists s1, s2. split_and!; auto. by destruct (last s1).
    + intros (c1 & r & Hc1 & Hr & E)%(rows_table hash slots recs _ T).
      assert (c1 = c) as -> by eauto. by apply (Hf r).
Qed.

Lemma mask_merges b m :
  sized b m -> m <> 0 ->
  merges (fun h => my_hash_mask h b (S m)) (fun h => my_hash_mask h b m) m (m - Nat.div2 b) /\
  m - Nat.div2 b < m.
Proof.
  intros Hs Hm. destruct (Hs) as [Hb Hd].
  assert (Hb1 : b <> 1) by lia. destruct (pow2_half b Hb Hb1) as [Hh%pow2_pos _].
  split; [|remember (Nat.div2 b); lia]. intros h. rewrite (mask_grow h b m Hs) by lia.
  pose proof (mask_lt h b m Hb) as Hlt. specialize (Hlt ltac:(lia) ltac:(lia)).
  set (f := m - Nat.div2 b) in *. assert (Hf : f < m) by (unfold f; remember (Nat.div2 b); lia).
  destruct (Nat.eqb_spec (my_hash_mask h b m) f) as [E|E].
  - destruct (_ =? 0)%Z; [by rewrite (proj2 (Nat.eqb_neq f m)) by lia|by rewrite Nat.eqb_refl].
  - by rewrite (proj2 (Nat.eqb_neq _ m)) by lia.
Qed.

(** C20: my_hash_delete removes one link to the given record and nothing else, moves the
    last record so that the array has no gap, keeps the table in order and frees the
    record if asked for; it fails, without a change, if and only if the record is not
    in the table. *)
Theorem hash_delete_correct hash record :
  hash_ok hash ->
  let '(err, hash', freed) := my_hash_delete memory get_key hash_function hash record in
  hash_ok hash' /\ (err = true <-> record ∉ rows hash) /\
  (err = true -> hash' = hash /\ freed = []) /\
  (err = false -> rows hash ≡ₚ record :: rows hash' /\
     freed = if has_free hash then [record] else []).
Proof using.
  clear KeyHash0 strnncoll_eq.
  intros Hok. unfold my_hash_delete.
  destruct (lo_chained _ (ok_links _ Hok)) as (R & slots & recs & T & HR).
  destruct (Nat.eqb_spec (records hash) 0) as [E|E].
  { split_and!; try done. split; [|done]. intros _ H.
    apply (rows_table hash slots recs _ T) in H as (c & r & Hc & _). lia. }
  pose proof (find_record_ok hash slots recs record Hok E T) as Hf. cbv zeta in Hf.
  fold (bucket hash (hashnr_of hash record)).
  destruct (find_record _ _ _ _ _) as [[idx prev]|]; [|split_and!; [done|by split|done|done]].
  destruct Hf as (s1 & s2 & Es & Hd & ->).
  pose proof (bucket_lt hash (hashnr_of hash record) (ok_links _ Hok) E) as Hc.
  pose proof (unlink_ok _ _ _ _ _ _ _ _ _ T Hc Es) as Hu.
  destruct (unlink _ _ _) as [d1 e]. destruct Hu as (He & _ & R' & HR' & Hperm).
  destruct (records hash) as [|m] eqn:En; [lia|]. replace (S m - 1) with m by lia.
  pose proof (lo_sized _ (ok_links _ Hok)) as Hsz. rewrite En in Hsz.
  destruct (sized_shrink _ _ Hsz) as [Hsz' Hmask]. set (b' := if m <? _ then _ else _) in *.
  pose proof (mask_merges b' m Hsz') as Hmerge.
  assert (Hlast : chained (take m (move_last d1 (blength hash) b' m e))
    (fun h => my_hash_mask h b' m) m [] R').
  { apply move_last_ok; [|lia|].
    - eapply chained_home; [exact HR'|]. intros h. unfold bucket. by rewrite En.
    - intros Hm. destruct (Hmerge Hm) as [H1 H2]. split; [|done].
      intros h. rewrite Hmask. apply H1. }
  set (hash' := set_array _ _ _ _).
  assert (Hin : rows hash ≡ₚ record :: map snd R').
  { rewrite (rows_recs hash (flat recs (S m))) by (exists slots, recs; by rewrite En).
    rewrite Hperm. simpl. by rewrite Hd. }
  split_and!; try done.
  - apply (hash_ok_intro hash' R' Hsz' Hlast).
    assert (Hk : Forall (fun r => r.1 = hashnr_of hash r.2) (flat recs (S m)))
      by (apply hash_ok_recs; [done|]; exists slots, recs; by rewrite En).
    rewrite Hperm in Hk. by apply Forall_cons in Hk as [_ ?].
  - split; [done|]. intros Hn. destruct Hn. rewrite Hin. set_solver.
  - intros _. split; [|done]. by rewrite Hin, (rows_recs hash' R' Hlast).
Qed.

(** ** Updating *)

Lemma other_collect fuel hash record k res :
  other_loop memory get_key strnncoll_eq fuel hash record k res =
  existsb (fun x => negb (x =? record)) (collect fuel hash k (length k) res).
Proof.
  revert res. induction fuel as [|fuel IH]; intros [[x|] st]; try done. simpl.
  destruct (negb (x =? record)); [done|]. apply IH.
Qed.

(** A search that starts in the chain of another bucket stops, unless the first record
    matches. *)
Lemma collect_start hash key len i s x r :
  holds (array hash) (i :: s) (x :: r) None -> length (i :: s) <= records hash ->
  let L := collect (S (records hash)) hash key len
             (found hash (search (records hash) hash (given_key hash key len) i true)) in
  L = matching hash (given_key hash key len) (x :: r) \/ (bucket hash x.1 <> i /\ L = []).
Proof.
  intros H Hl L. pose proof (holds_length _ _ _ _ H) as Hlr. destruct (H) as [Hi _].
  assert (Hc : forall flag, (flag = true -> bucket hash x.1 = i) ->
    collect (S (records hash)) hash key len
      (found hash (search (records hash) hash (given_key hash key len) i flag)) =
    matching hash (given_key hash key len) (x :: r)).
  { intros flag Hf. apply (collect_chain _ hash key len i s); [done|done|lia|].
    rewrite (element_lookup _ _ _ Hi). done. }
  destruct (decide (bucket hash x.1 = i)) as [E|E]; [left; by apply Hc|].
  destruct (decide (matches hash (given_key hash key len) x.2)) as [Hm|Hm].
  - left. rewrite <- (Hc false) by done. unfold L. do 2 f_equal.
    destruct (records hash) as [|n]; [simpl in Hl; lia|]. simpl.
    rewrite (element_lookup _ _ _ Hi). unfold hashcmp. simpl. unfold matches in Hm. by rewrite Hm.
  - right. split; [done|]. unfold L. clear L Hc.
    destruct (records hash) as [|n] eqn:En; [simpl in Hl; lia|]. simpl.
    rewrite (element_lookup _ _ _ Hi). unfold hashcmp. simpl. unfold matches in Hm.
    apply not_true_is_false in Hm. rewrite Hm. unfold my_hash_rec_mask. simpl.
    fold (bucket hash x.1). by rewrite (proj2 (Nat.eqb_neq _ _) E).
Qed.

Lemma matching_elem hash slots recs k c r1 r2 x :
  table (array hash) (bucket hash) (records hash) [] slots recs ->
  c < records hash -> recs c = r1 ++ r2 -> x ∈ matching hash k r2 ->
  x ∈ rows hash /\ matches hash k x.
Proof.
  intros T Hc E [Hm (r & -> & Hr)%list_elem_of_fmap]%list_elem_of_filter. split; [|done].
  apply (rows_table hash slots recs _ T). exists c, r. rewrite E. set_solver.
Qed.

(** The search for another record with the new key, in a table where the hash number
    of [record] may not be that of its key any more *)
Lemma other_record hash slots recs record k :
  links_ok hash -> table (array hash) (bucket hash) (records hash) [] slots recs ->
  (forall c r, c < records hash -> r ∈ recs c -> r.2 <> record -> r.1 = hashnr_of hash r.2) ->
  other_loop memory get_key strnncoll_eq (S (records hash)) hash record k
    (first_hv hash (hash_function k) k (length k)) = true <->
  exists x, x ∈ rows hash /\ x <> record /\ matches hash k x.
Proof using KeyHash0.
  intros Hl T Hk. rewrite other_collect, existsb_exists.
  enough (Hgoal : let L := collect (S (records hash)) hash k (length k)
                             (first_hv hash (hash_function k) k (length k)) in
    (forall x, x ∈ L -> x ∈ rows hash /\ matches hash k x) /\
    (forall x, x ∈ rows hash -> x <> record -> matches hash k x -> x ∈ L)).
  { destruct Hgoal as [Hsub Hsup]. split.
    - intros (x & Hx%list_elem_of_In & E%negb_true_iff%Nat.eqb_neq). destruct (Hsub x Hx). eauto.
    - intros (x & Hx & Hne & Hm). exists x. rewrite <- list_elem_of_In. split; [auto|].
      by apply negb_true_iff, Nat.eqb_neq. }
  intros L. unfold L, my_hash_first_from_hash_value. clear L. fold (bucket hash (hash_function k)).
  destruct (Nat.eqb_spec (records hash) 0) as [E|E].
  { split; [set_solver|]. intros x (c & r & Hc & _)%(rows_table hash slots recs _ T). lia. }
  set (c := bucket hash (hash_function k)). assert (Hc : c < records hash) by (by apply bucket_lt).
  assert (Hhome : forall x, x ∈ rows hash -> x <> record -> matches hash k x -> x ∈ matching hash k (recs c)).
  { intros x (c1 & r & Hc1 & Hr & <-)%(rows_table hash slots recs _ T) Hne Hm.
    assert (c1 = c) as ->.
    { rewrite <- (tb_home _ _ _ _ _ _ T c1 r Hc1 Hr), (Hk c1 r Hc1 Hr Hne). unfold c.
      f_equal. by apply match_hash. }
    apply list_elem_of_filter. split; [done|]. apply list_elem_of_fmap. eauto. }
  destruct (tb_element _ _ _ _ _ _ T c Hc ltac:(set_solver)) as [Hb Hin].
  set (c' := bucket hash (hash_nr _)) in Hb, Hin.
  pose proof (tb_holds _ _ _ _ _ _ T c' Hb) as Hh.
  pose proof (tb_slots_length _ _ _ _ _ _ T c' Hb) as Hlen.
  apply list_elem_of_split in Hin as (s1 & s2 & Es). rewrite Es in Hh, Hlen.
  destruct (holds_cut _ _ _ _ _ _ Hh) as (r1 & x & r2 & Er & Hlr & _ & Hx & H2).
  rewrite length_app in Hlen. simpl in Hlen.
  assert (Hc' : bucket hash x.1 = c') by (unfold c'; by rewrite (element_lookup _ _ _ Hx)).
  destruct (collect_start hash k (length k) c s2 x r2 (conj Hx H2)) as [EL|[Hne EL]];
    [simpl; lia|..]; rewrite EL, ?given_whole; clear EL.
  - split; [intros y; by apply (matching_elem hash slots recs k c' r1)|].
    intros y Hy Hyr Hm. pose proof (Hhome y Hy Hyr Hm) as Hy'.
    destruct (decide (c' = c)) as [Ec|Ec].
    + destruct (tb_head _ _ _ _ _ _ T c Hc) as [E0|[t E0]]; rewrite Ec, E0 in Es;
        [by destruct s1|]. rewrite Ec in Er.
      assert (s1 = []) as ->.
      { pose proof (tb_NoDup_slots _ _ _ _ _ _ T c Hc) as Hnd. rewrite E0, Es in Hnd.
        destruct s1 as [|v s1]; [done|]. injection Es as <- _.
        apply NoDup_cons in Hnd as [Hnd _]. set_solver. }
      destruct r1; [|done]. by rewrite Er in Hy'.
    + assert (Hno : c ∉ slots c).
      { intros Hcc. apply Ec. rewrite <- Hc'.
        destruct (tb_bucket _ _ _ _ _ _ T c c Hc Hcc) as (? & ? & _ & _ & Hbb).
        by rewrite (element_lookup _ _ _ Hx) in Hbb. }
      destruct (tb_empty _ _ _ _ _ _ T c Hc Hno) as [_ E0]. rewrite E0 in Hy'. set_solver.
  - split; [set_solver|]. intros y Hy Hyr Hm. pose proof (Hhome y Hy Hyr Hm) as Hy'.
    assert (Hno : c ∉ slots c).
    { intros Hcc. apply Hne.
      destruct (tb_bucket _ _ _ _ _ _ T c c Hc Hcc) as (? & ? & _ & _ & Hbb).
      by rewrite (element_lookup _ _ _ Hx) in Hbb. }
    destruct (tb_empty _ _ _ _ _ _ T c Hc Hno) as [_ E0]. rewrite E0 in Hy'. set_solver.
Qed.
End Keys.

(** The record at [idx] has been stored again, with the hash number of its new key. *)
Lemma update_done memory get_key hash_function hash slots recs record idx d' R' :
  links_ok hash -> NoDup (rows hash) ->
  table (array hash) (bucket hash) (records hash) [] slots recs ->
  (forall c r, c < records hash -> r ∈ recs c -> r.2 <> record ->
     r.1 = rec_hashnr memory get_key hash_function hash r.2) ->
  data (dynamic_element (array hash) idx) = record ->
  chained d' (bucket hash) (records hash) []
    ((rec_hashnr memory get_key hash_function hash record, record) :: R') ->
  flat recs (records hash) ≡ₚ rec_of (dynamic_element (array hash) idx) :: R' ->
  let hash' := set_array hash (blength hash) (records hash) d' in
  hash_ok memory get_key hash_function hash' /\ rows hash' ≡ₚ rows hash /\ record ∈ rows hash.
Proof.
  intros Hl Hnd T Hkeys Hd HR' Hperm hash'.
  assert (Hrows : rows hash ≡ₚ record :: map snd R').
  { rewrite (rows_recs hash (flat recs (records hash))) by (by exists slots, recs).
    rewrite Hperm. simpl. by rewrite Hd. }
  split_and!.
  - apply (hash_ok_intro memory get_key hash_function hash' _ (lo_sized _ Hl) HR').
    apply Forall_cons. split; [done|]. apply Forall_forall. intros r Hr.
    assert (Hin : r ∈ flat recs (records hash)) by (rewrite Hperm; set_solver).
    apply elem_of_flat in Hin as (c1 & Hc1 & Hr1). apply (Hkeys c1 r Hc1 Hr1).
    rewrite Hrows in Hnd. apply NoDup_cons in Hnd as [Hn _]. intros <-. apply Hn.
    apply list_elem_of_fmap. eauto.
  - by rewrite (rows_recs hash' _ HR'), Hrows.
  - rewrite Hrows. set_solver.
Qed.

(** C21: after the key of a record has changed, my_hash_update moves the record to the
    bucket of its new key: the table is in order for the new keys and has the same
    records.  It fails, without a change, if and only if the record is not in the
    table, or the table is unique and another record has the new key.  All this for a table that
    has a record: on an empty one, and only then, it looks at a link that is not in the array. *)
Theorem hash_update_correct memory0 get_key0 memory get_key hash_function strnncoll_eq
    hash record old_key old_len :
  KeyHash hash_function strnncoll_eq -> hash_ok memory0 get_key0 hash_function hash ->
  NoDup (rows hash) ->
  (forall x, x ∈ rows hash -> x <> record ->
     my_hash_key memory get_key hash x = my_hash_key memory0 get_key0 hash x) ->
  hash_function (given_key hash old_key old_len) =
    rec_hashnr memory0 get_key0 hash_function hash record ->
  match my_hash_update memory get_key hash_function strnncoll_eq hash record old_key old_len with
  | None => records hash = 0
  | Some (err, hash') =>
      records hash <> 0 /\
      (err = true -> hash' = hash) /\
      (err = false -> hash_ok memory get_key hash_function hash' /\ rows hash' ≡ₚ rows hash) /\
      (err = true <-> record ∉ rows hash \/ (is_unique hash = true /\ exists x, x ∈ rows hash /\
         x <> record /\ matches memory get_key strnncoll_eq hash (my_hash_key memory get_key hash record) x))
  end.
Proof.
  intros HK Hok Hnd Hsame Hold. unfold my_hash_update. fold (is_unique hash).
  set (k := my_hash_key memory get_key hash record). pose proof (ok_links _ _ _ _ Hok) as Hl.
  destruct (lo_chained _ Hl) as (R & slots & recs & T & _).
  assert (Hkeys : forall c r, c < records hash -> r ∈ recs c -> r.2 <> record ->
    r.1 = rec_hashnr memory get_key hash_function hash r.2).
  { intros c r Hc Hr Hne. unfold rec_hashnr.
    rewrite Hsame by (done || apply (rows_table hash slots recs _ T); eauto).
    exact (keyed_recs memory0 get_key0 hash_function hash slots recs c r T (ok_keys _ _ _ _ Hok) Hc Hr). }
  pose proof (other_record memory get_key hash_function strnncoll_eq hash slots recs record k
    Hl T Hkeys) as Hother.
  destruct (is_unique hash && _) eqn:Eu.
  { apply andb_true_iff in Eu as [E1 E2]. split; [|naive_solver].
    apply Hother in E2 as (x & (c & r & Hc & _)%(rows_table hash slots recs _ T) & _). lia. }
  assert (Hno : ~ (is_unique hash = true /\ exists x, x ∈ rows hash /\ x <> record /\
    matches memory get_key strnncoll_eq hash k x)).
  { intros [E1 E2]. by rewrite E1, (proj2 Hother E2) in Eu. }
  clear Hother Eu. destruct (decide (records hash = 0)) as [En|En].
  { by rewrite En. }
  rewrite Hold, (proj2 (Nat.leb_gt _ _)) by (by apply bucket_lt).
  pose proof (find_record_ok memory0 get_key0 hash_function hash slots recs record Hok En T) as Hf.
  cbv zeta in Hf. fold (bucket hash (rec_hashnr memory0 get_key0 hash_function hash record)).
  fold (bucket hash (hash_function k)).
  destruct (find_record _ _ _ _ _) as [[idx prev]|]; [|naive_solver].
  destruct Hf as (s1 & s2 & Es & Hd & ->). set (c := bucket hash (rec_hashnr _ _ _ _ _)) in *.
  assert (Hc : c < records hash) by (by apply bucket_lt).
  assert (Hfin := fun d' R' => update_done memory get_key hash_function hash slots recs record idx d' R'
    Hl Hnd T Hkeys Hd).
  destruct (Nat.eqb_spec c (bucket hash (hash_function k))) as [Ec|Ec].
  - destruct (chained_renumber _ _ _ _ _ c s1 idx s2 (hash_function k) T Hc Es (eq_sym Ec))
      as (R' & HR' & Hperm).
    rewrite Hd in HR' |- *. destruct (Hfin _ R' HR' Hperm) as (? & ? & ?). naive_solver.
  - pose proof (unlink_ok _ _ _ _ _ _ _ _ _ T Hc Es) as Hu.
    destruct (unlink _ _ _) as [d1 e]. destruct Hu as (He & Hei & R' & HR' & Hperm).
    destruct (Hfin (relink d1 (blength hash) (records hash) (bucket hash (hash_function k)) e idx
      (dynamic_element (array hash) idx) (hash_function k)) R') as (? & ? & ?); [|done|naive_solver].
    change (rec_hashnr memory get_key hash_function hash record) with (hash_function k).
    rewrite <- Hd. apply (relink_ok d1 (blength hash) (records hash) e idx); auto.
    intros h. by apply bucket_lt.
Qed.

(** ** Checking *)

Lemma check_chain_ok fuel hash i s r found error :
  holds (array hash) s r None -> length s <= fuel -> found + length s <= records hash ->
  (forall j, j ∈ s -> j < records hash) -> (forall x, x ∈ r -> bucket hash x.1 = i) ->
  check_chain fuel hash i (hd_or s None) found error = (found + length s, error).
Proof.
  revert s r found error. induction fuel as [|fuel IH]; intros s r fnd error Hh Hf Hn Hlt Hb;
    (destruct s as [|j s]; [simpl; f_equal; lia|]); simpl in Hf; [lia|].
  destruct r as [|x r]; [done|]. destruct Hh as [Hj Hh]. simpl in Hn |- *.
  rewrite (proj2 (Nat.ltb_lt _ _)) by lia. rewrite (element_lookup _ _ _ Hj).
  unfold my_hash_rec_mask. simpl. fold (bucket hash x.1). rewrite (Hb x) by set_solver.
  rewrite Nat.eqb_refl, (proj2 (Nat.ltb_lt _ _) (Hlt j ltac:(set_solver))). simpl.
  rewrite !orb_false_r, (IH s r); [f_equal; lia|done|lia|lia|set_solver|set_solver].
Qed.

(** my_hash_check accepts every table in order: each record has the hash number of
    its key, every link leads to a record of the same bucket, and the chains together
    have all records. *)
Lemma hash_check_correct memory get_key hash_function hash :
  hash_ok memory get_key hash_function hash ->
  my_hash_check memory get_key hash_function hash = false.
Proof.
  intros [Hl Hk]. destruct (lo_chained _ Hl) as (R & slots & recs & T & _).
  assert (Hflat : length (flat slots (records hash)) = records hash).
  { rewrite <- (length_seq (records hash) 0) at 2. by rewrite <- (tb_cover _ _ _ _ _ _ T). }
  enough (H : forall n, n <= records hash ->
    foldl (check_step memory get_key hash_function hash) (0, false) (seq 0 n) =
    (length (flat slots n), false)).
  { unfold my_hash_check. rewrite H, Hflat by lia. by rewrite Nat.eqb_refl. }
  induction n as [|n IH]; intros Hn; [done|].
  rewrite seq_S, foldl_app, IH, flat_S, length_app by lia. simpl.
  destruct (lookup_lt_is_Some_2 (array hash) n) as [l Hn']; [by rewrite (tb_length _ _ _ _ _ _ T)|].
  rewrite (element_lookup _ _ _ Hn'). rewrite Forall_forall in Hk.
  rewrite <- (Hk l (list_elem_of_lookup_2 _ _ _ Hn')), Z.eqb_refl. simpl.
  unfold my_hash_rec_mask. fold (bucket hash (hash_nr l)).
  assert (Htot : length (flat slots n) + length (slots n) <= records hash).
  { rewrite <- length_app, <- flat_S, <- Hflat. unfold flat.
    replace (records hash) with (S n + (records hash - S n)) at 1 by lia.
    rewrite seq_app, map_app, concat_app, length_app. lia. }
  destruct (Nat.eqb_spec (bucket hash (hash_nr l)) n) as [E|E].
  - destruct (table_head _ _ _ _ _ _ n T) as (t & x & r & Es & Er & _ & Hx & Ht);
      [lia|set_solver|by rewrite (element_lookup _ _ _ Hn')|].
    rewrite Es in Htot |- *. simpl in Htot |- *. rewrite Hx in Hn'. injection Hn' as <-. simpl.
    rewrite (check_chain_ok _ hash n t r); [f_equal; lia|done|lia|lia|..].
    + intros j Hj. eapply (tb_not_free _ _ _ _ _ _ T n); [lia|]. rewrite Es. set_solver.
    + intros y Hy. apply (tb_home _ _ _ _ _ _ T); [lia|]. rewrite Er. set_solver.
  - assert (Hno : n ∉ slots n).
    { intros H. destruct (tb_bucket _ _ _ _ _ _ T n n ltac:(lia) H) as (? & ? & _ & _ & Hb).
      by rewrite (element_lookup _ _ _ Hn') in Hb. }
    destruct (tb_empty _ _ _ _ _ _ T n ltac:(lia) Hno) as [-> _]. f_equal. simpl. lia.
Qed.

(** ** Examples *)

Lemma init_ok memory get_key hash_function offset len fl free :
  hash_ok memory get_key hash_function (my_hash_init2 false offset len fl free).2.
Proof.
  apply (hash_ok_intro _ _ _ _ []); [|exists (fun _ => []), (fun _ => []); split; [|done]|done].
  - split; [exists 0; done|simpl; lia].
  - split; intros; simpl in *; lia || done.
Qed.

Lemma insert_keeps memory get_key hash_function strnncoll_eq oom junk info record :
  hash_ok memory get_key hash_function info ->
  hash_ok memory get_key hash_function
    (my_hash_insert memory get_key hash_function strnncoll_eq oom junk info record).2.
Proof.
  intros Hok. pose proof (insert_done memory get_key hash_function junk info record Hok) as Hdone.
  unfold my_hash_insert. destruct (_ && _); [done|]. destruct oom; [done|].
  destruct (split_bucket _ _ _) as [d e]. apply Hdone.
Qed.

(** Records whose key is one byte, the record number modulo 5 *)
Definition mod5_key (x : rptr) : list Z := [Z.of_nat x mod 5]%Z.

Definition byte_hash (k : list Z) : Z := (7 * nth 0 k 0)%Z.

Definition byte_eq (k1 k2 : list Z) : bool := bool_decide (k1 = k2).

#[export] Instance byte_hash_ok : KeyHash byte_hash byte_eq.
Proof. intros k1 k2 H%bool_decide_eq_true. by subst. Qed.

Definition insert_all (xs : list rptr) : HASH :=
  foldl (fun h x => (my_hash_insert mod5_key (Some mod5_key) byte_hash byte_eq false
                       (mk_hlink (Some 9) 9 9) h x).2)
    (my_hash_init2 false 0 0 0 true).2 xs.

Lemma insert_all_ok xs : hash_ok mod5_key (Some mod5_key) byte_hash (insert_all xs).
Proof.
  induction xs as [|x xs IH] using rev_ind; [apply init_ok|].
  unfold insert_all. rewrite foldl_app. by apply insert_keeps.
Qed.

Lemma hash_search_correct_witness :
  collect mod5_key (Some mod5_key) byte_eq 8 (insert_all [3; 7; 11; 12; 2; 8; 22]) [2%Z] 1
    (my_hash_first mod5_key (Some mod5_key) byte_hash byte_eq (insert_all [3; 7; 11; 12; 2; 8; 22])
       [2%Z] 1) ≡ₚ [7; 12; 2; 22].
Proof.
  destruct (hash_search_correct mod5_key (Some mod5_key) byte_hash byte_eq
    (insert_all [3; 7; 11; 12; 2; 8; 22]) [2%Z] 1 (insert_all_ok _)) as [H _].
  etransitivity; [exact H|]. vm_compute. solve_Permutation.
Defined.

Lemma hash_insert_correct_witness :
  rows (my_hash_insert mod5_key (Some mod5_key) byte_hash byte_eq false (mk_hlink None 0 0)
          (insert_all [3; 7; 11; 12]) 2).2 ≡ₚ 2 :: rows (insert_all [3; 7; 11; 12]).
Proof.
  pose proof (hash_insert_correct mod5_key (Some mod5_key) byte_hash byte_eq false
    (mk_hlink None 0 0) (insert_all [3; 7; 11; 12]) 2 (insert_all_ok _)) as H.
  destruct (my_hash_insert _ _ _ _ _ _ _ _) as [err info'] eqn:E.
  destruct H as (_ & H & _). apply H. by vm_compute in E; simplify_eq.
Defined.

Lemma hash_delete_correct_witness :
  rows (insert_all [3; 7; 11; 12; 2]) ≡ₚ
    7 :: rows (my_hash_delete mod5_key (Some mod5_key) byte_hash (insert_all [3; 7; 11; 12; 2]) 7).1.2.
Proof.
  pose proof (hash_delete_correct mod5_key (Some mod5_key) byte_hash (insert_all [3; 7; 11; 12; 2]) 7
    (insert_all_ok _)) as H.
  destruct (my_hash_delete _ _ _ _ _) as [[err hash'] freed] eqn:E.
  destruct H as (_ & _ & _ & H). apply H. by vm_compute in E; simplify_eq.
Defined.

(** The key of record 7 has changed from 2 to 4. *)
Definition changed_key (x : rptr) : list Z := if x =? 7 then [4%Z] else mod5_key x.

Lemma hash_update_correct_witness :
  exists hash', my_hash_update changed_key (Some changed_key) byte_hash byte_eq
    (insert_all [3; 7; 11; 12; 2]) 7 [2%Z] 1 = Some (false, hash') /\
  rows hash' ≡ₚ rows (insert_all [3; 7; 11; 12; 2]).
Proof.
  pose proof (hash_update_correct mod5_key (Some mod5_key) changed_key (Some changed_key) byte_hash
    byte_eq (insert_all [3; 7; 11; 12; 2]) 7 [2%Z] 1 byte_hash_ok (insert_all_ok _)) as H.
  destruct (my_hash_update _ _ _ _ _ _ _ _) as [[err hash']|] eqn:E; [|by vm_compute in E].
  destruct H as (_ & _ & H & _).
  - by_decide.
  - intros x _ Hx. simpl. unfold changed_key. by rewrite (proj2 (Nat.eqb_neq x 7) Hx).
  - reflexivity.
  - assert (err = false) as -> by (by vm_compute in E; simplify_eq). exists hash'. split; [done|]. by apply H.
Defined.
