(* ===== verification/Time.v ===== *)
(** * Dates and times

    The calendar of sql-common/my_time.c and sql/sql_time.cc: day numbers, adding an
    interval, and the packed form of a value that comparisons use.  Fields are Z, and
    arithmetic wraps where the C types of the source do. *)

From S2P Require Import Prelude.

Local Open Scope Z_scope.

Inductive timestamp_type :=
  | MYSQL_TIMESTAMP_NONE | MYSQL_TIMESTAMP_ERROR | MYSQL_TIMESTAMP_DATE
  | MYSQL_TIMESTAMP_DATETIME | MYSQL_TIMESTAMP_TIME.

#[export] Instance timestamp_type_eq : EqDecision timestamp_type.
Proof. solve_decision. Defined.

Record MYSQL_TIME := mk_time {
  year : Z; month : Z; day : Z; hour : Z; minute : Z; second : Z;
  second_part : Z;
  neg : bool;
  time_type : timestamp_type;
}.

(** Conversion to a signed 64-bit number *)
Definition s64 (x : Z) : Z := if u64 x <? 2 ^ 63 then u64 x else u64 x - 2 ^ 64.

(** ** The calendar *)

Definition isleap (y : Z) : bool :=
  (Z.land y 3 =? 0) && (negb (y mod 100 =? 0) || ((y mod 400 =? 0) && negb (y =? 0))).

Definition calc_days_in_year (y : Z) : Z := if isleap y then 366 else 365.

Definition days_in_month : list Z := [31; 28; 31; 30; 31; 30; 31; 31; 30; 31; 30; 31; 0].

Definition month_days (m : Z) : Z := nth (Z.to_nat (m - 1)) days_in_month 0.

Definition calc_days_in_month (y m : Z) : Z :=
  if (m =? 2) && isleap y then 29 else month_days m.

Definition calc_daynr (y m d : Z) : Z :=
  if (y =? 0) && (m =? 0) then 0
  else
    let delsum := 365 * y + 31 * (m - 1) + d in
    let '(y', delsum') :=
      if m <=? 2 then (y - 1, delsum) else (y, delsum - (m * 4 + 23) ÷ 10) in
    let temp := ((y' ÷ 100 + 1) * 3) ÷ 4 in
    delsum' + y' ÷ 4 - temp.

Definition calc_weekday (daynr : Z) (sunday_first_day_of_week : bool) : Z :=
  Z.rem (daynr + 5 + (if sunday_first_day_of_week then 1 else 0)) 7.

Definition MAX_DAY_NUMBER : Z := 3652424.

(** The loop over the years; the first estimate is at most one year too early, so that
    a [fuel] of 3 is enough. *)
Fixpoint year_loop (fuel : nat) (day_of_year y : Z) : Z * Z :=
  match fuel with
  | S fuel' =>
      let days_in_year := calc_days_in_year y in
      if days_in_year <? day_of_year then year_loop fuel' (day_of_year - days_in_year) (u32 (y + 1))
      else (day_of_year, y)
  | O => (day_of_year, y)
  end.

(** The loop over the months *)
Fixpoint month_loop (l : list Z) (day_of_year m : Z) : Z * Z :=
  match l with
  | days :: l' => if days <? day_of_year then month_loop l' (day_of_year - days) (m + 1)
                  else (m, day_of_year)
  | [] => (m, day_of_year)
  end.

(** Month and day from the day of a year *)
Definition month_and_day (days_in_year day_of_year : Z) : Z * Z :=
  let '(doy, leap_day) :=
    if (days_in_year =? 366) && (31 + 28 <? day_of_year)
    then (day_of_year - 1, if day_of_year - 1 =? 31 + 28 then 1 else 0)
    else (day_of_year, 0) in
  let '(m, d) := month_loop days_in_month doy 1 in
  (m, d + leap_day).

(** [None] for the return value 1 *)
Definition get_date_from_daynr (daynr : Z) : option (Z * Z * Z) :=
  if (daynr <? 366) || (MAX_DAY_NUMBER <? daynr) then None
  else
    let y := u32 ((daynr * 100) ÷ 36525) in
    let temp := (u32 (y - 1) / 100 + 1) * 3 / 4 in
    let day_of_year := u32 (u32 (daynr - y * 365) - u32 (y - 1) / 4 + temp) in
    let '(doy, y') := year_loop 3 day_of_year y in
    let '(m, d) := month_and_day (calc_days_in_year y') doy in
    Some (y', m, d).

(** ** Packed values *)

Definition pack_time (t : MYSQL_TIME) : Z :=
  s64 (((((((year t * 13 + month t) * 32 + day t) * 24 + hour t) * 60 + minute t) * 60
          + second t) * 1000000 + second_part t) * (if neg t then -1 else 1)).

Definition unpack_time (packed : Z) (ts_type : timestamp_type) : MYSQL_TIME :=
  let n := packed <? 0 in
  let p := if n then - packed else packed in
  let us := p mod 1000000 in let p := p / 1000000 in
  let s := p mod 60 in let p := p / 60 in
  let mi := p mod 60 in let p := p / 60 in
  let h := p mod 24 in let p := p / 24 in
  let d := p mod 32 in let p := p / 32 in
  let mo := p mod 13 in let p := p / 13 in
  let y := u32 p in
  match ts_type with
  | MYSQL_TIMESTAMP_TIME => mk_time y 0 0 (u32 (h + (mo * 32 + d) * 24)) mi s us n ts_type
  | MYSQL_TIMESTAMP_DATE => mk_time y mo d 0 0 0 0 n ts_type
  | _ => mk_time y mo d h mi s us n ts_type
  end.

Definition my_time_compare (a b : MYSQL_TIME) : Z :=
  let a_t := u64 (pack_time a) in
  let b_t := u64 (pack_time b) in
  if a_t <? b_t then -1 else if b_t <? a_t then 1 else 0.

(** ** Adding an interval *)

Record INTERVAL := mk_interval {
  i_year : Z; i_month : Z; i_day : Z; i_hour : Z;
  i_minute : Z; i_second : Z; i_second_part : Z;
  i_neg : bool;
}.

Inductive interval_type :=
  | INTERVAL_YEAR | INTERVAL_QUARTER | INTERVAL_MONTH | INTERVAL_WEEK | INTERVAL_DAY
  | INTERVAL_HOUR | INTERVAL_MINUTE | INTERVAL_SECOND | INTERVAL_MICROSECOND
  | INTERVAL_YEAR_MONTH | INTERVAL_DAY_HOUR | INTERVAL_DAY_MINUTE | INTERVAL_DAY_SECOND
  | INTERVAL_HOUR_MINUTE | INTERVAL_HOUR_SECOND | INTERVAL_MINUTE_SECOND
  | INTERVAL_DAY_MICROSECOND | INTERVAL_HOUR_MICROSECOND | INTERVAL_MINUTE_MICROSECOND
  | INTERVAL_SECOND_MICROSECOND | INTERVAL_LAST.

#[export] Instance interval_type_eq : EqDecision interval_type.
Proof. solve_decision. Defined.

Definition TIME_MAX_HOUR : Z := 838.

Definition COMBINE (d h m s us : Z) : Z := (((d * 24 + h) * 60 + m) * 60 + s) * 1000000 + us.

(** The types that are added as a number of microseconds *)
Definition by_microseconds (int_type : interval_type) : bool :=
  match int_type with
  | INTERVAL_SECOND | INTERVAL_SECOND_MICROSECOND | INTERVAL_MICROSECOND | INTERVAL_MINUTE
  | INTERVAL_HOUR | INTERVAL_MINUTE_MICROSECOND | INTERVAL_MINUTE_SECOND
  | INTERVAL_HOUR_MICROSECOND | INTERVAL_HOUR_SECOND | INTERVAL_HOUR_MINUTE
  | INTERVAL_DAY_MICROSECOND | INTERVAL_DAY_SECOND | INTERVAL_DAY_MINUTE
  | INTERVAL_DAY_HOUR | INTERVAL_DAY => true
  | _ => false
  end.

Definition set_date (t : MYSQL_TIME) (ymd : Z * Z * Z) : MYSQL_TIME :=
  let '(y, m, d) := ymd in
  mk_time y m d (hour t) (minute t) (second t) (second_part t) (neg t) (time_type t).

(** The outcomes of [date_add_interval]: return 0, the labels [invalid_date] and
    [null_date]; the second component is what [ltime] then holds. *)
Inductive add_result := Added | InvalidDate | NullDate.

(** The case of the types that are added as microseconds *)
Definition add_microseconds (ltime : MYSQL_TIME) (int_type : interval_type) (interval : INTERVAL)
    (sign : Z) : add_result * MYSQL_TIME :=
  if MAX_DAY_NUMBER <?
     u64 (i_day interval + i_hour interval / 24 + i_minute interval / 24 / 60 +
          i_second interval / 24 / 60 / 60)
  then (InvalidDate, ltime)
  else
    let is_time := bool_decide (time_type ltime = MYSQL_TIMESTAMP_TIME) in
    let d := if is_time then day ltime
             else u32 (day ltime + (calc_daynr (year ltime) (month ltime) 1 - 1)) in
    let usec0 := s64 (COMBINE d (hour ltime) (minute ltime) (second ltime) (second_part ltime) +
                      sign * COMBINE (i_day interval) (i_hour interval) (i_minute interval)
                               (i_second interval) (i_second_part interval)) in
    let n := usec0 <? 0 in
    let usec := if n then - usec0 else usec0 in
    let us := usec mod 1000000 in let usec := usec / 1000000 in
    let s := usec mod 60 in let usec := usec / 60 in
    let mi := usec mod 60 in let usec := usec / 60 in
    let n' := xorb (neg ltime) n in
    let t := mk_time (year ltime) (month ltime) d (hour ltime) mi s us n' (time_type ltime) in
    if is_time then
      if TIME_MAX_HOUR <? usec then (InvalidDate, t)
      else (Added, mk_time (year ltime) (month ltime) 0 (u32 usec) mi s us n' (time_type ltime))
    else if n' then (InvalidDate, t)
    else
      let ty := if bool_decide (int_type = INTERVAL_DAY) then time_type ltime
                else MYSQL_TIMESTAMP_DATETIME in
      let t := mk_time (year ltime) (month ltime) d (usec mod 24) mi s us n' ty in
      match get_date_from_daynr (usec / 24) with
      | Some ymd => (Added, set_date t ymd)
      | None => (InvalidDate, t)
      end.

Definition add_week (ltime : MYSQL_TIME) (interval : INTERVAL) (sign : Z)
    : add_result * MYSQL_TIME :=
  let period := calc_daynr (year ltime) (month ltime) (day ltime) + sign * s64 (i_day interval) in
  if (period <? 0) || (2147483647 <? period) then (InvalidDate, ltime)
  else match get_date_from_daynr period with
       | Some ymd => (Added, set_date ltime ymd)
       | None => (InvalidDate, ltime)
       end.

Definition add_year (ltime : MYSQL_TIME) (interval : INTERVAL) (sign : Z)
    : add_result * MYSQL_TIME :=
  let y := u32 (year ltime + sign * s64 (i_year interval)) in
  let t := set_date ltime (y, month ltime, day ltime) in
  if 10000 <=? y then (InvalidDate, t)
  else if (month ltime =? 2) && (day ltime =? 29) && negb (calc_days_in_year y =? 366)
  then (Added, set_date t (y, month ltime, 28))
  else (Added, t).

Definition add_month (ltime : MYSQL_TIME) (interval : INTERVAL) (sign : Z)
    : add_result * MYSQL_TIME :=
  let period := s64 (u32 (year ltime * 12) + sign * s64 (i_year interval) * 12 + month ltime - 1 +
                     sign * s64 (i_month interval)) in
  if 120000 <=? u64 period then (InvalidDate, ltime)
  else
    let y := period / 12 in
    let m := period mod 12 + 1 in
    let d :=
      if month_days m <? day ltime
      then month_days m + (if (m =? 2) && (calc_days_in_year y =? 366) then 1 else 0)
      else day ltime in
    (Added, set_date ltime (y, m, d)).

Definition date_add_interval (ltime : MYSQL_TIME) (int_type : interval_type)
    (interval : INTERVAL) : add_result * MYSQL_TIME :=
  let sign := if Bool.eqb (i_neg interval) (neg ltime) then 1 else -1 in
  if by_microseconds int_type then add_microseconds ltime int_type interval sign
  else
    let '(r, t) :=
      match int_type with
      | INTERVAL_WEEK => add_week ltime interval sign
      | INTERVAL_YEAR => add_year ltime interval sign
      | INTERVAL_YEAR_MONTH | INTERVAL_QUARTER | INTERVAL_MONTH => add_month ltime interval sign
      | _ => (NullDate, ltime)
      end in
    match r with
    | Added =>
        if bool_decide (time_type t = MYSQL_TIMESTAMP_TIME) then (InvalidDate, t) else (Added, t)
    | _ => (r, t)
    end.
