(* ===== verification/TimeProps.v ===== *)
(** * Dates and times: correctness of the calendar

    The day numbers of the dates from 0001-01-01 to 9999-12-31 are consecutive, and
    get_date_from_daynr inverts calc_daynr.  What depends on the year alone is checked
    for each of the 9999 years by evaluation; so are the 366 days of a year. *)

From S2P Require Import Prelude Time.

Local Open Scope Z_scope.

Definition valid_date (y m d : Z) : Prop :=
  1 <= y <= 9999 /\ 1 <= m <= 12 /\ 1 <= d <= calc_days_in_month y m.

(** The days of the year before a month *)
Definition days_before (leap : bool) (m : Z) : Z :=
  nth (Z.to_nat (m - 1)) [0; 31; 59; 90; 120; 151; 181; 212; 243; 273; 304; 334] 0 +
  (if leap && (2 <? m) then 1 else 0).

Definition year_start (y : Z) : Z := calc_daynr y 1 1.

Definition leap_days (y : Z) : Z := y ÷ 4 - ((y ÷ 100 + 1) * 3) ÷ 4.

Definition zrange (n : nat) : list Z := map Z.of_nat (seq 1 n).

Lemma zrange_in n x : 1 <= x <= Z.of_nat n -> In x (zrange n).
Proof.
  intros H. apply in_map_iff. exists (Z.to_nat x). split; [lia|]. apply in_seq. lia.
Qed.

Lemma zrange_forallb n f x : forallb f (zrange n) = true -> 1 <= x <= Z.of_nat n -> f x = true.
Proof. intros H Hx. rewrite forallb_forall in H. by apply H, zrange_in. Qed.

(** ** A year *)

(** The first estimate of get_date_from_daynr *)
Definition year_estimate (n : Z) : Z := (n * 100) ÷ 36525.

Definition check_year (y : Z) : bool :=
  let s := year_start y in
  let e := s + calc_days_in_year y - 1 in
  (year_start (y + 1) =? e + 1) && (366 <=? s) && (e <=? MAX_DAY_NUMBER) &&
  (y - 1 <=? year_estimate s) && (year_estimate e <=? y) &&
  (leap_days y - leap_days (y - 1) =? (if isleap y then 1 else 0)).

Lemma all_years : forallb check_year (zrange 9999) = true.
Proof. vm_compute. reflexivity. Qed.

Lemma year_facts y :
  1 <= y <= 9999 ->
  year_start (y + 1) = year_start y + calc_days_in_year y /\ 366 <= year_start y /\
  year_start y + calc_days_in_year y - 1 <= MAX_DAY_NUMBER /\
  y - 1 <= year_estimate (year_start y) /\
  year_estimate (year_start y + calc_days_in_year y - 1) <= y /\
  leap_days y - leap_days (y - 1) = (if isleap y then 1 else 0).
Proof.
  intros Hy. pose proof (zrange_forallb 9999 _ y all_years Hy) as H. unfold check_year in H.
  rewrite !andb_true_iff, !Z.leb_le, !Z.eqb_eq in H. lia.
Qed.

Lemma year_start_eq y : 1 <= y -> year_start y = 365 * y + 1 + leap_days (y - 1).
Proof.
  intros Hy. unfold year_start, calc_daynr, leap_days.
  rewrite (proj2 (Z.eqb_neq y 0)) by lia. simpl. lia.
Qed.

Lemma leap_days_div y : 0 <= y -> leap_days y = y / 4 - ((y / 100 + 1) * 3) / 4.
Proof.
  intros Hy. unfold leap_days. assert (0 <= y / 100) by (apply Z.div_pos; lia).
  rewrite (Z.quot_div_nonneg y 4), (Z.quot_div_nonneg y 100) by lia.
  by rewrite Z.quot_div_nonneg by lia.
Qed.

(** The months of a year, by evaluation *)
Definition check_month (m : Z) : bool :=
  forallb (fun d =>
    forallb (fun leap : bool =>
      let len := if leap then 366 else 365 in
      let dim := if (m =? 2) && leap then 29 else month_days m in
      let doy := days_before leap m + d in
      negb (d <=? dim) ||
        (let '(m', d') := month_and_day len doy in
         (m' =? m) && (d' =? d) && (1 <=? doy) && (doy <=? len) &&
         (31 * (m - 1) - (if m <=? 2 then 0 else (m * 4 + 23) ÷ 10) + (if leap && (2 <? m) then 1 else 0)
            =? days_before leap m)))
      [true; false]) (zrange 31).

Lemma all_months : forallb check_month (zrange 12) = true.
Proof. vm_compute. reflexivity. Qed.

Definition check_doy (doy : Z) : bool :=
  forallb (fun leap : bool =>
    let len := if leap then 366 else 365 in
    negb (doy <=? len) ||
      (let '(m, d) := month_and_day len doy in
       (1 <=? m) && (m <=? 12) && (1 <=? d) &&
       (d <=? (if (m =? 2) && leap then 29 else month_days m)) &&
       (days_before leap m + d =? doy)))
    [true; false].

Lemma all_days : forallb check_doy (zrange 366) = true.
Proof. vm_compute. reflexivity. Qed.

Lemma days_in_month_31 y m : 1 <= m <= 12 -> calc_days_in_month y m <= 31.
Proof.
  intros Hm. assert (H : forallb (fun m => month_days m <=? 31) (zrange 12) = true) by reflexivity.
  pose proof (zrange_forallb 12 _ m H ltac:(lia)) as Hd. simpl in Hd. apply Z.leb_le in Hd.
  unfold calc_days_in_month. destruct (_ && _); lia.
Qed.

Lemma month_facts y m d :
  valid_date y m d ->
  let doy := days_before (isleap y) m + d in
  month_and_day (calc_days_in_year y) doy = (m, d) /\ 1 <= doy <= calc_days_in_year y /\
  calc_daynr y m d = year_start y + doy - 1.
Proof.
  intros (Hy & Hm & Hd). pose proof (days_in_month_31 y m Hm).
  pose proof (zrange_forallb 12 _ m all_months ltac:(lia)) as H0. unfold check_month in H0.
  pose proof (zrange_forallb 31 _ d H0 ltac:(lia)) as H1. cbv beta in H1.
  rewrite forallb_forall in H1. specialize (H1 (isleap y) ltac:(destruct (isleap y); simpl; auto)).
  cbv beta zeta in H1. unfold calc_days_in_month in Hd. unfold calc_days_in_year.
  rewrite (proj2 (Z.leb_le d _)) in H1 by lia. simpl negb in H1. rewrite orb_false_l in H1.
  destruct (month_and_day _ _) as [m' d'].
  rewrite !andb_true_iff, !Z.leb_le, !Z.eqb_eq in H1. destruct H1 as ((((-> & ->) & H2) & H3) & H4).
  split; [done|split; [lia|]]. rewrite year_start_eq by lia.
  destruct (year_facts y Hy) as (_ & _ & _ & _ & _ & Hl).
  unfold calc_daynr. rewrite (proj2 (Z.eqb_neq y 0)) by lia. simpl. rewrite <- H4.
  fold (leap_days y) (leap_days (y - 1)).
  destruct (Z.leb_spec m 2).
  - rewrite (proj2 (Z.ltb_ge 2 m)), andb_false_r by lia. unfold leap_days. lia.
  - rewrite (proj2 (Z.ltb_lt 2 m)), andb_true_r by lia. unfold leap_days in *. lia.
Qed.

(** ** Day numbers *)

Lemma u32_shift a b c : u32 (u32 a - b + c) = u32 (a - b + c).
Proof.
  unfold u32. replace (a mod 2 ^ 32 - b + c) with (a mod 2 ^ 32 + (c - b)) by lia.
  rewrite Z.add_mod_idemp_l by lia. f_equal. lia.
Qed.

Lemma year_loop_stop fuel doy y :
  doy <= calc_days_in_year y -> year_loop (S fuel) doy y = (doy, y).
Proof. intros H. simpl. by rewrite (proj2 (Z.ltb_ge _ _) H). Qed.

Lemma get_date_in_year y doy :
  1 <= y <= 9999 -> 1 <= doy <= calc_days_in_year y ->
  get_date_from_daynr (year_start y + doy - 1) =
    Some (y, (month_and_day (calc_days_in_year y) doy).1, (month_and_day (calc_days_in_year y) doy).2).
Proof.
  intros Hy Hd. destruct (year_facts y Hy) as (Hnext & Hs & He & Hlo & Hhi & _).
  set (n := year_start y + doy - 1).
  assert (Hn : 366 <= n <= MAX_DAY_NUMBER) by lia.
  assert (Hest : y - 1 <= year_estimate n <= y).
  { unfold year_estimate in *. rewrite !Z.quot_div_nonneg in * by (unfold MAX_DAY_NUMBER in *; lia).
    split; [etransitivity; [exact Hlo|]|etransitivity; [|exact Hhi]]; apply Z.div_le_mono; lia. }
  assert (He1 : 1 <= year_estimate n).
  { unfold year_estimate. rewrite Z.quot_div_nonneg by lia.
    transitivity (366 * 100 / 36525); [done|]. apply Z.div_le_mono; lia. }
  unfold get_date_from_daynr. rewrite (proj2 (Z.ltb_ge n 366)), (proj2 (Z.ltb_ge _ n)) by lia.
  simpl orb. cbv iota. fold (year_estimate n). set (e := year_estimate n) in *.
  rewrite (u32_small e) by (unfold U32_MAX; lia).
  rewrite (u32_small (e - 1)) by (unfold U32_MAX; lia).
  assert (Hdoy : u32 (u32 (n - e * 365) - (e - 1) / 4 + ((e - 1) / 100 + 1) * 3 / 4) =
                 n - year_start e + 1).
  { pose proof (year_start_eq e He1) as Hse. rewrite leap_days_div in Hse by lia.
    rewrite u32_shift. set (q := (e - 1) / 4) in *. set (t := ((e - 1) / 100 + 1) * 3 / 4) in *.
    replace (n - e * 365 - q + t) with (n - year_start e + 1) by lia. apply u32_small.
    unfold U32_MAX. destruct (Z.eq_dec e y) as [-> |]; [unfold MAX_DAY_NUMBER in *; lia|].
      replace e with (y - 1) by lia. destruct (year_facts (y - 1)) as (Hn1 & Hs1 & _); [lia|].
      replace (y - 1 + 1) with y in Hn1 by lia. unfold MAX_DAY_NUMBER in *.
      unfold calc_days_in_year in *. destruct (isleap (y - 1)), (isleap y); lia. }
  rewrite Hdoy.
  assert (Hloop : year_loop 3 (n - year_start e + 1) e = (doy, y)).
  { destruct (Z.eq_dec e y) as [-> |].
    - unfold n. replace (year_start y + doy - 1 - year_start y + 1) with doy by lia.
      apply year_loop_stop. lia.
    - replace e with (y - 1) by lia. destruct (year_facts (y - 1)) as (Hn1 & _); [lia|].
      replace (y - 1 + 1) with y in Hn1 by lia. simpl year_loop at 1.
      rewrite (proj2 (Z.ltb_lt _ _)) by lia. rewrite u32_small by (unfold U32_MAX; lia).
      replace (y - 1 + 1) with y by lia. unfold n.
      replace (year_start y + doy - 1 - year_start (y - 1) + 1 - calc_days_in_year (y - 1)) with doy by lia.
      rewrite (proj2 (Z.ltb_ge _ _)) by lia. done. }
  rewrite Hloop. by destruct (month_and_day _ _).
Qed.

(** Every day number in the range is in a year. *)
Lemma daynr_year n :
  366 <= n <= MAX_DAY_NUMBER ->
  exists y, 1 <= y <= 9999 /\ year_start y <= n <= year_start y + calc_days_in_year y - 1.
Proof.
  intros Hn. assert (H : forall k : nat, Z.of_nat k <= 9999 -> n < year_start (Z.of_nat k + 1) ->
    exists y, 1 <= y <= 9999 /\ year_start y <= n <= year_start y + calc_days_in_year y - 1).
  { induction k as [|k IH]; intros Hk Hlt.
    - change (year_start (Z.of_nat 0 + 1)) with 366 in Hlt. lia.
    - destruct (Z.lt_ge_cases n (year_start (Z.of_nat k + 1))) as [|Hge]; [by apply IH; [lia|]|].
      exists (Z.of_nat k + 1). split; [lia|]. destruct (year_facts (Z.of_nat k + 1)) as (E & _); [lia|].
      replace (Z.of_nat (S k) + 1) with (Z.of_nat k + 1 + 1) in Hlt by lia. lia. }
  apply (H 9999%nat); [done|]. change (year_start (Z.of_nat 9999 + 1)) with 3652425.
  unfold MAX_DAY_NUMBER in Hn. lia.
Qed.

Lemma doy_facts y doy :
  1 <= y <= 9999 -> 1 <= doy <= calc_days_in_year y ->
  let '(m, d) := month_and_day (calc_days_in_year y) doy in
  valid_date y m d /\ days_before (isleap y) m + d = doy.
Proof.
  intros Hy Hd. assert (H366 : doy <= 366) by (unfold calc_days_in_year in Hd; destruct (isleap y); lia).
  pose proof (zrange_forallb 366 _ doy all_days ltac:(lia)) as H. unfold check_doy in H.
  rewrite forallb_forall in H. specialize (H (isleap y) ltac:(destruct (isleap y); simpl; auto)).
  cbv beta zeta in H. unfold calc_days_in_year in *. rewrite (proj2 (Z.leb_le doy _)) in H by lia.
  simpl negb in H. rewrite orb_false_l in H. destruct (month_and_day _ _) as [m d].
  rewrite !andb_true_iff, !Z.leb_le, Z.eqb_eq in H. unfold valid_date, calc_days_in_month. lia.
Qed.

Lemma get_date_of_daynr y m d :
  valid_date y m d -> get_date_from_daynr (calc_daynr y m d) = Some (y, m, d).
Proof.
  intros Hv. destruct (month_facts y m d Hv) as (E & Hd & ->).
  rewrite get_date_in_year by (done || apply Hv). by rewrite E.
Qed.

Lemma daynr_of_get_date n :
  match get_date_from_daynr n with
  | Some (y, m, d) => 366 <= n <= MAX_DAY_NUMBER /\ valid_date y m d /\ calc_daynr y m d = n
  | None => n < 366 \/ MAX_DAY_NUMBER < n
  end.
Proof.
  destruct (Z.lt_ge_cases n 366) as [H|H1]; [|destruct (Z.lt_ge_cases MAX_DAY_NUMBER n) as [H|H2]].
  - unfold get_date_from_daynr. rewrite (proj2 (Z.ltb_lt _ _) H). by left.
  - unfold get_date_from_daynr. rewrite (proj2 (Z.ltb_lt _ _) H), orb_true_r. by right.
  - destruct (daynr_year n (conj H1 H2)) as (y & Hy & Hn).
    replace n with (year_start y + (n - year_start y + 1) - 1) by lia.
    rewrite get_date_in_year by lia. pose proof (doy_facts y (n - year_start y + 1) Hy ltac:(lia)) as Hf.
    destruct (month_and_day _ _) as [m d]. simpl. destruct Hf as [Hv Hd].
    split; [lia|split; [done|]]. destruct (month_facts y m d Hv) as (_ & _ & ->). lia.
Qed.

(** ** The next day *)

Definition next_date (y m d : Z) : Z * Z * Z :=
  if d <? calc_days_in_month y m then (y, m, d + 1)
  else if m <? 12 then (y, m + 1, 1) else (y + 1, 1, 1).

Definition check_month_length (m : Z) : bool :=
  forallb (fun leap : bool =>
    let dim := if (m =? 2) && leap then 29 else month_days m in
    (1 <=? dim) &&
    (days_before leap m + dim =?
       if m <? 12 then days_before leap (m + 1) else if leap then 366 else 365)) [true; false].

Lemma month_length y m :
  1 <= m <= 12 ->
  1 <= calc_days_in_month y m /\
  days_before (isleap y) m + calc_days_in_month y m =
    if m <? 12 then days_before (isleap y) (m + 1) else calc_days_in_year y.
Proof.
  intros Hm. assert (H : forallb check_month_length (zrange 12) = true) by reflexivity.
  pose proof (zrange_forallb 12 _ m H ltac:(lia)) as H1. unfold check_month_length in H1.
  rewrite forallb_forall in H1. specialize (H1 (isleap y) ltac:(destruct (isleap y); simpl; auto)).
  cbv beta zeta in H1. rewrite andb_true_iff, Z.leb_le, Z.eqb_eq in H1.
  unfold calc_days_in_month, calc_days_in_year. exact H1.
Qed.

Lemma calc_daynr_next y m d :
  valid_date y m d ->
  let '(y', m', d') := next_date y m d in calc_daynr y' m' d' = calc_daynr y m d + 1.
Proof.
  intros Hv. destruct (month_facts y m d Hv) as (_ & _ & ->). pose proof Hv as (Hy & Hm & Hd).
  destruct (month_length y m Hm) as [_ Hl]. unfold next_date.
  destruct (Z.ltb_spec d (calc_days_in_month y m)) as [H|H].
  - destruct (month_facts y m (d + 1)) as (_ & _ & ->); [|lia].
    split; [done|]. split; [done|]. lia.
  - assert (d = calc_days_in_month y m) as Ed by lia. rewrite <- Ed in Hl.
    destruct (Z.ltb_spec m 12) as [H12|H12].
    + destruct (month_facts y (m + 1) 1) as (_ & _ & ->); [|lia].
      split; [done|]. split; [lia|]. pose proof (month_length y (m + 1)). lia.
    + fold (year_start (y + 1)). destruct (year_facts y Hy) as [-> _]. lia.
Qed.

(** C23: the day numbers 366 to 3652424 are exactly the dates from 0001-01-01 to 9999-12-31, counted in
    the order of the calendar: 0001-01-01 has the number 366 and the day after a date the next number;
    get_date_from_daynr fails outside this range, also for 0, inside it returns the valid date whose calc_daynr is
    the given number, and it inverts calc_daynr on every valid date. *)
Theorem daynr_bijection n y m d :
  match get_date_from_daynr n with
  | Some (y', m', d') =>
      366 <= n <= MAX_DAY_NUMBER /\ valid_date y' m' d' /\ calc_daynr y' m' d' = n
  | None => n < 366 \/ MAX_DAY_NUMBER < n
  end /\
  (valid_date y m d ->
     get_date_from_daynr (calc_daynr y m d) = Some (y, m, d) /\
     let '(y', m', d') := next_date y m d in calc_daynr y' m' d' = calc_daynr y m d + 1) /\
  calc_daynr 1 1 1 = 366.
Proof.
  split; [apply daynr_of_get_date|]. split; [|done].
  intros Hv. split; [by apply get_date_of_daynr|by apply calc_daynr_next].
Qed.
