(* ===== verification/TimeAdd.v ===== *)
(** * Dates and times: packed values and intervals

    pack_time keeps the order of non-negative values and can be undone; what
    my_time_compare makes of signs; and date_add_interval as arithmetic on microseconds. *)

From S2P Require Import Prelude Time TimeProps.

Local Open Scope Z_scope.

Lemma s64_small x : - 2 ^ 63 <= x < 2 ^ 63 -> s64 x = x.
Proof.
  intros Hx. unfold s64, u64. destruct (Z.lt_ge_cases x 0).
  - replace (x mod 2 ^ 64) with (x + 2 ^ 64)
      by (rewrite <- (Z.mod_add x 1) by lia; rewrite Z.mod_small; lia).
    rewrite (proj2 (Z.ltb_ge _ _)) by lia. lia.
  - rewrite Z.mod_small by lia. by rewrite (proj2 (Z.ltb_lt _ _)) by lia.
Qed.

Lemma u64_neg x : - 2 ^ 63 <= x < 0 -> u64 x = x + 2 ^ 64.
Proof. intros Hx. unfold u64. rewrite <- (Z.mod_add x 1) by lia. rewrite Z.mod_small; lia. Qed.

Lemma u64_small x : 0 <= x < 2 ^ 63 -> u64 x = x.
Proof. intros Hx. unfold u64. apply Z.mod_small. lia. Qed.

(** ** Packed values *)

(** The values that are stored in a MYSQL_TIME of each type *)
Definition normal (t : MYSQL_TIME) : Prop :=
  0 <= minute t < 60 /\ 0 <= second t < 60 /\ 0 <= second_part t < 1000000 /\
  match time_type t with
  | MYSQL_TIMESTAMP_TIME => year t = 0 /\ month t = 0 /\ day t = 0 /\ 0 <= hour t <= TIME_MAX_HOUR
  | MYSQL_TIMESTAMP_DATE =>
      0 <= year t <= 9999 /\ 0 <= month t <= 12 /\ 0 <= day t <= 31 /\
      hour t = 0 /\ minute t = 0 /\ second t = 0 /\ second_part t = 0
  | MYSQL_TIMESTAMP_DATETIME =>
      0 <= year t <= 9999 /\ 0 <= month t <= 12 /\ 0 <= day t <= 31 /\ 0 <= hour t < 24
  | _ => False
  end.

(** The fields as digits of one number *)
Definition magnitude (t : MYSQL_TIME) : Z :=
  (((((year t * 13 + month t) * 32 + day t) * 24 + hour t) * 60 + minute t) * 60 + second t)
    * 1000000 + second_part t.

Definition time_value (t : MYSQL_TIME) : Z := if neg t then - magnitude t else magnitude t.

Lemma magnitude_bound t : normal t -> 0 <= magnitude t < 2 ^ 62.
Proof.
  unfold normal, magnitude, TIME_MAX_HOUR. intros (H1 & H2 & H3 & H4).
  destruct (time_type t); try done; lia.
Qed.

Lemma pack_time_value t : normal t -> pack_time t = time_value t.
Proof.
  intros Hn%magnitude_bound. unfold pack_time, time_value. fold (magnitude t).
  rewrite s64_small by (destruct (neg t); lia). destruct (neg t); lia.
Qed.

(** One digit of a packed value *)
Lemma digit a b n : 0 <= b < n -> (a * n + b) mod n = b /\ (a * n + b) / n = a.
Proof.
  intros H. rewrite Z.add_comm. split.
  - rewrite Z.mod_add by lia. by apply Z.mod_small.
  - rewrite Z.div_add, Z.div_small by lia. lia.
Qed.

Lemma unpack_pack t :
  normal t -> (neg t = true -> magnitude t <> 0) -> unpack_time (pack_time t) (time_type t) = t.
Proof.
  intros Hn Hz. rewrite pack_time_value by done. pose proof (magnitude_bound t Hn) as Hb.
  assert (Es : (time_value t <? 0) = neg t).
  { unfold time_value. destruct (neg t); [apply Z.ltb_lt; specialize (Hz eq_refl); lia|apply Z.ltb_ge; lia]. }
  assert (Em : (if neg t then - time_value t else time_value t) = magnitude t)
    by (unfold time_value; destruct (neg t); lia).
  unfold unpack_time. cbv zeta. rewrite Es, Em. clear Es Em Hz Hb. unfold magnitude.
  destruct t as [y mo d h mi s us n ty]. unfold normal in Hn. cbn in *.
  destruct Hn as (Hmi & Hs & Hus & Hty).
  rewrite (proj1 (digit _ us _ Hus)), (proj2 (digit _ us _ Hus)).
  rewrite (proj1 (digit _ s _ Hs)), (proj2 (digit _ s _ Hs)).
  rewrite (proj1 (digit _ mi _ Hmi)), (proj2 (digit _ mi _ Hmi)).
  destruct ty; try done.
  - destruct Hty as (Hy & Hmo & Hd & -> & -> & -> & ->).
    rewrite (proj2 (digit _ 0 24 ltac:(lia))).
    rewrite (proj1 (digit _ d 32 ltac:(lia))), (proj2 (digit _ d 32 ltac:(lia))).
    rewrite (proj1 (digit _ mo 13 ltac:(lia))), (proj2 (digit _ mo 13 ltac:(lia))).
    by rewrite u32_small by (unfold U32_MAX; lia).
  - destruct Hty as (Hy & Hmo & Hd & Hh).
    rewrite (proj1 (digit _ h 24 ltac:(lia))), (proj2 (digit _ h 24 ltac:(lia))).
    rewrite (proj1 (digit _ d 32 ltac:(lia))), (proj2 (digit _ d 32 ltac:(lia))).
    rewrite (proj1 (digit _ mo 13 ltac:(lia))), (proj2 (digit _ mo 13 ltac:(lia))).
    by rewrite u32_small by (unfold U32_MAX; lia).
  - destruct Hty as (-> & -> & -> & Hh). unfold TIME_MAX_HOUR in Hh. simpl.
    change (((0 * 13 + 0) * 32 + 0) * 24) with 0. rewrite Z.add_0_l.
    assert (H1 : h / 24 / 32 / 13 = 0 /\ h mod 24 + (h / 24 / 32 mod 13 * 32 + h / 24 mod 32) * 24 = h)
      by (Z.to_euclidean_division_equations; lia).
    destruct H1 as [-> ->]. by rewrite !u32_small by (unfold U32_MAX; lia).
Qed.

(** C25: a time, date or datetime can be read back from its packed form; the comparison of
    two values is that of their signed values when the signs are the same, and the
    opposite when they differ, because the packed values are compared as unsigned. *)
Theorem pack_time_compare a b :
  normal a -> normal b -> (neg a = true -> magnitude a <> 0) -> (neg b = true -> magnitude b <> 0) ->
  unpack_time (pack_time a) (time_type a) = a /\
  my_time_compare a b =
    Z.sgn (time_value a - time_value b) * (if Bool.eqb (neg a) (neg b) then 1 else -1).
Proof.
  intros Ha Hb Hza Hzb. split; [by apply unpack_pack|].
  unfold my_time_compare. rewrite !pack_time_value by done.
  pose proof (magnitude_bound a Ha). pose proof (magnitude_bound b Hb).
  assert (Hu : forall t, normal t -> (neg t = true -> magnitude t <> 0) ->
    u64 (time_value t) = if neg t then 2 ^ 64 - magnitude t else magnitude t).
  { intros t Ht Hz. pose proof (magnitude_bound t Ht). unfold time_value.
    destruct (neg t); [rewrite u64_neg by (specialize (Hz eq_refl); lia)|rewrite u64_small]; lia. }
  rewrite !Hu by done. unfold time_value.
  destruct (neg a) eqn:Ea, (neg b) eqn:Eb; simpl Bool.eqb;
    try specialize (Hza eq_refl); try specialize (Hzb eq_refl);
    repeat (match goal with |- context [?x <? ?y] => destruct (Z.ltb_spec x y) end);
    lia.
Qed.

(** -00:00:01 is reported greater than 00:00:01. *)
Lemma pack_time_compare_witness :
  my_time_compare (mk_time 0 0 0 0 0 1 0 true MYSQL_TIMESTAMP_TIME)
                  (mk_time 0 0 0 0 0 1 0 false MYSQL_TIMESTAMP_TIME) = 1.
Proof.
  rewrite (proj2 (pack_time_compare (mk_time 0 0 0 0 0 1 0 true MYSQL_TIMESTAMP_TIME)
    (mk_time 0 0 0 0 0 1 0 false MYSQL_TIMESTAMP_TIME) ltac:(by_decide) ltac:(by_decide)
    ltac:(by_decide) ltac:(by_decide))). reflexivity.
Defined.

(** ** Adding an interval *)

Definition DAY_US : Z := 86400000000.

(** The microseconds since day 0 *)
Definition abs_us (t : MYSQL_TIME) : Z :=
  COMBINE (calc_daynr (year t) (month t) (day t)) (hour t) (minute t) (second t) (second_part t).

Definition interval_us (i : INTERVAL) : Z :=
  COMBINE (i_day i) (i_hour i) (i_minute i) (i_second i) (i_second_part i).

(** A date or datetime that is not zero and has no zero part *)
Definition full_date (t : MYSQL_TIME) : Prop :=
  valid_date (year t) (month t) (day t) /\ 0 <= hour t < 24 /\ 0 <= minute t < 60 /\
  0 <= second t < 60 /\ 0 <= second_part t < 1000000 /\ neg t = false /\
  time_type t <> MYSQL_TIMESTAMP_TIME.

(** The parts of an interval, within what the parser of intervals gives *)
Definition interval_ok (i : INTERVAL) : Prop :=
  0 <= i_day i < 2 ^ 61 /\ 0 <= i_hour i < 2 ^ 61 /\ 0 <= i_minute i < 2 ^ 61 /\
  0 <= i_second i < 2 ^ 61 /\ 0 <= i_second_part i < 2 ^ 63.

(** The range of dates, in microseconds *)
Definition in_range (x : Z) : Prop := 366 * DAY_US <= x < (MAX_DAY_NUMBER + 1) * DAY_US.

Lemma calc_daynr_day y m d : calc_daynr y m d = if (y =? 0) && (m =? 0) then 0
  else d + (calc_daynr y m 1 - 1).
Proof.
  unfold calc_daynr. destruct (_ && _); [done|]. destruct (m <=? 2); lia.
Qed.

Lemma full_date_daynr t :
  full_date t ->
  u32 (day t + (calc_daynr (year t) (month t) 1 - 1)) = calc_daynr (year t) (month t) (day t) /\
  366 <= calc_daynr (year t) (month t) (day t) <= MAX_DAY_NUMBER.
Proof.
  intros (Hv & _). pose proof (daynr_of_get_date (calc_daynr (year t) (month t) (day t))) as Hr.
  rewrite get_date_of_daynr in Hr by done. destruct Hr as [Hr _]. split; [|done].
  rewrite (calc_daynr_day _ _ (day t)) in *. rewrite (proj2 (Z.eqb_neq (year t) 0)) in *
    by (destruct Hv; lia). simpl in *. apply u32_small. unfold MAX_DAY_NUMBER, U32_MAX in *. lia.
Qed.

Lemma abs_us_range t : full_date t -> in_range (abs_us t).
Proof.
  intros Hf. destruct (full_date_daynr t Hf) as [_ Hr]. destruct Hf as (_ & H1 & H2 & H3 & H4 & _).
  unfold in_range, abs_us, COMBINE, DAY_US. lia.
Qed.

(** The days that the check at the beginning counts *)
Definition interval_days (i : INTERVAL) : Z :=
  i_day i + i_hour i / 24 + i_minute i / 24 / 60 + i_second i / 24 / 60 / 60.

Lemma interval_days_us i :
  interval_ok i ->
  0 <= interval_days i < 2 ^ 64 /\ interval_days i * DAY_US <= interval_us i /\
  interval_us i < (interval_days i + 3) * DAY_US + 2 ^ 63.
Proof.
  intros (H1 & H2 & H3 & H4 & H5). unfold interval_days, interval_us, COMBINE, DAY_US.
  Z.to_euclidean_division_equations. lia.
Qed.

(** Taking a number of microseconds apart and putting it together again *)
Lemma combine_parts x :
  0 <= x ->
  let s := x / 1000000 in let mi := s / 60 in let h := mi / 60 in
  COMBINE (h / 24) (h mod 24) (mi mod 60) (s mod 60) (x mod 1000000) = x /\ h / 24 = x / DAY_US.
Proof.
  intros Hx. cbv zeta. unfold COMBINE, DAY_US. split.
  - Z.to_euclidean_division_equations. lia.
  - rewrite !Z.div_div by lia. done.
Qed.

Lemma s64_cases x :
  - 2 ^ 63 - 2 ^ 62 <= x < 2 ^ 63 + 2 ^ 62 ->
  (- 2 ^ 63 <= x < 2 ^ 63 /\ s64 x = x) \/ (2 ^ 63 <= x /\ s64 x < 0) \/
  (x < - 2 ^ 63 /\ 2 ^ 62 <= s64 x).
Proof.
  intros Hx. destruct (Z.lt_ge_cases x (- 2 ^ 63)); [|destruct (Z.lt_ge_cases x (2 ^ 63))].
  - right; right. split; [done|]. unfold s64, u64.
    rewrite <- (Z.mod_add x 1), Z.mod_small by lia. rewrite (proj2 (Z.ltb_lt _ _)) by lia. lia.
  - left. split; [lia|]. by apply s64_small.
  - right; left. split; [done|]. unfold s64, u64. rewrite Z.mod_small by lia.
    rewrite (proj2 (Z.ltb_ge _ _)) by lia. lia.
Qed.

Lemma add_microseconds_correct t int_type i :
  by_microseconds int_type = true -> full_date t -> interval_ok i ->
  let total := abs_us t + (if i_neg i then -1 else 1) * interval_us i in
  let '(r, t') := date_add_interval t int_type i in
  (r = Added <-> in_range total) /\ r <> NullDate /\
  (r = Added -> abs_us t' = total /\ full_date t').
Proof.
  intros Hty Hf Hi total. unfold date_add_interval. rewrite Hty.
  assert (Hsign : (if Bool.eqb (i_neg i) (neg t) then 1 else -1) = (if i_neg i then -1 else 1)).
  { destruct Hf as (_ & _ & _ & _ & _ & -> & _). by destruct (i_neg i). }
  rewrite Hsign. unfold add_microseconds. fold (interval_days i).
  destruct (interval_days_us i Hi) as (Hd0 & Hlo & Hhi). unfold u64 at 1. rewrite Z.mod_small by done.
  pose proof (abs_us_range t Hf) as Hr. unfold in_range in *.
  destruct (Z.ltb_spec MAX_DAY_NUMBER (interval_days i)) as [Hg|Hg].
  { split; [|done]. split; [done|]. intros H. exfalso. unfold total, MAX_DAY_NUMBER, DAY_US in *.
    destruct (i_neg i); lia. }
  assert (Ety : bool_decide (time_type t = MYSQL_TIMESTAMP_TIME) = false)
    by (apply bool_decide_eq_false; apply Hf).
  rewrite Ety. clear Ety. destruct (full_date_daynr t Hf) as [-> _]. fold (abs_us t) (interval_us i). fold total.
  destruct Hf as (_ & _ & _ & _ & _ & Hneg & Htt). rewrite Hneg. cbv zeta. rewrite xorb_false_l.
  assert (Hdt : (if bool_decide (int_type = INTERVAL_DAY) then time_type t
                 else MYSQL_TIMESTAMP_DATETIME) <> MYSQL_TIMESTAMP_TIME) by (by case_bool_decide).
  destruct (Z.ltb_spec (s64 total) 0) as [Hs|Hs].
  { split; [|done]. split; [done|]. intros H. exfalso.
    rewrite s64_small in Hs; unfold MAX_DAY_NUMBER, DAY_US in *; lia. }
  destruct (combine_parts (s64 total) Hs) as [Hparts Hday]. cbv zeta in Hparts, Hday.
  set (q := s64 total / 1000000 / 60 / 60 / 24) in *. pose proof (daynr_of_get_date q) as Hget.
  assert (Hcase : (s64 total = total /\ 0 <= total) \/ (~ in_range total /\ 2 ^ 62 <= s64 total)).
  { unfold in_range. destruct (s64_cases total) as [[? ?]|[[? ?]|[? ?]]];
      unfold total, MAX_DAY_NUMBER, DAY_US in *; destruct (i_neg i); lia. }
  destruct (get_date_from_daynr _) as [[[y m] d]|].
  - destruct Hget as (Hrange & Hv & Hnr). destruct Hcase as [[E H0]|[_ Hbig]].
    2: { exfalso. unfold MAX_DAY_NUMBER, DAY_US in *. Z.to_euclidean_division_equations. lia. }
    rewrite E in Hparts, Hday. split; [|split; [done|intros _; split]].
    + split; [intros _|done]. unfold in_range, MAX_DAY_NUMBER, DAY_US in *.
      Z.to_euclidean_division_equations. lia.
    + unfold abs_us, set_date. simpl. by rewrite Hnr, E.
    + unfold full_date, set_date. simpl. split; [done|].
      do 4 (split; [by apply Z.mod_pos_bound|]). split; [done|]. exact Hdt.
  - split; [|done]. split; [done|]. intros H. exfalso. destruct Hcase as [[E H0]|[Hn _]]; [|done].
    rewrite E in Hday. unfold in_range, MAX_DAY_NUMBER, DAY_US in *.
    Z.to_euclidean_division_equations. lia.
Qed.


Lemma add_week_correct t i :
  full_date t -> interval_ok i ->
  let total := abs_us t + (if i_neg i then -1 else 1) * (i_day i * DAY_US) in
  let '(r, t') := date_add_interval t INTERVAL_WEEK i in
  (r = Added <-> in_range total) /\ r <> NullDate /\
  (r = Added -> abs_us t' = total /\ full_date t').
Proof.
  intros Hf (Hi & _) total. unfold date_add_interval. simpl by_microseconds. cbv iota.
  destruct (full_date_daynr t Hf) as [_ Hnr]. destruct Hf as (Hv & Hh & Hmi & Hs & Hus & Hneg & Htt).
  replace (if Bool.eqb (i_neg i) (neg t) then 1 else -1) with (if i_neg i then -1 else 1)
    by (rewrite Hneg; by destruct (i_neg i)).
  unfold add_week. rewrite s64_small by lia.
  set (p := calc_daynr (year t) (month t) (day t) + (if i_neg i then -1 else 1) * i_day i).
  assert (Et : total = COMBINE p (hour t) (minute t) (second t) (second_part t))
    by (unfold total, p, abs_us, COMBINE, DAY_US; lia).
  assert (Hr : in_range total <-> 366 <= p <= MAX_DAY_NUMBER)
    by (rewrite Et; unfold in_range, COMBINE, DAY_US; lia).
  pose proof (daynr_of_get_date p) as Hget. clearbody p total.
  destruct (_ || _) eqn:Eb.
  - rewrite Hr. split; [|done]. split; [done|]. unfold MAX_DAY_NUMBER. apply orb_true_iff in Eb. lia.
  - destruct (get_date_from_daynr p) as [[[y m] d]|].
    + destruct Hget as (Hrange & Hv' & Hd). unfold set_date. cbv iota beta. simpl time_type.
      rewrite bool_decide_false, Hr by done. split; [by split|]. split; [done|]. intros _.
      unfold abs_us, full_date. simpl. by rewrite Hd, Et.
    + rewrite Hr. split; [split; [done|lia]|done].
Qed.

(** The microseconds that an interval is added as *)
Definition interval_length (int_type : interval_type) (i : INTERVAL) : Z :=
  if bool_decide (int_type = INTERVAL_WEEK) then i_day i * DAY_US else interval_us i.

(** What adding microseconds does *)
Definition microseconds_added (total : Z) (res : add_result * MYSQL_TIME) : Prop :=
  let '(r, t') := res in
  (r = Added <-> in_range total) /\ r <> NullDate /\
  (r = Added -> abs_us t' = total /\ full_date t').

Lemma date_add_microseconds t int_type i :
  by_microseconds int_type = true \/ int_type = INTERVAL_WEEK -> full_date t -> interval_ok i ->
  microseconds_added (abs_us t + (if i_neg i then -1 else 1) * interval_length int_type i)
    (date_add_interval t int_type i).
Proof.
  intros [Hty| ->] Hf Hi; [|by apply add_week_correct].
  unfold interval_length. rewrite bool_decide_false by (by intros ->). by apply add_microseconds_correct.
Qed.

(** ** Months and years *)

(** The types that are added as a number of months *)
Definition by_months (int_type : interval_type) : bool :=
  match int_type with
  | INTERVAL_YEAR | INTERVAL_YEAR_MONTH | INTERVAL_QUARTER | INTERVAL_MONTH => true
  | _ => false
  end.

Definition interval_months (int_type : interval_type) (i : INTERVAL) : Z :=
  i_year i * 12 + (if bool_decide (int_type = INTERVAL_YEAR) then 0 else i_month i).

(** The months since month 0 *)
Definition abs_months (t : MYSQL_TIME) : Z := year t * 12 + (month t - 1).

(** What adding months does: the day is cut to the length of the month. *)
Definition months_added (t : MYSQL_TIME) (total : Z) (res : add_result * MYSQL_TIME) : Prop :=
  let '(r, t') := res in
  (r = Added <-> 0 <= total < 120000) /\ r <> NullDate /\
  (r = Added ->
     abs_months t' = total /\ 1 <= month t' <= 12 /\
     day t' = Z.min (day t) (calc_days_in_month (year t') (month t')) /\
     t' = set_date t (year t', month t', day t')).

Lemma set_date_twice t d d' : set_date (set_date t d) d' = set_date t d'.
Proof. by destruct d as [[? ?] ?], d' as [[? ?] ?]. Qed.

Lemma leap_year_days y : (calc_days_in_year y =? 366) = isleap y.
Proof. unfold calc_days_in_year. by destruct (isleap y). Qed.

Lemma cut_to_month y m d :
  (if month_days m <? d then month_days m + (if (m =? 2) && isleap y then 1 else 0) else d) =
    Z.min d (calc_days_in_month y m).
Proof.
  unfold calc_days_in_month. destruct (Z.eqb_spec m 2) as [-> |]; simpl andb; cbv iota.
  - change (month_days 2) with 28. destruct (isleap y), (Z.ltb_spec 28 d); lia.
  - destruct (Z.ltb_spec (month_days m) d); lia.
Qed.

Lemma cut_leap_day y y' m d :
  d <= calc_days_in_month y m ->
  (if (m =? 2) && (d =? 29) && negb (isleap y') then 28 else d) = Z.min d (calc_days_in_month y' m).
Proof.
  unfold calc_days_in_month. destruct (Z.eqb_spec m 2) as [-> |]; simpl andb; cbv iota; [|lia].
  change (month_days 2) with 28.
  destruct (isleap y), (isleap y'), (Z.eqb_spec d 29); simpl negb; simpl andb; cbv iota; lia.
Qed.

Lemma add_month_correct t i sg :
  full_date t -> sg = 1 \/ sg = -1 -> 0 <= i_year i < 2 ^ 31 -> 0 <= i_month i < 2 ^ 31 ->
  months_added t (abs_months t + sg * (i_year i * 12 + i_month i)) (add_month t i sg).
Proof.
  intros ((Hy & Hm & Hd) & _) Hsg Hiy Him. unfold add_month.
  rewrite (s64_small (i_year i)), (s64_small (i_month i)) by lia. rewrite u32_small by (unfold U32_MAX; lia).
  set (total := abs_months t + sg * (i_year i * 12 + i_month i)).
  replace (s64 _) with total by (rewrite s64_small; unfold total, abs_months; nia).
  assert (Ht : - 2 ^ 60 <= total < 2 ^ 60) by (unfold total, abs_months; nia). clearbody total.
  assert (Hu : (120000 <=? u64 total) = negb (bool_decide (0 <= total < 120000))).
  { unfold u64. case_bool_decide as H; [rewrite Z.mod_small by lia; apply Z.leb_gt; lia|].
    apply Z.leb_le. destruct (Z.lt_ge_cases total 0); [|rewrite Z.mod_small; lia].
    rewrite <- (Z.mod_add total 1), Z.mod_small; lia. }
  rewrite Hu. case_bool_decide as H; simpl negb; cbv iota zeta; [|by split].
  split; [by split|]. split; [done|]. intros _. unfold set_date, abs_months. simpl.
  rewrite leap_year_days. split; [|split; [|split; [|done]]].
  - pose proof (Z.div_mod total 12). lia.
  - pose proof (Z.mod_pos_bound total 12). lia.
  - apply cut_to_month.
Qed.

Lemma add_year_correct t i sg :
  full_date t -> sg = 1 \/ sg = -1 -> 0 <= i_year i < 2 ^ 31 ->
  months_added t (abs_months t + sg * (i_year i * 12)) (add_year t i sg).
Proof.
  intros ((Hy & Hm & Hd) & _) Hsg Hiy. unfold add_year. rewrite s64_small by lia.
  set (y := year t + sg * i_year i).
  replace (abs_months t + sg * (i_year i * 12)) with (y * 12 + (month t - 1)) by (unfold y, abs_months; lia).
  assert (Hb : - 2 ^ 31 <= y < 2 ^ 31 + 10000) by (unfold y; nia). clearbody y.
  assert (Hu : (10000 <=? u32 y) = negb (bool_decide (0 <= y < 10000))).
  { unfold u32. case_bool_decide as H; [rewrite Z.mod_small by lia; apply Z.leb_gt; lia|].
    apply Z.leb_le. destruct (Z.lt_ge_cases y 0); [|rewrite Z.mod_small; lia].
    rewrite <- (Z.mod_add y 1), Z.mod_small; lia. }
  rewrite Hu. case_bool_decide as H; simpl negb; cbv iota zeta.
  2: { split; [split; [done|lia]|done]. }
  rewrite u32_small, leap_year_days by (unfold U32_MAX; lia).
  pose proof (cut_leap_day (year t) y (month t) (day t) (proj2 Hd)) as Hcut.
  destruct (_ && _ && _); rewrite ?set_date_twice; (split; [split; [lia|done]|]);
    (split; [done|]); intros _; unfold set_date, abs_months; simpl; by rewrite <- Hcut.
Qed.

(** The check of the type at the end *)
Lemma finish_months t total res :
  full_date t -> months_added t total res ->
  months_added t total
    (let '(r, t') := res in
     match r with
     | Added =>
         if bool_decide (time_type t' = MYSQL_TIMESTAMP_TIME) then (InvalidDate, t') else (Added, t')
     | _ => (r, t')
     end).
Proof.
  intros Hf. destruct res as [[] t']; [|done..]. intros (H1 & H2 & H3).
  assert (time_type t' <> MYSQL_TIMESTAMP_TIME).
  { destruct (H3 eq_refl) as (_ & _ & _ & ->). apply Hf. }
  by rewrite bool_decide_false.
Qed.

Lemma date_add_months t int_type i :
  by_months int_type = true -> full_date t -> 0 <= i_year i < 2 ^ 31 -> 0 <= i_month i < 2 ^ 31 ->
  months_added t (abs_months t + (if i_neg i then -1 else 1) * interval_months int_type i)
    (date_add_interval t int_type i) /\
  date_add_interval t INTERVAL_YEAR
    (mk_interval (i_year i + 2 ^ 32) (i_month i) (i_day i) (i_hour i) (i_minute i) (i_second i)
       (i_second_part i) (i_neg i)) = date_add_interval t INTERVAL_YEAR i.
Proof.
  intros Hty Hf Hiy Him.
  assert (Hsign : (if Bool.eqb (i_neg i) (neg t) then 1 else -1) = (if i_neg i then -1 else 1)).
  { destruct Hf as (_ & _ & _ & _ & _ & -> & _). by destruct (i_neg i). }
  set (sg := if i_neg i then -1 else 1) in *.
  assert (Hsg : sg = 1 \/ sg = -1) by (unfold sg; destruct (i_neg i); lia). split.
  - pose proof (add_month_correct t i sg Hf Hsg Hiy Him) as H1.
    pose proof (add_year_correct t i sg Hf Hsg Hiy) as H2.
    unfold date_add_interval, interval_months. rewrite Hsign.
    destruct int_type; try done; simpl by_microseconds; cbv iota; simpl bool_decide; cbv iota;
      rewrite ?Z.add_0_r; by apply finish_months.
  - unfold date_add_interval. simpl. rewrite Hsign. unfold add_year. simpl.
    replace (u32 (year t + sg * s64 (i_year i + 2 ^ 32))) with (u32 (year t + sg * s64 (i_year i))); [done|].
    rewrite !s64_small by lia. unfold u32.
    replace (year t + sg * (i_year i + 2 ^ 32)) with (year t + sg * i_year i + sg * 2 ^ 32) by lia.
    by rewrite Z.mod_add by lia.
Qed.

(** C24: adding an interval of weeks, or of days to microseconds, to a date or datetime is addition
    on the line of microseconds: the result is the valid datetime at that distance, and it is an
    error exactly if that is outside 0001-01-01 to 9999-12-31.
    Adding years, quarters or months to a date is addition of months, with the day cut to the
    length of the new month and the time of the day unchanged, and an error exactly outside the
    years 0 to 9999, for intervals below 2^31 years and months.  Years are counted modulo 2^32 in the
    32-bit year of the date before the range is checked, so that adding 2^32 years more never is an
    error by itself. *)
Theorem date_add_correct t int_type i :
  full_date t ->
  (by_microseconds int_type = true \/ int_type = INTERVAL_WEEK -> interval_ok i ->
   microseconds_added (abs_us t + (if i_neg i then -1 else 1) * interval_length int_type i)
     (date_add_interval t int_type i)) /\
  (by_months int_type = true -> 0 <= i_year i < 2 ^ 31 -> 0 <= i_month i < 2 ^ 31 ->
   months_added t (abs_months t + (if i_neg i then -1 else 1) * interval_months int_type i)
     (date_add_interval t int_type i) /\
   date_add_interval t INTERVAL_YEAR
     (mk_interval (i_year i + 2 ^ 32) (i_month i) (i_day i) (i_hour i) (i_minute i) (i_second i)
        (i_second_part i) (i_neg i)) = date_add_interval t INTERVAL_YEAR i).
Proof.
  intros Hf. split; [intros; by apply date_add_microseconds|intros; by apply date_add_months].
Qed.

(** 86401 seconds over a leap day, one month after 2024-01-31, and the same date and 2^32 years *)
Lemma date_add_correct_witness :
  abs_us (mk_time 2024 3 1 0 0 0 0 false MYSQL_TIMESTAMP_DATETIME) =
  abs_us (mk_time 2024 2 28 23 59 59 0 false MYSQL_TIMESTAMP_DATETIME) + 86401000000 /\
  day (snd (date_add_interval (mk_time 2024 1 31 0 0 0 0 false MYSQL_TIMESTAMP_DATE) INTERVAL_MONTH
    (mk_interval 0 1 0 0 0 0 0 false))) = 29 /\
  date_add_interval (mk_time 2024 1 31 0 0 0 0 false MYSQL_TIMESTAMP_DATE) INTERVAL_YEAR
    (mk_interval (0 + 2 ^ 32) 1 0 0 0 0 0 false) =
    (Added, mk_time 2024 1 31 0 0 0 0 false MYSQL_TIMESTAMP_DATE).
Proof.
  split.
  - destruct (date_add_correct (mk_time 2024 2 28 23 59 59 0 false MYSQL_TIMESTAMP_DATETIME)
      INTERVAL_SECOND (mk_interval 0 0 0 0 0 86401 0 false) ltac:(by_decide)) as [H _].
    specialize (H (or_introl eq_refl) ltac:(by_decide)).
    change (date_add_interval _ _ _) with
      (Added, mk_time 2024 3 1 0 0 0 0 false MYSQL_TIMESTAMP_DATETIME) in H.
    destruct H as (_ & _ & H). exact (proj1 (H eq_refl)).
  - destruct (date_add_correct (mk_time 2024 1 31 0 0 0 0 false MYSQL_TIMESTAMP_DATE) INTERVAL_MONTH
      (mk_interval 0 1 0 0 0 0 0 false) ltac:(by_decide)) as [_ H].
    destruct (H eq_refl ltac:(by_decide) ltac:(by_decide)) as [H1 H2]. split; [|exact H2].
    change (date_add_interval _ INTERVAL_MONTH _)
      with (Added, mk_time 2024 2 29 0 0 0 0 false MYSQL_TIMESTAMP_DATE) in *.
    exact (proj1 (proj2 (proj2 (proj2 (proj2 H1) eq_refl)))).
Defined.
