(* ===== verification/TimeBin.v ===== *)
(** * Dates and times: the formats of MySQL 5.6

    sql/compat56.cc: TIME and DATETIME values packed into a number, and that number in
    bytes that memcmp orders like the values. *)

From S2P Require Import Prelude Bytes DecimalBin DecimalBinValue Time TimeProps TimeAdd.

Local Open Scope Z_scope.

Definition MY_PACKED_TIME_GET_INT_PART (x : Z) : Z := Z.shiftr x 24.
Definition MY_PACKED_TIME_GET_FRAC_PART (x : Z) : Z := Z.rem x (2 ^ 24).
Definition MY_PACKED_TIME_MAKE (i f : Z) : Z := s64 (Z.shiftl (u64 i) 24 + f).
Definition MY_PACKED_TIME_MAKE_INT (i : Z) : Z := s64 (Z.shiftl (u64 i) 24).

Definition TIME_to_longlong_time_packed (t : MYSQL_TIME) : Z :=
  let hms := Z.lor (Z.lor (u32 (Z.shiftl (day t * 24 + hour t) 12)) (u32 (Z.shiftl (minute t) 6)))
               (second t) in
  let tmp := MY_PACKED_TIME_MAKE hms (second_part t) in
  if neg t then - tmp else tmp.

Definition TIME_from_longlong_time_packed (nr : Z) : MYSQL_TIME :=
  let n := nr <? 0 in
  let tmp := if n then - nr else nr in
  let hms := MY_PACKED_TIME_GET_INT_PART tmp in
  mk_time 0 0 0 (u32 (Z.shiftr hms 12) mod 2 ^ 10) (u32 (Z.shiftr hms 6) mod 2 ^ 6)
    (u32 hms mod 2 ^ 6) (MY_PACKED_TIME_GET_FRAC_PART tmp) n MYSQL_TIMESTAMP_TIME.

Definition my_time_binary_length (dec : Z) : Z := 3 + (dec + 1) / 2.

Definition TIMEF_OFS : Z := 0x800000000000.
Definition TIMEF_INT_OFS : Z := 0x800000.

Definition my_time_packed_to_binary (nr dec : Z) : list Z :=
  let intpart := mi_intstore 3 (TIMEF_INT_OFS + MY_PACKED_TIME_GET_INT_PART nr) in
  if (dec =? 1) || (dec =? 2) then
    intpart ++ [Z.land (MY_PACKED_TIME_GET_FRAC_PART nr ÷ 10000) 255]
  else if (dec =? 4) || (dec =? 3) then
    intpart ++ mi_intstore 2 (MY_PACKED_TIME_GET_FRAC_PART nr ÷ 100)
  else if (dec =? 5) || (dec =? 6) then mi_intstore 6 (nr + TIMEF_OFS)
  else intpart.

Definition my_time_packed_from_binary (ptr : list Z) (dec : Z) : Z :=
  let intpart := be256 (take 3 ptr) - TIMEF_INT_OFS in
  if (dec =? 1) || (dec =? 2) then
    let frac := nth 3 ptr 0 in
    if (intpart <? 0) && negb (frac =? 0)
    then MY_PACKED_TIME_MAKE (intpart + 1) ((frac - 0x100) * 10000)
    else MY_PACKED_TIME_MAKE intpart (frac * 10000)
  else if (dec =? 3) || (dec =? 4) then
    let frac := be256 (take 2 (drop 3 ptr)) in
    if (intpart <? 0) && negb (frac =? 0)
    then MY_PACKED_TIME_MAKE (intpart + 1) ((frac - 0x10000) * 100)
    else MY_PACKED_TIME_MAKE intpart (frac * 100)
  else if (dec =? 5) || (dec =? 6) then be256 (take 6 ptr) - TIMEF_OFS
  else MY_PACKED_TIME_MAKE_INT intpart.

Definition TIME_to_longlong_datetime_packed (t : MYSQL_TIME) : Z :=
  let ymd := Z.lor (u32 (Z.shiftl (year t * 13 + month t) 5)) (day t) in
  let hms := Z.lor (Z.lor (u32 (Z.shiftl (hour t) 12)) (u32 (Z.shiftl (minute t) 6))) (second t) in
  let tmp := MY_PACKED_TIME_MAKE (Z.lor (Z.shiftl ymd 17) hms) (second_part t) in
  if neg t then - tmp else tmp.

Definition TIME_from_longlong_datetime_packed (nr : Z) : MYSQL_TIME :=
  let n := nr <? 0 in
  let tmp := if n then - nr else nr in
  let ymdhms := MY_PACKED_TIME_GET_INT_PART tmp in
  let ymd := Z.shiftr ymdhms 17 in
  let ym := Z.shiftr ymd 5 in
  let hms := Z.rem ymdhms (2 ^ 17) in
  mk_time (u32 (ym ÷ 13)) (Z.rem ym 13) (Z.rem ymd (2 ^ 5)) (u32 (Z.shiftr hms 12))
    (Z.rem (Z.shiftr hms 6) (2 ^ 6)) (Z.rem hms (2 ^ 6)) (MY_PACKED_TIME_GET_FRAC_PART tmp) n
    MYSQL_TIMESTAMP_DATETIME.

Definition my_datetime_binary_length (dec : Z) : Z := 5 + (dec + 1) / 2.

Definition DATETIMEF_INT_OFS : Z := 0x8000000000.

Definition my_datetime_packed_to_binary (nr dec : Z) : list Z :=
  let intpart := mi_intstore 5 (MY_PACKED_TIME_GET_INT_PART nr + DATETIMEF_INT_OFS) in
  if (dec =? 1) || (dec =? 2) then
    intpart ++ [Z.land (MY_PACKED_TIME_GET_FRAC_PART nr ÷ 10000) 255]
  else if (dec =? 3) || (dec =? 4) then
    intpart ++ mi_intstore 2 (MY_PACKED_TIME_GET_FRAC_PART nr ÷ 100)
  else if (dec =? 5) || (dec =? 6) then
    intpart ++ mi_intstore 3 (MY_PACKED_TIME_GET_FRAC_PART nr)
  else intpart.

Definition my_datetime_packed_from_binary (ptr : list Z) (dec : Z) : Z :=
  let intpart := be256 (take 5 ptr) - DATETIMEF_INT_OFS in
  if (dec =? 1) || (dec =? 2) then
    MY_PACKED_TIME_MAKE intpart (mi_sintkorr (take 1 (drop 5 ptr)) * 10000)
  else if (dec =? 3) || (dec =? 4) then
    MY_PACKED_TIME_MAKE intpart (mi_sintkorr (take 2 (drop 5 ptr)) * 100)
  else if (dec =? 5) || (dec =? 6) then
    MY_PACKED_TIME_MAKE intpart (mi_sintkorr (take 3 (drop 5 ptr)))
  else MY_PACKED_TIME_MAKE_INT intpart.

(** ** TIME in bytes *)

(** A packed TIME that is rounded to [dec] digits *)
Definition packed_ok (dec nr : Z) : Prop :=
  0 <= dec <= 6 /\ - 2 ^ 46 < nr < 2 ^ 46 /\
  Z.abs (MY_PACKED_TIME_GET_FRAC_PART nr) <= 999999 /\
  Z.rem (MY_PACKED_TIME_GET_FRAC_PART nr) (10 ^ (6 - dec)) = 0.

(** The bytes of the fraction and the unit that they count *)
Definition frac_bytes (dec : Z) : nat := Z.to_nat ((dec + 1) / 2).
Definition frac_unit (dec : Z) : Z := 10 ^ (6 - 2 * ((dec + 1) / 2)).

Lemma dec_cases dec : 0 <= dec <= 6 ->
  dec = 0 \/ dec = 1 \/ dec = 2 \/ dec = 3 \/ dec = 4 \/ dec = 5 \/ dec = 6.
Proof. lia. Qed.

(** All precisions have the same form. *)
Lemma to_binary_form nr dec :
  packed_ok dec nr ->
  my_time_packed_to_binary nr dec =
    mi_intstore 3 (TIMEF_INT_OFS + Z.shiftr nr 24) ++
    mi_intstore (frac_bytes dec) (Z.rem nr (2 ^ 24) ÷ frac_unit dec).
Proof.
  intros (Hd & Hn & _). unfold my_time_packed_to_binary, MY_PACKED_TIME_GET_INT_PART,
    MY_PACKED_TIME_GET_FRAC_PART.
  assert (H6 : mi_intstore 6 (nr + TIMEF_OFS) =
    mi_intstore 3 (TIMEF_INT_OFS + Z.shiftr nr 24) ++ mi_intstore 3 (Z.rem nr (2 ^ 24) ÷ 1)).
  { rewrite Z.quot_1_r. change 6%nat with (3 + 3)%nat. rewrite mi_intstore_app. f_equal.
    - f_equal. change (8 * Z.of_nat 3) with 24. rewrite !Z.shiftr_div_pow2 by lia.
      unfold TIMEF_OFS, TIMEF_INT_OFS.
      replace (nr + 0x800000000000) with (nr + 0x800000 * 2 ^ 24) by lia.
      rewrite Z.div_add by lia. lia.
    - apply mi_intstore_mod. change (bpow 3) with (2 ^ 24). unfold TIMEF_OFS.
      replace (nr + 0x800000000000) with (nr + 0x800000 * 2 ^ 24) by lia. rewrite Z.mod_add by lia.
      rewrite (Z.quot_rem' nr (2 ^ 24)) at 1. rewrite Z.add_comm, Z.mul_comm.
      by rewrite Z.mod_add by lia. }
  destruct (dec_cases dec Hd) as [-> |[-> |[-> |[-> |[-> |[-> | ->]]]]]]; simpl; try done.
Qed.

Lemma s64_mod x y : x mod 2 ^ 64 = y mod 2 ^ 64 -> s64 x = s64 y.
Proof. unfold s64, u64. by intros ->. Qed.

Lemma make_eq i f : - 2 ^ 63 <= i * 2 ^ 24 + f < 2 ^ 63 -> MY_PACKED_TIME_MAKE i f = i * 2 ^ 24 + f.
Proof.
  intros H. rewrite <- (s64_small _ H). unfold MY_PACKED_TIME_MAKE. apply s64_mod.
  unfold u64. rewrite Z.shiftl_mul_pow2 by lia.
  rewrite <- Z.add_mod_idemp_l, Z.mul_mod_idemp_l, Z.add_mod_idemp_l by lia. done.
Qed.

Lemma make_int_eq i : - 2 ^ 63 <= i * 2 ^ 24 < 2 ^ 63 -> MY_PACKED_TIME_MAKE_INT i = i * 2 ^ 24.
Proof.
  intros H. rewrite <- (Z.add_0_r (i * 2 ^ 24)), <- make_eq by lia.
  unfold MY_PACKED_TIME_MAKE. by rewrite Z.add_0_r.
Qed.

(** Division that rounds down and the remainder of a division that truncates *)
Lemma floor_rem a M :
  0 < M ->
  a = (a / M + (if Z.rem a M <? 0 then 1 else 0)) * M + Z.rem a M /\
  (Z.rem a M < 0 -> a / M < 0) /\ (0 < Z.rem a M -> 0 <= a / M).
Proof.
  intros HM. destruct (Z.le_gt_cases 0 a) as [Ha|Ha].
  - rewrite Z.rem_mod_nonneg by lia. pose proof (Z.mod_pos_bound a M HM).
    pose proof (Z.div_pos a M Ha HM). pose proof (Z.div_mod a M).
    rewrite (proj2 (Z.ltb_ge _ _)) by lia. lia.
  - remember (- a) as b eqn:Eb. assert (Hb0 : 0 < b) by lia. replace a with (- b) by lia. clear Eb Ha.
    rewrite Z.rem_opp_l, Z.rem_mod_nonneg by lia. pose proof (Z.mod_pos_bound b M HM).
    pose proof (Z.div_mod b M ltac:(lia)) as Hb. pose proof (Z.div_pos b M ltac:(lia) HM).
    destruct (Z.eq_dec (b mod M) 0) as [E|E].
    + rewrite Z.div_opp_l_z by lia. rewrite (proj2 (Z.ltb_ge _ _)) by lia. lia.
    + rewrite Z.div_opp_l_nz by lia. rewrite (proj2 (Z.ltb_lt _ _)) by lia. lia.
Qed.

(** The parts of a packed value: [i] is rounded down, [f] has the sign of the value. *)
Lemma packed_parts dec nr :
  packed_ok dec nr ->
  let i := Z.shiftr nr 24 in
  let f := Z.rem nr (2 ^ 24) ÷ frac_unit dec in
  nr = (i + (if f <? 0 then 1 else 0)) * 2 ^ 24 + f * frac_unit dec /\
  (f < 0 -> i < 0) /\ (0 < f -> 0 <= i) /\ - 2 ^ 22 <= i < 2 ^ 22 /\
  1 <= frac_unit dec /\ 2 * Z.abs f < bpow (frac_bytes dec) /\ Z.abs f * frac_unit dec <= 999999 /\
  (frac_bytes dec = 0%nat -> f = 0).
Proof.
  intros (Hd & Hn & Hf & Hr) i f. unfold MY_PACKED_TIME_GET_FRAC_PART in *.
  assert (Hu : 1 <= frac_unit dec /\ Z.rem (Z.rem nr (2 ^ 24)) (frac_unit dec) = 0 /\
    999999 / frac_unit dec * 2 < bpow (frac_bytes dec) /\
    (frac_bytes dec = 0%nat -> frac_unit dec = 1000000)).
  { destruct (dec_cases dec Hd) as [-> |[-> |[-> |[-> |[-> |[-> | ->]]]]]];
      (split; [done|split; [|split; [done|done]]]);
      apply Z.rem_divide; try done; apply Z.rem_divide in Hr; try done;
      (eapply Z.divide_trans; [|exact Hr]); (exists 1; reflexivity) || (exists 10; reflexivity). }
  destruct Hu as (Hu1 & Hu2 & Hu3 & Hu0).
  set (r := Z.rem nr (2 ^ 24)) in *.
  assert (Er : r = f * frac_unit dec).
  { unfold f. rewrite (Z.quot_rem' r (frac_unit dec)) at 1. rewrite Hu2. lia. }
  assert (Ei : i = nr / 2 ^ 24) by (apply Z.shiftr_div_pow2; lia).
  destruct (floor_rem nr (2 ^ 24)) as (H1 & H2 & H3); [done|]. fold r in H1, H2, H3.
  rewrite <- Ei in H1, H2, H3.
  assert (H4 : - 2 ^ 22 <= i < 2 ^ 22).
  { rewrite Ei. split; [apply Z.div_le_lower_bound; lia|apply Z.div_lt_upper_bound; lia]. }
  clear Hr Hu2 Ei Hd. clearbody i r f.
  assert (Hsg : (f <? 0) = (r <? 0)).
  { destruct (Z.ltb_spec f 0), (Z.ltb_spec r 0); nia. }
  assert (Hab : Z.abs f * frac_unit dec <= 999999) by (rewrite Er, Z.abs_mul in Hf; lia).
  assert (Hfb : Z.abs f <= 999999 / frac_unit dec) by (apply Z.div_le_lower_bound; lia).
  rewrite Hsg, <- Er. split; [done|]. split; [intros; apply H2; nia|].
  split; [intros; apply H3; nia|]. split; [done|]. split; [done|]. split; [lia|].
  split; [done|]. intros E. specialize (Hu0 E). lia.
Qed.

Lemma be_take n l1 l2 : length l1 = n -> be256 (take n (l1 ++ l2)) = be256 l1.
Proof. intros <-. by rewrite take_app_length. Qed.

Lemma store_time_int i : - 2 ^ 22 <= i < 2 ^ 22 -> be256 (mi_intstore 3 (TIMEF_INT_OFS + i)) = TIMEF_INT_OFS + i.
Proof.
  intros Hi. rewrite be256_store. apply Z.mod_small. change (bpow 3) with (2 ^ 24).
  unfold TIMEF_INT_OFS. lia.
Qed.

(** A fraction is stored as a two's complement number. *)
Lemma frac_mod f B : 2 * Z.abs f < B -> f mod B = if f <? 0 then f + B else f.
Proof.
  intros H. destruct (Z.ltb_spec f 0).
  - rewrite <- (Z.mod_add f 1) by lia. rewrite Z.mod_small; lia.
  - apply Z.mod_small. lia.
Qed.

(** The fraction of a negative value is read back in the reverse order. *)
Lemma read_back i f u B nr :
  nr = (i + (if f <? 0 then 1 else 0)) * 2 ^ 24 + f * u -> (f < 0 -> i < 0) -> (0 < f -> 0 <= i) ->
  - 2 ^ 22 <= i < 2 ^ 22 -> 1 <= u -> 2 * Z.abs f < B -> Z.abs f * u <= 999999 ->
  (if (i <? 0) && negb (f mod B =? 0) then MY_PACKED_TIME_MAKE (i + 1) ((f mod B - B) * u)
   else MY_PACKED_TIME_MAKE i (f mod B * u)) = nr.
Proof.
  intros -> Hneg Hpos Hi Hu HB Hf. rewrite frac_mod by done.
  assert (Hfu : - 999999 <= f * u <= 999999).
  { destruct (Z.le_gt_cases 0 f) as [H|H].
    - rewrite Z.abs_eq in Hf by done. nia.
    - rewrite Z.abs_neq in Hf by lia. nia. }
  destruct (Z.ltb_spec f 0) as [H|H].
  - rewrite (proj2 (Z.ltb_lt i 0)), (proj2 (Z.eqb_neq (f + B) 0)) by lia. simpl andb. cbv iota.
    replace (f + B - B) with f by lia. apply make_eq. lia.
  - assert (Hc : (i <? 0) && negb (f =? 0) = false).
    { destruct (Z.ltb_spec i 0); [|done]. by rewrite (proj2 (Z.eqb_eq f 0)) by lia. }
    rewrite Hc, Z.add_0_r. apply make_eq. lia.
Qed.

Lemma nth_store n i v : nth n (mi_intstore n i ++ [v]) 0 = v.
Proof. rewrite app_nth2 by (rewrite mi_intstore_length; lia). by rewrite mi_intstore_length, Nat.sub_diag. Qed.

Lemma drop_store n i l : drop n (mi_intstore n i ++ l) = l.
Proof. by rewrite <- (mi_intstore_length n i) at 1; rewrite drop_app_length. Qed.

Lemma time_binary_roundtrip dec nr :
  packed_ok dec nr -> my_time_packed_from_binary (my_time_packed_to_binary nr dec) dec = nr.
Proof.
  intros Hok. destruct (packed_parts dec nr Hok) as (En & Hneg & Hpos & Hi & Hu & Hf & Hmax & H0).
  destruct Hok as (Hd & Hn & _). unfold my_time_packed_from_binary, my_time_packed_to_binary.
  unfold MY_PACKED_TIME_GET_INT_PART, MY_PACKED_TIME_GET_FRAC_PART.
  set (i := Z.shiftr nr 24) in *. set (r := Z.rem nr (2 ^ 24)) in *.
  assert (Hint : forall l, be256 (take 3 (mi_intstore 3 (TIMEF_INT_OFS + i) ++ l)) - TIMEF_INT_OFS = i).
  { intros l. rewrite be_take, store_time_int by (done || apply mi_intstore_length). lia. }
  assert (H6 : be256 (take 6 (mi_intstore 6 (nr + TIMEF_OFS))) - TIMEF_OFS = nr).
  { rewrite take_ge by (rewrite mi_intstore_length; lia). rewrite be256_store.
    rewrite Z.mod_small; [lia|]. change (bpow 6) with (2 ^ 48). unfold TIMEF_OFS. lia. }
  destruct (dec_cases dec Hd) as [-> |[-> |[-> |[-> |[-> |[-> | ->]]]]]];
    cbn [Z.eqb Pos.eqb orb]; cbv iota zeta; try exact H6.
  - rewrite <- (app_nil_r (mi_intstore _ _)), Hint. specialize (H0 eq_refl).
    rewrite H0 in En. rewrite make_int_eq by lia. simpl in En. lia.
  - rewrite Hint, nth_store, land_255. by apply (read_back i (r ÷ 10000) 10000 256).
  - rewrite Hint, nth_store, land_255. by apply (read_back i (r ÷ 10000) 10000 256).
  - rewrite Hint, drop_store, take_ge, be256_store by (rewrite mi_intstore_length; lia).
    by apply (read_back i (r ÷ 100) 100 65536).
  - rewrite Hint, drop_store, take_ge, be256_store by (rewrite mi_intstore_length; lia).
    by apply (read_back i (r ÷ 100) 100 65536).
Qed.

(** ** The order of the bytes *)

Lemma time_binary_key dec nr :
  packed_ok dec nr ->
  let f := Z.rem nr (2 ^ 24) ÷ frac_unit dec in
  let B := bpow (frac_bytes dec) in
  Forall byte_ok (my_time_packed_to_binary nr dec) /\
  length (my_time_packed_to_binary nr dec) = (3 + frac_bytes dec)%nat /\
  be256 (my_time_packed_to_binary nr dec) =
    (TIMEF_INT_OFS + Z.shiftr nr 24) * B + (if f <? 0 then f + B else f).
Proof.
  intros Hok f B. destruct (packed_parts dec nr Hok) as (_ & _ & _ & Hi & _ & Hf & _).
  rewrite (to_binary_form nr dec Hok). split; [|split].
  - apply Forall_app. split; apply mi_intstore_bytes.
  - by rewrite length_app, !mi_intstore_length.
  - rewrite be256_app, store_time_int, mi_intstore_length by done. f_equal.
    rewrite be256_store. by apply frac_mod.
Qed.

Lemma time_binary_mono dec a b :
  packed_ok dec a -> packed_ok dec b -> a < b ->
  be256 (my_time_packed_to_binary a dec) < be256 (my_time_packed_to_binary b dec).
Proof.
  intros Ha Hb Hlt.
  destruct (time_binary_key dec a Ha) as (_ & _ & ->). destruct (time_binary_key dec b Hb) as (_ & _ & ->).
  destruct (packed_parts dec a Ha) as (Ea & Hna & Hpa & Hia & Hu & Hfa & Hma & _).
  destruct (packed_parts dec b Hb) as (Eb & Hnb & Hpb & Hib & _ & Hfb & Hmb & _).
  assert (Hle : Z.shiftr a 24 <= Z.shiftr b 24)
    by (rewrite !Z.shiftr_div_pow2 by lia; apply Z.div_le_mono; lia).
  clear Ha Hb. set (fa := Z.rem a (2 ^ 24) ÷ frac_unit dec) in *.
  set (fb := Z.rem b (2 ^ 24) ÷ frac_unit dec) in *. set (i := Z.shiftr a 24) in *.
  set (j := Z.shiftr b 24) in *. set (B := bpow (frac_bytes dec)) in *. set (u := frac_unit dec) in *.
  clearbody fa fb i j B u.
  assert (Hba : 0 <= (if fa <? 0 then fa + B else fa) < B) by (destruct (Z.ltb_spec fa 0); lia).
  assert (Hbb : 0 <= (if fb <? 0 then fb + B else fb) < B) by (destruct (Z.ltb_spec fb 0); lia).
  destruct (Z.eq_dec i j) as [-> |Hne]; [|nia].
  apply Z.add_lt_mono_l.
  destruct (Z.ltb_spec fa 0), (Z.ltb_spec fb 0).
  - assert (fa * u < fb * u) by lia. nia.
  - assert (fb = 0) as -> by lia. rewrite Z.abs_neq in Hma by lia. lia.
  - assert (fa = 0) as -> by lia. lia.
  - assert (fa * u < fb * u) by lia. nia.
Qed.

Lemma time_binary_order dec a b :
  packed_ok dec a -> packed_ok dec b ->
  memcmp (my_time_packed_to_binary a dec) (my_time_packed_to_binary b dec) = Z.sgn (a - b).
Proof.
  intros Ha Hb. destruct (time_binary_key dec a Ha) as (H1 & H2 & _).
  destruct (time_binary_key dec b Hb) as (H3 & H4 & _).
  rewrite memcmp_be256 by (done || congruence). destruct (Z.lt_trichotomy a b) as [H|[-> |H]].
  - pose proof (time_binary_mono dec a b Ha Hb H) as Hm. rewrite (proj2 (Z.compare_lt_iff _ _) Hm). lia.
  - rewrite Z.compare_refl. lia.
  - pose proof (time_binary_mono dec b a Hb Ha H) as Hm. rewrite (proj2 (Z.compare_gt_iff _ _) Hm). lia.
Qed.

(** ** TIME as a packed number *)

Lemma lor_add a b n : 0 <= n -> 0 <= b < 2 ^ n -> Z.lor (Z.shiftl a n) b = a * 2 ^ n + b.
Proof.
  intros Hn Hb. rewrite <- Z.shiftl_mul_pow2 by done.
  assert (Hl : Z.land (Z.shiftl a n) b = 0).
  { apply Z.bits_inj'. intros k Hk. rewrite Z.land_spec, Z.bits_0.
    destruct (Z.lt_ge_cases k n).
    - by rewrite Z.shiftl_spec_low.
    - rewrite <- (Z.mod_small b (2 ^ n)) by done. by rewrite Z.mod_pow2_bits_high, andb_false_r by lia. }
  rewrite Z.add_nocarry_lxor by done. by rewrite Z.lxor_lor.
Qed.

Lemma u32_shiftl a n : 0 <= n -> 0 <= a * 2 ^ n <= U32_MAX -> u32 (Z.shiftl a n) = Z.shiftl a n.
Proof. intros Hn H. rewrite Z.shiftl_mul_pow2 by done. by apply u32_small. Qed.

(** The time of the day in the low bits *)
Lemma hms_packed h mi s :
  0 <= h < 2 ^ 10 -> 0 <= mi < 60 -> 0 <= s < 60 ->
  Z.lor (Z.lor (u32 (Z.shiftl h 12)) (u32 (Z.shiftl mi 6))) s = (h * 2 ^ 6 + mi) * 2 ^ 6 + s.
Proof.
  intros Hh Hm Hs. rewrite !u32_shiftl by (unfold U32_MAX; lia).
  rewrite <- (lor_add _ s) by lia. f_equal. rewrite <- (lor_add _ mi) by lia.
  by rewrite Z.shiftl_lor, Z.shiftl_shiftl by lia.
Qed.

Definition time_ok (t : MYSQL_TIME) : Prop :=
  normal t /\ time_type t = MYSQL_TIMESTAMP_TIME /\ (neg t = true -> magnitude t <> 0).

(** The number that is packed, without the sign *)
Definition packed_abs (t : MYSQL_TIME) : Z :=
  ((hour t * 2 ^ 6 + minute t) * 2 ^ 6 + second t) * 2 ^ 24 + second_part t.

Lemma time_packed_abs t :
  time_ok t ->
  0 <= packed_abs t < 2 ^ 46 /\ (neg t = true -> packed_abs t <> 0) /\
  TIME_to_longlong_time_packed t = if neg t then - packed_abs t else packed_abs t.
Proof.
  intros ((Hmi & Hs & Hus & Hty) & Et & Hz). rewrite Et in Hty. destruct Hty as (Ey & Em & Ed & Hh).
  unfold TIME_MAX_HOUR in Hh.
  assert (Hb : 0 <= packed_abs t < 2 ^ 46) by (unfold packed_abs; lia). split; [done|split].
  - intros En. specialize (Hz En). unfold magnitude, packed_abs in *. rewrite Ey, Em, Ed in Hz. lia.
  - unfold TIME_to_longlong_time_packed. rewrite Ed, Z.mul_0_l, Z.add_0_l. cbv zeta.
    rewrite hms_packed by lia. rewrite make_eq by (unfold packed_abs in Hb; lia). done.
Qed.

Lemma time_packed_roundtrip t :
  time_ok t -> TIME_from_longlong_time_packed (TIME_to_longlong_time_packed t) = t.
Proof.
  intros Hok. destruct (time_packed_abs t Hok) as (Hb & Hz & E).
  destruct Hok as ((Hmi & Hs & Hus & Hty) & Et & _). rewrite Et in Hty. destruct Hty as (Ey & Em & Ed & Hh).
  unfold TIME_from_longlong_time_packed, MY_PACKED_TIME_GET_INT_PART, MY_PACKED_TIME_GET_FRAC_PART.
  assert (En : (TIME_to_longlong_time_packed t <? 0) = neg t).
  { rewrite E. destruct (neg t); [apply Z.ltb_lt; specialize (Hz eq_refl); lia|apply Z.ltb_ge; lia]. }
  rewrite En.
  replace (if neg t then - TIME_to_longlong_time_packed t else TIME_to_longlong_time_packed t)
    with (packed_abs t) by (rewrite E; destruct (neg t); lia).
  cbv zeta. rewrite Z.rem_mod_nonneg by lia. rewrite !Z.shiftr_div_pow2 by lia.
  unfold packed_abs, TIME_MAX_HOUR in *.
  rewrite (proj1 (digit _ (second_part t) (2 ^ 24) ltac:(lia))).
  rewrite (proj2 (digit _ (second_part t) (2 ^ 24) ltac:(lia))).
  rewrite (u32_small ((hour t * 2 ^ 6 + minute t) * 2 ^ 6 + second t)) by (unfold U32_MAX; lia).
  change (2 ^ 12) with (2 ^ 6 * 2 ^ 6). rewrite <- Z.div_div by lia.
  rewrite (proj1 (digit _ (second t) (2 ^ 6) ltac:(lia))), (proj2 (digit _ (second t) (2 ^ 6) ltac:(lia))).
  rewrite (proj2 (digit _ (minute t) (2 ^ 6) ltac:(lia))).
  rewrite !u32_small by (unfold U32_MAX; lia).
  rewrite (proj1 (digit _ (minute t) (2 ^ 6) ltac:(lia))), (Z.mod_small (hour t)) by lia.
  destruct t; simpl in *; congruence.
Qed.

(** The fraction has no more than [dec] digits. *)
Definition rounded (dec : Z) (t : MYSQL_TIME) : Prop := second_part t mod 10 ^ (6 - dec) = 0.

Lemma time_packed_ok dec t :
  0 <= dec <= 6 -> time_ok t -> rounded dec t -> packed_ok dec (TIME_to_longlong_time_packed t).
Proof.
  intros Hd Hok Hr. destruct (time_packed_abs t Hok) as (Hb & _ & E).
  destruct Hok as ((_ & _ & Hus & _) & _). unfold rounded in Hr. pose proof (Z.pow_pos_nonneg 10 (6 - dec)).
  assert (Ef : Z.rem (packed_abs t) (2 ^ 24) = second_part t).
  { rewrite Z.rem_mod_nonneg by lia. apply (digit _ (second_part t) (2 ^ 24)). lia. }
  unfold packed_ok, MY_PACKED_TIME_GET_FRAC_PART. rewrite E.
  split; [done|]. destruct (neg t).
  - rewrite Z.rem_opp_l, Ef by done. split; [lia|]. split; [lia|].
    rewrite Z.rem_opp_l, Z.rem_mod_nonneg by lia. lia.
  - rewrite Ef. split; [lia|]. split; [lia|]. by rewrite Z.rem_mod_nonneg by lia.
Qed.

(** ** Mixed radix numbers compare like their digits. *)

Lemma lex_compare a1 x1 a2 x2 M :
  0 <= x1 < M -> 0 <= x2 < M ->
  Z.compare (a1 * M + x1) (a2 * M + x2) =
    match Z.compare a1 a2 with Eq => Z.compare x1 x2 | c => c end.
Proof.
  intros H1 H2. destruct (Z.compare_spec a1 a2) as [-> |H|H].
  - apply Z.add_compare_mono_l.
  - apply Z.compare_lt_iff. nia.
  - apply Z.compare_gt_iff. nia.
Qed.

Lemma packed_abs_compare a b :
  time_ok a -> time_ok b ->
  Z.compare (packed_abs a) (packed_abs b) = Z.compare (magnitude a) (magnitude b).
Proof.
  intros ((Hmi & Hs & Hus & Hty) & Et & _) ((Hmi' & Hs' & Hus' & Hty') & Et' & _).
  rewrite Et in Hty. rewrite Et' in Hty'. destruct Hty as (Ey & Em & Ed & Hh), Hty' as (Ey' & Em' & Ed' & Hh').
  unfold packed_abs, magnitude. rewrite Ey, Em, Ed, Ey', Em', Ed'. simpl ((((0 * 13 + 0) * 32 + 0) * 24)).
  by rewrite !lex_compare by lia.
Qed.

Lemma sgn_compare x y : Z.sgn (x - y) = match Z.compare x y with Lt => -1 | Eq => 0 | Gt => 1 end.
Proof. destruct (Z.compare_spec x y); lia. Qed.

Lemma time_packed_order a b :
  time_ok a -> time_ok b ->
  Z.sgn (TIME_to_longlong_time_packed a - TIME_to_longlong_time_packed b) =
    Z.sgn (time_value a - time_value b).
Proof.
  intros Ha Hb. pose proof (packed_abs_compare a b Ha Hb) as Hc.
  pose proof (magnitude_bound a (proj1 Ha)). pose proof (magnitude_bound b (proj1 Hb)).
  destruct (time_packed_abs a Ha) as (? & Hza & ->), (time_packed_abs b Hb) as (? & Hzb & ->).
  destruct Ha as (_ & _ & Hna), Hb as (_ & _ & Hnb). unfold time_value.
  set (pa := packed_abs a) in *. set (pb := packed_abs b) in *.
  set (ma := magnitude a) in *. set (mb := magnitude b) in *. clearbody pa pb ma mb.
  destruct (neg a), (neg b).
  - rewrite !sgn_compare, !Z.compare_opp, (Z.compare_antisym pa), Hc. by rewrite <- Z.compare_antisym.
  - clear Hc Hzb Hnb. specialize (Hza eq_refl). specialize (Hna eq_refl). by rewrite !Z.sgn_neg by lia.
  - clear Hc Hza Hna. specialize (Hzb eq_refl). specialize (Hnb eq_refl). by rewrite !Z.sgn_pos by lia.
  - by rewrite !sgn_compare, Hc.
Qed.

(** ** DATETIME *)

Definition datetime_ok (t : MYSQL_TIME) : Prop :=
  normal t /\ time_type t = MYSQL_TIMESTAMP_DATETIME /\ neg t = false.

(** The part of a packed DATETIME above the microseconds *)
Definition ymdhms (t : MYSQL_TIME) : Z :=
  ((year t * 13 + month t) * 2 ^ 5 + day t) * 2 ^ 17 +
  ((hour t * 2 ^ 6 + minute t) * 2 ^ 6 + second t).

Lemma datetime_packed t :
  datetime_ok t ->
  0 <= ymdhms t < 2 ^ 39 /\ 0 <= second_part t < 1000000 /\
  TIME_to_longlong_datetime_packed t = ymdhms t * 2 ^ 24 + second_part t.
Proof.
  intros ((Hmi & Hs & Hus & Hty) & Et & En). rewrite Et in Hty. destruct Hty as (Hy & Hm & Hd & Hh).
  assert (Hb : 0 <= ymdhms t < 2 ^ 39) by (unfold ymdhms; lia). split; [done|]. split; [done|].
  unfold TIME_to_longlong_datetime_packed. rewrite En, hms_packed by lia. cbv zeta.
  rewrite u32_shiftl by (unfold U32_MAX; lia). rewrite (lor_add _ (day t)), lor_add by lia.
  fold (ymdhms t). apply make_eq. lia.
Qed.

Lemma datetime_packed_roundtrip t :
  datetime_ok t -> TIME_from_longlong_datetime_packed (TIME_to_longlong_datetime_packed t) = t.
Proof.
  intros Hok. destruct (datetime_packed t Hok) as (Hb & Hus & ->).
  destruct Hok as ((Hmi & Hs & _ & Hty) & Et & En). rewrite Et in Hty. destruct Hty as (Hy & Hm & Hd & Hh).
  unfold TIME_from_longlong_datetime_packed, MY_PACKED_TIME_GET_INT_PART, MY_PACKED_TIME_GET_FRAC_PART.
  rewrite (proj2 (Z.ltb_ge _ 0)) by lia. cbv zeta.
  rewrite (Z.rem_mod_nonneg (_ + second_part t)), !Z.shiftr_div_pow2 by lia.
  rewrite (proj1 (digit _ (second_part t) (2 ^ 24) ltac:(lia))).
  rewrite (proj2 (digit _ (second_part t) (2 ^ 24) ltac:(lia))).
  rewrite (Z.rem_mod_nonneg (ymdhms t)) by lia. unfold ymdhms.
  set (hms := (hour t * 2 ^ 6 + minute t) * 2 ^ 6 + second t).
  assert (Hhms : 0 <= hms < 2 ^ 17) by (unfold hms; lia).
  rewrite (proj1 (digit _ hms (2 ^ 17) Hhms)), (proj2 (digit _ hms (2 ^ 17) Hhms)).
  rewrite (proj2 (digit _ (day t) (2 ^ 5) ltac:(lia))).
  rewrite Z.rem_mod_nonneg, Z.quot_div_nonneg by lia.
  rewrite (proj1 (digit _ (month t) 13 ltac:(lia))), (proj2 (digit _ (month t) 13 ltac:(lia))).
  rewrite (Z.rem_mod_nonneg (_ * 2 ^ 5 + _)) by lia. rewrite (proj1 (digit _ (day t) (2 ^ 5) ltac:(lia))).
  unfold hms. change (2 ^ 12) with (2 ^ 6 * 2 ^ 6). rewrite <- Z.div_div by lia.
  rewrite (proj2 (digit _ (second t) (2 ^ 6) ltac:(lia))), (proj2 (digit _ (minute t) (2 ^ 6) ltac:(lia))).
  rewrite !Z.rem_mod_nonneg by lia.
  rewrite (proj1 (digit _ (second t) (2 ^ 6) ltac:(lia))), (proj1 (digit _ (minute t) (2 ^ 6) ltac:(lia))).
  rewrite !u32_small by (unfold U32_MAX; lia). destruct t; simpl in *; congruence.
Qed.

Lemma frac_parts dec us :
  0 <= dec <= 6 -> 0 <= us < 1000000 -> us mod 10 ^ (6 - dec) = 0 ->
  let f := us ÷ frac_unit dec in
  us = f * frac_unit dec /\ 0 <= f /\ 2 * f < bpow (frac_bytes dec).
Proof.
  intros Hd Hus Hr.
  assert (Hok : packed_ok dec us).
  { unfold packed_ok, MY_PACKED_TIME_GET_FRAC_PART. pose proof (Z.pow_pos_nonneg 10 (6 - dec)).
    rewrite (Z.rem_small us), Z.rem_mod_nonneg by lia. split; [done|]. split; [lia|]. split; [lia|done]. }
  destruct (packed_parts dec us Hok) as (E & _ & _ & _ & Hu & Hf & _). clear Hok Hr.
  rewrite Z.rem_small in E, Hf by lia. rewrite Z.shiftr_div_pow2, Z.div_small in E by lia.
  pose proof (Z.quot_pos us (frac_unit dec) (proj1 Hus) ltac:(lia)) as Hq.
  rewrite (proj2 (Z.ltb_ge _ _) Hq) in E. cbv zeta.
  set (f := us ÷ frac_unit dec) in *. clearbody f. rewrite Z.abs_eq in Hf by done.
  split; [by rewrite E at 1|done].
Qed.

Lemma datetime_binary_form dec i us :
  0 <= dec <= 6 -> 0 <= i -> 0 <= us < 1000000 ->
  my_datetime_packed_to_binary (i * 2 ^ 24 + us) dec =
    mi_intstore 5 (i + DATETIMEF_INT_OFS) ++ mi_intstore (frac_bytes dec) (us ÷ frac_unit dec).
Proof.
  intros Hd Hi Hus.
  unfold my_datetime_packed_to_binary, MY_PACKED_TIME_GET_INT_PART, MY_PACKED_TIME_GET_FRAC_PART.
  rewrite Z.rem_mod_nonneg, Z.shiftr_div_pow2 by lia.
  rewrite (proj1 (digit i us (2 ^ 24) ltac:(lia))), (proj2 (digit i us (2 ^ 24) ltac:(lia))).
  destruct (dec_cases dec Hd) as [-> |[-> |[-> |[-> |[-> |[-> | ->]]]]]];
    cbn [Z.eqb Pos.eqb orb]; cbv iota zeta; try reflexivity;
    rewrite ?Z.quot_1_r; reflexivity || (by rewrite app_nil_r).
Qed.

Lemma sintkorr_nonneg n f : 0 <= f -> 2 * f < bpow (S n) -> mi_sintkorr (mi_intstore (S n) f) = f.
Proof.
  intros Hf Hb. rewrite bpow_S in Hb. pose proof (mi_sintkorr_store false n f) as H.
  rewrite masked_eq in H. apply H. lia.
Qed.

Lemma store_datetime_int i :
  0 <= i < 2 ^ 39 -> be256 (mi_intstore 5 (i + DATETIMEF_INT_OFS)) = i + DATETIMEF_INT_OFS.
Proof.
  intros Hi. rewrite be256_store. apply Z.mod_small. change (bpow 5) with (2 ^ 40).
  unfold DATETIMEF_INT_OFS. lia.
Qed.

Lemma datetime_binary_roundtrip dec i us :
  0 <= dec <= 6 -> 0 <= i < 2 ^ 39 -> 0 <= us < 1000000 -> us mod 10 ^ (6 - dec) = 0 ->
  my_datetime_packed_from_binary (my_datetime_packed_to_binary (i * 2 ^ 24 + us) dec) dec =
    i * 2 ^ 24 + us.
Proof.
  intros Hd Hi Hus Hr. destruct (frac_parts dec us Hd Hus Hr) as (E & Hf & Hb). clear Hr.
  rewrite datetime_binary_form by (done || lia). unfold my_datetime_packed_from_binary.
  set (f := us ÷ frac_unit dec) in *. clearbody f.
  rewrite be_take, store_datetime_int by (done || apply mi_intstore_length).
  rewrite drop_store, !Z.add_simpl_r.
  assert (Htake : forall n, take n (mi_intstore n f) = mi_intstore n f)
    by (intros n; apply take_ge; rewrite mi_intstore_length; lia).
  destruct (dec_cases dec Hd) as [-> |[-> |[-> |[-> |[-> |[-> | ->]]]]]];
    cbn [Z.eqb Pos.eqb orb]; cbv iota zeta.
  { change (frac_bytes 0) with 0%nat in Hb. unfold bpow in Hb. simpl in Hb.
    assert (f = 0) as -> by lia. rewrite make_int_eq by lia. lia. }
  all: match type of Hb with _ < bpow (frac_bytes ?d) =>
         let n := eval vm_compute in (frac_bytes d) in change (frac_bytes d) with n in *;
         let u := eval vm_compute in (frac_unit d) in change (frac_unit d) with u in * end.
  all: rewrite Htake, sintkorr_nonneg by done.
  all: rewrite make_eq by lia; lia.
Qed.

(** *** Order *)

Lemma datetime_binary_order dec i us j vs :
  0 <= dec <= 6 -> 0 <= i < 2 ^ 39 -> 0 <= j < 2 ^ 39 -> 0 <= us < 1000000 -> 0 <= vs < 1000000 ->
  us mod 10 ^ (6 - dec) = 0 -> vs mod 10 ^ (6 - dec) = 0 ->
  memcmp (my_datetime_packed_to_binary (i * 2 ^ 24 + us) dec)
         (my_datetime_packed_to_binary (j * 2 ^ 24 + vs) dec) =
    match Z.compare i j with
    | Eq => match Z.compare us vs with Lt => -1 | Eq => 0 | Gt => 1 end
    | Lt => -1 | Gt => 1
    end.
Proof.
  intros Hd Hi Hj Hus Hvs Hr Hr'. destruct (frac_parts dec us Hd Hus Hr) as (E & Hf & Hb).
  destruct (frac_parts dec vs Hd Hvs Hr') as (E' & Hf' & Hb'). clear Hr Hr'.
  rewrite !datetime_binary_form by (done || lia).
  rewrite memcmp_be256 by (rewrite ?length_app, ?mi_intstore_length; try done;
    apply Forall_app; split; apply mi_intstore_bytes).
  rewrite !be256_app, !store_datetime_int, !mi_intstore_length, !be256_store by done.
  set (f := us ÷ frac_unit dec) in *. set (g := vs ÷ frac_unit dec) in *. clearbody f g.
  rewrite !(Z.mod_small _ (bpow (frac_bytes dec))), lex_compare by lia.
  rewrite !(Z.add_comm _ DATETIMEF_INT_OFS), Z.add_compare_mono_l.
  assert (Hu : 1 <= frac_unit dec)
    by (destruct (dec_cases dec Hd) as [-> |[-> |[-> |[-> |[-> |[-> | ->]]]]]]; done).
  rewrite E, E', <- Zmult_compare_compat_r by lia. by destruct (Z.compare i j).
Qed.

Lemma datetime_compare a b :
  datetime_ok a -> datetime_ok b ->
  match Z.compare (ymdhms a) (ymdhms b) with
  | Eq => match Z.compare (second_part a) (second_part b) with Lt => -1 | Eq => 0 | Gt => 1 end
  | Lt => -1 | Gt => 1
  end = Z.sgn (time_value a - time_value b).
Proof.
  intros ((Hmi & Hs & Hus & Hty) & Et & En) ((Hmi' & Hs' & Hus' & Hty') & Et' & En').
  rewrite Et in Hty. rewrite Et' in Hty'. destruct Hty as (Hy & Hm & Hd & Hh), Hty' as (Hy' & Hm' & Hd' & Hh').
  unfold time_value. rewrite En, En', sgn_compare. unfold ymdhms, magnitude.
  rewrite !lex_compare by lia.
  by destruct (Z.compare (year a) (year b)), (Z.compare (month a) (month b)),
    (Z.compare (day a) (day b)), (Z.compare (hour a) (hour b)), (Z.compare (minute a) (minute b)),
    (Z.compare (second a) (second b)).
Qed.

(** ** Values in bytes *)

(** C26: The column formats of TIME(dec) and DATETIME(dec), for every precision from 0 to 6: packing a
    value that has no more than [dec] digits in its fraction, writing the packed number in
    [my_time_binary_length] or [my_datetime_binary_length] bytes, reading the bytes and unpacking the
    number gives the value back, with its sign and microseconds; and [memcmp] of the bytes of two values
    orders them as the values are ordered, negative TIMEs included. *)
Theorem temporal_binary_correct dec a b :
  0 <= dec <= 6 -> rounded dec a -> rounded dec b ->
  (time_ok a -> time_ok b ->
     let bytes t := my_time_packed_to_binary (TIME_to_longlong_time_packed t) dec in
     Z.of_nat (length (bytes a)) = my_time_binary_length dec /\
     TIME_from_longlong_time_packed (my_time_packed_from_binary (bytes a) dec) = a /\
     memcmp (bytes a) (bytes b) = Z.sgn (time_value a - time_value b)) /\
  (datetime_ok a -> datetime_ok b ->
     let bytes t := my_datetime_packed_to_binary (TIME_to_longlong_datetime_packed t) dec in
     Z.of_nat (length (bytes a)) = my_datetime_binary_length dec /\
     TIME_from_longlong_datetime_packed (my_datetime_packed_from_binary (bytes a) dec) = a /\
     memcmp (bytes a) (bytes b) = Z.sgn (time_value a - time_value b)).
Proof.
  intros Hd Ha Hb. split; intros Hoka Hokb; cbv beta zeta.
  - pose proof (time_packed_ok dec a Hd Hoka Ha) as Hpa. pose proof (time_packed_ok dec b Hd Hokb Hb) as Hpb.
    rewrite time_binary_roundtrip, time_packed_roundtrip, time_binary_order, time_packed_order by done.
    split; [|done]. rewrite (proj1 (proj2 (time_binary_key dec _ Hpa))).
    by destruct (dec_cases dec Hd) as [-> |[-> |[-> |[-> |[-> |[-> | ->]]]]]].
  - pose proof (datetime_packed_roundtrip a Hoka) as Hrt. pose proof (datetime_compare a b Hoka Hokb) as Hc.
    destruct (datetime_packed a Hoka) as (Hia & Hua & Ea), (datetime_packed b Hokb) as (Hib & Hub & Eb).
    rewrite Ea in *. rewrite Eb. rewrite datetime_binary_roundtrip, datetime_binary_order by done.
    split; [|done]. rewrite datetime_binary_form, length_app, !mi_intstore_length by (done || lia).
    by destruct (dec_cases dec Hd) as [-> |[-> |[-> |[-> |[-> |[-> | ->]]]]]].
Qed.

Lemma temporal_binary_correct_witness :
  memcmp (my_time_packed_to_binary (TIME_to_longlong_time_packed
            (mk_time 0 0 0 10 30 15 500000 true MYSQL_TIMESTAMP_TIME)) 1)
         (my_time_packed_to_binary (TIME_to_longlong_time_packed
            (mk_time 0 0 0 10 30 15 400000 true MYSQL_TIMESTAMP_TIME)) 1) = -1.
Proof.
  refine (proj2 (proj2 (proj1 (temporal_binary_correct 1
    (mk_time 0 0 0 10 30 15 500000 true MYSQL_TIMESTAMP_TIME)
    (mk_time 0 0 0 10 30 15 400000 true MYSQL_TIMESTAMP_TIME) _ _ _) _ _))); done || (repeat split; try done; vm_compute; discriminate).
Defined.
