(* ===== verification/Tree.v ===== *)
(** * Red-black trees (mysys/tree.c, include/my_tree.h): the operations

    A tree is a heap of elements linked by addresses, as in the code: the static [null_element] ends
    every path, elements are changed in place, and the stack [parents] holds the places (the root or
    a child field) that the descent went through.  Programs are in a state monad that fails, which
    stands for undefined behaviour: reading or writing at an address that is not allocated, reading
    the key of [null_element], or going beyond the array [parents].  The comparison function and the
    function [free] belong to the caller; calls of [free] are recorded in order.  The key of an element
    is a value: whether it is stored behind the element or through a pointer ([offset_to_key]) makes a
    difference for the size of the element only. *)

From S2P Require Import Prelude.

Definition ptr := nat.

Definition NULL : ptr := 0%nat.
Definition TREE_ELEMENT_UNIQUE : ptr := 1%nat.
(** [&null_element] *)
Definition null_ptr : ptr := 2%nat.

Definition BLACK : Z := 1.
Definition RED : Z := 0.
Definition MAX_TREE_HEIGHT : nat := 64.
Arguments MAX_TREE_HEIGHT : simpl never.
Definition TREE_NO_DUPS : Z := 1.
Definition TREE_ONLY_DUPS : Z := 2.

(** sizeof(TREE_ELEMENT) and sizeof(void* ) on a 64-bit machine *)
Definition SIZEOF_TREE_ELEMENT : Z := 24.
Definition SIZEOF_VOIDP : Z := 8.

Record TREE_ELEMENT (K : Type) := mk_element {
  el_left : ptr;
  el_right : ptr;
  el_count : Z;
  el_colour : Z;
  el_key : option K;
}.
Arguments mk_element {K}.
Arguments el_left {K}.
Arguments el_right {K}.
Arguments el_count {K}.
Arguments el_colour {K}.
Arguments el_key {K}.

Definition null_element {K} : TREE_ELEMENT K := mk_element NULL NULL 0 BLACK None.

(** A call of [tree->free] *)
Inductive free_call (K : Type) :=
  | free_init
  | free_free (key : K)
  | free_end.
Arguments free_init {K}.
Arguments free_free {K}.
Arguments free_end {K}.

Record TREE (K : Type) := mk_tree {
  root : ptr;
  heap : gmap ptr (TREE_ELEMENT K);
  offset_to_key : Z;
  elements_in_tree : Z;
  size_of_element : Z;
  memory_limit : Z;
  allocated : Z;
  with_delete : bool;
  free : option (K -> Z);
  flag : Z;
  freed : list (free_call K);
}.
Arguments mk_tree {K}.
Arguments root {K}.
Arguments heap {K}.
Arguments offset_to_key {K}.
Arguments elements_in_tree {K}.
Arguments size_of_element {K}.
Arguments memory_limit {K}.
Arguments allocated {K}.
Arguments with_delete {K}.
Arguments free {K}.
Arguments flag {K}.
Arguments freed {K}.

(** The place of a pointer to an element, [TREE_ELEMENT **] *)
Inductive slot :=
  | Root
  | Left (p : ptr)
  | Right (p : ptr).

Section Operations.
Context {K : Type} (compare : K -> K -> Z).

(** ** The monad *)

Definition M (A : Type) : Type := TREE K -> option (A * TREE K).

#[local] Instance M_ret : MRet M := fun A a t => Some (a, t).
#[local] Instance M_bind : MBind M := fun A B f m t =>
  match m t with Some (a, t') => f a t' | None => None end.

Definition undefined {A} : M A := fun _ => None.
Definition get {A} (f : TREE K -> A) : M A := fun t => Some (f t, t).

Definition set_root (p : ptr) : M unit := fun t =>
  Some (tt, mk_tree p (heap t) (offset_to_key t) (elements_in_tree t) (size_of_element t)
              (memory_limit t) (allocated t) (with_delete t) (free t) (flag t) (freed t)).
Definition set_heap (h : gmap ptr (TREE_ELEMENT K)) : M unit := fun t =>
  Some (tt, mk_tree (root t) h (offset_to_key t) (elements_in_tree t) (size_of_element t)
              (memory_limit t) (allocated t) (with_delete t) (free t) (flag t) (freed t)).
Definition set_elements_in_tree (n : Z) : M unit := fun t =>
  Some (tt, mk_tree (root t) (heap t) (offset_to_key t) n (size_of_element t)
              (memory_limit t) (allocated t) (with_delete t) (free t) (flag t) (freed t)).
Definition set_allocated (n : Z) : M unit := fun t =>
  Some (tt, mk_tree (root t) (heap t) (offset_to_key t) (elements_in_tree t) (size_of_element t)
              (memory_limit t) n (with_delete t) (free t) (flag t) (freed t)).
Definition log_free (c : free_call K) : M unit := fun t =>
  Some (tt, mk_tree (root t) (heap t) (offset_to_key t) (elements_in_tree t) (size_of_element t)
              (memory_limit t) (allocated t) (with_delete t) (free t) (flag t) (freed t ++ [c])).

Definition load (p : ptr) : M (TREE_ELEMENT K) := fun t =>
  match heap t !! p with Some e => Some (e, t) | None => None end.

(** An assignment to a field of an allocated element *)
Definition update (p : ptr) (f : TREE_ELEMENT K -> TREE_ELEMENT K) : M unit :=
  e ← load p; h ← get heap; set_heap (<[p := f e]> h).

Definition get_left (p : ptr) : M ptr := e ← load p; mret (el_left e).
Definition get_right (p : ptr) : M ptr := e ← load p; mret (el_right e).
Definition get_colour (p : ptr) : M Z := e ← load p; mret (el_colour e).
Definition get_count (p : ptr) : M Z := e ← load p; mret (el_count e).
Definition ELEMENT_KEY (p : ptr) : M K :=
  e ← load p; match el_key e with Some k => mret k | None => undefined end.

Definition set_left (p q : ptr) : M unit :=
  update p (fun e => mk_element q (el_right e) (el_count e) (el_colour e) (el_key e)).
Definition set_right (p q : ptr) : M unit :=
  update p (fun e => mk_element (el_left e) q (el_count e) (el_colour e) (el_key e)).
Definition set_colour (p : ptr) (c : Z) : M unit :=
  update p (fun e => mk_element (el_left e) (el_right e) (el_count e) c (el_key e)).
Definition set_count (p : ptr) (n : Z) : M unit :=
  update p (fun e => mk_element (el_left e) (el_right e) n (el_colour e) (el_key e)).

Definition read_slot (s : slot) : M ptr :=
  match s with
  | Root => get root
  | Left p => get_left p
  | Right p => get_right p
  end.

Definition write_slot (s : slot) (q : ptr) : M unit :=
  match s with
  | Root => set_root q
  | Left p => set_left p q
  | Right p => set_right p q
  end.

(** [*++parent= s]: the array has [MAX_TREE_HEIGHT] places. *)
Definition push (s : slot) (parent : list slot) : M (list slot) :=
  if (length parent <? MAX_TREE_HEIGHT)%nat then mret (s :: parent) else undefined.

(** ** Rebalancing *)

Definition left_rotate (parent : slot) (leaf : ptr) : M unit :=
  y ← get_right leaf;
  yl ← get_left y;
  set_right leaf yl;;
  write_slot parent y;;
  set_left y leaf.

Definition right_rotate (parent : slot) (leaf : ptr) : M unit :=
  x ← get_left leaf;
  xr ← get_right x;
  set_left leaf xr;;
  write_slot parent x;;
  set_right x leaf.

(** The loop of [rb_insert]; the head of the list is [parent[0]]. *)
Fixpoint rb_insert_loop (parent : list slot) (leaf : ptr) {struct parent} : M unit :=
  r ← get root;
  if (leaf =? r)%nat then mret tt else
  match parent with
  | _ :: ((p1 :: tl1) as parent1) =>
      par ← read_slot p1;
      c ← get_colour par;
      if negb (c =? RED) then mret tt else
      match tl1 with
      | p2 :: _ =>
          par2 ← read_slot p2;
          l2 ← get_left par2;
          if (par =? l2)%nat then
            y ← get_right par2;
            cy ← get_colour y;
            if cy =? RED then
              set_colour par BLACK;; set_colour y BLACK;; set_colour par2 RED;;
              rb_insert_loop tl1 par2
            else
              pr ← get_right par;
              par' ← (if (leaf =? pr)%nat then left_rotate p1 par;; mret leaf else mret par);
              set_colour par' BLACK;; set_colour par2 RED;;
              right_rotate p2 par2
          else
            y ← get_left par2;
            cy ← get_colour y;
            if cy =? RED then
              set_colour par BLACK;; set_colour y BLACK;; set_colour par2 RED;;
              rb_insert_loop tl1 par2
            else
              pl ← get_left par;
              par' ← (if (leaf =? pl)%nat then right_rotate p1 par;; mret leaf else mret par);
              set_colour par' BLACK;; set_colour par2 RED;;
              left_rotate p2 par2
      | [] => undefined
      end
  | _ => undefined
  end.

Definition rb_insert (parent : list slot) (leaf : ptr) : M unit :=
  set_colour leaf RED;;
  rb_insert_loop parent leaf;;
  r ← get root;
  set_colour r BLACK.

(** The loop of [rb_delete_fixup] when [x] is the left child of [par]: the part after the first [if],
    where the sibling [w] is black.  The result says whether the loop goes on, with the new stack and
    the new [x]. *)
Definition fixup_left_sibling (parent : list slot) (p1 : slot) (par w : ptr) : M (bool * list slot * ptr) :=
  wl ← get_left w; cl ← get_colour wl;
  wr ← get_right w; cr ← get_colour wr;
  if (cl =? BLACK) && (cr =? BLACK) then
    set_colour w RED;;
    mret (true, tail parent, par)
  else
    w' ← (if cr =? BLACK then
            set_colour wl BLACK;; set_colour w RED;;
            right_rotate (Right par) w;;
            get_right par
          else mret w);
    cp ← get_colour par;
    set_colour w' cp;; set_colour par BLACK;;
    wr' ← get_right w';
    set_colour wr' BLACK;;
    left_rotate p1 par;;
    r ← get root;
    mret (false, parent, r).

(** One round of the loop.  The stack is [p0 :: p1 :: below]: [p0] is [parent[0]], [p1] is
    [parent[-1]]. *)
Definition fixup_left (p0 p1 : slot) (below : list slot) (par : ptr) : M (bool * list slot * ptr) :=
  w ← get_right par;
  cw ← get_colour w;
  if cw =? RED then
    set_colour w BLACK;; set_colour par RED;;
    left_rotate p1 par;;
    parent ← push (Left par) (Left w :: p1 :: below);
    w' ← get_right par;
    fixup_left_sibling parent (Left w) par w'
  else fixup_left_sibling (p0 :: p1 :: below) p1 par w.

(** The same when [x] is the right child *)
Definition fixup_right_sibling (parent : list slot) (p1 : slot) (par w : ptr) : M (bool * list slot * ptr) :=
  wr ← get_right w; cr ← get_colour wr;
  wl ← get_left w; cl ← get_colour wl;
  if (cr =? BLACK) && (cl =? BLACK) then
    set_colour w RED;;
    mret (true, tail parent, par)
  else
    w' ← (if cl =? BLACK then
            set_colour wr BLACK;; set_colour w RED;;
            left_rotate (Left par) w;;
            get_left par
          else mret w);
    cp ← get_colour par;
    set_colour w' cp;; set_colour par BLACK;;
    wl' ← get_left w';
    set_colour wl' BLACK;;
    right_rotate p1 par;;
    r ← get root;
    mret (false, parent, r).

Definition fixup_right (p0 p1 : slot) (below : list slot) (par : ptr) : M (bool * list slot * ptr) :=
  w ← get_left par;
  cw ← get_colour w;
  if cw =? RED then
    set_colour w BLACK;; set_colour par RED;;
    right_rotate p1 par;;
    parent ← push (Right par) (Right w :: p1 :: below);
    w' ← get_left par;
    fixup_right_sibling parent (Right w) par w'
  else fixup_right_sibling (p0 :: p1 :: below) p1 par w.

Fixpoint rb_delete_fixup_loop (fuel : nat) (parent : list slot) (x : ptr) : M ptr :=
  match fuel with
  | O => undefined
  | S fuel =>
      r ← get root;
      c ← get_colour x;
      if (x =? r)%nat || negb (c =? BLACK) then mret x else
      match parent with
      | p0 :: p1 :: below =>
          par ← read_slot p1;
          pl ← get_left par;
          '(continue, parent', x') ←
            (if (x =? pl)%nat then fixup_left p0 p1 below par else fixup_right p0 p1 below par);
          if (continue : bool) then rb_delete_fixup_loop fuel parent' x' else mret x'
      | _ => undefined
      end
  end.

Definition rb_delete_fixup (parent : list slot) : M unit :=
  match parent with
  | p0 :: _ =>
      x ← read_slot p0;
      x' ← rb_delete_fixup_loop (S MAX_TREE_HEIGHT) parent x;
      set_colour x' BLACK
  | [] => undefined
  end.

(** ** Freeing *)

(** [my_free] *)
Definition my_free (p : ptr) : M unit :=
  load p;; h ← get heap; set_heap (delete p h).

(** [free_root]: all elements of the memory root go. *)
Definition free_root : M unit := set_heap {[ null_ptr := null_element ]}.

(** A call of [tree->free] for a key, its result *)
Definition call_free (key : K) : M Z :=
  f ← get free;
  match f with
  | Some f => log_free (free_free key);; mret (f key)
  | None => undefined
  end.

Fixpoint delete_tree_element (fuel : nat) (element : ptr) (abort : bool) : M Z :=
  match fuel with
  | O => undefined
  | S fuel =>
      if (element =? null_ptr)%nat then mret 0 else
      l ← get_left element;
      first_error ← delete_tree_element fuel l abort;
      let abort := abort || negb (first_error =? 0) in
      f ← get free;
      '(first_error, abort) ←
        (if negb abort && bool_decide (is_Some f) then
           k ← ELEMENT_KEY element;
           error ← call_free k;
           mret (if negb (error =? 0) then ((if negb (first_error =? 0) then first_error else error), true)
                 else (first_error, abort))
         else mret (first_error, abort));
      r ← get_right element;
      error ← delete_tree_element fuel r abort;
      wd ← get with_delete;
      (if (wd : bool) then my_free element else mret tt);;
      mret (if negb (error =? 0) then (if negb (first_error =? 0) then first_error else error)
            else first_error)
  end.

Definition free_tree (abort : bool) : M Z :=
  r ← get root;
  wd ← get with_delete;
  f ← get free;
  limit ← get memory_limit;
  first_error ←
    (if (r =? NULL)%nat then mret 0
     else if (wd : bool) then delete_tree_element MAX_TREE_HEIGHT r abort
     else
       first_error ←
         (if bool_decide (is_Some f) then
            (if negb (limit =? 0) then log_free free_init else mret tt);;
            error ← delete_tree_element MAX_TREE_HEIGHT r abort;
            (if negb (limit =? 0) then log_free free_end else mret tt);;
            mret error
          else mret 0);
       free_root;;
       mret first_error);
  set_root null_ptr;;
  set_elements_in_tree 0;;
  set_allocated 0;;
  mret first_error.

Definition delete_tree (abort : bool) : M Z := free_tree abort.
Definition reset_tree : M Z := free_tree false.

(** ** Insertion and deletion *)

(** The loop that looks for the place of a key: the stack and the element found *)
Fixpoint descend (fuel : nat) (key : K) (parent : list slot) (element : ptr) :
    M (list slot * ptr) :=
  match fuel with
  | O => undefined
  | S fuel =>
      if (element =? null_ptr)%nat then mret (parent, element) else
      k ← ELEMENT_KEY element;
      let cmp := compare k key in
      if cmp =? 0 then mret (parent, element) else
      if cmp <? 0 then
        parent' ← push (Right element) parent;
        r ← get_right element;
        descend fuel key parent' r
      else
        parent' ← push (Left element) parent;
        l ← get_left element;
        descend fuel key parent' l
  end.

(** The part of [tree_insert] that hangs a new element in.  [malloc] is the address that the
    allocation gives, [NULL] if it fails. *)
Definition insert_element (malloc : ptr) (key : K) (parent : list slot) : M ptr :=
  if (malloc =? NULL)%nat then mret NULL else
  match parent with
  | p0 :: _ =>
      h ← get heap;
      set_heap (<[malloc := mk_element null_ptr null_ptr 1 RED (Some key)]> h);;
      write_slot p0 malloc;;
      n ← get elements_in_tree;
      set_elements_in_tree (u32 (n + 1));;
      rb_insert parent malloc;;
      mret malloc
  | [] => undefined
  end.

(** The part of [tree_insert] that counts an equal key; the count has 31 bits. *)
Definition count_element (element : ptr) : M ptr :=
  c ← get_count element;
  let c' := (c + 1) mod 2 ^ 31 in
  set_count element c';;
  (if c' =? 0 then set_count element ((c' - 1) mod 2 ^ 31) else mret tt);;
  mret element.

(** [tree_insert] with its call of itself after [reset_tree] unrolled [fuel] times *)
Fixpoint tree_insert_rec (fuel : nat) (malloc : ptr) (key : K) (key_size : Z) : M ptr :=
  match fuel with
  | O => undefined
  | S fuel =>
      r ← get root;
      '(parent, element) ← descend (S MAX_TREE_HEIGHT) key [Root] r;
      fl ← get flag;
      if (element =? null_ptr)%nat then
        if bits_meet fl TREE_ONLY_DUPS then mret TREE_ELEMENT_UNIQUE else
        sz ← get size_of_element;
        let alloc_size := u32 (SIZEOF_TREE_ELEMENT + key_size + sz) in
        al ← get allocated;
        set_allocated (u64 (al + alloc_size));;
        limit ← get memory_limit;
        n ← get elements_in_tree;
        if negb (limit =? 0) && negb (n =? 0) && (limit <? u64 (al + alloc_size)) then
          reset_tree;;
          tree_insert_rec fuel malloc key key_size
        else insert_element malloc key parent
      else
        if bits_meet fl TREE_NO_DUPS then mret NULL else count_element element
  end.

Definition tree_insert (malloc : ptr) (key : K) (key_size : Z) : M ptr :=
  tree_insert_rec 2 malloc key key_size.

(** The loop of [tree_delete] that goes to the element with the next key *)
Fixpoint leftmost (fuel : nat) (parent : list slot) (nod : ptr) : M (list slot * ptr) :=
  match fuel with
  | O => undefined
  | S fuel =>
      l ← get_left nod;
      if (l =? null_ptr)%nat then mret (parent, nod) else
      parent' ← push (Left nod) parent;
      leftmost fuel parent' l
  end.

(** [org_parent[1]= s], where [org_parent] points to the [n]-th entry (counted from 1) of the stack *)
Definition set_above (n : nat) (s : slot) (parent : list slot) : list slot :=
  <[ (length parent - 1 - n)%nat := s ]> parent.

(** The part of [tree_delete] that takes [element] out of the tree: the new stack and
    [remove_colour] *)
Definition unlink_element (p0 : slot) (parent : list slot) (element : ptr) : M (list slot * Z) :=
  l ← get_left element;
  r ← get_right element;
  if (l =? null_ptr)%nat then
    write_slot p0 r;;
    c ← get_colour element;
    mret (parent, c)
  else if (r =? null_ptr)%nat then
    write_slot p0 l;;
    c ← get_colour element;
    mret (parent, c)
  else
    parent1 ← push (Right element) parent;
    '(parent2, nod) ← leftmost (S MAX_TREE_HEIGHT) parent1 r;
    match parent2 with
    | q0 :: _ =>
        nr ← get_right nod;
        write_slot q0 nr;;
        rc ← get_colour nod;
        write_slot p0 nod;;
        l' ← get_left element;
        set_left nod l';;
        r' ← get_right element;
        set_right nod r';;
        c ← get_colour element;
        set_colour nod c;;
        mret (set_above (length parent) (Right nod) parent2, rc)
    | [] => undefined
    end.

Definition tree_delete (key : K) (key_size : Z) : M Z :=
  wd ← get with_delete;
  if negb wd then mret 1 else
  r ← get root;
  '(parent, element) ← descend (S MAX_TREE_HEIGHT) key [Root] r;
  if (element =? null_ptr)%nat then mret 1 else
  match parent with
  | p0 :: _ =>
      '(parent', remove_colour) ← unlink_element p0 parent element;
      (if remove_colour =? BLACK then rb_delete_fixup parent' else mret tt);;
      f ← get free;
      (if bool_decide (is_Some f) then k ← ELEMENT_KEY element; call_free k;; mret tt else mret tt);;
      al ← get allocated;
      sz ← get size_of_element;
      set_allocated (u64 (al - (SIZEOF_TREE_ELEMENT + sz + key_size)));;
      my_free element;;
      n ← get elements_in_tree;
      set_elements_in_tree (u32 (n - 1));;
      mret 0
  | [] => undefined
  end.

(** ** Searching

    [cmp] is the comparison function with its first argument and the key given. *)

Fixpoint tree_search_loop (fuel : nat) (cmp : K -> Z) (element : ptr) : M (option K) :=
  match fuel with
  | O => undefined
  | S fuel =>
      if (element =? null_ptr)%nat then mret None else
      k ← ELEMENT_KEY element;
      if cmp k =? 0 then mret (Some k) else
      if cmp k <? 0 then r ← get_right element; tree_search_loop fuel cmp r
      else l ← get_left element; tree_search_loop fuel cmp l
  end.

Definition tree_search (cmp : K -> Z) : M (option K) :=
  r ← get root; tree_search_loop (S MAX_TREE_HEIGHT) cmp r.

Inductive ha_rkey_function :=
  | HA_READ_KEY_EXACT | HA_READ_KEY_OR_NEXT | HA_READ_KEY_OR_PREV | HA_READ_AFTER_KEY
  | HA_READ_BEFORE_KEY | HA_READ_PREFIX | HA_READ_PREFIX_LAST | HA_READ_PREFIX_LAST_OR_PREV
  | HA_READ_MBR_CONTAIN | HA_READ_MBR_INTERSECT | HA_READ_MBR_WITHIN | HA_READ_MBR_DISJOINT
  | HA_READ_MBR_EQUAL.

(** What the search does at an equal element: whether it is remembered, and the new [cmp];
    [None] is [return NULL]. *)
Definition at_equal (fl : ha_rkey_function) : option (bool * Z) :=
  match fl with
  | HA_READ_KEY_EXACT | HA_READ_KEY_OR_NEXT | HA_READ_BEFORE_KEY | HA_READ_KEY_OR_PREV => Some (true, 1)
  | HA_READ_AFTER_KEY => Some (false, -1)
  | HA_READ_PREFIX_LAST | HA_READ_PREFIX_LAST_OR_PREV => Some (true, -1)
  | _ => None
  end.

(** A position: the elements from the root to the current one, the current one first, with
    [null_element] at the end.  A pointer into the array [parents] is such a list. *)
Definition position := list ptr.

(** The variables of the loop of [tree_search_key] *)
Record search_state := mk_search {
  last_left_step_parent : option position;
  last_right_step_parent : option position;
  last_equal_element : option position;
}.

Fixpoint search_key_loop (fuel : nat) (cmp : K -> Z) (fl : ha_rkey_function) (element : ptr)
    (parents : position) (s : search_state) : M (option search_state) :=
  match fuel with
  | O => undefined
  | S fuel =>
      if (element =? null_ptr)%nat then mret (Some s) else
      let parents := element :: parents in
      k ← ELEMENT_KEY element;
      match (if cmp k =? 0 then at_equal fl else Some (false, cmp k)) with
      | None => mret None
      | Some (equal, c) =>
          let eq := if (equal : bool) then Some parents else last_equal_element s in
          if c <? 0 then
            r ← get_right element;
            search_key_loop fuel cmp fl r parents
              (mk_search (last_left_step_parent s) (Some parents) eq)
          else
            l ← get_left element;
            search_key_loop fuel cmp fl l parents
              (mk_search (Some parents) (last_right_step_parent s) eq)
      end
  end.

(** The key at a position that may be NULL *)
Definition key_at (p : option position) : M (option K) :=
  match p with
  | Some (x :: _) => k ← ELEMENT_KEY x; mret (Some k)
  | Some [] => undefined
  | None => mret None
  end.

Definition or_else (p q : option position) : option position :=
  match p with Some _ => p | None => q end.

(** The second switch of [tree_search_key] *)
Definition result_position (fl : ha_rkey_function) (s : search_state) : option (option position) :=
  match fl with
  | HA_READ_KEY_EXACT | HA_READ_PREFIX_LAST => Some (last_equal_element s)
  | HA_READ_KEY_OR_NEXT => Some (or_else (last_equal_element s) (last_left_step_parent s))
  | HA_READ_AFTER_KEY => Some (last_left_step_parent s)
  | HA_READ_PREFIX_LAST_OR_PREV => Some (or_else (last_equal_element s) (last_right_step_parent s))
  | HA_READ_BEFORE_KEY => Some (last_right_step_parent s)
  | HA_READ_KEY_OR_PREV => Some (or_else (last_equal_element s) (last_right_step_parent s))
  | _ => None
  end.

(** The key found and the new value of [*last_pos] *)
Definition tree_search_key (cmp : K -> Z) (last_pos : option position) (fl : ha_rkey_function) :
    M (option K * option position) :=
  r ← get root;
  s ← search_key_loop (S MAX_TREE_HEIGHT) cmp fl r [null_ptr] (mk_search None None None);
  match s with
  | None => mret (None, last_pos)
  | Some s =>
      match result_position fl s with
      | None => mret (None, last_pos)
      | Some p => k ← key_at p; mret (k, p)
      end
  end.

(** [child_offs], [l_offs] and [r_offs]: which child field *)
Inductive side := left_side | right_side.

Definition ELEMENT_CHILD (p : ptr) (offs : side) : M ptr :=
  match offs with left_side => get_left p | right_side => get_right p end.

Fixpoint search_edge_loop (fuel : nat) (child_offs : side) (element : ptr) (parents : position) :
    M position :=
  match fuel with
  | O => undefined
  | S fuel =>
      if (element =? null_ptr)%nat then mret parents else
      c ← ELEMENT_CHILD element child_offs;
      search_edge_loop fuel child_offs c (element :: parents)
  end.

(** The key of a position, NULL at [null_element] *)
Definition key_unless_null (p : position) : M (option K) :=
  match p with
  | x :: _ => if (x =? null_ptr)%nat then mret None else k ← ELEMENT_KEY x; mret (Some k)
  | [] => undefined
  end.

Definition tree_search_edge (child_offs : side) : M (option K * position) :=
  r ← get root;
  p ← search_edge_loop (S MAX_TREE_HEIGHT) child_offs r [null_ptr];
  k ← key_unless_null p;
  mret (k, p).

(** Down along [l_offs] from [x], which is on top of the position *)
Fixpoint next_down (fuel : nat) (l_offs : side) (x : ptr) (pos : position) : M position :=
  match fuel with
  | O => undefined
  | S fuel =>
      c ← ELEMENT_CHILD x l_offs;
      if (c =? null_ptr)%nat then mret pos else next_down fuel l_offs c (c :: pos)
  end.

(** Up while [x] is the child of the upper element at [r_offs]; the list starts with [y]. *)
Fixpoint next_up (r_offs : side) (x : ptr) (pos : position) : M position :=
  match pos with
  | [] => undefined
  | y :: pos' =>
      if (y =? null_ptr)%nat then mret pos else
      c ← ELEMENT_CHILD y r_offs;
      if (x =? c)%nat then next_up r_offs y pos' else mret pos
  end.

Definition tree_search_next (last_pos : position) (l_offs r_offs : side) : M (option K * position) :=
  match last_pos with
  | [] => undefined
  | x :: upper =>
      if (x =? null_ptr)%nat then mret (None, last_pos) else
      c ← ELEMENT_CHILD x r_offs;
      p ← (if negb (c =? null_ptr)%nat then next_down MAX_TREE_HEIGHT l_offs c (c :: last_pos)
           else next_up r_offs x upper);
      k ← key_unless_null p;
      mret (k, p)
  end.

(** ** Walking *)

Inductive TREE_WALK := left_root_right | right_root_left.

Section Walk.
(** The action gets the key, the count and its argument, which it may change. *)
Context {B : Type} (action : K -> Z -> B -> Z * B).

Fixpoint tree_walk_left_root_right (fuel : nat) (element : ptr) (b : B) : M (Z * B) :=
  match fuel with
  | O => undefined
  | S fuel =>
      l ← get_left element;
      if (l =? NULL)%nat then mret (0, b) else
      '(error, b) ← tree_walk_left_root_right fuel l b;
      if negb (error =? 0) then mret (error, b) else
      k ← ELEMENT_KEY element;
      n ← get_count element;
      let '(error, b) := action k n b in
      if negb (error =? 0) then mret (error, b) else
      r ← get_right element;
      tree_walk_left_root_right fuel r b
  end.

Fixpoint tree_walk_right_root_left (fuel : nat) (element : ptr) (b : B) : M (Z * B) :=
  match fuel with
  | O => undefined
  | S fuel =>
      r ← get_right element;
      if (r =? NULL)%nat then mret (0, b) else
      '(error, b) ← tree_walk_right_root_left fuel r b;
      if negb (error =? 0) then mret (error, b) else
      k ← ELEMENT_KEY element;
      n ← get_count element;
      let '(error, b) := action k n b in
      if negb (error =? 0) then mret (error, b) else
      l ← get_left element;
      tree_walk_right_root_left fuel l b
  end.

Definition tree_walk (argument : B) (visit : TREE_WALK) : M (Z * B) :=
  r ← get root;
  match visit with
  | left_root_right => tree_walk_left_root_right MAX_TREE_HEIGHT r argument
  | right_root_left => tree_walk_right_root_left MAX_TREE_HEIGHT r argument
  end.
End Walk.

(** ** The test of the debug build, and setting up a tree *)

Fixpoint test_rb_tree (fuel : nat) (element : ptr) : M Z :=
  match fuel with
  | O => undefined
  | S fuel =>
      l ← get_left element;
      if (l =? NULL)%nat then mret 0 else
      r ← get_right element;
      c ← get_colour element;
      cl ← get_colour l;
      cr ← get_colour r;
      if (c =? RED) && ((cl =? RED) || (cr =? RED)) then mret (-1) else
      count_l ← test_rb_tree fuel l;
      count_r ← test_rb_tree fuel r;
      mret (if (0 <=? count_l) && (0 <=? count_r) && (count_l =? count_r)
            then count_l + (if c =? BLACK then 1 else 0) else -1)
  end.

(** [init_tree]; the sizes of the blocks of the memory root are not kept. *)
Definition init_tree (memory_limit size : Z) (free_element : option (K -> Z)) (my_tree_with_delete : bool) :
    TREE K :=
  let size_of_element := if 0 <? size then u32 size else 0 in
  let in_element := bool_decide (free_element = None) && (0 <=? size) &&
    ((u32 size <=? SIZEOF_VOIDP) || bits_meet (u32 size) (SIZEOF_VOIDP - 1)) in
  mk_tree null_ptr {[ null_ptr := null_element ]}
    (if in_element then SIZEOF_TREE_ELEMENT else 0) 0
    (if in_element then size_of_element else u32 (size_of_element + SIZEOF_VOIDP))
    memory_limit 0 my_tree_with_delete free_element 0 [].
End Operations.
