(* ===== verification/TreeRep.v ===== *)
(** * Red-black trees: the heap of a tree

    Pure trees [tree], the cells they occupy in the heap, zippers for the descent, and rules that run
    the programs of [Tree] on heaps that hold a pure tree.  [models] says that the heap holds exactly
    [null_element], the elements of a tree, and a list of other cells. *)

From S2P Require Import Prelude Tree.

Section Rep.
Context {K : Type}.
Notation ELEM := (TREE_ELEMENT K).

(** ** Pure trees *)

Record info := mk_info { x_addr : ptr; x_count : Z; x_key : K }.

Lemma info_eta x : mk_info (x_addr x) (x_count x) (x_key x) = x.
Proof. by destruct x. Qed.

Inductive tree :=
  | E
  | T (c : Z) (l : tree) (x : info) (r : tree).

Definition ptr_of (s : tree) : ptr := match s with E => null_ptr | T _ _ x _ => x_addr x end.
Definition colour_of (s : tree) : Z := match s with E => BLACK | T c _ _ _ => c end.

Fixpoint elements (s : tree) : list info :=
  match s with E => [] | T _ l x r => elements l ++ x :: elements r end.

Definition cell (c : Z) (l : ptr) (x : info) (r : ptr) : ptr * ELEM :=
  (x_addr x, mk_element l r (x_count x) c (Some (x_key x))).

Fixpoint cells (s : tree) : list (ptr * ELEM) :=
  match s with E => [] | T c l x r => cell c (ptr_of l) x (ptr_of r) :: cells l ++ cells r end.

(** ** Zippers *)

(** A step of the descent: to the left or to the right of an element *)
Inductive frame :=
  | FL (c : Z) (x : info) (r : tree)
  | FR (c : Z) (l : tree) (x : info).

Definition fill (f : frame) (s : tree) : tree :=
  match f with FL c x r => T c s x r | FR c l x => T c l x s end.

(** The innermost frame comes first. *)
Fixpoint plug (ctx : list frame) (s : tree) : tree :=
  match ctx with [] => s | f :: ctx => plug ctx (fill f s) end.

Definition f_info (f : frame) : info := match f with FL _ x _ | FR _ _ x => x end.
Definition f_colour (f : frame) : Z := match f with FL c _ _ | FR c _ _ => c end.

Definition f_cells (f : frame) (p : ptr) : list (ptr * ELEM) :=
  match f with
  | FL c x r => cell c p x (ptr_of r) :: cells r
  | FR c l x => cell c (ptr_of l) x p :: cells l
  end.

Fixpoint ctx_cells (ctx : list frame) (p : ptr) : list (ptr * ELEM) :=
  match ctx with
  | [] => []
  | f :: ctx => f_cells f p ++ ctx_cells ctx (x_addr (f_info f))
  end.

Fixpoint ctx_root (ctx : list frame) (p : ptr) : ptr :=
  match ctx with [] => p | f :: ctx => ctx_root ctx (x_addr (f_info f)) end.

Definition slot_of (ctx : list frame) : slot :=
  match ctx with
  | [] => Root
  | FL _ x _ :: _ => Left (x_addr x)
  | FR _ _ x :: _ => Right (x_addr x)
  end.

(** The stack [parents] *)
Fixpoint slots (ctx : list frame) : list slot :=
  slot_of ctx :: match ctx with [] => [] | _ :: ctx => slots ctx end.

Fixpoint pre (ctx : list frame) : list info :=
  match ctx with
  | [] => []
  | FL _ _ _ :: ctx => pre ctx
  | FR _ l x :: ctx => pre ctx ++ elements l ++ [x]
  end.

Fixpoint post (ctx : list frame) : list info :=
  match ctx with
  | [] => []
  | FL _ x r :: ctx => x :: elements r ++ post ctx
  | FR _ _ _ :: ctx => post ctx
  end.

Lemma elements_plug ctx s : elements (plug ctx s) = pre ctx ++ elements s ++ post ctx.
Proof.
  revert s. induction ctx as [|[c x r|c l x] ctx IH]; intros s; simpl; [by rewrite app_nil_r| |];
    rewrite IH; simpl; by rewrite <-?app_assoc; simpl; rewrite <-?app_assoc.
Qed.

Lemma slots_length ctx : length (slots ctx) = S (length ctx).
Proof. induction ctx; simpl; auto. Qed.

Lemma slots_head ctx : slots ctx = slot_of ctx :: tail (slots ctx).
Proof. by destruct ctx. Qed.

Lemma slots_cons f ctx : slots (f :: ctx) = slot_of (f :: ctx) :: slots ctx.
Proof. done. Qed.

Lemma ptr_of_fill f s : ptr_of (fill f s) = x_addr (f_info f).
Proof. by destruct f. Qed.

Lemma ptr_of_plug ctx s : ptr_of (plug ctx s) = ctx_root ctx (ptr_of s).
Proof.
  revert s. induction ctx as [|f ctx IH]; intros s; simpl; [done|]. by rewrite IH, ptr_of_fill.
Qed.

Lemma cells_fill f s : cells (fill f s) ≡ₚ f_cells f (ptr_of s) ++ cells s.
Proof. destruct f; simpl; [solve_Permutation|done]. Qed.

Lemma cells_plug ctx s : cells (plug ctx s) ≡ₚ ctx_cells ctx (ptr_of s) ++ cells s.
Proof.
  revert s. induction ctx as [|f ctx IH]; intros s; simpl; [done|].
  rewrite IH, cells_fill, ptr_of_fill. solve_Permutation.
Qed.

Lemma ctx_cells_addrs ctx p q : (ctx_cells ctx p).*1 = (ctx_cells ctx q).*1.
Proof. destruct ctx as [|[] ctx]; simpl; [done|..]; by rewrite !fmap_app. Qed.

Lemma plug_app ctx1 ctx2 s : plug (ctx1 ++ ctx2) s = plug ctx2 (plug ctx1 s).
Proof. revert s. induction ctx1; intros; simpl; auto. Qed.

(** ** The heap *)

(** The heap holds the context [ctx] with [p] in its hole, and the cells [L]. *)
Record rep (t : TREE K) (ctx : list frame) (p : ptr) (L : list (ptr * ELEM)) : Prop := {
  rep_heap : heap t = list_to_map ((null_ptr, null_element) :: ctx_cells ctx p ++ L);
  rep_nodup : NoDup (NULL :: TREE_ELEMENT_UNIQUE :: null_ptr :: (ctx_cells ctx p ++ L).*1);
  rep_root : root t = ctx_root ctx p;
}.

(** The heap holds the tree [s] and the cells [L]. *)
Definition models (t : TREE K) (s : tree) (L : list (ptr * ELEM)) : Prop :=
  rep t [] (ptr_of s) (cells s ++ L).

(** The fields that rebalancing does not touch *)
Definition rest (t : TREE K) :=
  (offset_to_key t, elements_in_tree t, size_of_element t, memory_limit t, allocated t,
   with_delete t, free t, flag t, freed t).

Lemma rep_perm t ctx p L L' : L ≡ₚ L' -> rep t ctx p L -> rep t ctx p L'.
Proof.
  intros HL [Hh Hnd Hr]. split; [|by rewrite <-HL|done].
  rewrite Hh. apply list_to_map_proper; [|by rewrite HL].
  by apply NoDup_cons in Hnd as [_ ?%NoDup_cons]; naive_solver.
Qed.

Lemma models_rep t ctx s L : models t (plug ctx s) L <-> rep t ctx (ptr_of s) (cells s ++ L).
Proof.
  unfold models. split; intros H.
  - assert (H' : rep t [] (ptr_of (plug ctx s)) (ctx_cells ctx (ptr_of s) ++ cells s ++ L)).
    { eapply rep_perm, H. rewrite cells_plug. solve_Permutation. }
    destruct H' as [Hh Hnd Hr]. split; [done|done|]. by rewrite <-ptr_of_plug.
  - assert (rep t [] (ptr_of (plug ctx s)) (ctx_cells ctx (ptr_of s) ++ cells s ++ L)).
    { destruct H as [Hh Hnd Hr]. split; [done|done|]. by rewrite ptr_of_plug. }
    eapply rep_perm; [|done]. rewrite cells_plug. solve_Permutation.
Qed.

Lemma models_focus t ctx s L : models t (plug ctx s) L -> rep t ctx (ptr_of s) (cells s ++ L).
Proof. apply models_rep. Qed.

Lemma focus_models t ctx s L : rep t ctx (ptr_of s) (cells s ++ L) -> models t (plug ctx s) L.
Proof. apply models_rep. Qed.

Lemma rep_lookup t ctx p L a e : rep t ctx p L -> (a, e) ∈ ctx_cells ctx p ++ L -> heap t !! a = Some e.
Proof.
  intros [Hh Hnd _] Hin. rewrite Hh. apply elem_of_list_to_map_1; [|set_solver].
  apply NoDup_cons in Hnd as [_ Hnd]. by apply NoDup_cons in Hnd as [_ ?].
Qed.

Lemma rep_null t ctx p L : rep t ctx p L -> heap t !! null_ptr = Some null_element.
Proof. intros [-> _ _]. simpl. by simplify_map_eq. Qed.

Lemma rep_update t t' ctx p L a e e' :
  rep t ctx p ((a, e) :: L) -> heap t' = <[a := e']> (heap t) -> root t' = root t ->
  rep t' ctx p ((a, e') :: L).
Proof.
  intros [Hh Hnd Hr] Hh' Hr'.
  set (L1 := (null_ptr, null_element) :: ctx_cells ctx p ++ L).
  assert (Hp : forall e, (null_ptr, null_element) :: ctx_cells ctx p ++ (a, e) :: L ≡ₚ (a, e) :: L1)
    by (intros; unfold L1; solve_Permutation).
  assert (Hn : forall e, NoDup ((null_ptr, null_element) :: ctx_cells ctx p ++ (a, e) :: L).*1).
  { intros e1. apply NoDup_cons in Hnd as [_ Hnd]. apply NoDup_cons in Hnd as [_ Hnd].
    by rewrite fmap_cons, fmap_app in *. }
  split; [|by rewrite fmap_app in *|congruence].
  rewrite Hh', Hh, !(list_to_map_proper _ _ (Hn _) (Hp _)).
  simpl. by rewrite insert_insert_eq.
Qed.
(** ** Running programs *)

Definition wp {A} (m : M (K:=K) A) (Q : A -> TREE K -> Prop) (t : TREE K) : Prop :=
  match m t with Some (a, t') => Q a t' | None => False end.

Lemma wp_mono {A} (m : M A) (Q Q' : A -> TREE K -> Prop) t :
  wp m Q t -> (forall a t', Q a t' -> Q' a t') -> wp m Q' t.
Proof. unfold wp. destruct (m t) as [[a t']|]; auto. Qed.

Lemma wp_bind {A B} (m : M A) (f : A -> M B) Q t :
  wp m (fun a t' => wp (f a) Q t') t -> wp (@mbind _ M_bind _ _ f m) Q t.
Proof. unfold wp, mbind, M_bind. by destruct (m t) as [[a t']|]. Qed.

(** Two commands and a continuation, taken together *)
Lemma wp_bind2 {A B C D} (m : M A) (f : A -> M B) (g : A -> B -> M C) (h : C -> M D) Q t :
  wp (@mbind _ M_bind _ _ h (@mbind _ M_bind _ _ (fun a => @mbind _ M_bind _ _ (g a) (f a)) m)) Q t ->
  wp (@mbind _ M_bind _ _ (fun a => @mbind _ M_bind _ _ (fun b => @mbind _ M_bind _ _ h (g a b)) (f a)) m) Q t.
Proof.
  unfold wp, mbind, M_bind. destruct (m t) as [[a t1]|]; [|done]. by destruct (f a t1) as [[b t2]|].
Qed.

Lemma wp_ret {A} (a : A) (Q : A -> TREE K -> Prop) t : Q a t -> wp (@mret _ M_ret _ a) Q t.
Proof. done. Qed.

Lemma wp_get {A} (f : TREE K -> A) (Q : A -> TREE K -> Prop) t : Q (f t) t -> wp (get f) Q t.
Proof. done. Qed.

Lemma wp_if {A} (b : bool) (m1 m2 : M A) Q t :
  (b = true -> wp m1 Q t) -> (b = false -> wp m2 Q t) -> wp (if b then m1 else m2) Q t.
Proof. destruct b; auto. Qed.

Lemma wp_load a e (Q : ELEM -> TREE K -> Prop) t : heap t !! a = Some e -> Q e t -> wp (load a) Q t.
Proof. unfold wp, load. by intros ->. Qed.

(** An update of one of the cells [L] *)
Lemma wp_update_rep t ctx p L a e f (Q : unit -> TREE K -> Prop) :
  rep t ctx p ((a, e) :: L) ->
  (forall t', rep t' ctx p ((a, f e) :: L) -> rest t' = rest t -> Q tt t') ->
  wp (update a f) Q t.
Proof.
  intros Hr HQ. apply wp_bind, (wp_load a e).
  { apply (rep_lookup _ _ _ _ _ _ Hr). set_solver. }
  apply wp_bind, wp_get. apply HQ; [|done]. eapply rep_update; done.
Qed.

(** *** Programs on a heap that holds a tree, at the node [T c l x r] of the tree *)

Section Node.
Context (t : TREE K) (ctx : list (frame)) (c : Z) (l : tree) (x : info) (r : tree)
  (L : list (ptr * ELEM)) (Hm : models t (plug ctx (T c l x r)) L).

Lemma node_lookup :
  heap t !! x_addr x = Some (mk_element (ptr_of l) (ptr_of r) (x_count x) c (Some (x_key x))).
Proof.
  apply models_focus in Hm. apply (rep_lookup _ _ _ _ _ _ Hm).
  apply elem_of_app. right. apply elem_of_cons. by left.
Qed.

Lemma wp_get_left (Q : ptr -> TREE K -> Prop) : Q (ptr_of l) t -> wp (get_left (x_addr x)) Q t.
Proof. intros HQ. by apply wp_bind, (wp_load _ _ _ _ node_lookup). Qed.

Lemma wp_get_right (Q : ptr -> TREE K -> Prop) : Q (ptr_of r) t -> wp (get_right (x_addr x)) Q t.
Proof. intros HQ. by apply wp_bind, (wp_load _ _ _ _ node_lookup). Qed.

Lemma wp_get_count (Q : Z -> TREE K -> Prop) : Q (x_count x) t -> wp (get_count (x_addr x)) Q t.
Proof. intros HQ. by apply wp_bind, (wp_load _ _ _ _ node_lookup). Qed.

Lemma wp_get_node_colour (Q : Z -> TREE K -> Prop) : Q c t -> wp (get_colour (x_addr x)) Q t.
Proof. intros HQ. by apply wp_bind, (wp_load _ _ _ _ node_lookup). Qed.

Lemma wp_element_key (Q : K -> TREE K -> Prop) : Q (x_key x) t -> wp (ELEMENT_KEY (x_addr x)) Q t.
Proof. intros HQ. by apply wp_bind, (wp_load _ _ _ _ node_lookup). Qed.

Lemma wp_update_node f c' n' (Q : unit -> TREE K -> Prop) :
  (forall p q, f (mk_element p q (x_count x) c (Some (x_key x))) = mk_element p q n' c' (Some (x_key x))) ->
  (forall t', models t' (plug ctx (T c' l (mk_info (x_addr x) n' (x_key x)) r)) L -> rest t' = rest t -> Q tt t') ->
  wp (update (x_addr x) f) Q t.
Proof.
  intros Hf HQ. apply models_focus in Hm. eapply wp_update_rep; [exact Hm|].
  intros t' Hr. rewrite Hf in Hr. apply HQ. by apply focus_models.
Qed.

Lemma wp_set_colour c' (Q : unit -> TREE K -> Prop) :
  (forall t', models t' (plug ctx (T c' l x r)) L -> rest t' = rest t -> Q tt t') ->
  wp (set_colour (x_addr x) c') Q t.
Proof. intros HQ. apply (wp_update_node _ c' (x_count x)); [done|]. by rewrite info_eta. Qed.

Lemma wp_set_count n (Q : unit -> TREE K -> Prop) :
  (forall t', models t' (plug ctx (T c l (mk_info (x_addr x) n (x_key x)) r)) L -> rest t' = rest t -> Q tt t') ->
  wp (set_count (x_addr x) n) Q t.
Proof. by apply (wp_update_node _ c n). Qed.
End Node.

(** The colour of a subtree, which may be [null_element] *)
Lemma wp_get_colour t ctx s L (Q : Z -> TREE K -> Prop) :
  models t (plug ctx s) L -> Q (colour_of s) t -> wp (get_colour (ptr_of s)) Q t.
Proof.
  intros Hm HQ. apply wp_bind. destruct s as [|c l x r].
  - apply models_focus in Hm. by apply (wp_load _ _ _ _ (rep_null _ _ _ _ Hm)).
  - by apply (wp_load _ _ _ _ (node_lookup _ _ _ _ _ _ _ Hm)).
Qed.

(** Painting a subtree black, which may be [null_element] *)
Definition blacken (s : tree) : tree := match s with E => E | T _ l x r => T BLACK l x r end.

Lemma wp_set_black t ctx s L (Q : unit -> TREE K -> Prop) :
  models t (plug ctx s) L ->
  (forall t', models t' (plug ctx (blacken s)) L -> rest t' = rest t -> Q tt t') ->
  wp (set_colour (ptr_of s) BLACK) Q t.
Proof.
  intros Hm HQ. destruct s as [|c l x r]; [|by eapply wp_set_colour].
  pose proof (models_focus _ _ _ _ Hm) as Hr.
  apply wp_bind, (wp_load _ _ _ _ (rep_null _ _ _ _ Hr)).
  apply wp_bind, wp_get. apply HQ; [|done].
  destruct Hm as [Hh Hnd Hroot]. split; [|done|done].
  simpl. rewrite insert_id; [done|]. apply (rep_null _ _ _ _ Hr).
Qed.

Lemma wp_read_slot t ctx p L (Q : ptr -> TREE K -> Prop) :
  rep t ctx p L -> Q p t -> wp (read_slot (slot_of ctx)) Q t.
Proof.
  intros Hr HQ. destruct ctx as [|[c x r|c l x] ctx]; simpl.
  - apply wp_get. by rewrite (rep_root _ _ _ _ Hr).
  - eapply wp_bind, wp_load; [|apply wp_ret].
    { eapply (rep_lookup _ _ _ _ _ _ Hr). by apply elem_of_cons; left. } done.
  - eapply wp_bind, wp_load; [|apply wp_ret].
    { eapply (rep_lookup _ _ _ _ _ _ Hr). by apply elem_of_cons; left. } done.
Qed.

Lemma wp_write_slot t ctx p q L (Q : unit -> TREE K -> Prop) :
  rep t ctx p L -> (forall t', rep t' ctx q L -> rest t' = rest t -> Q tt t') ->
  wp (write_slot (slot_of ctx) q) Q t.
Proof.
  intros Hr HQ. destruct ctx as [|f ctx].
  { apply HQ; [|done]. destruct Hr as [Hh Hnd Hroot]. by split. }
  assert (Hf : rep t [] (ctx_root (f :: ctx) p) (f_cells f p ++ ctx_cells ctx (x_addr (f_info f)) ++ L)).
  { destruct Hr as [Hh Hnd Hroot]. simpl in Hh, Hnd. rewrite <-app_assoc in Hh, Hnd. by split. }
  destruct f as [c x r|c l x]; simpl; eapply wp_update_rep; [exact Hf| |exact Hf|];
    intros t' [Hh Hnd Hroot] Hrest; apply HQ; try done; split; try done; simpl; rewrite <-app_assoc; done.
Qed.

(** *** Rotations *)

Lemma wp_left_rotate t ctx c a x c' b y d L (Q : unit -> TREE K -> Prop) :
  models t (plug ctx (T c a x (T c' b y d))) L ->
  (forall t', models t' (plug ctx (T c' (T c a x b) y d)) L -> rest t' = rest t -> Q tt t') ->
  wp (left_rotate (slot_of ctx) (x_addr x)) Q t.
Proof.
  intros Hm HQ. apply wp_bind, (wp_get_right _ _ _ _ _ _ _ Hm).
  apply wp_bind, (wp_get_left _ (FR c a x :: ctx) _ _ _ _ _ Hm).
  apply models_focus in Hm. simpl in Hm. eapply wp_bind, wp_update_rep; [exact Hm|].
  clear Hm. intros t1 Hm Hr1. eapply wp_bind, (wp_write_slot _ _ _ (x_addr y)); [exact Hm|].
  clear Hm. intros t2 Hm Hr2.
  apply (rep_perm _ _ _ _ (cell c' (ptr_of b) y (ptr_of d) :: cell c (ptr_of a) x (ptr_of b) ::
    cells a ++ cells b ++ cells d ++ L)) in Hm; [|unfold cell; simpl; solve_Permutation].
  eapply wp_update_rep; [exact Hm|]. clear Hm. intros t3 Hm Hr3. simpl in Hm.
  apply HQ; [|congruence]. apply focus_models. eapply rep_perm, Hm. simpl. unfold cell. solve_Permutation.
Qed.

Lemma wp_right_rotate t ctx c c' b y d x a L (Q : unit -> TREE K -> Prop) :
  models t (plug ctx (T c (T c' b y d) x a)) L ->
  (forall t', models t' (plug ctx (T c' b y (T c d x a))) L -> rest t' = rest t -> Q tt t') ->
  wp (right_rotate (slot_of ctx) (x_addr x)) Q t.
Proof.
  intros Hm HQ. apply wp_bind, (wp_get_left _ _ _ _ _ _ _ Hm).
  apply wp_bind, (wp_get_right _ (FL c x a :: ctx) _ _ _ _ _ Hm).
  apply models_focus in Hm. simpl in Hm. eapply wp_bind, wp_update_rep; [exact Hm|].
  clear Hm. intros t1 Hm Hr1. eapply wp_bind, (wp_write_slot _ _ _ (x_addr y)); [exact Hm|].
  clear Hm. intros t2 Hm Hr2.
  apply (rep_perm _ _ _ _ (cell c' (ptr_of b) y (ptr_of d) :: cell c (ptr_of d) x (ptr_of a) ::
    cells a ++ cells b ++ cells d ++ L)) in Hm; [|unfold cell; simpl; solve_Permutation].
  eapply wp_update_rep; [exact Hm|]. clear Hm. intros t3 Hm Hr3. simpl in Hm.
  apply HQ; [|congruence]. apply focus_models. eapply rep_perm, Hm. simpl. unfold cell. solve_Permutation.
Qed.

(** *** Addresses *)

Lemma models_nodup t s L : models t s L -> NoDup (null_ptr :: (cells s).*1).
Proof.
  intros [_ Hnd _]. apply NoDup_cons in Hnd as [_ Hnd]. apply NoDup_cons in Hnd as [_ Hnd].
  simpl in Hnd. rewrite fmap_app in Hnd. by apply (NoDup_app (null_ptr :: _)) in Hnd as [? _].
Qed.

Lemma cells_elements s : (cells s).*1 ≡ₚ x_addr <$> elements s.
Proof.
  induction s as [|c l IHl x r IHr]; simpl; [done|]. rewrite !fmap_app, fmap_cons, IHl, IHr.
  solve_Permutation.
Qed.

Lemma ptr_of_in s : s = E \/ ptr_of s ∈ x_addr <$> elements s.
Proof. destruct s as [|c l x r]; [by left|right]. simpl. rewrite fmap_app. set_solver. Qed.

Lemma models_addrs t ctx s L :
  models t (plug ctx s) L ->
  NoDup (null_ptr :: (x_addr <$> elements s) ++ (x_addr <$> pre ctx) ++ (x_addr <$> post ctx)).
Proof.
  intros Hm%models_nodup. rewrite cells_elements, elements_plug in Hm.
  eapply NoDup_Permutation_proper, Hm. rewrite !fmap_app. solve_Permutation.
Qed.

(** Two subtrees of a node have different addresses, unless both are empty. *)
Lemma models_siblings t ctx c l x r L :
  models t (plug ctx (T c l x r)) L -> ptr_of l = ptr_of r -> l = E /\ r = E.
Proof.
  intros Hm%models_addrs Heq. simpl in Hm. rewrite fmap_app in Hm.
  destruct (ptr_of_in l) as [->|Hl], (ptr_of_in r) as [->|Hr]; [done|..]; exfalso.
  - rewrite <-Heq in Hr. simpl in Hr. apply NoDup_cons in Hm as [[] _]. set_solver.
  - rewrite Heq in Hl. simpl in Hl. apply NoDup_cons in Hm as [[] _]. set_solver.
  - apply NoDup_cons in Hm as [_ Hm]. rewrite fmap_cons, <-app_assoc in Hm.
    apply NoDup_app in Hm as (_ & Hd & _). apply (Hd _ Hl). rewrite Heq. set_solver.
Qed.

(** A node below the root is not the root, and a node is not [null_element]. *)
Lemma models_not_root t ctx f s L :
  models t (plug (f :: ctx) s) L -> ptr_of s <> root t.
Proof.
  intros Hm Heq. rewrite (rep_root _ _ _ _ Hm) in Heq. simpl in Heq.
  apply (models_addrs _ (f :: ctx)) in Hm. rewrite ptr_of_plug, ptr_of_fill in Heq.
  assert (Hin : ctx_root ctx (x_addr (f_info f)) ∈ (x_addr <$> pre (f :: ctx)) ++ (x_addr <$> post (f :: ctx))).
  { clear. revert f. induction ctx as [|g ctx IH]; intros f.
    - destruct f; simpl; rewrite ?fmap_app; simpl; set_solver.
    - specialize (IH g). destruct f; simpl in *; rewrite ?fmap_app, ?fmap_cons in *; set_solver. }
  rewrite <-Heq in Hin. destruct (ptr_of_in s) as [->|Hs].
  - apply NoDup_cons in Hm as [[] _]. simpl in *. set_solver.
  - apply NoDup_cons in Hm as [_ Hm]. apply NoDup_app in Hm as (_ & Hd & _). by apply (Hd _ Hs).
Qed.

Lemma models_not_null t ctx c l x r L : models t (plug ctx (T c l x r)) L -> x_addr x <> null_ptr.
Proof.
  intros Hm%models_addrs Heq. simpl in Hm. rewrite fmap_app in Hm.
  apply NoDup_cons in Hm as [[] _]. rewrite <-Heq. set_solver.
Qed.

Lemma models_root t s L : models t s L -> root t = ptr_of s.
Proof. intros Hm. apply (rep_root _ _ _ _ Hm). Qed.
End Rep.
Arguments info : clear implicits.
Arguments tree : clear implicits.
Arguments frame : clear implicits.
