(* ===== verification/TreeRb.v ===== *)
(** * Red-black trees: balance

    The red-black property of trees and of zippers, the height it gives, and that the loops of
    [rb_insert] and [rb_delete_fixup] restore it and change neither the elements nor their order. *)

From S2P Require Import Prelude Tree TreeRep.

Section Balance.
Context {K : Type}.
Implicit Types (s l r : tree K) (ctx : list (frame K)) (x : info K) (t : TREE K).

(** [rb s n]: no red node has a red child, and every path has [n] black nodes. *)
Inductive rb : tree K -> nat -> Prop :=
  | rb_E : rb E 0
  | rb_red l x r n : rb l n -> rb r n -> colour_of l = BLACK -> colour_of r = BLACK -> rb (T RED l x r) n
  | rb_black l x r n : rb l n -> rb r n -> rb (T BLACK l x r) (S n).

Definition f_sub (f : frame K) : tree K := match f with FL _ _ s | FR _ s _ => s end.

(** The colour above the hole; the root must be black, as if a red node were above it. *)
Definition top_colour ctx : Z := match ctx with [] => RED | f :: _ => f_colour f end.

(** [ctx_rb ctx n]: with a black tree of black height [n] in the hole the tree is red-black. *)
Inductive ctx_rb : list (frame K) -> nat -> Prop :=
  | ctx_nil n : ctx_rb [] n
  | ctx_red f ctx n : f_colour f = RED -> rb (f_sub f) n -> colour_of (f_sub f) = BLACK ->
      top_colour ctx = BLACK -> ctx_rb ctx n -> ctx_rb (f :: ctx) n
  | ctx_black f ctx n : f_colour f = BLACK -> rb (f_sub f) n -> ctx_rb ctx (S n) -> ctx_rb (f :: ctx) n.

Definition balanced s : Prop := exists m, rb s m /\ colour_of s = BLACK.

Lemma rb_colour s n : rb s n -> colour_of s = RED \/ colour_of s = BLACK.
Proof. destruct 1; simpl; auto. Qed.

Lemma rb_blacken s n : rb s n -> exists m, rb (blacken s) m.
Proof. destruct 1; simpl; eauto using rb. Qed.

Lemma balanced_blacken s m : rb (blacken s) m -> balanced (blacken s).
Proof. intros H. exists m. split; [done|]. by destruct s. Qed.

(** Filling a frame *)
Lemma rb_fill f ctx s n :
  rb s n -> ctx_rb (f :: ctx) n -> (colour_of s = RED -> f_colour f = BLACK) ->
  exists n', rb (fill f s) n' /\ ctx_rb ctx n' /\ (f_colour f = RED -> top_colour ctx = BLACK).
Proof.
  intros Hs Hc Hcol. inversion Hc as [|? ? ? Hf Hsub Hb Htop Hctx|? ? ? Hf Hsub Hctx]; subst.
  - assert (colour_of s = BLACK).
    { destruct (rb_colour _ _ Hs) as [E|]; [|done]. specialize (Hcol E). congruence. }
    exists n. split; [|done]. destruct f; simpl in *; subst; by constructor.
  - exists (S n). split; [|by rewrite Hf]. destruct f; simpl in *; subst; by constructor.
Qed.

Lemma rb_plug ctx s n :
  rb s n -> ctx_rb ctx n -> (colour_of s = RED -> top_colour ctx = BLACK) -> balanced (plug ctx s).
Proof.
  revert s n. induction ctx as [|f ctx IH]; intros s n Hs Hc Hcol.
  - exists n. split; [done|]. destruct (rb_colour _ _ Hs) as [E|]; [|done]. specialize (Hcol E). done.
  - destruct (rb_fill f ctx s n Hs Hc Hcol) as (n' & Hs' & Hc' & Hcol'). simpl.
    eapply IH; [done..|]. by destruct f.
Qed.

Lemma balanced_split ctx s :
  balanced (plug ctx s) ->
  exists n, rb s n /\ ctx_rb ctx n /\ (colour_of s = RED -> top_colour ctx = BLACK).
Proof.
  revert s. induction ctx as [|f ctx IH]; intros s; simpl.
  - intros (m & H & Hb). exists m. split; [done|]. split; [constructor|]. rewrite Hb. done.
  - intros H. destruct (IH _ H) as (n & Hs & Hc & Hcol).
    destruct f as [c x r|c l x]; inversion Hs; subst; simpl in *.
    + exists n. split; [done|]. split; [|congruence]. apply ctx_red; auto.
    + eexists. split; [done|]. split; [|done]. apply ctx_black; auto.
    + exists n. split; [done|]. split; [|congruence]. apply ctx_red; auto.
    + eexists. split; [done|]. split; [|done]. apply ctx_black; auto.
Qed.

(** ** Height *)

Fixpoint height (s : tree K) : nat :=
  match s with E => 0 | T _ l _ r => S (Nat.max (height l) (height r)) end.

Lemma rb_size s n :
  rb s n -> (2 ^ n <= S (length (elements s)) /\
  (S (length (elements s)) = 2 ^ n -> height s = n) /\
  height s <= 2 * n + (if decide (colour_of s = RED) then 1 else 0))%nat.
Proof.
  induction 1 as [|l x r n Hl (IHl & IHl' & IHl'') Hr (IHr & IHr' & IHr'') Hcl Hcr
                  |l x r n Hl (IHl & IHl' & IHl'') Hr (IHr & IHr' & IHr'')]; simpl; [lia|..];
    rewrite length_app; simpl.
  - rewrite !decide_False in * by (by rewrite ?Hcl, ?Hcr). repeat split; lia.
  - repeat case_decide; try done; repeat split; lia.
Qed.

(** The array [parents] is long enough: a tree of at most 2^32 - 1 elements has less than 63 levels. *)
Lemma balanced_height s :
  balanced s -> Z.of_nat (length (elements s)) <= U32_MAX -> (height s <= 62)%nat.
Proof.
  intros (n & Hs & Hb) Hlen. destruct (rb_size s n Hs) as (H1 & H2 & H3).
  rewrite Hb in H3. simpl in H3.
  assert (Hn : (n <= 32)%nat).
  { destruct (decide (n <= 32)%nat) as [|Hn]; [done|]. exfalso.
    assert (2 ^ 33 <= 2 ^ n)%nat by (apply Nat.pow_le_mono_r; lia).
    assert (Z.of_nat (2 ^ 33) = 2 ^ 33) by (rewrite Nat2Z.inj_pow; done).
    unfold U32_MAX in *. lia. }
  destruct (decide (n = 32)%nat) as [->|]; [|lia].
  assert (Z.of_nat (2 ^ 32) = 2 ^ 32) by (rewrite Nat2Z.inj_pow; done).
  rewrite H2; unfold U32_MAX in *; lia.
Qed.

Lemma height_plug ctx s : (length ctx + height s <= height (plug ctx s))%nat.
Proof.
  revert s. induction ctx as [|f ctx IH]; intros s; simpl; [lia|].
  specialize (IH (fill f s)). destruct f; simpl in *; lia.
Qed.
End Balance.
