(* ===== verification/TreeInsert.v ===== *)
(** * Red-black trees: rebalancing after an insertion *)

From S2P Require Import Prelude Tree TreeRep TreeRb.

(** Run the first command of a sequence, which reads at the node in the hole of [ctx]. *)
Ltac wp_read rule ctx :=
  match goal with
  | Hm : models ?t _ _ |- wp _ _ ?t => eapply wp_bind, (rule _ _ ctx); [exact Hm|]
  end.

(** Run the first command of a sequence, which changes the node in the hole of [ctx]. *)
Ltac wp_write rule ctx :=
  match goal with
  | Hm : models ?t _ _ |- wp _ _ ?t =>
      eapply wp_bind, (rule _ _ ctx); [exact Hm|];
      clear Hm; let t' := fresh "t" in intros t' Hm ?
  end.

(** Run the last command, which changes the node in the hole of [ctx]. *)
Ltac wp_last rule ctx :=
  match goal with
  | Hm : models ?t _ _ |- wp _ _ ?t =>
      eapply (rule _ _ ctx); [exact Hm|];
      clear Hm; let t' := fresh "t" in intros t' Hm ?
  end.

(** The order of the elements does not depend on the shape. *)
Ltac same_elements := rewrite ?elements_plug; simpl; repeat (rewrite <-?app_assoc; simpl).

Section Insert.
Context {K : Type}.
Implicit Types (s l r y : tree K) (ctx : list (frame K)) (x : info K) (t : TREE K)
  (L : list (ptr * TREE_ELEMENT K)).

(** What the loop leaves: a tree with the same elements, balanced once its root is black. *)
Definition insert_post s L t (t' : TREE K) : Prop :=
  exists s', models t' s' L /\ rest t' = rest t /\ elements s' = elements s /\
    exists m, rb (blacken s') m.

Lemma insert_post_plug ctx s s0 n L t t' :
  models t' (plug ctx s) L -> rest t' = rest t -> elements (plug ctx s) = elements s0 ->
  rb s n -> ctx_rb ctx n -> (colour_of s = RED -> top_colour ctx = BLACK) ->
  insert_post s0 L t t'.
Proof.
  intros Hm Hr He Hs Hc Hcol. exists (plug ctx s). split; [done|]. split; [done|]. split; [done|].
  destruct (rb_plug ctx s n Hs Hc Hcol) as (m & Hrb & _). by apply (rb_blacken _ m).
Qed.

(** The last steps of the loop: a rotation at the grandparent *)
Lemma insert_finish_left ctx l0 x0 r0 x1 r1 x2 y n L t (s0 : tree K) t0 :
  models t (plug ctx (T BLACK (T RED (T RED l0 x0 r0) x1 r1) x2 y)) L -> rest t = rest t0 ->
  elements (plug ctx (T BLACK (T RED (T RED l0 x0 r0) x1 r1) x2 y)) = elements s0 ->
  rb l0 n -> rb r0 n -> rb r1 n -> rb y n -> ctx_rb ctx (S n) ->
  colour_of l0 = BLACK -> colour_of r0 = BLACK -> colour_of r1 = BLACK -> colour_of y = BLACK ->
  wp (@mbind _ M_bind _ _ (fun _ => @mbind _ M_bind _ _ (fun _ => right_rotate (slot_of ctx) (x_addr x2))
        (set_colour (x_addr x2) RED)) (set_colour (x_addr x1) BLACK))
     (fun _ t' => insert_post s0 L t0 t') t.
Proof.
  intros Hm Hr He ? ? ? ? ? ? ? ? ?.
  wp_write @wp_set_colour (FL BLACK x2 y :: ctx).
  wp_write @wp_set_colour ctx.
  wp_last @wp_right_rotate ctx.
  apply (insert_post_plug _ _ s0 (S n) _ t0 _ Hm); [congruence| |by repeat constructor|done|done].
  rewrite <-He. by same_elements.
Qed.

Lemma insert_finish_right ctx y x2 l1 x1 l0 x0 r0 n L t (s0 : tree K) t0 :
  models t (plug ctx (T BLACK y x2 (T RED l1 x1 (T RED l0 x0 r0)))) L -> rest t = rest t0 ->
  elements (plug ctx (T BLACK y x2 (T RED l1 x1 (T RED l0 x0 r0)))) = elements s0 ->
  rb l0 n -> rb r0 n -> rb l1 n -> rb y n -> ctx_rb ctx (S n) ->
  colour_of l0 = BLACK -> colour_of r0 = BLACK -> colour_of l1 = BLACK -> colour_of y = BLACK ->
  wp (@mbind _ M_bind _ _ (fun _ => @mbind _ M_bind _ _ (fun _ => left_rotate (slot_of ctx) (x_addr x2))
        (set_colour (x_addr x2) RED)) (set_colour (x_addr x1) BLACK))
     (fun _ t' => insert_post s0 L t0 t') t.
Proof.
  intros Hm Hr He ? ? ? ? ? ? ? ? ?.
  wp_write @wp_set_colour (FR BLACK y x2 :: ctx).
  wp_write @wp_set_colour ctx.
  wp_last @wp_left_rotate ctx.
  apply (insert_post_plug _ _ s0 (S n) _ t0 _ Hm); [congruence| |by repeat constructor|done|done].
  rewrite <-He. by same_elements.
Qed.

(** The parent is the left child of the grandparent. *)
Lemma insert_left f1 ctx l0 x0 r0 x2 y n L t :
  let s := fill f1 (T RED l0 x0 r0) in
  models t (plug ctx (T BLACK s x2 y)) L ->
  f_colour f1 = RED -> rb (f_sub f1) n -> colour_of (f_sub f1) = BLACK ->
  rb l0 n -> rb r0 n -> colour_of l0 = BLACK -> colour_of r0 = BLACK ->
  rb y n -> ctx_rb ctx (S n) ->
  (forall t', models t' (plug ctx (T RED (blacken s) x2 (blacken y))) L -> rest t' = rest t ->
     colour_of y = RED ->
     wp (rb_insert_loop (slots ctx) (x_addr x2)) (fun _ t'' => insert_post (plug ctx (T BLACK s x2 y)) L t t'') t') ->
  wp (rb_insert_loop (slot_of (f1 :: FL BLACK x2 y :: ctx) :: slots (FL BLACK x2 y :: ctx)) (x_addr x0))
     (fun _ t' => insert_post (plug ctx (T BLACK s x2 y)) L t t') t.
Proof.
  intros s Hm Hf1 Hs1 Hb1 Hl0 Hr0 Hbl Hbr Hy Hctx IH. simpl.
  apply wp_bind, wp_get. apply wp_if; intros Heq.
  { apply Nat.eqb_eq in Heq. exfalso.
    by apply (models_not_root t (FL BLACK x2 y :: ctx) f1 (T RED l0 x0 r0) L Hm). }
  wp_read @wp_get_left ctx.
  wp_read @wp_get_colour (FL BLACK x2 y :: ctx).
  replace (colour_of s) with RED by (by destruct f1). simpl.
  rewrite (slots_head ctx) at 1.
  eapply wp_bind, wp_read_slot; [by apply models_focus|].
  wp_read @wp_get_left ctx.
  rewrite Nat.eqb_refl.
  wp_read @wp_get_right ctx.
  wp_read @wp_get_colour (FR BLACK s x2 :: ctx).
  destruct (rb_colour _ _ Hy) as [Hyc|Hyc]; rewrite Hyc; simpl.
  - wp_write @wp_set_black (FL BLACK x2 y :: ctx).
    wp_write @wp_set_black (FR BLACK (blacken s) x2 :: ctx).
    wp_write @wp_set_colour ctx. apply IH; [done|congruence|done].
  - destruct f1 as [c1 x1 r1|c1 l1 x1]; simpl in *; subst.
    + wp_read @wp_get_right (FL BLACK x2 y :: ctx).
      destruct (Nat.eqb_spec (x_addr x0) (ptr_of r1)) as [Heq1|_].
      { by destruct (models_siblings t (FL BLACK x2 y :: ctx) RED (T RED l0 x0 r0) x1 r1 L Hm Heq1). }
      apply wp_bind, wp_ret. by apply (insert_finish_left ctx l0 x0 r0 x1 r1 x2 y n).
    + wp_read @wp_get_right (FL BLACK x2 y :: ctx). simpl. rewrite Nat.eqb_refl.
      apply wp_bind. wp_write @wp_left_rotate (FL BLACK x2 y :: ctx). apply wp_ret.
      apply (insert_finish_left ctx l1 x1 l0 x0 r0 x2 y n); try done. by same_elements.
Qed.

(** The parent is the right child of the grandparent. *)
Lemma insert_right f1 ctx l0 x0 r0 x2 y n L t :
  let s := fill f1 (T RED l0 x0 r0) in
  models t (plug ctx (T BLACK y x2 s)) L ->
  f_colour f1 = RED -> rb (f_sub f1) n -> colour_of (f_sub f1) = BLACK ->
  rb l0 n -> rb r0 n -> colour_of l0 = BLACK -> colour_of r0 = BLACK ->
  rb y n -> ctx_rb ctx (S n) ->
  (forall t', models t' (plug ctx (T RED (blacken y) x2 (blacken s))) L -> rest t' = rest t ->
     colour_of y = RED ->
     wp (rb_insert_loop (slots ctx) (x_addr x2)) (fun _ t'' => insert_post (plug ctx (T BLACK y x2 s)) L t t'') t') ->
  wp (rb_insert_loop (slot_of (f1 :: FR BLACK y x2 :: ctx) :: slots (FR BLACK y x2 :: ctx)) (x_addr x0))
     (fun _ t' => insert_post (plug ctx (T BLACK y x2 s)) L t t') t.
Proof.
  intros s Hm Hf1 Hs1 Hb1 Hl0 Hr0 Hbl Hbr Hy Hctx IH. simpl.
  apply wp_bind, wp_get. apply wp_if; intros Heq.
  { apply Nat.eqb_eq in Heq. exfalso.
    by apply (models_not_root t (FR BLACK y x2 :: ctx) f1 (T RED l0 x0 r0) L Hm). }
  wp_read @wp_get_right ctx.
  wp_read @wp_get_colour (FR BLACK y x2 :: ctx).
  replace (colour_of s) with RED by (by destruct f1). simpl.
  rewrite (slots_head ctx) at 1.
  eapply wp_bind, wp_read_slot; [by apply models_focus|].
  wp_read @wp_get_left ctx.
  destruct (Nat.eqb_spec (ptr_of s) (ptr_of y)) as [Heq1|_].
  { destruct (models_siblings _ _ _ _ _ _ _ Hm (eq_sym Heq1)) as [_ Hs]. by destruct f1. }
  wp_read @wp_get_left ctx.
  wp_read @wp_get_colour (FL BLACK x2 s :: ctx).
  destruct (rb_colour _ _ Hy) as [Hyc|Hyc]; rewrite Hyc; simpl.
  - wp_write @wp_set_black (FR BLACK y x2 :: ctx).
    wp_write @wp_set_black (FL BLACK x2 (blacken s) :: ctx).
    wp_write @wp_set_colour ctx. apply IH; [done|congruence|done].
  - destruct f1 as [c1 x1 r1|c1 l1 x1]; simpl in *; subst.
    + wp_read @wp_get_left (FR BLACK y x2 :: ctx). simpl. rewrite Nat.eqb_refl.
      apply wp_bind. wp_write @wp_right_rotate (FR BLACK y x2 :: ctx). apply wp_ret.
      apply (insert_finish_right ctx y x2 l0 x0 r0 x1 r1 n); try done. by same_elements.
    + wp_read @wp_get_left (FR BLACK y x2 :: ctx).
      destruct (Nat.eqb_spec (x_addr x0) (ptr_of l1)) as [Heq1|_].
      { by destruct (models_siblings t (FR BLACK y x2 :: ctx) RED l1 x1 (T RED l0 x0 r0) L Hm (eq_sym Heq1)). }
      apply wp_bind, wp_ret. by apply (insert_finish_right ctx y x2 l1 x1 l0 x0 r0 n).
Qed.

Lemma rb_blacken_red s n : colour_of s = RED -> rb s n -> rb (blacken s) (S n).
Proof. intros Hc Hs. destruct Hs; simpl in *; [done|by constructor|done]. Qed.

Lemma blacken_colour s : colour_of (blacken s) = BLACK.
Proof. by destruct s. Qed.

Lemma elements_blacken s : elements (blacken s) = elements s.
Proof. by destruct s. Qed.

Lemma insert_post_trans s1 s2 L t1 t2 t3 :
  insert_post s1 L t2 t3 -> rest t2 = rest t1 -> elements s1 = elements s2 -> insert_post s2 L t1 t3.
Proof. intros (s' & ? & ? & ? & ?) ? ?. exists s'. split_and!; [done|congruence..|done]. Qed.

Lemma rb_insert_loop_correct ctx l0 x0 r0 n L t :
  models t (plug ctx (T RED l0 x0 r0)) L ->
  rb l0 n -> rb r0 n -> colour_of l0 = BLACK -> colour_of r0 = BLACK -> ctx_rb ctx n ->
  wp (rb_insert_loop (slots ctx) (x_addr x0))
     (fun _ t' => insert_post (plug ctx (T RED l0 x0 r0)) L t t') t.
Proof.
  revert l0 x0 r0 n t. induction ctx as [ctx IH] using (induction_ltof1 _ length).
  unfold ltof in IH. intros l0 x0 r0 n t Hm Hl Hr Hbl Hbr Hctx.
  destruct ctx as [|f1 ctx1].
  { simpl. apply wp_bind, wp_get. rewrite (models_root _ _ _ Hm). simpl. rewrite Nat.eqb_refl.
    apply wp_ret. exists (T RED l0 x0 r0). split_and!; [done..|]. exists (S n). by constructor. }
  inversion Hctx as [|? ? ? Hf1 Hs1 Hb1 Htop Hctx1|? ? ? Hf1 Hs1 Hctx1]; subst.
  - destruct ctx1 as [|f2 ctx]; [done|]. simpl in Htop.
    inversion Hctx1 as [|? ? ? Hf2 Hs2 Hb2 Htop2 Hctx2|? ? ? Hf2 Hs2 Hctx2]; subst; [by rewrite Htop in Hf2|].
    assert (Hs : rb (blacken (fill f1 (T RED l0 x0 r0))) (S n)).
    { destruct f1; simpl in *; subst; by repeat constructor. }
    destruct f2 as [c2 x2 y|c2 y x2]; simpl in Hf2, Hs2; subst.
    + apply (insert_left f1 ctx l0 x0 r0 x2 y n); try done. intros t' Hm' Hr' Hy.
      eapply wp_mono; [apply (IH ctx) with (n := S n);
        [simpl; lia|exact Hm'|..|done]; try done; auto using rb_blacken_red, blacken_colour|].
      intros ? t3 Hp. eapply insert_post_trans; [exact Hp|done|]. rewrite !elements_plug. simpl. by rewrite !elements_blacken.
    + apply (insert_right f1 ctx l0 x0 r0 x2 y n); try done. intros t' Hm' Hr' Hy.
      eapply wp_mono; [apply (IH ctx) with (n := S n);
        [simpl; lia|exact Hm'|..|done]; try done; auto using rb_blacken_red, blacken_colour|].
      intros ? t3 Hp. eapply insert_post_trans; [exact Hp|done|]. rewrite !elements_plug. simpl. by rewrite !elements_blacken.
  - simpl. apply wp_bind, wp_get. apply wp_if; intros Heq.
    { apply Nat.eqb_eq in Heq. exfalso. by apply (models_not_root t ctx1 f1 (T RED l0 x0 r0) L Hm). }
    rewrite (slots_head ctx1).
    eapply wp_bind, wp_read_slot; [by apply models_focus|].
    wp_read @wp_get_colour ctx1.
    replace (colour_of (fill f1 (T RED l0 x0 r0))) with BLACK by (by destruct f1). simpl.
    apply wp_ret. apply (insert_post_plug (f1 :: ctx1) (T RED l0 x0 r0) _ n); try done. by constructor.
Qed.

(** [rb_insert] balances a tree that was balanced before the leaf was hung in. *)
Lemma rb_insert_correct ctx x0 L t :
  models t (plug ctx (T RED E x0 E)) L -> ctx_rb ctx 0 ->
  wp (rb_insert (slots ctx) (x_addr x0))
     (fun _ t' => exists s', models t' s' L /\ rest t' = rest t /\ balanced s' /\
        elements s' = elements (plug ctx (T RED E x0 E))) t.
Proof.
  intros Hm Hctx. wp_write @wp_set_colour ctx.
  eapply wp_bind, wp_mono; [by apply (rb_insert_loop_correct ctx E x0 E 0 L _ Hm rb_E rb_E)|].
  intros ? t1 (s' & Hm1 & Hr1 & He1 & m & Hrb).
  apply wp_bind, wp_get. rewrite (models_root _ _ _ Hm1).
  eapply (wp_set_black _ []); [exact Hm1|]. intros t2 Hm2 Hr2. exists (blacken s').
  split_and!; [done|congruence|by eapply balanced_blacken|].
  by rewrite elements_blacken.
Qed.
End Insert.
