(* ===== verification/TreeDelete.v ===== *)
(** * Red-black trees: rebalancing after a deletion *)

From S2P Require Import Prelude Tree TreeRep TreeRb TreeInsert.

Section Delete.
Context {K : Type}.
Implicit Types (s l r : tree K) (ctx : list (frame K)) (x y z : info K) (t : TREE K)
  (L : list (ptr * TREE_ELEMENT K)).

(** The subtree [s] has one black node too few on each path, or it is red and may be painted black. *)
Definition short s (n : nat) : Prop :=
  (colour_of s = BLACK /\ rb s n) \/ (colour_of s = RED /\ rb (blacken s) (S n)).

(** What a round leaves: a balanced tree, or a short subtree further up, at a depth of at most [N]
    unless it is red. *)
Definition fixup_post s L t (N : nat) (res : bool * list slot * ptr) (t' : TREE K) : Prop :=
  let '(continue, parent, x) := res in
  rest t' = rest t /\
  if (continue : bool)
  then exists ctx s' n, parent = slots ctx /\ x = ptr_of s' /\ models t' (plug ctx s') L /\
         elements (plug ctx s') = elements s /\ short s' n /\ ctx_rb ctx (S n) /\
         (length ctx <= N \/ colour_of s' = RED)%nat
  else exists s', x = root t' /\ models t' s' L /\ elements s' = elements s /\ balanced s'.

(** The colour [c] of the parent of a subtree of black height [n] fits the black height [m] above. *)
Definition fits (c : Z) ctx (n m : nat) : Prop :=
  (c = RED /\ m = n /\ top_colour ctx = BLACK) \/ (c = BLACK /\ m = S n).

Lemma fixup_done ctx s s0 m L t t0 N parent :
  models t (plug ctx s) L -> rest t = rest t0 -> elements (plug ctx s) = elements s0 ->
  rb s m -> ctx_rb ctx m -> (colour_of s = RED -> top_colour ctx = BLACK) ->
  fixup_post s0 L t0 N (false, parent, root t) t.
Proof. intros. split; [done|]. exists (plug ctx s). split_and!; try done. by eapply rb_plug. Qed.

Lemma fixup_up ctx c l x r s0 n m L t t0 N :
  models t (plug ctx (T c l x r)) L -> rest t = rest t0 -> elements (plug ctx (T c l x r)) = elements s0 ->
  rb l n -> rb r n -> fits c ctx (S n) m -> ctx_rb ctx m -> (length ctx <= N \/ c = RED)%nat ->
  fixup_post s0 L t0 N (true, slots ctx, x_addr x) t.
Proof.
  intros Hm Hr He Hl Hrr Hf Hctx HN. split; [done|].
  destruct Hf as [(-> & -> & _)|(-> & ->)].
  - exists ctx, (T RED l x r), n. split_and!; try done. right. split; [done|by constructor].
  - exists ctx, (T BLACK l x r), (S n). split_and!; try done. left. split; [done|by constructor].
Qed.

Lemma rb_fits c ctx l x r n m :
  rb l n -> rb r n -> colour_of l = BLACK -> colour_of r = BLACK -> fits c ctx n m ->
  rb (T c l x r) m /\ (colour_of (T c l x r) = RED -> top_colour ctx = BLACK).
Proof. intros Hl Hr Hbl Hbr [(-> & -> & ?)|(-> & ->)]; split; try done; by constructor. Qed.

#[local] Existing Instance M_bind.
#[local] Existing Instance M_ret.

(** The last steps, with a red right child of the sibling *)
Lemma fixup_left_last parent ctx c s x wl y l z r n m L t s0 t0 N :
  models t (plug ctx (T c s x (T BLACK wl y (T RED l z r)))) L -> rest t = rest t0 ->
  elements (plug ctx (T c s x (T BLACK wl y (T RED l z r)))) = elements s0 ->
  rb s n -> rb wl n -> rb (T RED l z r) n -> fits c ctx (S n) m -> ctx_rb ctx m ->
  wp (cp ← get_colour (x_addr x);
      set_colour (x_addr y) cp;; set_colour (x_addr x) BLACK;;
      wr' ← get_right (x_addr y);
      set_colour wr' BLACK;;
      left_rotate (slot_of ctx) (x_addr x);;
      r ← get root;
      mret (false, parent, r)) (fixup_post s0 L t0 N) t.
Proof.
  intros Hm Hr He Hs Hwl Hwr Hf Hctx.
  wp_read @wp_get_node_colour ctx.
  wp_write @wp_set_colour (FR c s x :: ctx).
  wp_write @wp_set_colour ctx.
  wp_read @wp_get_right (FR BLACK s x :: ctx).
  wp_write @wp_set_black (FR c wl y :: FR BLACK s x :: ctx).
  wp_write @wp_left_rotate ctx.
  apply wp_bind, wp_get, wp_ret. inversion Hwr; subst.
  destruct (rb_fits c ctx (T BLACK s x wl) y (T BLACK l z r) (S n) m) as [Hrb Htop]; [by constructor..|done|done|done|].
  eapply fixup_done; [exact Hm|congruence| |exact Hrb|done|exact Htop]. rewrite <-He. by same_elements.
Qed.

Lemma fixup_left_sibling_correct p0 ctx c s x wl y wr n m L t s0 t0 N :
  models t (plug ctx (T c s x (T BLACK wl y wr))) L -> rest t = rest t0 ->
  elements (plug ctx (T c s x (T BLACK wl y wr))) = elements s0 ->
  rb s n -> rb wl n -> rb wr n -> fits c ctx (S n) m -> ctx_rb ctx m ->
  colour_of s = BLACK -> (length ctx <= N \/ c = RED)%nat ->
  wp (fixup_left_sibling (p0 :: slots ctx) (slot_of ctx) (x_addr x) (x_addr y)) (fixup_post s0 L t0 N) t.
Proof.
  intros Hm Hr He Hs Hwl Hwr Hf Hctx Hb HN. unfold fixup_left_sibling.
  wp_read @wp_get_left (FR c s x :: ctx).
  wp_read @wp_get_colour (FL BLACK y wr :: FR c s x :: ctx).
  wp_read @wp_get_right (FR c s x :: ctx).
  wp_read @wp_get_colour (FR BLACK wl y :: FR c s x :: ctx).
  destruct (rb_colour _ _ Hwr) as [Hcr|Hcr], (rb_colour _ _ Hwl) as [Hcl|Hcl]; rewrite Hcl, Hcr; simpl.
  - apply wp_bind, wp_ret. destruct wr as [|c' l z r]; [done|]. simpl in Hcr. subst.
    by apply (fixup_left_last _ ctx c s x wl y l z r n m).
  - apply wp_bind, wp_ret. destruct wr as [|c' l z r]; [done|]. simpl in Hcr. subst.
    by apply (fixup_left_last _ ctx c s x wl y l z r n m).
  - apply wp_bind. destruct wl as [|c' l z r]; [done|]. simpl in Hcl. subst.
    wp_write @wp_set_colour (FL BLACK y wr :: FR c s x :: ctx).
    wp_write @wp_set_colour (FR c s x :: ctx).
    wp_write @wp_right_rotate (FR c s x :: ctx).
    eapply (wp_get_right _ ctx); [exact Hm|]. inversion Hwl; subst.
    apply (fixup_left_last _ ctx c s x l z r y wr n m); try done; [congruence| |by constructor].
    rewrite <-He. by same_elements.
  - wp_write @wp_set_colour (FR c s x :: ctx). apply wp_ret.
    eapply fixup_up; [exact Hm|congruence| |exact Hs| |done..]; [|by constructor].
    rewrite <-He. by same_elements.
Qed.

Lemma fixup_left_correct p0 ctx c s x w n m L t :
  models t (plug ctx (T c s x w)) L ->
  rb s n -> rb w (S n) -> fits c ctx (S n) m -> (c = RED -> colour_of w = BLACK) -> ctx_rb ctx m ->
  colour_of s = BLACK -> (length ctx <= 61)%nat ->
  wp (fixup_left p0 (slot_of ctx) (tail (slots ctx)) (x_addr x))
     (fixup_post (plug ctx (T c s x w)) L t (length ctx)) t.
Proof.
  intros Hm Hs Hw Hf Hc Hctx Hb HN. unfold fixup_left.
  wp_read @wp_get_right ctx.
  wp_read @wp_get_colour (FR c s x :: ctx).
  rewrite <-slots_head.
  inversion Hw as [|wl y wr ? Hwl Hwr Hbl Hbr|wl y wr ? Hwl Hwr]; subst; simpl.
  - destruct Hf as [(-> & _)|(-> & ->)]; [by specialize (Hc eq_refl)|].
    wp_write @wp_set_colour (FR BLACK s x :: ctx).
    wp_write @wp_set_colour ctx.
    wp_write @wp_left_rotate ctx.
    apply wp_bind. unfold push. rewrite (proj2 (Nat.ltb_lt _ _)) by (simpl; rewrite slots_length; unfold MAX_TREE_HEIGHT; lia).
    apply wp_ret. wp_read @wp_get_right (FL BLACK y wr :: ctx).
    inversion Hwl as [|? ? ? ? ? ? ? ?|l z r ? Hl Hr]; subst; [done..|].
    eapply (fixup_left_sibling_correct _ (FL BLACK y wr :: ctx)); [exact Hm|congruence| |exact Hs|done|done| | |done|by right].
    + by same_elements.
    + left. done.
    + by apply ctx_black.
  - by apply (fixup_left_sibling_correct p0 ctx c s x wl y wr n m); auto.
Qed.

(** *** The mirror image *)

Lemma fixup_right_last parent ctx c wr y l z r s x n m L t s0 t0 N :
  models t (plug ctx (T c (T BLACK (T RED l z r) y wr) x s)) L -> rest t = rest t0 ->
  elements (plug ctx (T c (T BLACK (T RED l z r) y wr) x s)) = elements s0 ->
  rb s n -> rb wr n -> rb (T RED l z r) n -> fits c ctx (S n) m -> ctx_rb ctx m ->
  wp (cp ← get_colour (x_addr x);
      set_colour (x_addr y) cp;; set_colour (x_addr x) BLACK;;
      wl' ← get_left (x_addr y);
      set_colour wl' BLACK;;
      right_rotate (slot_of ctx) (x_addr x);;
      r ← get root;
      mret (false, parent, r)) (fixup_post s0 L t0 N) t.
Proof.
  intros Hm Hr He Hs Hwr Hwl Hf Hctx.
  wp_read @wp_get_node_colour ctx.
  wp_write @wp_set_colour (FL c x s :: ctx).
  wp_write @wp_set_colour ctx.
  wp_read @wp_get_left (FL BLACK x s :: ctx).
  wp_write @wp_set_black (FL c y wr :: FL BLACK x s :: ctx).
  wp_write @wp_right_rotate ctx.
  apply wp_bind, wp_get, wp_ret. inversion Hwl; subst.
  destruct (rb_fits c ctx (T BLACK l z r) y (T BLACK wr x s) (S n) m) as [Hrb Htop]; [by constructor..|done|done|done|].
  eapply fixup_done; [exact Hm|congruence| |exact Hrb|done|exact Htop]. rewrite <-He. by same_elements.
Qed.

Lemma fixup_right_sibling_correct p0 ctx c s x wl y wr n m L t s0 t0 N :
  models t (plug ctx (T c (T BLACK wl y wr) x s)) L -> rest t = rest t0 ->
  elements (plug ctx (T c (T BLACK wl y wr) x s)) = elements s0 ->
  rb s n -> rb wl n -> rb wr n -> fits c ctx (S n) m -> ctx_rb ctx m ->
  colour_of s = BLACK -> (length ctx <= N \/ c = RED)%nat ->
  wp (fixup_right_sibling (p0 :: slots ctx) (slot_of ctx) (x_addr x) (x_addr y)) (fixup_post s0 L t0 N) t.
Proof.
  intros Hm Hr He Hs Hwl Hwr Hf Hctx Hb HN. unfold fixup_right_sibling.
  wp_read @wp_get_right (FL c x s :: ctx).
  wp_read @wp_get_colour (FR BLACK wl y :: FL c x s :: ctx).
  wp_read @wp_get_left (FL c x s :: ctx).
  wp_read @wp_get_colour (FL BLACK y wr :: FL c x s :: ctx).
  destruct (rb_colour _ _ Hwl) as [Hcl|Hcl], (rb_colour _ _ Hwr) as [Hcr|Hcr]; rewrite Hcl, Hcr; simpl.
  - apply wp_bind, wp_ret. destruct wl as [|c' l z r]; [done|]. simpl in Hcl. subst.
    by apply (fixup_right_last _ ctx c wr y l z r s x n m).
  - apply wp_bind, wp_ret. destruct wl as [|c' l z r]; [done|]. simpl in Hcl. subst.
    by apply (fixup_right_last _ ctx c wr y l z r s x n m).
  - apply wp_bind. destruct wr as [|c' l z r]; [done|]. simpl in Hcr. subst.
    wp_write @wp_set_colour (FR BLACK wl y :: FL c x s :: ctx).
    wp_write @wp_set_colour (FL c x s :: ctx).
    wp_write @wp_left_rotate (FL c x s :: ctx).
    eapply (wp_get_left _ ctx); [exact Hm|]. inversion Hwr; subst.
    apply (fixup_right_last _ ctx c r z wl y l s x n m); try done; [congruence| |by constructor].
    rewrite <-He. by same_elements.
  - wp_write @wp_set_colour (FL c x s :: ctx). apply wp_ret.
    eapply fixup_up; [exact Hm|congruence| | |exact Hs|done..]; [|by constructor].
    rewrite <-He. by same_elements.
Qed.

Lemma fixup_right_correct p0 ctx c s x w n m L t :
  models t (plug ctx (T c w x s)) L ->
  rb s n -> rb w (S n) -> fits c ctx (S n) m -> (c = RED -> colour_of w = BLACK) -> ctx_rb ctx m ->
  colour_of s = BLACK -> (length ctx <= 61)%nat ->
  wp (fixup_right p0 (slot_of ctx) (tail (slots ctx)) (x_addr x))
     (fixup_post (plug ctx (T c w x s)) L t (length ctx)) t.
Proof.
  intros Hm Hs Hw Hf Hc Hctx Hb HN. unfold fixup_right.
  wp_read @wp_get_left ctx.
  wp_read @wp_get_colour (FL c x s :: ctx).
  rewrite <-slots_head.
  inversion Hw as [|wl y wr ? Hwl Hwr Hbl Hbr|wl y wr ? Hwl Hwr]; subst; simpl.
  - destruct Hf as [(-> & _)|(-> & ->)]; [by specialize (Hc eq_refl)|].
    wp_write @wp_set_colour (FL BLACK x s :: ctx).
    wp_write @wp_set_colour ctx.
    wp_write @wp_right_rotate ctx.
    apply wp_bind. unfold push. rewrite (proj2 (Nat.ltb_lt _ _)) by (simpl; rewrite slots_length; unfold MAX_TREE_HEIGHT; lia).
    apply wp_ret. wp_read @wp_get_left (FR BLACK wl y :: ctx).
    inversion Hwr as [|? ? ? ? ? ? ? ?|l z r ? Hl Hr]; subst; [done..|].
    eapply (fixup_right_sibling_correct _ (FR BLACK wl y :: ctx)); [exact Hm|congruence| |exact Hs|done|done| | |done|by right].
    + by same_elements.
    + left. done.
    + by apply ctx_black.
  - by apply (fixup_right_sibling_correct p0 ctx c s x wl y wr n m); auto.
Qed.

(** *** The loop *)

Definition loop_post s L t (p : ptr) (t' : TREE K) : Prop :=
  exists ctx s', p = ptr_of s' /\ models t' (plug ctx s') L /\ rest t' = rest t /\
    elements (plug ctx s') = elements s /\ balanced (plug ctx (blacken s')).

Lemma loop_stop ctx s n s0 L t t0 :
  models t (plug ctx s) L -> rest t = rest t0 -> elements (plug ctx s) = elements s0 ->
  short s n -> ctx_rb ctx (S n) -> (ctx = [] \/ colour_of s = RED) -> loop_post s0 L t0 (ptr_of s) t.
Proof.
  intros Hm Hr He Hs Hc Hcase. exists ctx, s. split_and!; try done.
  destruct Hs as [(Hb & Hs)|(Hb & Hs)].
  - destruct Hcase as [->|Hcol]; [|by rewrite Hcol in Hb].
    destruct (rb_blacken _ _ Hs) as [m Hm']. by apply (balanced_blacken s m).
  - apply (rb_plug _ _ _ Hs Hc). by rewrite blacken_colour.
Qed.

Lemma ctx_rb_frame f ctx n :
  ctx_rb (f :: ctx) n -> exists m, rb (f_sub f) n /\ fits (f_colour f) ctx n m /\ ctx_rb ctx m /\
    (f_colour f = RED -> colour_of (f_sub f) = BLACK).
Proof.
  inversion 1 as [|? ? ? Hf1 Hs1 Hb1 Htop Hctx1|? ? ? Hf1 Hs1 Hctx1]; subst.
  - exists n. split_and!; try done. by left.
  - exists (S n). split_and!; try done; [by right|]. by rewrite Hf1.
Qed.

(** One round, on either side *)
Lemma fixup_round f ctx s n L t :
  models t (plug (f :: ctx) s) L -> colour_of s = BLACK -> rb s n -> ctx_rb (f :: ctx) (S n) ->
  (length ctx <= 61)%nat ->
  wp (par ← read_slot (slot_of ctx);
      pl ← get_left par;
      if (ptr_of s =? pl)%nat then fixup_left (slot_of (f :: ctx)) (slot_of ctx) (tail (slots ctx)) par
      else fixup_right (slot_of (f :: ctx)) (slot_of ctx) (tail (slots ctx)) par)
     (fixup_post (plug (f :: ctx) s) L t (length ctx)) t.
Proof.
  intros Hm Hb Hs Hc HN. destruct (ctx_rb_frame _ _ _ Hc) as (m & Hsub & Hf & Hctx & Hcol).
  eapply wp_bind, wp_read_slot; [apply models_focus, Hm|]. rewrite ptr_of_fill.
  destruct f as [c x w|c w x]; simpl in *.
  - wp_read @wp_get_left ctx. rewrite Nat.eqb_refl. by apply (fixup_left_correct _ ctx c s x w n m).
  - wp_read @wp_get_left ctx. destruct (Nat.eqb_spec (ptr_of s) (ptr_of w)) as [Heq|_].
    + destruct (models_siblings _ _ _ _ _ _ _ Hm (eq_sym Heq)) as [-> _]. inversion Hsub.
    + by apply (fixup_right_correct _ ctx c s x w n m).
Qed.

Lemma fixup_loop_correct fuel ctx s n L t s0 t0 :
  models t (plug ctx s) L -> rest t = rest t0 -> elements (plug ctx s) = elements s0 ->
  short s n -> ctx_rb ctx (S n) ->
  (colour_of s = RED /\ 0 < fuel \/ length ctx <= 62 /\ S (length ctx) < fuel)%nat ->
  wp (rb_delete_fixup_loop fuel (slots ctx) (ptr_of s)) (loop_post s0 L t0) t.
Proof.
  revert ctx s n t. induction fuel as [|fuel IH]; intros ctx s n t Hm Hr He Hs Hc Hfuel; [lia|]. simpl.
  apply wp_bind, wp_get. wp_read @wp_get_colour ctx.
  destruct Hs as [[Hb Hs]|[Hb Hs]]; rewrite Hb; simpl.
  2:{ rewrite orb_true_r. apply wp_ret. apply (loop_stop ctx s n); try done; by right. }
  rewrite orb_false_r. apply wp_if; intros Heq.
  { apply wp_ret. apply (loop_stop ctx s n); try done; [by left|]. left. apply Nat.eqb_eq in Heq.
    destruct ctx as [|f ctx]; [done|]. by destruct (models_not_root _ _ _ _ _ Hm). }
  destruct ctx as [|f ctx]; [by rewrite (models_root _ _ _ Hm), Nat.eqb_refl in Heq|].
  destruct Hfuel as [[Hred _]|[Hlen Hfuel]]; [by rewrite Hb in Hred|]. simpl in Hlen, Hfuel.
  rewrite slots_cons, (slots_head ctx).
  apply wp_bind2. eapply wp_bind, wp_mono; [by apply (fixup_round f ctx s n L t Hm Hb Hs Hc); lia|].
  intros [[continue parent] p] t' [Hr' Hpost]. destruct continue.
  - destruct Hpost as (ctx' & s' & n' & -> & -> & Hm' & He' & Hs' & Hc' & HN).
    apply (IH ctx' s' n'); try done; [congruence..|]. destruct HN; [right; lia|left; split; [done|lia]].
  - destruct Hpost as (s' & -> & Hm' & He' & m & Hrb & Hcol). apply wp_ret.
    exists [], s'. split_and!; [by apply (models_root _ _ L)|done|congruence|simpl; congruence|].
    simpl. destruct (rb_blacken _ _ Hrb) as [m' ?]. by apply (balanced_blacken s' m').
Qed.

(** [rb_delete_fixup] balances a tree with a short subtree. *)
Lemma rb_delete_fixup_correct ctx s n L t :
  models t (plug ctx s) L -> short s n -> ctx_rb ctx (S n) -> (length ctx <= 62)%nat ->
  wp (rb_delete_fixup (slots ctx))
     (fun _ t' => exists s', models t' s' L /\ rest t' = rest t /\ balanced s' /\
        elements s' = elements (plug ctx s)) t.
Proof.
  intros Hm Hs Hc Hlen. unfold rb_delete_fixup. rewrite slots_head at 1.
  eapply wp_bind, wp_read_slot; [by apply models_focus|].
  eapply wp_bind, wp_mono.
  { apply (fixup_loop_correct _ ctx s n L t (plug ctx s) t); try done. right. unfold MAX_TREE_HEIGHT. lia. }
  intros p t' (ctx' & s' & -> & Hm' & Hr' & He' & Hbal). eapply (wp_set_black _ ctx'); [exact Hm'|].
  intros t2 Hm2 Hr2. exists (plug ctx' (blacken s')). split_and!; try done; [congruence|].
  rewrite <-He', !elements_plug. by rewrite elements_blacken.
Qed.
End Delete.
