(* ===== verification/TreeOps.v ===== *)
(** * Red-black trees: descent, freeing, insertion and deletion *)

From Stdlib Require Import Sorting.Sorted.
From S2P Require Import Prelude Tree TreeRep TreeRb TreeInsert TreeDelete.

#[local] Existing Instance M_bind.
#[local] Existing Instance M_ret.

Section Ops.
Context {K : Type} (compare : K -> K -> Z).
Implicit Types (s l r : tree K) (ctx : list (frame K)) (x y z : info K) (t : TREE K)
  (L : list (ptr * TREE_ELEMENT K)).

(** The elements are in the order of their keys, and no two keys are equal. *)
Definition sorted (l : list (info K)) : Prop :=
  StronglySorted (fun x y => compare (x_key x) (x_key y) < 0) l.

(** ** The descent *)

(** All elements on the left of the hole are smaller than the key, all on the right greater. *)
Definition between key ctx : Prop :=
  Forall (fun x => compare (x_key x) key < 0) (pre ctx) /\
  Forall (fun x => 0 < compare (x_key x) key) (post ctx).

Lemma sorted_app (l1 l2 : list (info K)) :
  sorted (l1 ++ l2) <->
  sorted l1 /\ sorted l2 /\ forall x y, x ∈ l1 -> y ∈ l2 -> compare (x_key x) (x_key y) < 0.
Proof.
  unfold sorted. induction l1 as [|z l1 IH]; simpl.
  - split; [|tauto]. intros H. split_and!; [constructor|done|set_solver].
  - split.
    + intros [H1 H2]%StronglySorted_inv. apply IH in H1 as (Ha & Hb & Hc).
      rewrite Forall_app in H2. destruct H2 as [H2 H3]. split_and!; [by constructor|done|].
      intros x y [->|Hx]%elem_of_cons Hy; [by eapply Forall_forall in H3|auto].
    + intros ([H1 H2]%StronglySorted_inv & H3 & H4). constructor.
      * apply IH. split_and!; [done|done|set_solver].
      * apply Forall_app. split; [done|]. apply Forall_forall. set_solver.
Qed.

Context `{!TotalCompare compare}.

Lemma between_step f ctx s key :
  sorted (elements (plug ctx (fill f s))) -> between key ctx ->
  match f with
  | FR _ _ x => compare (x_key x) key < 0
  | FL _ x _ => 0 < compare (x_key x) key
  end ->
  between key (f :: ctx).
Proof.
  intros Hs [Hpre Hpost] Hcmp. rewrite elements_plug in Hs.
  apply sorted_app in Hs as (_ & (Hs & _)%sorted_app & _).
  destruct f as [c x r|c l x]; simpl in *.
  - split; [done|]. apply sorted_app in Hs as (_ & [_ Hr]%StronglySorted_inv & _). constructor; [done|].
    apply Forall_app. split; [|done]. eapply Forall_impl; [exact Hr|]. simpl. intros y Hy.
    apply (cmp_antisym compare). apply (cmp_antisym compare) in Hcmp.
    apply (cmp_lt_le compare _ (x_key x)); lia.
  - split; [|done]. apply sorted_app in Hs as (_ & _ & Hl). apply Forall_app. split; [done|].
    apply Forall_app. split; [|by constructor]. apply Forall_forall. intros y Hy.
    apply (cmp_lt_le compare _ (x_key x)); [apply Hl; set_solver|lia].
Qed.

(** The place of a key: an empty subtree, or one with an equal key at its root *)
Definition place key ctx s : Prop :=
  between key ctx /\
  match s with E => True | T _ _ x _ => compare (x_key x) key = 0 end.

Lemma wp_push sl ctx (Q : list slot -> TREE K -> Prop) t :
  (length ctx <= 62)%nat -> Q (sl :: slots ctx) t -> wp (push sl (slots ctx)) Q t.
Proof.
  intros Hlen HQ. unfold push. rewrite (proj2 (Nat.ltb_lt _ _)); [by apply wp_ret|].
  rewrite slots_length. unfold MAX_TREE_HEIGHT. lia.
Qed.

Lemma descend_correct fuel key ctx s L t :
  models t (plug ctx s) L -> sorted (elements (plug ctx s)) -> between key ctx ->
  (height s < fuel)%nat -> (length ctx + height s <= 63)%nat ->
  wp (descend compare fuel key (slots ctx) (ptr_of s))
     (fun res t' => t' = t /\ exists ctx' s', plug ctx' s' = plug ctx s /\ place key ctx' s' /\
        res = (slots ctx', ptr_of s')) t.
Proof.
  revert fuel ctx. induction s as [|c l IHl x r IHr]; intros fuel ctx Hm Hs Hb Hf Hlen;
    (destruct fuel as [|fuel]; [simpl in Hf; lia|]); simpl in *.
  { apply wp_ret. split; [done|]. exists ctx, E. done. }
  rewrite (proj2 (Nat.eqb_neq _ _) (models_not_null _ _ _ _ _ _ _ Hm)).
  wp_read @wp_element_key ctx. destruct (Z.eqb_spec (compare (x_key x) key) 0) as [Heq|Hne].
  { apply wp_ret. split; [done|]. exists ctx, (T c l x r). done. }
  apply wp_if; intros Hc; bool_to_prop.
  - apply wp_bind, wp_push; [lia|]. wp_read @wp_get_right ctx.
    apply (IHr _ (FR c l x :: ctx)); try done; [|lia|simpl; lia]. by apply (between_step _ _ r).
  - apply wp_bind, wp_push; [lia|]. wp_read @wp_get_left ctx.
    apply (IHl _ (FL c x r :: ctx)); try done; [|lia|simpl; lia]. apply (between_step _ _ l); [done|done|lia].
Qed.
End Ops.

(** ** Freeing *)

Section Freeing.
Context {K : Type}.
Implicit Types (s l r : tree K) (ctx : list (frame K)) (x y z : info K) (t : TREE K)
  (L : list (ptr * TREE_ELEMENT K)).

(** The calls of [free] for a list of keys, up to the first that returns an error, and this error *)
Fixpoint free_run (f : K -> Z) (ks : list K) : list K * Z :=
  match ks with
  | [] => ([], 0)
  | k :: ks => if f k =? 0 then let '(cs, e) := free_run f ks in (k :: cs, e) else ([k], f k)
  end.

Definition free_all (f : option (K -> Z)) (abort : bool) (ks : list K) : list K * Z :=
  match f with
  | Some f => if abort then ([], 0) else free_run f ks
  | None => ([], 0)
  end.

Lemma free_run_app f ks1 ks2 :
  free_run f (ks1 ++ ks2) =
  let '(c1, e1) := free_run f ks1 in
  if e1 =? 0 then let '(c2, e2) := free_run f ks2 in (c1 ++ c2, e2) else (c1, e1).
Proof.
  induction ks1 as [|k ks1 IH]; simpl; [by destruct (free_run f ks2)|].
  destruct (Z.eqb_spec (f k) 0) as [|Hne]; [|by rewrite (proj2 (Z.eqb_neq _ _) Hne)].
  rewrite IH. destruct (free_run f ks1) as [c1 e1]. destruct (e1 =? 0); [|done].
  by destruct (free_run f ks2).
Qed.

(** The fields that freeing elements does not touch, with the calls of [free] *)
Definition rest_freed (t : TREE K) (fr : list (free_call K)) :=
  (offset_to_key t, elements_in_tree t, size_of_element t, memory_limit t, allocated t,
   with_delete t, free t, flag t, fr).

Lemma rep_ext t t' : heap t' = heap t -> root t' = root t -> forall ctx p L, rep t ctx p L -> rep t' ctx p L.
Proof. intros Hh Hr ctx p L []. split; congruence. Qed.

Lemma rep_delete t t' ctx p L a e :
  rep t ctx p ((a, e) :: L) -> heap t' = delete a (heap t) -> root t' = root t -> rep t' ctx p L.
Proof.
  intros [Hh Hnd Hr] Hh' Hr'.
  assert (Hp : (null_ptr, null_element) :: ctx_cells ctx p ++ (a, e) :: L ≡ₚ
    (a, e) :: (null_ptr, null_element) :: ctx_cells ctx p ++ L) by solve_Permutation.
  assert (Hn : NoDup (NULL :: TREE_ELEMENT_UNIQUE :: ((a, e) :: (null_ptr, null_element) :: ctx_cells ctx p ++ L).*1)).
  { by rewrite <-Hp. }
  split; [|eapply sublist_NoDup; [exact Hn|by do 2 apply sublist_skip; apply sublist_cons]|congruence].
  apply NoDup_cons in Hn as [_ Hn]. apply NoDup_cons in Hn as [_ Hn]. pose proof Hn as [Ha _]%NoDup_cons.
  set (m := list_to_map (M := gmap ptr (TREE_ELEMENT K)) ((null_ptr, null_element) :: ctx_cells ctx p ++ L)).
  assert (Hins : heap t = <[a := e]> m).
  { rewrite Hh. etransitivity; [apply list_to_map_proper; [|exact Hp]; by rewrite Hp|done]. }
  rewrite Hins, delete_insert_id in Hh'; [done|]. by apply not_elem_of_list_to_map_1.
Qed.

(** What freeing a subtree returns and records *)
Definition freed_after t (abort : bool) (ks : list K) (e : Z) (t' : TREE K) : Prop :=
  let '(cs, err) := free_all (free t) abort ks in
  e = err /\ rest t' = rest_freed t (freed t ++ (free_free <$> cs)).

Lemma free_all_app f abort ks1 ks2 :
  free_all f abort (ks1 ++ ks2) =
  let '(c1, e1) := free_all f abort ks1 in
  let '(c2, e2) := free_all f (abort || negb (e1 =? 0)) ks2 in
  (c1 ++ c2, if negb (e1 =? 0) then e1 else e2).
Proof.
  destruct f as [f|]; simpl; [|done]. destruct abort; simpl; [done|].
  rewrite free_run_app. destruct (free_run f ks1) as [c1 e1]. destruct (e1 =? 0); simpl.
  - by destruct (free_run f ks2).
  - by rewrite app_nil_r.
Qed.

Lemma freed_after_fields t abort ks e t' :
  freed_after t abort ks e t' -> free t' = free t /\ with_delete t' = with_delete t.
Proof. unfold freed_after, rest, rest_freed. destruct (free_all _ _ _). intros [_ H]. by simplify_eq. Qed.

Lemma freed_after_app t abort ks1 ks2 e1 e2 t1 t2 :
  freed_after t abort ks1 e1 t1 -> freed_after t1 (abort || negb (e1 =? 0)) ks2 e2 t2 ->
  freed_after t abort (ks1 ++ ks2) (if negb (e1 =? 0) then e1 else e2) t2.
Proof.
  intros H1. pose proof (freed_after_fields _ _ _ _ _ H1) as [Hf _]. revert H1.
  unfold freed_after. rewrite free_all_app, Hf.
  destruct (free_all (free t) abort ks1) as [c1 e1']. intros [-> H1].
  destruct (free_all (free t) _ ks2) as [c2 e2']. intros [-> H2]. split; [done|].
  rewrite H2, fmap_app, app_assoc. unfold rest, rest_freed in *.
  injection H1 as ? ? ? ? ? ? ? ? ?. congruence.
Qed.

Lemma abort_after abort e1 e2 :
  abort || negb (e1 =? 0) || negb (e2 =? 0) = abort || negb ((if negb (e1 =? 0) then e1 else e2) =? 0).
Proof. by destruct abort, (e1 =? 0) eqn:H1; simpl; rewrite ?H1. Qed.

(** The call of [free] for one element *)
Lemma free_element c x p q t abort e1 :
  heap t !! x_addr x = Some (mk_element p q (x_count x) c (Some (x_key x))) ->
  wp (if negb (abort || negb (e1 =? 0)) && bool_decide (is_Some (free t)) then
        k ← ELEMENT_KEY (x_addr x);
        error ← call_free k;
        mret (if negb (error =? 0) then ((if negb (e1 =? 0) then e1 else error), true)
              else (e1, abort || negb (e1 =? 0)))
      else mret (e1, abort || negb (e1 =? 0)))
     (fun res t' => exists e, freed_after t (abort || negb (e1 =? 0)) [x_key x] e t' /\
        res = (if negb (e1 =? 0) then e1 else e, abort || negb (e1 =? 0) || negb (e =? 0)) /\
        heap t' = heap t /\ root t' = root t) t.
Proof.
  intros Hx. unfold freed_after.
  destruct (free t) as [f|] eqn:Hfree; simpl.
  2:{ rewrite andb_false_r. apply wp_ret. exists 0. split_and!; try done; simpl.
      - rewrite app_nil_r. unfold rest, rest_freed. by rewrite Hfree.
      - rewrite orb_false_r. by destruct (Z.eqb_spec e1 0) as [->|]. }
  destruct (abort || negb (e1 =? 0)) eqn:Hab; simpl.
  { apply wp_ret. exists 0. split_and!; try done; simpl.
    - rewrite app_nil_r. unfold rest, rest_freed. by rewrite Hfree.
    - by destruct (Z.eqb_spec e1 0) as [->|]. }
  apply orb_false_iff in Hab as [_ He1]. rewrite He1. simpl.
  apply wp_bind, wp_bind, (wp_load _ _ _ _ Hx). simpl. apply wp_ret.
  apply wp_bind, wp_bind, wp_get. rewrite Hfree. apply wp_bind. simpl. apply wp_ret, wp_ret.
  exists (f (x_key x)). split_and!; try done.
  - destruct (Z.eqb_spec (f (x_key x)) 0) as [->|]; simpl; split; try done;
      unfold rest, rest_freed; by rewrite Hfree.
  - apply negb_false_iff, Z.eqb_eq in He1. subst. by destruct (Z.eqb_spec (f (x_key x)) 0) as [->|].
Qed.

Lemma delete_tree_element_correct fuel s p L t abort :
  rep t [] p (cells s ++ L) -> (height s < fuel)%nat ->
  wp (delete_tree_element fuel (ptr_of s) abort)
     (fun e t' => freed_after t abort (x_key <$> elements s) e t' /\
        rep t' [] p (if with_delete t then L else cells s ++ L)) t.
Proof.
  revert fuel L t abort. induction s as [|c l IHl x r IHr]; intros fuel L t abort Hm Hf;
    (destruct fuel as [|fuel]; [simpl in Hf; lia|]); simpl in *.
  { apply wp_ret. unfold freed_after. destruct (free t); simpl.
    - destruct abort; simpl; by rewrite app_nil_r, Tauto.if_same.
    - by rewrite app_nil_r, Tauto.if_same. }
  assert (Hx : x_addr x <> null_ptr).
  { intros Hx. destruct Hm as [_ Hnd _]. simpl in Hnd. rewrite Hx in Hnd.
    apply NoDup_cons in Hnd as [_ Hnd]. apply NoDup_cons in Hnd as [_ Hnd].
    apply NoDup_cons in Hnd as [[] _]. set_solver. }
  rewrite (proj2 (Nat.eqb_neq _ _) Hx).
  apply wp_bind, wp_bind, (wp_load _ _ _ _ (rep_lookup _ _ _ _ _ _ Hm (list_elem_of_here _ _))), wp_ret.
  set (X := cell c (ptr_of l) x (ptr_of r)) in *.
  eapply wp_bind, wp_mono; [apply (IHl fuel (X :: cells r ++ L)); [|lia]|].
  { eapply rep_perm, Hm. solve_Permutation. }
  simpl. intros e1 t1 [Hf1 Hm1]. pose proof (freed_after_fields _ _ _ _ _ Hf1) as [Hfree1 Hwd1].
  apply wp_bind, wp_get.
  assert (Hx1 : heap t1 !! x_addr x = Some (snd X)).
  { apply (rep_lookup _ _ _ _ _ _ Hm1). destruct (with_delete t); set_solver. }
  eapply wp_bind, wp_mono; [by apply (free_element c x (ptr_of l) (ptr_of r) t1 abort e1)|].
  intros res t2 (e2 & Hf2 & -> & Hh2 & Hr2).
  apply wp_bind, wp_bind, (wp_load _ (snd X)); [by rewrite Hh2|]. apply wp_ret.
  pose proof (freed_after_fields _ _ _ _ _ Hf2) as [Hfree2 Hwd2].
  eapply wp_bind, wp_mono; [apply (IHr fuel (if with_delete t then X :: L else X :: cells l ++ L)); [|lia]|].
  { apply (rep_ext t1 t2 Hh2 Hr2). eapply rep_perm, Hm1. destruct (with_delete t); solve_Permutation. }
  simpl. intros e3 t3 [Hf3 Hm3]. pose proof (freed_after_fields _ _ _ _ _ Hf3) as [Hfree3 Hwd3].
  apply wp_bind, wp_get. rewrite Hwd3, Hwd2, Hwd1 in *.
  set (e12 := if negb (e1 =? 0) then e1 else e2) in *.
  assert (Hpost : freed_after t abort (x_key <$> elements l ++ x :: elements r)
    (if negb (e3 =? 0) then if negb (e12 =? 0) then e12 else e3 else e12) t3).
  { replace (x_key <$> elements l ++ x :: elements r)
      with (((x_key <$> elements l) ++ [x_key x]) ++ (x_key <$> elements r))
      by (by rewrite fmap_app, <-app_assoc).
    replace (if negb (e3 =? 0) then _ else e12) with (if negb (e12 =? 0) then e12 else e3)
      by (destruct (Z.eqb_spec e12 0), (Z.eqb_spec e3 0); simpl; congruence).
    apply (freed_after_app _ _ _ _ _ _ t2); [by apply (freed_after_app _ _ _ _ _ _ t1)|].
    by rewrite (abort_after abort e1 e2) in Hf3. }
  apply wp_bind. destruct (with_delete t).
  - apply wp_bind, (wp_load _ (snd X)); [apply (rep_lookup _ _ _ _ _ _ Hm3); set_solver|].
    apply wp_bind, wp_get. apply wp_ret. split; [done|]. by apply (rep_delete t3 _ [] p L (x_addr x) (snd X)).
  - apply wp_ret, wp_ret. split; [done|]. eapply rep_perm, Hm3. solve_Permutation.
Qed.

(** The calls of [free] that [free_tree] makes, and its result *)
Definition free_tree_calls t (abort : bool) (ks : list K) : list (free_call K) * Z :=
  let '(cs, e) := free_all (free t) abort ks in
  let bracket c := if with_delete t || (memory_limit t =? 0) || bool_decide (free t = None) then [] else [c] in
  (bracket free_init ++ (free_free <$> cs) ++ bracket free_end, e).

(** The tree after [free_tree] *)
Definition emptied t (abort : bool) (ks : list K) (e : Z) (t' : TREE K) : Prop :=
  let '(calls, err) := free_tree_calls t abort ks in
  e = err /\ models t' E [] /\
  rest t' = (offset_to_key t, 0, size_of_element t, memory_limit t, 0, with_delete t, free t, flag t,
             freed t ++ calls).

Lemma empty_models t : heap t = {[ null_ptr := null_element ]} -> root t = null_ptr -> models t E [].
Proof.
  intros Hh Hr. split; [by rewrite Hh| |done].
  simpl. repeat (apply NoDup_cons; split; [set_solver|]). apply NoDup_nil_2.
Qed.

(** The last assignments of [free_tree] *)
Lemma free_finish (e : Z) t t1 fr (Q : Z -> TREE K -> Prop) :
  rest t1 = rest_freed t fr -> heap t1 = {[ null_ptr := null_element ]} ->
  (forall t', models t' E [] -> rest t' = (offset_to_key t, 0, size_of_element t, memory_limit t, 0,
     with_delete t, free t, flag t, fr) -> Q e t') ->
  wp (set_root null_ptr;; set_elements_in_tree 0;; set_allocated 0;; mret e) Q t1.
Proof.
  intros Hr Hh HQ. apply HQ; [by apply empty_models|].
  unfold rest, rest_freed in *. injection Hr as ? ? ? ? ? ? ? ? ?. simpl. congruence.
Qed.

(** [free_init] and [free_end] *)
Lemma wp_bracket t c s p :
  rep t [] p (cells s ++ []) ->
  wp (if negb (memory_limit t =? 0) then log_free c else mret tt)
     (fun _ t' => rest t' = rest_freed t (freed t ++ (if memory_limit t =? 0 then [] else [c])) /\
        rep t' [] p (cells s ++ [])) t.
Proof.
  intros Hm. destruct (memory_limit t =? 0); [|by split; [|apply (rep_ext t)]].
  apply wp_ret. unfold rest, rest_freed. by rewrite app_nil_r.
Qed.

Lemma free_tree_correct s t abort :
  models t s [] -> (height s < MAX_TREE_HEIGHT)%nat ->
  wp (free_tree abort) (emptied t abort (x_key <$> elements s)) t.
Proof.
  intros Hm Hh. unfold free_tree. do 4 apply wp_bind, wp_get.
  assert (Hroot : root t <> NULL).
  { rewrite (models_root _ _ _ Hm). destruct s as [|c l x r]; [done|]. simpl. intros Hx.
    destruct Hm as [_ Hnd _]. apply NoDup_cons in Hnd as [[] _]. rewrite <-Hx. simpl. set_solver. }
  rewrite (proj2 (Nat.eqb_neq _ _) Hroot), (models_root _ _ _ Hm).
  unfold emptied, free_tree_calls.
  destruct (with_delete t) eqn:Hwd.
  - eapply wp_bind, wp_mono; [by apply (delete_tree_element_correct _ s (ptr_of s) [])|].
    intros e t1 [Hf [Hh1 _ _]]. rewrite Hwd in *. unfold freed_after in Hf.
    destruct (free_all _ _ _) as [cs err]. destruct Hf as [-> Hrest].
    eapply free_finish; [exact Hrest|done|]. intros t' Hm' Hr'. split_and!; [done..|].
    rewrite Hr', Hwd. simpl. by rewrite app_nil_r.
  - apply wp_bind, wp_bind. case_bool_decide as Hsome.
    + destruct Hsome as [f Hfree].
      eapply wp_bind, wp_mono; [by apply wp_bracket|]. intros ? t1 [Hr1 Hm1].
      unfold rest, rest_freed in Hr1. injection Hr1 as ? ? ? ? ? ? ? ? ?.
      eapply wp_bind, wp_mono; [by apply (delete_tree_element_correct _ s (ptr_of s) [] t1 abort)|].
      intros e t2 [Hf2 Hm2]. unfold freed_after in Hf2.
      replace (free t1) with (free t) in Hf2 by congruence. replace (with_delete t1) with false in Hm2 by congruence.
      destruct (free_all _ _ _) as [cs err]. destruct Hf2 as [-> Hr2].
      unfold rest, rest_freed in Hr2. injection Hr2 as ? ? ? ? ? ? ? ? ?.
      replace (memory_limit t) with (memory_limit t2) by congruence.
      eapply wp_bind, wp_mono; [by apply (wp_bracket t2 free_end s)|]. intros ? t3 [Hr3 Hm3].
      apply wp_ret, wp_bind. apply wp_ret. eapply free_finish; [exact Hr3|done|].
      intros t' Hm' Hr'. split_and!; [done..|]. rewrite Hr'.
      rewrite (bool_decide_eq_false_2 (free t = None)) by (by rewrite Hfree).
      rewrite orb_false_l, orb_false_r.
      replace (memory_limit t2) with (memory_limit t) by congruence.
      replace (freed t2) with ((freed t ++ (if memory_limit t =? 0 then [] else [free_init])) ++ (free_free <$> cs))
        by congruence.
      rewrite <-!app_assoc. congruence.
    + apply wp_ret, wp_bind, wp_ret. destruct (free t) as [f|] eqn:Hfree; [by destruct Hsome; eexists|]. simpl free_all.
      apply (free_finish 0 t _ (freed t)); [unfold rest, rest_freed; simpl; congruence|done|].
      intros t' Hm' Hr'. split_and!; [done..|]. rewrite Hr', Hwd, Hfree.
      rewrite bool_decide_eq_true_2 by done. rewrite !orb_true_r. simpl. by rewrite app_nil_r.
Qed.
End Freeing.
