(* ===== verification/TreeProps.v ===== *)
(** * Red-black trees: insertion and deletion are correct

    A tree in order ([tree_ok]) stands for the sorted list of its keys with their counts
    ([contents]); [tree_insert] and [tree_delete] are insertion and deletion in that list, on every
    branch, and keep the tree in order.  That the programs return at all includes that they never
    read or write outside of allocated elements and never go beyond the array [parents]. *)

From Stdlib Require Import Sorting.Sorted.
From S2P Require Import Prelude Tree TreeRep TreeRb TreeInsert TreeDelete TreeOps.

#[local] Existing Instance M_bind.
#[local] Existing Instance M_ret.

Section Spec.
Context {K : Type} (compare : K -> K -> Z).

Definition contents (s : tree K) : list (K * Z) := (fun x => (x_key x, x_count x)) <$> elements s.

(** A tree in order *)
Record tree_ok (t : TREE K) (s : tree K) : Prop := {
  ok_models : models t s [];
  ok_balanced : balanced s;
  ok_sorted : sorted compare (elements s);
  ok_size : elements_in_tree t = Z.of_nat (length (elements s));
  ok_bound : elements_in_tree t <= U32_MAX;
  ok_counts : Forall (fun x => 1 <= x_count x < 2 ^ 31) (elements s);
}.

(** ** The abstract list *)

Definition MAX_COUNT : Z := 2 ^ 31 - 1.

Fixpoint sorted_insert (key : K) (l : list (K * Z)) : list (K * Z) :=
  match l with
  | [] => [(key, 1)]
  | (k, n) :: l' =>
      if compare k key =? 0 then (k, Z.min (n + 1) MAX_COUNT) :: l'
      else if compare k key <? 0 then (k, n) :: sorted_insert key l'
      else (key, 1) :: l
  end.

Definition has_key (key : K) (l : list (K * Z)) : bool := existsb (fun '(k, _) => compare k key =? 0) l.

Definition sorted_delete (key : K) (l : list (K * Z)) : list (K * Z) :=
  List.filter (fun '(k, _) => negb (compare k key =? 0)) l.

(** Whether an insertion of [size] bytes first empties the tree *)
Definition over_limit (t : TREE K) (size : Z) : bool :=
  negb (memory_limit t =? 0) && negb (elements_in_tree t =? 0) && (memory_limit t <? u64 (allocated t + size)).

(** What [tree_insert] returns and leaves *)
Definition insert_spec (t : TREE K) (s : tree K) (malloc : ptr) (key : K) (key_size : Z) (p : ptr) (t' : TREE K) : Prop :=
  let size := u32 (SIZEOF_TREE_ELEMENT + key_size + size_of_element t) in
  if has_key key (contents s) then
    if bits_meet (flag t) TREE_NO_DUPS then p = NULL /\ t' = t
    else exists s' e, tree_ok t' s' /\ rest t' = rest t /\
      contents s' = sorted_insert key (contents s) /\
      heap t' !! p = Some e /\ exists k, el_key e = Some k /\ compare k key = 0
  else if bits_meet (flag t) TREE_ONLY_DUPS then p = TREE_ELEMENT_UNIQUE /\ t' = t
  else
    let '(before, al, fr) :=
      if over_limit t size
      then ([], u64 (0 + size), freed t ++ (free_tree_calls t false (fst <$> contents s)).1)
      else (contents s, u64 (allocated t + size), freed t) in
    let after := if decide (malloc = NULL) then before else sorted_insert key before in
    exists s', tree_ok t' s' /\ p = malloc /\ contents s' = after /\
      rest t' = (offset_to_key t, Z.of_nat (length after), size_of_element t, memory_limit t, al,
                 with_delete t, free t, flag t, fr).

(** What [tree_delete] returns and leaves *)
Definition delete_spec (t : TREE K) (s : tree K) (key : K) (key_size : Z) (res : Z) (t' : TREE K) : Prop :=
  if with_delete t && has_key key (contents s) then
    exists s' k, res = 0 /\ tree_ok t' s' /\ contents s' = sorted_delete key (contents s) /\
      k ∈ fst <$> contents s /\ compare k key = 0 /\
      rest t' = (offset_to_key t, elements_in_tree t - 1, size_of_element t, memory_limit t,
                 u64 (allocated t - (SIZEOF_TREE_ELEMENT + size_of_element t + key_size)),
                 with_delete t, free t, flag t,
                 freed t ++ (if free t is Some _ then [free_free k] else []))
  else res = 1 /\ t' = t.
End Spec.

Section Props.
Context {K : Type} (compare : K -> K -> Z) `{!TotalCompare compare}.
Implicit Types (s l r : tree K) (ctx : list (frame K)) (x y z : info K) (t : TREE K)
  (L : list (ptr * TREE_ELEMENT K)).

(** ** The abstract list, around the place of a key *)

Notation kc := (fun x : info K => (x_key x, x_count x)).

Lemma sorted_insert_app key (l1 l2 : list (info K)) :
  Forall (fun x => compare (x_key x) key < 0) l1 ->
  sorted_insert compare key (kc <$> l1 ++ l2) = (kc <$> l1) ++ sorted_insert compare key (kc <$> l2).
Proof.
  induction 1 as [|x l1 Hx _ IH]; csimpl; [done|].
  rewrite (proj2 (Z.eqb_neq _ _)), (proj2 (Z.ltb_lt _ _)) by lia. by rewrite IH.
Qed.

Lemma sorted_insert_greater key (l : list (info K)) :
  Forall (fun x => 0 < compare (x_key x) key) l ->
  sorted_insert compare key (kc <$> l) = (key, 1) :: (kc <$> l).
Proof.
  destruct 1 as [|x l Hx _]; csimpl; [done|].
  by rewrite (proj2 (Z.eqb_neq _ _)), (proj2 (Z.ltb_ge _ _)) by lia.
Qed.

Lemma has_key_none key ctx :
  between compare key ctx -> has_key compare key (kc <$> pre ctx ++ post ctx) = false.
Proof.
  intros [Hpre Hpost]. unfold has_key. apply not_true_iff_false. rewrite existsb_exists.
  intros ([k n] & Hin & Heq). apply list_elem_of_In, list_elem_of_fmap in Hin as (x & [= -> ->] & Hin).
  apply Z.eqb_eq in Heq. rewrite Forall_forall in Hpre, Hpost.
  apply elem_of_app in Hin as [Hin|Hin]; [specialize (Hpre _ Hin)|specialize (Hpost _ Hin)]; lia.
Qed.

Lemma has_key_here key ctx x :
  compare (x_key x) key = 0 -> has_key compare key (kc <$> pre ctx ++ x :: post ctx) = true.
Proof.
  intros Heq. unfold has_key. apply existsb_exists. exists (kc x). split; [|by apply Z.eqb_eq].
  apply list_elem_of_In, list_elem_of_fmap. exists x. split; [done|]. set_solver.
Qed.

Lemma filter_id {A} (f : A -> bool) (l : list A) : Forall (fun a => f a = true) l -> List.filter f l = l.
Proof. induction 1 as [|a l Ha _ IH]; simpl; [done|]. by rewrite Ha, IH. Qed.

(** ** Insertion *)

(** An address that an allocation may give *)
Definition fresh t (a : ptr) : Prop := heap t !! a = None /\ a <> NULL /\ a <> TREE_ELEMENT_UNIQUE.

Lemma rep_alloc t t' ctx p L a e :
  rep t ctx p L -> fresh t a -> heap t' = <[a := e]> (heap t) -> root t' = root t ->
  rep t' ctx p ((a, e) :: L).
Proof.
  intros [Hh Hnd Hr] (Ha & Ha1 & Ha2) Hh' Hr'.
  assert (Hp : (null_ptr, null_element) :: ctx_cells ctx p ++ (a, e) :: L ≡ₚ
    (a, e) :: (null_ptr, null_element) :: ctx_cells ctx p ++ L) by solve_Permutation.
  assert (Hin : a ∉ ((null_ptr, null_element) :: ctx_cells ctx p ++ L).*1).
  { rewrite Hh in Ha. by apply not_elem_of_list_to_map_2 in Ha. }
  assert (Hn : NoDup (NULL :: TREE_ELEMENT_UNIQUE :: ((null_ptr, null_element) :: ctx_cells ctx p ++ (a, e) :: L).*1)).
  { rewrite Hp. apply NoDup_cons in Hnd as [Hn1 Hnd]. apply NoDup_cons in Hnd as [Hn2 Hnd]. csimpl.
    apply NoDup_cons. split; [set_solver|]. apply NoDup_cons. split; [set_solver|]. by apply NoDup_cons. }
  split; [|done|congruence]. rewrite Hh', Hh.
  apply NoDup_cons in Hn as [_ Hn]. apply NoDup_cons in Hn as [_ Hn].
  symmetry. etransitivity; [by apply list_to_map_proper; [|exact Hp]|done].
Qed.

Definition with_sizes t (n al : Z) (fr : list (free_call K)) :=
  (offset_to_key t, n, size_of_element t, memory_limit t, al, with_delete t, free t, flag t, fr).

Lemma wp_set_heap h (Q : unit -> TREE K -> Prop) t :
  (forall t', heap t' = h -> root t' = root t -> rest t' = rest t -> Q tt t') -> wp (set_heap h) Q t.
Proof. intros HQ. by apply HQ. Qed.

Lemma wp_set_elements n (Q : unit -> TREE K -> Prop) t :
  (forall t', heap t' = heap t -> root t' = root t -> rest t' = with_sizes t n (allocated t) (freed t) -> Q tt t') ->
  wp (set_elements_in_tree n) Q t.
Proof. intros HQ. by apply HQ. Qed.

Lemma wp_set_allocated n (Q : unit -> TREE K -> Prop) t :
  (forall t', heap t' = heap t -> root t' = root t -> rest t' = with_sizes t (elements_in_tree t) n (freed t) -> Q tt t') ->
  wp (set_allocated n) Q t.
Proof. intros HQ. by apply HQ. Qed.

Lemma insert_element_correct key ctx malloc t :
  models t (plug ctx E) [] -> balanced (plug ctx (E : tree K)) -> fresh t malloc ->
  wp (insert_element malloc key (slots ctx))
     (fun p t' => p = malloc /\ rest t' = with_sizes t (u32 (elements_in_tree t + 1)) (allocated t) (freed t) /\
        exists s', models t' s' [] /\ balanced s' /\
          elements s' = pre ctx ++ mk_info malloc 1 key :: post ctx) t.
Proof.
  intros Hm Hbal Hfresh. unfold insert_element.
  rewrite (proj2 (Nat.eqb_neq _ _)) by apply Hfresh.
  rewrite slots_head at 1. apply wp_bind, wp_get.
  apply wp_bind, wp_set_heap. intros t1 Hh1 Hroot1 Hr1.
  assert (Hm1 : rep t1 ctx null_ptr [cell RED null_ptr (mk_info malloc 1 key) null_ptr]).
  { by apply (rep_alloc t); [apply (models_focus t ctx E [])| | |]. }
  eapply wp_bind, (wp_write_slot _ _ _ malloc); [exact Hm1|]. intros t2 Hm2 Hr2.
  apply wp_bind, wp_get. apply wp_bind, wp_set_elements. intros t3 Hh3 Hroot3 Hr3.
  assert (Hm3 : models t3 (plug ctx (T RED E (mk_info malloc 1 key) E)) []).
  { apply focus_models. by apply (rep_ext t2). }
  destruct (balanced_split _ _ Hbal) as (n & HE & Hctx & _). inversion HE; subst.
  eapply wp_bind, wp_mono; [by apply (rb_insert_correct ctx _ [] t3 Hm3)|].
  intros ? t4 (s' & Hm4 & Hr4 & Hbal4 & He4). apply wp_ret. split; [done|]. split.
  - rewrite Hr4, Hr3. unfold rest in Hr1, Hr2. injection Hr2 as ? ? ? ? ? ? ? ? ?.
    injection Hr1 as ? ? ? ? ? ? ? ? ?. unfold with_sizes. congruence.
  - exists s'. split_and!; [done..|]. by rewrite He4, elements_plug.
Qed.

Lemma count_element_correct ctx c l x r t :
  models t (plug ctx (T c l x r)) [] -> 1 <= x_count x < 2 ^ 31 ->
  wp (count_element (x_addr x))
     (fun p t' => p = x_addr x /\ rest t' = rest t /\
        models t' (plug ctx (T c l (mk_info (x_addr x) (Z.min (x_count x + 1) MAX_COUNT) (x_key x)) r)) []) t.
Proof.
  intros Hm Hc. unfold count_element. wp_read @wp_get_count ctx.
  wp_write @wp_set_count ctx. set (x1 := mk_info _ _ _) in Hm. apply wp_bind.
  destruct (Z.eqb_spec ((x_count x + 1) mod 2 ^ 31) 0) as [H0|Hne].
  - change (x_addr x) with (x_addr x1). wp_last @wp_set_count ctx. apply wp_ret. split_and!; [done|congruence|].
    assert (x_count x + 1 = 2 ^ 31).
    { destruct (decide (x_count x + 1 = 2 ^ 31)); [done|]. rewrite Z.mod_small in H0 by lia. lia. }
    rewrite H0 in Hm. change ((0 - 1) mod 2 ^ 31) with MAX_COUNT in Hm.
    by rewrite Z.min_r by (unfold MAX_COUNT; lia).
  - apply wp_ret, wp_ret. split_and!; [done|done|].
    assert (x_count x + 1 <> 2 ^ 31) by (intros H1; by rewrite H1 in Hne).
    unfold x1 in Hm. rewrite Z.mod_small in Hm by lia. by rewrite Z.min_l by (unfold MAX_COUNT; lia).
Qed.

Lemma ok_height t s : tree_ok compare t s -> (height s <= 62)%nat.
Proof. intros []. apply balanced_height; [done|]. lia. Qed.

(** The descent of [tree_insert] and [tree_delete] *)
Lemma wp_place t s key (Q : list slot * ptr -> TREE K -> Prop) :
  tree_ok compare t s ->
  (forall ctx s', plug ctx s' = s -> place compare key ctx s' -> Q (slots ctx, ptr_of s') t) ->
  wp (descend compare (S MAX_TREE_HEIGHT) key [Root] (root t)) Q t.
Proof.
  intros Hok HQ. pose proof (ok_height _ _ Hok) as Hh. destruct Hok as [Hm Hbal Hs _ _ _].
  rewrite (models_root _ _ _ Hm). eapply wp_mono.
  - apply (descend_correct compare _ key [] s [] t); [done|done| |unfold MAX_TREE_HEIGHT; lia|simpl; lia].
    by split; constructor.
  - intros res t' (-> & ctx & s' & Hp & Hpl & ->). by apply HQ.
Qed.

Lemma sorted_replace (l1 l2 : list (info K)) x y :
  sorted compare (l1 ++ x :: l2) -> x_key y = x_key x -> sorted compare (l1 ++ y :: l2).
Proof.
  intros (H1 & H2 & H3)%sorted_app Hk. apply sorted_app. split_and!; [done| |].
  - apply StronglySorted_inv in H2 as [H2 H4]. constructor; [done|]. by rewrite Hk.
  - intros a b Ha [->|Hb]%elem_of_cons; [rewrite Hk|]; apply H3; rewrite ?elem_of_cons; auto.
Qed.

Lemma Forall_sublist (P : info K -> Prop) (l1 l2 : list (info K)) : l1 `sublist_of` l2 -> Forall P l2 -> Forall P l1.
Proof.
  induction 1 as [|x l1 l2 Hsub IH|x l1 l2 Hsub IH]; [done|..]; intros [H1 H2]%Forall_cons; [constructor|]; auto.
Qed.

Lemma sorted_sublist (l1 l2 : list (info K)) : l1 `sublist_of` l2 -> sorted compare l2 -> sorted compare l1.
Proof.
  unfold sorted. induction 1 as [|x l1 l2 Hsub IH|x l1 l2 Hsub IH]; [done|..]; intros [H1 H2]%StronglySorted_inv.
  - constructor; [by apply IH|]. by apply (Forall_sublist _ _ _ Hsub).
  - by apply IH.
Qed.

Lemma sorted_between key ctx x :
  sorted compare (pre ctx ++ post ctx) -> between compare key ctx -> x_key x = key ->
  sorted compare (pre ctx ++ x :: post ctx).
Proof.
  intros (H1 & H2 & H3)%sorted_app [Hpre Hpost] Hk. rewrite Forall_forall in Hpre, Hpost.
  apply sorted_app. split_and!; [done| |].
  - constructor; [done|]. apply Forall_forall. intros y Hy. rewrite Hk.
    apply (cmp_antisym compare). by apply Hpost.
  - intros a b Ha [->|Hb]%elem_of_cons; [rewrite Hk; by apply Hpre|by apply H3].
Qed.

(** A tree with one more element is in order. *)
Lemma ok_insert t s key ctx a t' s' n :
  tree_ok compare t s -> plug ctx E = s -> between compare key ctx -> elements_in_tree t < U32_MAX ->
  models t' s' [] -> balanced s' -> elements s' = pre ctx ++ mk_info a 1 key :: post ctx ->
  elements_in_tree t' = u32 (elements_in_tree t + 1) -> n = length (sorted_insert compare key (contents s)) ->
  tree_ok compare t' s' /\ contents s' = sorted_insert compare key (contents s) /\
  elements_in_tree t' = Z.of_nat n.
Proof.
  intros [_ _ Hs Hsz Hbd Hcnt] <- Hb Hroom Hm' Hbal' He Hn ->. rewrite elements_plug in *. simpl in Hs, Hsz, Hcnt.
  assert (Hc : contents s' = sorted_insert compare key (contents (plug ctx E))).
  { destruct Hb as [Hpre Hpost]. unfold contents. rewrite He, elements_plug. simpl.
    rewrite (sorted_insert_app _ _ _ Hpre), (sorted_insert_greater _ _ Hpost). by rewrite fmap_app. }
  assert (Hlen : elements_in_tree t' = Z.of_nat (length (elements s'))).
  { rewrite Hn, He, Hsz. rewrite Hsz in Hroom. rewrite u32_small by lia. rewrite !length_app. simpl. lia. }
  split_and!; [|done|].
  - split; try done; [rewrite He; by apply (sorted_between key)| |].
    + rewrite Hn, u32_small; lia.
    + rewrite He. apply Forall_app in Hcnt as [??]. apply Forall_app. split; [done|]. by constructor.
  - rewrite <-Hc. unfold contents. by rewrite length_fmap.
Qed.

(** The elements around an equal key *)
Lemma place_node key ctx c l x r :
  sorted compare (elements (plug ctx (T c l x r))) -> place compare key ctx (T c l x r) ->
  (forall y, elements (plug ctx (T c l y r)) = (pre ctx ++ elements l) ++ y :: elements r ++ post ctx) /\
  Forall (fun y => compare (x_key y) key < 0) (pre ctx ++ elements l) /\
  Forall (fun y => 0 < compare (x_key y) key) (elements r ++ post ctx).
Proof.
  intros Hs [[Hpre Hpost] Heq]. split_and!; [intros; by same_elements| |].
  - apply Forall_app. split; [done|]. rewrite elements_plug in Hs. simpl in Hs.
    apply sorted_app in Hs as (_ & (Hs & _)%sorted_app & _). apply sorted_app in Hs as (_ & _ & Hs).
    apply Forall_forall. intros y Hy. apply (cmp_lt_le compare _ (x_key x)); [apply Hs; set_solver|lia].
  - apply Forall_app. split; [|done]. rewrite elements_plug in Hs. simpl in Hs.
    apply sorted_app in Hs as (_ & (Hs & _)%sorted_app & _).
    apply sorted_app in Hs as (_ & [_ Hs]%StronglySorted_inv & _).
    eapply Forall_impl; [exact Hs|]. simpl. intros y Hy. apply (cmp_antisym compare).
    apply (cmp_le_lt compare _ (x_key x)); [|done]. pose proof (cmp_flip key (x_key x)). lia.
Qed.

Lemma ok_count t s ctx c l x r key t' :
  let x' := mk_info (x_addr x) (Z.min (x_count x + 1) MAX_COUNT) (x_key x) in
  let s' := plug ctx (T c l x' r) in
  tree_ok compare t s -> plug ctx (T c l x r) = s -> place compare key ctx (T c l x r) ->
  models t' s' [] -> rest t' = rest t ->
  tree_ok compare t' s' /\ contents s' = sorted_insert compare key (contents s).
Proof.
  intros x' s' [_ Hbal Hs Hsz Hbd Hcnt] <- Hpl Hm' Hr.
  destruct (place_node _ _ _ _ _ _ Hs Hpl) as (He & H1 & H2). destruct Hpl as [_ Heq].
  unfold s', contents. rewrite He in *. rewrite He.
  assert (Hn : elements_in_tree t' = elements_in_tree t) by (unfold rest in Hr; congruence).
  rewrite length_app in Hsz. simpl in Hsz.
  apply Forall_app in Hcnt as [Hc1 [Hc2 Hc3]%Forall_cons].
  split.
  - split; rewrite ?He; [done| |by apply (sorted_replace _ _ x)| | |].
    + destruct (balanced_split _ _ Hbal) as (n & Hrb & Hctx & Hcol). eapply rb_plug; [|done|done].
      inversion Hrb; subst; by constructor.
    + rewrite Hn, length_app. simpl. lia.
    + lia.
    + apply Forall_app. split; [done|]. constructor; [simpl; unfold MAX_COUNT; lia|done].
  - rewrite (sorted_insert_app _ _ _ H1), fmap_app. f_equal. csimpl. by rewrite Heq.
Qed.

Lemma contents_plug_E ctx : contents (plug ctx E) = kc <$> pre ctx ++ post ctx.
Proof. unfold contents. by rewrite elements_plug. Qed.

Lemma has_key_node t s key ctx c l x r :
  tree_ok compare t s -> plug ctx (T c l x r) = s -> compare (x_key x) key = 0 -> has_key compare key (contents s) = true.
Proof.
  intros _ <- Heq. unfold has_key. apply existsb_exists. exists (kc x). split; [|by apply Z.eqb_eq].
  apply list_elem_of_In, list_elem_of_fmap. exists x. split; [done|]. rewrite elements_plug. simpl.
  rewrite !elem_of_app, elem_of_cons. auto.
Qed.

(** The key is in the tree. *)
Lemma insert_found t s key ctx c l x r malloc key_size :
  tree_ok compare t s -> plug ctx (T c l x r) = s -> place compare key ctx (T c l x r) ->
  wp (if bits_meet (flag t) TREE_NO_DUPS then mret NULL else count_element (x_addr x))
     (insert_spec compare t s malloc key key_size) t.
Proof.
  intros Hok Hp Hpl. unfold insert_spec. rewrite (has_key_node t s key ctx c l x r Hok Hp) by apply Hpl.
  apply wp_if; intros ->; [by apply wp_ret|].
  pose proof (ok_counts _ _ _ Hok) as Hc. rewrite <-Hp, elements_plug in Hc. simpl in Hc.
  rewrite !Forall_app, Forall_cons in Hc. destruct Hc as (_ & (_ & Hc & _) & _).
  eapply wp_mono; [apply (count_element_correct ctx c l x r t); [rewrite Hp; apply Hok|done]|].
  intros p t' (-> & Hr & Hm'). destruct (ok_count t s ctx c l x r key t' Hok Hp Hpl Hm' Hr) as [Hok' Hc'].
  eexists _, _. split_and!; [exact Hok'|done|done| |].
  - apply (node_lookup t' ctx _ _ _ _ [] Hm').
  - eexists. split; [done|]. apply Hpl.
Qed.

(** The key is not in the tree, and the tree need not be emptied. *)
Lemma insert_new t t1 s key ctx malloc al fr :
  tree_ok compare t s -> plug ctx E = s -> place compare key ctx E -> elements_in_tree t < U32_MAX ->
  (malloc <> NULL -> fresh t malloc) -> heap t1 = heap t -> root t1 = root t ->
  rest t1 = with_sizes t (elements_in_tree t) al fr ->
  wp (insert_element malloc key (slots ctx))
     (fun p t' =>
        let after := if decide (malloc = NULL) then contents s else sorted_insert compare key (contents s) in
        exists s', tree_ok compare t' s' /\ p = malloc /\ contents s' = after /\
          rest t' = with_sizes t (Z.of_nat (length after)) al fr) t1.
Proof.
  intros Hok Hp Hpl Hroom Hfresh Hh Hroot Hr.
  assert (Hm : models t1 s []) by (apply (rep_ext t); [done..|apply Hok]).
  assert (Hn : elements_in_tree t1 = elements_in_tree t) by (unfold rest, with_sizes in Hr; congruence).
  destruct (decide (malloc = NULL)) as [->|Hne].
  - apply wp_ret. exists s. split_and!; [|done|done|].
    + destruct Hok. by split; rewrite ?Hn.
    + rewrite Hr. unfold contents. rewrite length_fmap. by rewrite (ok_size _ _ _ Hok).
  - specialize (Hfresh Hne). eapply wp_mono.
    { apply (insert_element_correct key ctx malloc t1); [by rewrite Hp|rewrite Hp; apply Hok|].
      destruct Hfresh as (? & ? & ?). split_and!; [by rewrite Hh|done|done]. }
    intros p t' (-> & Hr' & s' & Hm' & Hbal' & He').
    edestruct (ok_insert t s key ctx malloc t' s') as (Hok' & Hc' & Hn'); try done; [apply Hpl| |].
    { rewrite <-Hn. unfold rest, with_sizes in Hr'. congruence. }
    exists s'. split_and!; [done..|]. rewrite Hr'. rewrite <-Hn'. unfold rest, with_sizes in *. congruence.
Qed.

Lemma insert_step fuel t s malloc key key_size :
  let size := u32 (SIZEOF_TREE_ELEMENT + key_size + size_of_element t) in
  tree_ok compare t s -> elements_in_tree t < U32_MAX -> (malloc <> NULL -> fresh t malloc) ->
  (has_key compare key (contents s) = false -> bits_meet (flag t) TREE_ONLY_DUPS = false ->
   over_limit t size = true -> forall t1, heap t1 = heap t -> root t1 = root t ->
   rest t1 = with_sizes t (elements_in_tree t) (u64 (allocated t + size)) (freed t) ->
   wp (reset_tree;; tree_insert_rec compare fuel malloc key key_size) (insert_spec compare t s malloc key key_size) t1) ->
  wp (tree_insert_rec compare (S fuel) malloc key key_size) (insert_spec compare t s malloc key key_size) t.
Proof.
  intros size Hok Hroom Hfresh Hreset. apply wp_bind, wp_get.
  eapply wp_bind, (wp_place t s); [done|]. intros ctx s' Hp Hpl. apply wp_bind, wp_get.
  destruct s' as [|c l x r].
  2:{ rewrite (proj2 (Nat.eqb_neq _ _)); [by eapply insert_found|]. apply (models_not_null t ctx c l x r []).
      rewrite Hp. apply Hok. }
  assert (Hkey : has_key compare key (contents s) = false).
  { rewrite <-Hp, contents_plug_E. apply has_key_none, Hpl. }
  change (ptr_of (K := K) E =? null_ptr)%nat with true. cbv match. apply wp_if; intros Hdups.
  { apply wp_ret. unfold insert_spec. by rewrite Hkey, Hdups. }
  do 2 apply wp_bind, wp_get. apply wp_bind, wp_set_allocated. intros t1 Hh1 Hroot1 Hr1.
  do 2 apply wp_bind, wp_get. fold size in Hr1 |- *.
  assert (Hol : negb (memory_limit t1 =? 0) && negb (elements_in_tree t1 =? 0) &&
    (memory_limit t1 <? u64 (allocated t + size)) = over_limit t size).
  { unfold over_limit. unfold rest, with_sizes in Hr1. injection Hr1 as ? -> ? -> ? ? ? ? ?. done. }
  rewrite Hol. apply wp_if; intros Hover; [by apply Hreset|].
  unfold insert_spec. fold size. rewrite Hkey, Hdups, Hover.
  by apply (insert_new t t1 s key ctx malloc).
Qed.

(** Emptying the tree leaves an empty tree in order. *)
Lemma emptied_ok t s e t' :
  emptied t false (x_key <$> elements s) e t' ->
  tree_ok compare t' E /\
  rest t' = with_sizes t 0 0 (freed t ++ (free_tree_calls t false (fst <$> contents s)).1).
Proof.
  unfold emptied. replace (fst <$> contents s) with (x_key <$> elements s)
    by (unfold contents; by rewrite <-list_fmap_compose).
  destruct (free_tree_calls t false _) as [calls err]. intros (_ & Hm & Hr). split; [|done].
  assert (elements_in_tree t' = 0) by (unfold rest in Hr; congruence).
  split; try done; [by exists 0%nat; split; [constructor|]|constructor|unfold U32_MAX; lia].
Qed.

Lemma insert_correct t s malloc key key_size :
  tree_ok compare t s -> elements_in_tree t < U32_MAX -> (malloc <> NULL -> fresh t malloc) ->
  wp (tree_insert compare malloc key key_size) (insert_spec compare t s malloc key key_size) t.
Proof.
  intros Hok Hroom Hfresh. apply insert_step; [done..|].
  intros Hkey Hdups Hover t1 Hh1 Hroot1 Hr1.
  assert (Hm1 : models t1 s []) by (apply (rep_ext t); [done..|apply Hok]).
  eapply wp_bind, wp_mono.
  { apply (free_tree_correct s); [done|]. pose proof (ok_height _ _ Hok). unfold MAX_TREE_HEIGHT. lia. }
  intros e t2 Hem. destruct (emptied_ok t1 s e t2 Hem) as [Hok2 Hr2]. clear Hem.
  assert (Hcalls : free_tree_calls t1 = free_tree_calls t).
  { unfold free_tree_calls. unfold rest, with_sizes in Hr1. injection Hr1 as ? ? ? -> ? -> -> ? ?. done. }
  rewrite Hcalls in Hr2. clear Hcalls.
  assert (Hr2' : rest t2 = with_sizes t 0 0 (freed t ++ (free_tree_calls t false (fst <$> contents s)).1)).
  { rewrite Hr2. unfold rest, with_sizes in Hr1 |- *. injection Hr1 as ? ? ? ? ? ? ? ? ?. congruence. }
  clear Hr1 Hr2 Hm1 Hh1 Hroot1 t1. unfold rest, with_sizes in Hr2'. injection Hr2' as ? ? ? ? ? ? ? ? ?.
  eapply wp_mono; [apply (insert_step 0 t2 E)|]; [done|unfold U32_MAX; lia| | |].
  - intros Hne. destruct (Hfresh Hne) as (Hnone & ? & ?). split_and!; [|done|done].
    destruct Hok2 as [[Hh2 _ _] _ _ _ _ _]. rewrite Hh2. simpl. apply lookup_insert_None. split; [done|].
    intros <-. by rewrite (rep_null _ _ _ _ (ok_models _ _ _ Hok)) in Hnone.
  - intros _ _ Hover2. unfold over_limit in Hover2. replace (elements_in_tree t2) with 0 in Hover2.
    by rewrite andb_false_r in Hover2.
  - intros p t'. unfold insert_spec. rewrite Hkey. simpl has_key. replace (flag t2) with (flag t).
    rewrite Hdups, Hover. unfold over_limit. replace (elements_in_tree t2) with 0.
    rewrite andb_false_r. simpl.
    intros (s' & ? & ? & ? & ?). exists s'. rewrite <-H, <-H1, <-H2, <-H4, <-H5, <-H7. rewrite H3 in *. done.
Qed.
End Props.
