(* ===== verification/TreeRemove.v ===== *)
(** * Red-black trees: deletion is correct *)

From Stdlib Require Import Sorting.Sorted.
From S2P Require Import Prelude Tree TreeRep TreeRb TreeInsert TreeDelete TreeOps TreeProps.

#[local] Existing Instance M_bind.
#[local] Existing Instance M_ret.

Section Remove.
Context {K : Type}.
Implicit Types (s l r : tree K) (ctx path : list (frame K)) (x y z : info K) (t : TREE K)
  (L : list (ptr * TREE_ELEMENT K)).

(** ** The element with the next key *)

(** A path that only goes to the left *)
Definition left_path path : Prop := Forall (fun f => exists c x r, f = FL c x r) path.

Lemma left_path_pre path : left_path path -> pre path = [].
Proof. induction 1 as [|f path (c & x & r & ->) _ IH]; simpl; [done|]. by rewrite IH. Qed.

Lemma leftmost_correct fuel ctx c l x r L t :
  models t (plug ctx (T c l x r)) L -> (height l < fuel)%nat -> (length ctx + height l <= 62)%nat ->
  wp (leftmost fuel (slots ctx) (x_addr x))
     (fun res t' => t' = t /\ exists path c' y r', left_path path /\
        plug path (T c' E y r') = T c l x r /\ res = (slots (path ++ ctx), x_addr y)) t.
Proof.
  revert fuel ctx c x r. induction l as [|c1 l IHl x1 r1 _]; intros fuel ctx c x r Hm Hf Hlen;
    (destruct fuel as [|fuel]; [simpl in Hf; lia|]); simpl in *.
  - wp_read @wp_get_left ctx. simpl. apply wp_ret. split; [done|]. exists [], c, x, r.
    split_and!; [constructor|done|done].
  - wp_read @wp_get_left ctx. simpl.
    rewrite (proj2 (Nat.eqb_neq _ _) (models_not_null _ (FL c x r :: ctx) _ _ _ _ _ Hm)).
    apply wp_bind, wp_push; [lia|].
    eapply wp_mono; [apply (IHl fuel (FL c x r :: ctx) c1 x1 r1 Hm); simpl; lia|].
    intros res t' (-> & path & c' & y & r' & Hlp & Hp & ->). split; [done|].
    exists (path ++ [FL c x r]), c', y, r'. split_and!.
    + apply Forall_app. split; [done|]. constructor; [eauto|constructor].
    + by rewrite plug_app, Hp.
    + by rewrite <-app_assoc.
Qed.

(** ** The stack *)

Definition frame_slot (f : frame K) : slot :=
  match f with FL _ x _ => Left (x_addr x) | FR _ _ x => Right (x_addr x) end.

Lemma slots_frames ctx : slots ctx = (frame_slot <$> ctx) ++ [Root].
Proof. induction ctx as [|f ctx IH]; [done|]. rewrite slots_cons, IH. by destruct f. Qed.

Lemma set_above_slots path c l x y ctx :
  set_above (length (slots ctx)) (Right (x_addr y)) (slots (path ++ FR c l x :: ctx)) =
  slots (path ++ FR c l y :: ctx).
Proof.
  unfold set_above. rewrite !slots_frames, !fmap_app, <-!app_assoc. csimpl.
  replace (_ - 1 - _)%nat with (length (frame_slot <$> path) + 0)%nat
    by (rewrite !length_app; simpl; rewrite !length_app; simpl; lia).
  by rewrite insert_app_r.
Qed.

(** Balance does not depend on the elements. *)
Lemma ctx_rb_info path c l x y ctx n :
  ctx_rb (path ++ FR c l x :: ctx) n -> ctx_rb (path ++ FR c l y :: ctx) n.
Proof.
  revert n. induction path as [|f path IH]; intros n; simpl; inversion 1; subst; simpl in *.
  - by apply ctx_red.
  - by apply ctx_black.
  - apply ctx_red; auto. by destruct path.
  - apply ctx_black; auto.
Qed.

Lemma top_colour_info path c l x y ctx :
  top_colour (path ++ FR c l x :: ctx) = top_colour (path ++ FR c l y :: ctx).
Proof. by destruct path. Qed.

(** A subtree in the place of its black root is short. *)
Lemma rb_short s n : rb s n -> short s n.
Proof.
  intros Hs. destruct (rb_colour _ _ Hs) as [Hc|Hc]; [right|by left]. split; [done|by apply rb_blacken_red].
Qed.

(** The first two of the other cells *)
Lemma rep_first t ctx p a e L : rep t ctx p ((a, e) :: L) -> heap t !! a = Some e.
Proof. intros Hr. apply (rep_lookup _ _ _ _ _ _ Hr). rewrite elem_of_app, elem_of_cons. auto. Qed.

Lemma rep_second t ctx p A a e L : rep t ctx p (A :: (a, e) :: L) -> heap t !! a = Some e.
Proof. intros Hr. apply (rep_lookup _ _ _ _ _ _ Hr). rewrite elem_of_app, !elem_of_cons. auto. Qed.

(** ** Unlinking *)

(** The tree without an element, before rebalancing: a place [ctx] with [s] in it, from which a node
    of colour [rc] was taken *)
Definition unlinked ctx s (rc : Z) : Prop :=
  exists n, rb s n /\ (rc = RED /\ ctx_rb ctx n /\ colour_of s = BLACK \/ rc = BLACK /\ ctx_rb ctx (S n)).

Lemma fixup_unlinked ctx s rc L t :
  models t (plug ctx s) L -> unlinked ctx s rc -> (length ctx <= 62)%nat ->
  wp (if rc =? BLACK then rb_delete_fixup (slots ctx) else mret tt)
     (fun _ t' => exists s', models t' s' L /\ rest t' = rest t /\ balanced s' /\
        elements s' = elements (plug ctx s)) t.
Proof.
  intros Hm (n & Hs & [(-> & Hctx & Hb)|(-> & Hctx)]) Hlen; simpl.
  - apply wp_ret. exists (plug ctx s). split_and!; try done. apply (rb_plug _ _ _ Hs Hctx). by rewrite Hb.
  - by apply (rb_delete_fixup_correct ctx s n); [|apply rb_short| |].
Qed.

(** A node with at most one child *)
Lemma unlinked_left ctx c x r : balanced (plug ctx (T c E x r)) -> unlinked ctx r c.
Proof.
  intros Hb. destruct (balanced_split _ _ Hb) as (n & Hs & Hctx & Hcol).
  inversion Hs; subst; [exists n|exists 0%nat; match goal with H : rb E ?k |- _ => inversion H; subst end];
    (split; [done|]); [left|right]; done.
Qed.

Lemma unlinked_right ctx c x l : balanced (plug ctx (T c l x E)) -> unlinked ctx l c.
Proof.
  intros Hb. destruct (balanced_split _ _ Hb) as (n & Hs & Hctx & Hcol).
  inversion Hs; subst; [exists n|exists 0%nat; match goal with H : rb E ?k |- _ => inversion H; subst end];
    (split; [done|]); [left|right]; done.
Qed.

(** What [unlink_element] leaves: the tree without the element, and its cell *)
Definition unlink_post ctx l x r t (res : list slot * Z) t' : Prop :=
  exists ctx' s' e, res.1 = slots ctx' /\ unlinked ctx' s' res.2 /\ (length ctx' <= 62)%nat /\
    models t' (plug ctx' s') [(x_addr x, e)] /\ el_key e = Some (x_key x) /\ rest t' = rest t /\
    elements (plug ctx' s') = pre ctx ++ elements l ++ elements r ++ post ctx.

(** The successor takes the place of the element. *)
Lemma unlink_successor ctx c l x path c' y r' t :
  models t (plug ctx (T c l x (plug path (T c' E y r')))) [] -> left_path path ->
  balanced (plug ctx (T c l x (plug path (T c' E y r')))) ->
  (length (path ++ FR c l x :: ctx) <= 62)%nat ->
  wp (nr ← get_right (x_addr y);
      write_slot (slot_of (path ++ FR c l x :: ctx)) nr;;
      rc ← get_colour (x_addr y);
      write_slot (slot_of ctx) (x_addr y);;
      l' ← get_left (x_addr x);
      set_left (x_addr y) l';;
      r' ← get_right (x_addr x);
      set_right (x_addr y) r';;
      cx ← get_colour (x_addr x);
      set_colour (x_addr y) cx;;
      mret (set_above (length (slots ctx)) (Right (x_addr y)) (slots (path ++ FR c l x :: ctx)), rc))
     (unlink_post ctx l x (plug path (T c' E y r')) t) t.
Proof.
  intros Hm Hlp Hbal Hlen.
  set (ctx2 := path ++ FR c l x :: ctx).
  assert (Hplug : forall s, plug ctx (T c l x (plug path s)) = plug ctx2 s)
    by (intros s; unfold ctx2; by rewrite plug_app).
  rewrite Hplug in Hm, Hbal.
  wp_read @wp_get_right ctx2.
  pose proof (models_focus _ _ _ _ Hm) as Hm1. simpl in Hm1.
  eapply wp_bind, (wp_write_slot _ _ _ (ptr_of r')); [exact Hm1|]. clear Hm Hm1. intros t1 Hm1 Hr1.
  set (Y p q d := (x_addr y, mk_element p q (x_count y) d (Some (x_key y)))).
  set (R := plug path r').
  assert (Hm2 : models t1 (plug ctx (T c l x R)) [Y null_ptr (ptr_of r') c']).
  { unfold R. rewrite Hplug. apply focus_models. eapply rep_perm, Hm1. unfold Y, cell. solve_Permutation. }
  clear Hm1. pose proof (models_focus _ _ _ _ Hm2) as Hm3.
  set (X := cell c (ptr_of l) x (ptr_of R)).
  apply (rep_perm _ _ _ _ (Y null_ptr (ptr_of r') c' :: X :: cells l ++ cells R)) in Hm3;
    [|simpl; unfold X, cell; solve_Permutation]. clear Hm2.
  apply wp_bind, wp_bind, (wp_load _ _ _ _ (rep_first _ _ _ _ _ _ Hm3)), wp_ret.
  eapply wp_bind, (wp_write_slot _ _ _ (x_addr y)); [exact Hm3|]. clear Hm3. intros t2 Hm3 Hr2.
  apply wp_bind, wp_bind, (wp_load _ _ _ _ (rep_second _ _ _ _ _ _ _ Hm3)), wp_ret.
  eapply wp_bind, wp_update_rep; [exact Hm3|]. clear Hm3. intros t3 Hm3 Hr3.
  apply wp_bind, wp_bind, (wp_load _ _ _ _ (rep_second _ _ _ _ _ _ _ Hm3)), wp_ret.
  eapply wp_bind, wp_update_rep; [exact Hm3|]. clear Hm3. intros t4 Hm3 Hr4.
  apply wp_bind, wp_bind, (wp_load _ _ _ _ (rep_second _ _ _ _ _ _ _ Hm3)), wp_ret.
  eapply wp_bind, wp_update_rep; [exact Hm3|]. clear Hm3. intros t5 Hm3 Hr5. simpl in Hm3.
  apply wp_ret. exists (path ++ FR c l y :: ctx), r', (snd X). split_and!; simpl.
  - apply set_above_slots.
  - destruct (balanced_split _ _ Hbal) as (n & Hs & Hctx & Hcol). apply (ctx_rb_info _ _ _ x y) in Hctx.
    inversion Hs; subst; [exists n|exists 0%nat; match goal with H : rb E ?k |- _ => inversion H; subst end];
      (split; [done|]); [left|right]; done.
  - rewrite length_app in *. done.
  - rewrite plug_app. simpl. change (models t5 (plug ctx (T c l y R)) [X]).
    apply focus_models. eapply rep_perm, Hm3. simpl. unfold cell. solve_Permutation.
  - done.
  - congruence.
  - rewrite plug_app, elements_plug. simpl. rewrite (elements_plug path r'), (elements_plug path (T c' E y r')).
    rewrite (left_path_pre path) by done. simpl. by rewrite <-!app_assoc.
Qed.

(** The child takes the place of an element with one child at most. *)
Lemma unlink_child ctx c l x r s t :
  models t (plug ctx (T c l x r)) [] -> l = E /\ s = r \/ r = E /\ s = l ->
  unlinked ctx s c -> (length ctx <= 62)%nat ->
  wp (write_slot (slot_of ctx) (ptr_of s);;
      c ← get_colour (x_addr x);
      mret (slots ctx, c)) (unlink_post ctx l x r t) t.
Proof.
  intros Hm Hs Hu Hlen. pose proof (models_focus _ _ _ _ Hm) as Hm1.
  eapply wp_bind, (wp_write_slot _ _ _ (ptr_of s)); [exact Hm1|]. clear Hm Hm1. intros t1 Hm1 Hr1.
  apply wp_bind, wp_bind, (wp_load _ _ _ _ (rep_first _ _ _ _ _ _ Hm1)), wp_ret, wp_ret.
  exists ctx, s, (mk_element (ptr_of l) (ptr_of r) (x_count x) c (Some (x_key x))). split_and!; try done.
  - apply focus_models. eapply rep_perm, Hm1. destruct Hs as [[-> ->]|[-> ->]]; simpl; unfold cell; solve_Permutation.
  - rewrite elements_plug. by destruct Hs as [[-> ->]|[-> ->]].
Qed.

Lemma unlink_correct ctx c l x r t :
  models t (plug ctx (T c l x r)) [] -> balanced (plug ctx (T c l x r)) ->
  (height (plug ctx (T c l x r)) <= 62)%nat ->
  wp (unlink_element (slot_of ctx) (slots ctx) (x_addr x)) (unlink_post ctx l x r t) t.
Proof.
  intros Hm Hbal Hh. pose proof (height_plug ctx (T c l x r)) as Hlen. simpl in Hlen. unfold unlink_element.
  wp_read @wp_get_left ctx. wp_read @wp_get_right ctx.
  destruct l as [|lc ll lx lr].
  { apply (unlink_child ctx c E x r r); [done|by left|by eapply unlinked_left|lia]. }
  change (ptr_of (T lc ll lx lr)) with (x_addr lx).
  rewrite (proj2 (Nat.eqb_neq _ _) (models_not_null _ (FL c x r :: ctx) _ _ _ _ _ Hm)).
  set (l := T lc ll lx lr) in *. destruct r as [|rc rl rx rr].
  { apply (unlink_child ctx c l x E l); [done|by right|by eapply unlinked_right|lia]. }
  change (ptr_of (T rc rl rx rr)) with (x_addr rx).
  rewrite (proj2 (Nat.eqb_neq _ _) (models_not_null _ (FR c l x :: ctx) _ _ _ _ _ Hm)).
  apply wp_bind, wp_push; [lia|]. change (Right (x_addr x) :: slots ctx) with (slots (FR c l x :: ctx)).
  simpl in Hlen. eapply wp_bind, wp_mono.
  { apply (leftmost_correct _ (FR c l x :: ctx) rc rl rx rr [] t Hm); [unfold MAX_TREE_HEIGHT; lia|simpl; lia]. }
  intros res t' (-> & path & c' & y & r' & Hlp & Hp & ->). rewrite slots_head at 1. rewrite <-Hp in *.
  apply unlink_successor; try done.
  pose proof (height_plug (path ++ FR c l x :: ctx) (T c' E y r')) as Hd. rewrite plug_app in Hd. simpl in Hd. lia.
Qed.

Context (compare : K -> K -> Z) `{!TotalCompare compare}.

(** The list without the element *)
Lemma sorted_delete_node s key ctx c l x r :
  sorted compare (elements s) -> plug ctx (T c l x r) = s -> place compare key ctx (T c l x r) ->
  sorted_delete compare key (contents s) =
  (fun x => (x_key x, x_count x)) <$> pre ctx ++ elements l ++ elements r ++ post ctx.
Proof.
  intros Hs <- Hpl. destruct (place_node _ _ _ _ _ _ _ Hs Hpl) as (He & H1 & H2).
  unfold sorted_delete, contents. rewrite He, (app_assoc (pre ctx)), !fmap_app, List.filter_app. csimpl.
  destruct Hpl as [_ Heq]. rewrite Heq. simpl. rewrite <-!fmap_app, (fmap_app _ (pre ctx ++ elements l)).
  f_equal; apply filter_id; apply Forall_fmap; eapply Forall_impl; [exact H1| |exact H2|]; simpl; intros z Hz;
    apply negb_true_iff, Z.eqb_neq; lia.
Qed.

(** The call of [free] in [tree_delete] *)
Lemma free_removed t s a e k :
  models t s [(a, e)] -> el_key e = Some k ->
  wp (if bool_decide (is_Some (free t)) then k ← ELEMENT_KEY a; call_free k;; mret tt else mret tt)
     (fun _ t' => models t' s [(a, e)] /\
        rest t' = with_sizes t (elements_in_tree t) (allocated t)
                    (freed t ++ (if free t is Some _ then [free_free k] else []))) t.
Proof.
  intros Hm Hk. destruct (free t) as [f|] eqn:Hfree; simpl.
  - apply wp_bind, wp_bind, (wp_load a e).
    { apply (rep_lookup _ _ _ _ _ _ Hm). rewrite !elem_of_app, elem_of_cons. auto. }
    rewrite Hk. apply wp_ret. apply wp_bind, wp_bind, wp_get. rewrite Hfree.
    split; [by apply (rep_ext t)|done].
  - apply wp_ret. split; [done|]. by rewrite app_nil_r.
Qed.

(** The cell of the element is freed. *)
Lemma wp_my_free t s a e (Q : unit -> TREE K -> Prop) :
  models t s [(a, e)] -> (forall t', models t' s [] -> rest t' = rest t -> Q tt t') -> wp (my_free a) Q t.
Proof.
  intros Hm HQ. assert (Hm1 : rep t [] (ptr_of s) ((a, e) :: cells s)).
  { eapply rep_perm, Hm. solve_Permutation. }
  apply wp_bind, (wp_load _ _ _ _ (rep_first _ _ _ _ _ _ Hm1)), wp_bind, wp_get.
  apply wp_set_heap. intros t' Hh Hroot Hr. apply HQ; [|done]. unfold models. rewrite app_nil_r.
  by apply (rep_delete t t' [] _ _ a e).
Qed.

Lemma ok_delete t s ctx c l x r t' s' :
  tree_ok compare t s -> plug ctx (T c l x r) = s -> models t' s' [] -> balanced s' ->
  elements s' = pre ctx ++ elements l ++ elements r ++ post ctx ->
  elements_in_tree t' = u32 (elements_in_tree t - 1) ->
  tree_ok compare t' s' /\ elements_in_tree t' = elements_in_tree t - 1.
Proof.
  intros [_ _ Hs Hsz Hbd Hcnt] <- Hm' Hbal' He Hn. rewrite elements_plug in *. simpl in *.
  rewrite !length_app in Hsz. simpl in Hsz. rewrite u32_small in Hn by lia. split; [|done].
  assert (Hsub : elements s' `sublist_of` pre ctx ++ (elements l ++ x :: elements r) ++ post ctx).
  { rewrite He, <-app_assoc. apply sublist_app; [done|]. apply sublist_app; [done|]. by apply sublist_cons. }
  split; try done.
  - by apply (sorted_sublist _ _ _ Hsub).
  - rewrite Hn, He, !length_app. lia.
  - lia.
  - by apply (Forall_sublist _ _ _ Hsub).
Qed.

(** The fields after the last assignments *)
Lemma delete_fields t t2 t3 t4 t5 t6 key_size k :
  let fr := freed t ++ (if free t is Some _ then [free_free k] else []) in
  rest t2 = rest t ->
  rest t3 = with_sizes t2 (elements_in_tree t2) (allocated t2)
              (freed t2 ++ (if free t2 is Some _ then [free_free k] else [])) ->
  rest t4 = with_sizes t3 (elements_in_tree t3)
              (u64 (allocated t3 - (SIZEOF_TREE_ELEMENT + size_of_element t3 + key_size))) (freed t3) ->
  rest t5 = rest t4 ->
  rest t6 = with_sizes t5 (u32 (elements_in_tree t5 - 1)) (allocated t5) (freed t5) ->
  rest t6 = with_sizes t (u32 (elements_in_tree t - 1))
              (u64 (allocated t - (SIZEOF_TREE_ELEMENT + size_of_element t + key_size))) fr.
Proof.
  intros fr Hr2 Hr3 Hr4 Hr5 Hr6. unfold rest, with_sizes in *. injection Hr2 as Ea Eb Ec Ed Ee Ef Eg Eh Ei.
  rewrite Ea, Eb, Ec, Ed, Ee, Ef, Eg, Eh, Ei in Hr3.
  injection Hr3 as Ea3 Eb3 Ec3 Ed3 Ee3 Ef3 Eg3 Eh3 Ei3.
  rewrite Ea3, Eb3, Ec3, Ed3, Ee3, Ef3, Eg3, Eh3, Ei3 in Hr4. rewrite Hr4 in Hr5.
  injection Hr5 as Ea5 Eb5 Ec5 Ed5 Ee5 Ef5 Eg5 Eh5 Ei5.
  by rewrite Ea5, Eb5, Ec5, Ed5, Ee5, Ef5, Eg5, Eh5, Ei5 in Hr6.
Qed.

Lemma delete_correct t s key key_size :
  tree_ok compare t s -> wp (tree_delete compare key key_size) (delete_spec compare t s key key_size) t.
Proof.
  intros Hok. apply wp_bind, wp_get. unfold delete_spec.
  destruct (with_delete t) eqn:Hwd; [|by apply wp_ret]. apply wp_bind, wp_get.
  eapply wp_bind, (wp_place compare t s); [done|]. intros ctx s' Hp Hpl.
  destruct s' as [|c l x r].
  { replace (has_key compare key (contents s)) with false; [by apply wp_ret|].
    symmetry. rewrite <-Hp, contents_plug_E. apply has_key_none, Hpl. }
  simpl andb. rewrite (has_key_node compare t s key ctx c l x r Hok Hp) by apply Hpl.
  assert (Hm : models t (plug ctx (T c l x r)) []) by (rewrite Hp; apply Hok).
  change (ptr_of (T c l x r)) with (x_addr x).
  rewrite (proj2 (Nat.eqb_neq _ _) (models_not_null _ _ _ _ _ _ _ Hm)). rewrite slots_head at 1.
  eapply wp_bind, wp_mono.
  { apply (unlink_correct ctx c l x r t Hm); rewrite Hp; [apply Hok|by eapply ok_height]. }
  intros [parent rc] t1 (ctx' & s' & e & Hpar & Hu & Hlen & Hm1 & Hk & Hr1 & He1). simpl in Hpar, Hu. subst parent.
  eapply wp_bind, wp_mono; [by apply (fixup_unlinked ctx' s' rc [(x_addr x, e)] t1)|].
  intros ? t2 (s2 & Hm2 & Hr2 & Hbal2 & He2). apply wp_bind, wp_get.
  eapply wp_bind, wp_mono; [by apply (free_removed t2 s2 (x_addr x) e (x_key x))|].
  intros ? t3 [Hm3 Hr3]. do 2 apply wp_bind, wp_get.
  apply wp_bind, wp_set_allocated. intros t4 Hh4 Hroot4 Hr4.
  eapply wp_bind, (wp_my_free t4 s2); [by apply (rep_ext t3)|]. intros t5 Hm5 Hr5.
  apply wp_bind, wp_get, wp_bind, wp_set_elements. intros t6 Hh6 Hroot6 Hr6. apply wp_ret.
  assert (Hr12 : rest t2 = rest t) by congruence.
  pose proof (delete_fields t t2 t3 t4 t5 t6 key_size (x_key x) Hr12 Hr3 Hr4 Hr5 Hr6) as Hrest.
  destruct (ok_delete t s ctx c l x r t6 s2 Hok Hp) as [Hok6 Hn6]; [by apply (rep_ext t5)|done|congruence| |].
  { unfold rest, with_sizes in Hrest. congruence. }
  exists s2, (x_key x). split_and!; [done|done| | |apply Hpl|].
  - unfold contents at 1. by rewrite He2, He1, (sorted_delete_node s key ctx c l x r (ok_sorted _ _ _ Hok) Hp Hpl).
  - unfold contents. rewrite <-list_fmap_compose, <-Hp, elements_plug. simpl. rewrite !fmap_app. csimpl.
    rewrite !elem_of_app, elem_of_cons. auto.
  - rewrite Hrest. unfold with_sizes, rest in *. congruence.
Qed.
End Remove.

(** ** A concrete tree *)

Lemma init_tree_ok {K} (compare : K -> K -> Z) limit size fr wd :
  tree_ok compare (init_tree limit size fr wd) E.
Proof.
  split; [by apply empty_models|by exists 0%nat; split; [constructor|]|constructor|done|done|constructor].
Qed.

(** Integer keys; two insertions make a tree of two elements. *)
Definition tree_example : TREE Z :=
  match tree_insert Z.sub 10%nat 5 0 (init_tree 0 8 (Some (fun _ => 0)) true) with
  | Some (_, t) => match tree_insert Z.sub 11%nat 7 0 t with Some (_, t') => t' | None => t end
  | None => init_tree 0 8 None true
  end.

Definition tree_example_shape : tree Z := T BLACK E (mk_info 10%nat 1 5) (T RED E (mk_info 11%nat 1 7) E).

#[export] Instance sub_total : TotalCompare Z.sub.
Proof. split; lia. Qed.

Lemma tree_example_ok : tree_ok Z.sub tree_example tree_example_shape.
Proof.
  split; [|by exists 1%nat; repeat constructor|by repeat constructor|vm_compute; done|vm_compute; done|by repeat constructor].
  split; [vm_compute; done| |vm_compute; done].
  apply (bool_decide_unpack _). vm_compute. done.
Qed.

(** C31: [tree_insert] on a tree in order never fails and does to the sorted list of keys with counts
    what [insert_spec] says.  A key that is there is counted (up to 2^31 - 1), or refused with
    TREE_NO_DUPS; a new key is refused with TREE_ONLY_DUPS, is inserted in its place with count 1, or,
    when the memory limit is passed, is inserted after the tree was emptied with the calls of [free] for
    its elements; when the allocation fails, NULL is returned and the tree keeps its elements.  The
    tree stays a red-black tree in order, every pointer followed is valid, and the descent fits in the
    array [parents] of 64 places, for trees of less than 2^32 - 1 elements. *)
Theorem tree_insert_correct {K} (compare : K -> K -> Z) `{!TotalCompare compare} t s malloc key key_size :
  tree_ok compare t s -> elements_in_tree t < U32_MAX -> (malloc <> NULL -> fresh t malloc) ->
  exists p t', tree_insert compare malloc key key_size t = Some (p, t') /\
    insert_spec compare t s malloc key key_size p t'.
Proof.
  intros Hok Hroom Hfresh. pose proof (insert_correct compare t s malloc key key_size Hok Hroom Hfresh) as H.
  unfold wp in H. destruct (tree_insert _ _ _ _ t) as [[p t']|]; [|done]. by exists p, t'.
Qed.

Lemma tree_insert_correct_witness :
  exists p t', tree_insert Z.sub 12%nat 6 0 tree_example = Some (p, t') /\
    insert_spec Z.sub tree_example tree_example_shape 12%nat 6 0 p t'.
Proof.
  apply (tree_insert_correct Z.sub tree_example tree_example_shape 12%nat 6 0); [apply tree_example_ok|vm_compute; done|].
  intros _. split_and!; vm_compute; done.
Defined.

(** C32: [tree_delete] on a tree in order never fails.  It returns 1 and changes nothing if the tree was
    made without MY_TREE_WITH_DELETE or the key is not in it.  Otherwise it returns 0, the sorted list
    has lost exactly the element with the key, [free] was called for that element, its memory is no
    longer allocated and no other is lost, the sizes are brought up to date, and the tree is again a
    red-black tree in order.  The stack of [rb_delete_fixup] fits in the array [parents]. *)
Theorem tree_delete_correct {K} (compare : K -> K -> Z) `{!TotalCompare compare} t s key key_size :
  tree_ok compare t s ->
  exists res t', tree_delete compare key key_size t = Some (res, t') /\
    delete_spec compare t s key key_size res t'.
Proof.
  intros Hok. pose proof (delete_correct compare t s key key_size Hok) as H.
  unfold wp in H. destruct (tree_delete _ _ _ t) as [[p t']|]; [|done]. by exists p, t'.
Qed.

Lemma tree_delete_correct_witness :
  exists res t', tree_delete Z.sub 5 0 tree_example = Some (res, t') /\
    delete_spec Z.sub tree_example tree_example_shape 5 0 res t'.
Proof. apply (tree_delete_correct Z.sub tree_example tree_example_shape 5 0). apply tree_example_ok. Defined.
