(* ===== verification/TreeSearch.v ===== *)
(** * Red-black trees: searching and walking

    The searches return the first or last element on a side of the key in the sorted list, with a
    position from which [tree_search_next] goes through the list in either direction;
    [tree_walk] goes through all of it. *)

From Stdlib Require Import Sorting.Sorted.
From S2P Require Import Prelude Tree TreeRep TreeRb TreeInsert TreeOps TreeProps TreeRemove.

#[local] Existing Instance M_bind.
#[local] Existing Instance M_ret.

Section Search.
Context {K : Type}.
Implicit Types (s : tree K) (ctx path : list (frame K)) (x y z : info K) (t : TREE K)
  (L : list (ptr * TREE_ELEMENT K)).

(** ** Directions *)

Definition opp (d : side) : side := match d with left_side => right_side | right_side => left_side end.

(** A node with the child [a] on side [d] and [b] on the other *)
Definition node (d : side) (c : Z) (a : tree K) (x : info K) (b : tree K) : tree K :=
  match d with left_side => T c a x b | right_side => T c b x a end.

(** The frame of a step to the side [d], with [b] on the other *)
Definition step (d : side) (c : Z) (x : info K) (b : tree K) : frame K :=
  match d with left_side => FL c x b | right_side => FR c b x end.

(** The elements in the order that starts on side [d] *)
Definition order (d : side) (l : list (info K)) : list (info K) :=
  match d with left_side => l | right_side => rev l end.

Definition elems (d : side) (s : tree K) : list (info K) := order d (elements s).

(** The elements after the hole, in the order that starts on side [d] *)
Definition rest_of (d : side) ctx : list (info K) :=
  match d with left_side => post ctx | right_side => rev (pre ctx) end.

Definition front_of (d : side) ctx : list (info K) :=
  match d with left_side => pre ctx | right_side => rev (post ctx) end.

Lemma elems_node d c a x b : elems d (node d c a x b) = elems d a ++ x :: elems d b.
Proof. destruct d; unfold elems; simpl; [done|]. by rewrite rev_app_distr; simpl; rewrite <-app_assoc. Qed.

Lemma elems_plug d ctx s : elems d (plug ctx s) = front_of d ctx ++ elems d s ++ rest_of d ctx.
Proof.
  unfold elems, order. rewrite elements_plug. destruct d; simpl; [done|].
  by rewrite !rev_app_distr, <-app_assoc.
Qed.

Lemma rest_of_step d c x b ctx : rest_of d (step d c x b :: ctx) = x :: elems d b ++ rest_of d ctx.
Proof. destruct d; unfold elems; simpl; [done|]. by rewrite !rev_app_distr. Qed.

Lemma rest_of_opp d c x b ctx : rest_of d (step (opp d) c x b :: ctx) = rest_of d ctx.
Proof. by destruct d. Qed.

Lemma fill_step d c x b a : fill (step d c x b) a = node d c a x b.
Proof. by destruct d. Qed.

Lemma fill_step_opp d c x b a : fill (step (opp d) c x b) a = node d c b x a.
Proof. by destruct d. Qed.

Lemma node_cases d s : s = E \/ exists c a x b, s = node d c a x b.
Proof. destruct s as [|c l x r]; [by left|right]. destruct d; [by exists c, l, x, r|by exists c, r, x, l]. Qed.

Lemma frame_cases d f : exists d' c x b, f = step d' c x b /\ (d' = d \/ d' = opp d).
Proof.
  destruct f as [c x r|c l x]; [exists left_side, c, x, r|exists right_side, c, x, l]; split; try done;
    destruct d; auto.
Qed.

Lemma ptr_of_node d c a x b : ptr_of (node d c a x b) = x_addr x.
Proof. by destruct d. Qed.

Lemma wp_child d t ctx c a x b L (Q : ptr -> TREE K -> Prop) :
  models t (plug ctx (node d c a x b)) L -> Q (ptr_of a) t -> wp (ELEMENT_CHILD (x_addr x) d) Q t.
Proof. intros Hm HQ. destruct d; simpl in *; [by eapply wp_get_left|by eapply wp_get_right]. Qed.

Lemma wp_child_opp d t ctx c a x b L (Q : ptr -> TREE K -> Prop) :
  models t (plug ctx (node d c a x b)) L -> Q (ptr_of b) t -> wp (ELEMENT_CHILD (x_addr x) (opp d)) Q t.
Proof. intros Hm HQ. destruct d; simpl in *; [by eapply wp_get_right|by eapply wp_get_left]. Qed.

Lemma node_not_null d t ctx c a x b L : models t (plug ctx (node d c a x b)) L -> x_addr x <> null_ptr.
Proof. destruct d; apply models_not_null. Qed.

Lemma wp_node_key d t ctx c a x b L (Q : K -> TREE K -> Prop) :
  models t (plug ctx (node d c a x b)) L -> Q (x_key x) t -> wp (ELEMENT_KEY (x_addr x)) Q t.
Proof. intros Hm HQ. destruct d; by eapply wp_element_key. Qed.

Lemma node_siblings d t ctx c a x b L :
  models t (plug ctx (node d c a x b)) L -> a <> E -> ptr_of a <> ptr_of b.
Proof.
  intros Hm Ha Heq. destruct d; [destruct (models_siblings _ _ _ _ _ _ _ Hm Heq)|
    destruct (models_siblings _ _ _ _ _ _ _ Hm (eq_sym Heq))]; done.
Qed.

(** ** Positions *)

(** The position of the hole *)
Definition above ctx : position := ((fun f => x_addr (f_info f)) <$> ctx) ++ [null_ptr].

Lemma above_step d c x b ctx : above (step d c x b :: ctx) = x_addr x :: above ctx.
Proof. by destruct d. Qed.

Definition position_of s (p : position) x : Prop :=
  exists ctx c l r, s = plug ctx (T c l x r) /\ p = x_addr x :: above ctx.

(** The position before or after all elements *)
Definition outside : position := [null_ptr].

(** What the programs that move a position return: the key of the head of the list, and its position *)
Definition at_head s (l : list (info K)) (res : option K * position) : Prop :=
  match l with
  | [] => res = (None, outside)
  | x :: _ => res.1 = Some (x_key x) /\ position_of s res.2 x
  end.

Lemma position_of_node d ctx c a x b : position_of (plug ctx (node d c a x b)) (x_addr x :: above ctx) x.
Proof. destruct d; [by exists ctx, c, a, b|by exists ctx, c, b, a]. Qed.

(** ** Moving a position *)

Lemma key_unless_null_at d t ctx c a x b L (Q : option K * position -> TREE K -> Prop) :
  models t (plug ctx (node d c a x b)) L ->
  (forall res, res.1 = Some (x_key x) -> position_of (plug ctx (node d c a x b)) res.2 x -> Q res t) ->
  wp (k ← key_unless_null (x_addr x :: above ctx); mret (k, x_addr x :: above ctx)) Q t.
Proof.
  intros Hm HQ. apply wp_bind. simpl.
  rewrite (proj2 (Nat.eqb_neq _ _) (node_not_null _ _ _ _ _ _ _ _ Hm)).
  eapply wp_bind, (wp_node_key d); [exact Hm|]. apply wp_ret, wp_ret. apply HQ; [done|]. apply position_of_node.
Qed.

(** The way down to the first element of a subtree *)
Lemma next_down_correct d fuel ctx c a x b L t :
  models t (plug ctx (node d c a x b)) L -> (height a < fuel)%nat ->
  wp (next_down fuel d (x_addr x) (x_addr x :: above ctx))
     (fun p t' => t' = t /\ exists ctx' c' y b',
        plug ctx' (node d c' E y b') = plug ctx (node d c a x b) /\ p = x_addr y :: above ctx' /\
        exists l, elems d (node d c a x b) = y :: l) t.
Proof.
  revert ctx c a x b. induction fuel as [|fuel IH]; intros ctx c a x b Hm Hf; [lia|]. simpl.
  eapply wp_bind, wp_child; [exact Hm|]. destruct (node_cases d a) as [->|(c1 & a1 & x1 & b1 & ->)].
  - simpl. apply wp_ret. split; [done|]. exists ctx, c, x, b. split_and!; [done|done|].
    rewrite elems_node. destruct d; simpl; eauto.
  - rewrite ptr_of_node.
    assert (Hm' : models t (plug (step d c x b :: ctx) (node d c1 a1 x1 b1)) L) by (by simpl; rewrite fill_step).
    rewrite (proj2 (Nat.eqb_neq _ _) (node_not_null _ _ _ _ _ _ _ _ Hm')).
    rewrite <-(above_step d c x b ctx).
    eapply wp_mono; [apply (IH _ c1 a1 x1 b1 Hm'); destruct d; simpl in *; lia|].
    intros p t' (-> & ctx' & c' & y & b' & Hp & -> & l & Hl). split; [done|]. exists ctx', c', y, b'.
    split_and!; [by rewrite Hp; simpl; rewrite fill_step|done|].
    rewrite elems_node, Hl. simpl. eauto.
Qed.

(** The way up to the next element *)
Lemma next_up_correct d ctx s L t :
  models t (plug ctx s) L -> s <> E ->
  wp (next_up (opp d) (ptr_of s) (above ctx))
     (fun p t' => t' = t /\
        ((rest_of d ctx = [] /\ p = outside) \/
         exists ctx' c y a b l, plug ctx' (node d c a y b) = plug ctx s /\ p = x_addr y :: above ctx' /\
           rest_of d ctx = y :: l)) t.
Proof.
  revert s. induction ctx as [|f ctx IH]; intros s Hm Hs.
  { simpl. apply wp_ret. split; [done|left]. by destruct d. }
  destruct (frame_cases d f) as (d' & c & x & b & -> & Hd').
  rewrite above_step. simpl next_up.
  destruct Hd' as [-> | ->]; simpl plug in *.
  - rewrite fill_step in *. rewrite (proj2 (Nat.eqb_neq _ _) (node_not_null _ _ _ _ _ _ _ _ Hm)).
    eapply wp_bind, wp_child_opp; [exact Hm|].
    rewrite (proj2 (Nat.eqb_neq _ _) (node_siblings d t ctx c s x b L Hm Hs)).
    apply wp_ret. split; [done|right]. exists ctx, c, x, s, b. eexists. split_and!; [done|done|apply rest_of_step].
  - rewrite fill_step_opp in *. rewrite (proj2 (Nat.eqb_neq _ _) (node_not_null _ _ _ _ _ _ _ _ Hm)).
    eapply wp_bind, wp_child_opp; [exact Hm|]. rewrite Nat.eqb_refl, rest_of_opp.
    rewrite <-(ptr_of_node d c b x s). apply IH; [done|]. by destruct d.
Qed.

Lemma search_edge_loop_correct d fuel ctx c a x b L t :
  models t (plug ctx (node d c a x b)) L -> (S (height a) < fuel)%nat ->
  wp (search_edge_loop fuel d (x_addr x) (above ctx))
     (fun p t' => t' = t /\ exists ctx' c' y b',
        plug ctx' (node d c' E y b') = plug ctx (node d c a x b) /\ p = x_addr y :: above ctx' /\
        exists l, elems d (node d c a x b) = y :: l) t.
Proof.
  revert ctx c a x b. induction fuel as [|fuel IH]; intros ctx c a x b Hm Hf; [lia|]. simpl.
  rewrite (proj2 (Nat.eqb_neq _ _) (node_not_null _ _ _ _ _ _ _ _ Hm)).
  eapply wp_bind, wp_child; [exact Hm|]. destruct (node_cases d a) as [->|(c1 & a1 & x1 & b1 & ->)].
  - destruct fuel as [|fuel]; [simpl in Hf; lia|]. apply wp_ret. split; [done|]. exists ctx, c, x, b.
    split_and!; [done|done|]. rewrite elems_node. destruct d; simpl; eauto.
  - rewrite ptr_of_node.
    assert (Hm' : models t (plug (step d c x b :: ctx) (node d c1 a1 x1 b1)) L) by (by simpl; rewrite fill_step).
    rewrite <-(above_step d c x b ctx).
    eapply wp_mono; [apply (IH _ c1 a1 x1 b1 Hm'); destruct d; simpl in *; lia|].
    intros p t' (-> & ctx' & c' & y & b' & Hp & -> & l & Hl). split; [done|]. exists ctx', c', y, b'.
    split_and!; [by rewrite Hp; simpl; rewrite fill_step|done|].
    rewrite elems_node, Hl. simpl. eauto.
Qed.

Lemma search_edge_correct d s t :
  models t s [] -> (height s <= 62)%nat ->
  wp (tree_search_edge d) (fun res t' => t' = t /\ at_head s (elems d s) res) t.
Proof.
  intros Hm Hh. apply wp_bind, wp_get. rewrite (models_root _ _ _ Hm).
  destruct (node_cases d s) as [->|(c & a & x & b & ->)].
  - apply wp_bind, wp_ret. simpl. split; [done|]. by destruct d.
  - rewrite ptr_of_node. eapply wp_bind, wp_mono.
    { apply (search_edge_loop_correct d _ [] c a x b [] t Hm). unfold MAX_TREE_HEIGHT. destruct d; simpl in *; lia. }
    intros p t' (-> & ctx' & c' & y & b' & Hp & -> & l & Hl). simpl in Hp. rewrite <-Hp in Hm.
    eapply key_unless_null_at; [exact Hm|]. intros res H1 H2. split; [done|]. rewrite Hl. rewrite Hp in H2. done.
Qed.

(** The next element in the order that starts on side [d] *)
Lemma search_next_correct d ctx c a x b t :
  models t (plug ctx (node d c a x b)) [] -> (height (plug ctx (node d c a x b)) <= 62)%nat ->
  wp (tree_search_next (x_addr x :: above ctx) d (opp d))
     (fun res t' => t' = t /\ at_head (plug ctx (node d c a x b)) (elems d b ++ rest_of d ctx) res) t.
Proof.
  intros Hm Hh. unfold tree_search_next. rewrite (proj2 (Nat.eqb_neq _ _) (node_not_null _ _ _ _ _ _ _ _ Hm)).
  eapply wp_bind, wp_child_opp; [exact Hm|].
  destruct (node_cases d b) as [->|(c1 & a1 & x1 & b1 & ->)].
  - simpl negb. eapply wp_bind, wp_mono.
    { rewrite <-(ptr_of_node d c a x E). apply (next_up_correct d ctx _ [] t Hm). by destruct d. }
    intros p t' (-> & [[Hl ->]|(ctx' & c' & y & a' & b' & l & Hp & -> & Hl)]).
    + apply wp_bind, wp_ret, wp_ret. split; [done|]. rewrite Hl. by destruct d.
    + rewrite <-Hp in Hm. eapply key_unless_null_at; [exact Hm|]. intros res H1 H2. split; [done|].
      rewrite Hl. rewrite Hp in H2. by destruct d.
  - rewrite ptr_of_node.
    assert (Hm' : models t (plug (step (opp d) c x a :: ctx) (node d c1 a1 x1 b1)) []) by (by simpl; rewrite fill_step_opp).
    rewrite (proj2 (Nat.eqb_neq _ _) (node_not_null _ _ _ _ _ _ _ _ Hm')). simpl negb.
    rewrite <-(above_step (opp d) c x a ctx).
    eapply wp_bind, wp_mono.
    { apply (next_down_correct d _ _ c1 a1 x1 b1 [] t Hm').
      pose proof (height_plug ctx (node d c a x (node d c1 a1 x1 b1))). unfold MAX_TREE_HEIGHT. destruct d; simpl in *; lia. }
    intros p t' (-> & ctx' & c' & y & b' & Hp & -> & l & Hl). simpl in Hp. rewrite fill_step_opp in Hp.
    rewrite <-Hp in Hm. eapply key_unless_null_at; [exact Hm|]. intros res H1 H2. split; [done|].
    rewrite Hl. rewrite Hp in H2. done.
Qed.

Lemma split_unique {A} (l1 l2 m1 m2 : list A) (x : A) :
  NoDup (l1 ++ x :: l2) -> l1 ++ x :: l2 = m1 ++ x :: m2 -> l2 = m2.
Proof.
  revert m1. induction l1 as [|a l1 IH]; intros [|b m1]; simpl; intros Hnd Heq; simplify_eq; [done|..].
  - apply NoDup_cons in Hnd as [[] _]. rewrite elem_of_app, elem_of_cons. auto.
  - apply NoDup_cons in Hnd as [[] _]. rewrite elem_of_app, elem_of_cons. auto.
  - apply NoDup_cons in Hnd as [_ Hnd]. by eapply IH.
Qed.

Lemma elems_nodup d t s L : models t s L -> NoDup (elems d s).
Proof.
  intros Hm%models_nodup. apply NoDup_cons in Hm as [_ Hm]. rewrite cells_elements in Hm.
  apply NoDup_fmap_1 in Hm. unfold elems, order. destruct d; [done|]. by rewrite <-Permutation_rev.
Qed.

Lemma search_next_split d t s p x l1 l2 :
  models t s [] -> (height s <= 62)%nat -> position_of s p x -> elems d s = l1 ++ x :: l2 ->
  wp (tree_search_next p d (opp d)) (fun res t' => t' = t /\ at_head s l2 res) t.
Proof.
  intros Hm Hh (ctx & c & l & r & -> & ->) He. pose proof (elems_nodup d _ _ _ Hm) as Hnd.
  assert (exists a b, T c l x r = node d c a x b) as (a & b & Heq).
  { destruct d; [by exists l, r|by exists r, l]. }
  rewrite Heq in *. rewrite elems_plug, elems_node, <-!app_assoc in He, Hnd. simpl in He, Hnd.
  rewrite (app_assoc (front_of d ctx)) in He, Hnd. apply (split_unique _ _ _ _ _ Hnd) in He. subst l2.
  by apply search_next_correct.
Qed.

(** ** Searching a key *)

(** The comparison function does not decrease along the list: first negative, then zero, then positive. *)
Definition monotone (cmp : K -> Z) (l : list (info K)) : Prop :=
  StronglySorted (fun x y => Z.sgn (cmp (x_key x)) <= Z.sgn (cmp (x_key y))) l.

(** Where the search goes on at an equal element, and whether the element is remembered *)
Inductive at_equal_kind := equal_left | equal_right | equal_after.

Definition kind (fl : ha_rkey_function) : option at_equal_kind :=
  match fl with
  | HA_READ_KEY_EXACT | HA_READ_KEY_OR_NEXT | HA_READ_BEFORE_KEY | HA_READ_KEY_OR_PREV => Some equal_left
  | HA_READ_PREFIX_LAST | HA_READ_PREFIX_LAST_OR_PREV => Some equal_right
  | HA_READ_AFTER_KEY => Some equal_after
  | _ => None
  end.

Definition goes_right (k : at_equal_kind) (cmp : K -> Z) x : Prop :=
  match k with equal_left => cmp (x_key x) < 0 | _ => cmp (x_key x) <= 0 end.

(** The positions of the last steps to the left and to the right, with their elements *)
Fixpoint last_left ctx : option (position * info K) :=
  match ctx with
  | [] => None
  | FL _ x _ :: ctx => Some (x_addr x :: above ctx, x)
  | FR _ _ _ :: ctx => last_left ctx
  end.

Fixpoint last_right ctx : option (position * info K) :=
  match ctx with
  | [] => None
  | FR _ _ x :: ctx => Some (x_addr x :: above ctx, x)
  | FL _ _ _ :: ctx => last_right ctx
  end.

(** The position, if its element is equal *)
Definition if_equal (cmp : K -> Z) (p : option (position * info K)) : option position :=
  match p with Some (p, x) => if cmp (x_key x) =? 0 then Some p else None | None => None end.

Definition equal_of (k : at_equal_kind) (cmp : K -> Z) ctx : option position :=
  match k with
  | equal_left => if_equal cmp (last_left ctx)
  | equal_right => if_equal cmp (last_right ctx)
  | equal_after => None
  end.

Definition state_of (k : at_equal_kind) (cmp : K -> Z) ctx : search_state :=
  mk_search (fst <$> last_left ctx) (fst <$> last_right ctx) (equal_of k cmp ctx).

Lemma last_left_post ctx :
  match last_left ctx with
  | Some (p, x) => exists l, post ctx = x :: l /\ forall s, position_of (plug ctx s) p x
  | None => post ctx = []
  end.
Proof.
  induction ctx as [|[c x r|c l x] ctx IH]; simpl; [done| |].
  - eexists. split; [done|]. intros s. by exists ctx, c, s, r.
  - destruct (last_left ctx) as [[p y]|]; [|done]. destruct IH as (l' & -> & Hp). by exists l'.
Qed.

Lemma last_right_pre ctx :
  match last_right ctx with
  | Some (p, x) => exists l, pre ctx = l ++ [x] /\ forall s, position_of (plug ctx s) p x
  | None => pre ctx = []
  end.
Proof.
  induction ctx as [|[c x r|c l x] ctx IH]; simpl; [done| |].
  - destruct (last_right ctx) as [[p y]|]; [|done]. destruct IH as (l' & -> & Hp). by exists l'.
  - eexists. rewrite app_assoc. split; [done|]. intros s. by exists ctx, c, l, s.
Qed.

Lemma monotone_app cmp (l1 l2 : list (info K)) x y :
  monotone cmp (l1 ++ l2) -> x ∈ l1 -> y ∈ l2 -> Z.sgn (cmp (x_key x)) <= Z.sgn (cmp (x_key y)).
Proof.
  unfold monotone. induction l1 as [|z l1 IH]; simpl; [set_solver|].
  intros [H1 H2]%StronglySorted_inv [->|Hx]%elem_of_cons Hy; [|auto].
  rewrite Forall_app, !Forall_forall in H2. by apply H2.
Qed.

(** The elements around the hole at a node *)
Lemma monotone_node cmp ctx c l x r :
  monotone cmp (elements (plug ctx (T c l x r))) ->
  (forall y, y ∈ pre ctx -> Z.sgn (cmp (x_key y)) <= Z.sgn (cmp (x_key x))) /\
  (forall y, y ∈ post ctx -> Z.sgn (cmp (x_key x)) <= Z.sgn (cmp (x_key y))).
Proof.
  intros Hmono. rewrite elements_plug in Hmono. simpl in Hmono. split; intros y Hy.
  - apply (monotone_app cmp _ _ y x Hmono); [done|]. rewrite !elem_of_app, elem_of_cons. auto.
  - rewrite app_assoc in Hmono. apply (monotone_app cmp _ _ x y Hmono); [|done].
    rewrite !elem_of_app, elem_of_cons. auto.
Qed.

(** One step of the search keeps the state. *)
Lemma state_step k cmp ctx c l x r :
  monotone cmp (elements (plug ctx (T c l x r))) -> cmp (x_key x) <> 0 ->
  (0 < cmp (x_key x) -> equal_of k cmp (FL c x r :: ctx) = equal_of k cmp ctx) /\
  (cmp (x_key x) < 0 -> equal_of k cmp (FR c l x :: ctx) = equal_of k cmp ctx).
Proof.
  intros Hmono Hne. destruct (monotone_node _ _ _ _ _ _ Hmono) as [Hpre Hpost].
  pose proof (last_left_post ctx) as Hl. pose proof (last_right_pre ctx) as Hr.
  split; intros Hc; destruct k; simpl; try done; rewrite (proj2 (Z.eqb_neq _ _) Hne).
  - destruct (last_left ctx) as [[p y]|]; [|done]. destruct Hl as (l' & Hl & _). simpl.
    specialize (Hpost y ltac:(rewrite Hl; set_solver)). by rewrite (proj2 (Z.eqb_neq _ _)) by lia.
  - destruct (last_right ctx) as [[p y]|]; [|done]. destruct Hr as (l' & Hr & _). simpl.
    specialize (Hpre y ltac:(rewrite Hr; set_solver)). by rewrite (proj2 (Z.eqb_neq _ _)) by lia.
Qed.

Definition split_at (k : at_equal_kind) (cmp : K -> Z) ctx : Prop :=
  Forall (goes_right k cmp) (pre ctx) /\ Forall (fun x => ~ goes_right k cmp x) (post ctx).

Lemma goes_right_sgn k cmp x y :
  Z.sgn (cmp (x_key x)) <= Z.sgn (cmp (x_key y)) -> goes_right k cmp y -> goes_right k cmp x.
Proof. destruct k; simpl; lia. Qed.

Lemma split_step k cmp ctx c l x r :
  monotone cmp (elements (plug ctx (T c l x r))) -> split_at k cmp ctx ->
  (goes_right k cmp x -> split_at k cmp (FR c l x :: ctx)) /\
  (~ goes_right k cmp x -> split_at k cmp (FL c x r :: ctx)).
Proof.
  intros Hmono [Hpre Hpost]. rewrite elements_plug in Hmono. simpl in Hmono.
  split; intros Hx; (split; [|]) ; simpl; try done.
  - apply Forall_app. split; [done|]. apply Forall_app. split; [|by constructor].
    apply Forall_forall. intros y Hy. apply (goes_right_sgn k cmp y x); [|done].
    rewrite <-app_assoc, app_assoc in Hmono. apply (monotone_app cmp _ _ y x Hmono); [set_solver|].
    rewrite elem_of_app, elem_of_cons. auto.
  - constructor; [done|]. apply Forall_app. split; [|done].
    apply Forall_forall. intros y Hy Hgy. apply Hx. apply (goes_right_sgn k cmp x y); [|done].
    replace (pre ctx ++ (elements l ++ x :: elements r) ++ post ctx)
      with ((pre ctx ++ elements l ++ [x]) ++ elements r ++ post ctx) in Hmono by (by rewrite <-!app_assoc).
    apply (monotone_app cmp _ _ x y Hmono); set_solver.
Qed.

(** What the search does at a node *)
Lemma search_choice cmp fl k ctx c l x r :
  monotone cmp (elements (plug ctx (T c l x r))) -> kind fl = Some k ->
  exists equal c0,
    (if cmp (x_key x) =? 0 then at_equal fl else Some (false, cmp (x_key x))) = Some (equal, c0) /\
    (c0 < 0 <-> goes_right k cmp x) /\
    (c0 < 0 -> (if (equal : bool) then Some (x_addr x :: above ctx) else equal_of k cmp ctx) =
       equal_of k cmp (FR c l x :: ctx)) /\
    (0 <= c0 -> (if (equal : bool) then Some (x_addr x :: above ctx) else equal_of k cmp ctx) =
       equal_of k cmp (FL c x r :: ctx)).
Proof.
  intros Hmono Hk. destruct (Z.eqb_spec (cmp (x_key x)) 0) as [Heq|Hne].
  - destruct fl; try done; simpl in Hk; injection Hk as <-; eexists _, _; (split; [done|]); simpl;
      rewrite Heq; simpl; (split; [lia|]); (split; [|]); intros; try lia; done.
  - exists false, (cmp (x_key x)). split; [done|].
    destruct (state_step k cmp ctx c l x r Hmono Hne) as [Hl Hr]. split; [destruct k; simpl; lia|].
    split; intros Hc; [by rewrite Hr|rewrite Hl; [done|lia]].
Qed.

Lemma search_key_loop_correct fuel cmp fl k ctx s L t :
  models t (plug ctx s) L -> monotone cmp (elements (plug ctx s)) -> kind fl = Some k ->
  split_at k cmp ctx -> (height s < fuel)%nat ->
  wp (search_key_loop fuel cmp fl (ptr_of s) (above ctx) (state_of k cmp ctx))
     (fun res t' => t' = t /\ exists ctx', plug ctx' E = plug ctx s /\ split_at k cmp ctx' /\
        res = Some (state_of k cmp ctx')) t.
Proof.
  revert fuel ctx. induction s as [|c l IHl x r IHr]; intros fuel ctx Hm Hmono Hk Hsplit Hf;
    (destruct fuel as [|fuel]; [simpl in Hf; lia|]).
  { simpl. apply wp_ret. split; [done|]. by exists ctx. }
  simpl in Hf. simpl search_key_loop.
  rewrite (proj2 (Nat.eqb_neq _ _) (models_not_null _ _ _ _ _ _ _ Hm)).
  wp_read @wp_element_key ctx.
  destruct (split_step k cmp ctx c l x r Hmono Hsplit) as [Hright Hleft].
  destruct (search_choice cmp fl k ctx c l x r Hmono Hk) as (equal & c0 & -> & Hc0 & Heqr & Heql).
  apply wp_if; intros Hlt; bool_to_prop.
  - rewrite (Heqr Hlt). wp_read @wp_get_right ctx.
    by apply (IHr fuel (FR c l x :: ctx)); [| | |apply Hright, Hc0|lia].
  - rewrite (Heql Hlt). wp_read @wp_get_left ctx.
    apply (IHl fuel (FL c x r :: ctx)); [done|done|done| |lia]. apply Hleft. rewrite <-Hc0. lia.
Qed.

(** The element that [tree_search_key] looks for in the sorted list *)
Definition find_last (P : info K -> bool) (l : list (info K)) : option (info K) := List.find P (rev l).

Definition search_spec (fl : ha_rkey_function) (cmp : K -> Z) (l : list (info K)) : option (info K) :=
  let equal x := cmp (x_key x) =? 0 in
  let less x := cmp (x_key x) <? 0 in
  match fl with
  | HA_READ_KEY_EXACT => List.find equal l
  | HA_READ_KEY_OR_NEXT => List.find (fun x => 0 <=? cmp (x_key x)) l
  | HA_READ_AFTER_KEY => List.find (fun x => 0 <? cmp (x_key x)) l
  | HA_READ_PREFIX_LAST => find_last equal l
  | HA_READ_PREFIX_LAST_OR_PREV => find_last (fun x => cmp (x_key x) <=? 0) l
  | HA_READ_BEFORE_KEY => find_last less l
  | HA_READ_KEY_OR_PREV => match List.find equal l with Some x => Some x | None => find_last less l end
  | _ => None
  end.

Lemma find_skip (P : info K -> bool) (l1 l2 : list (info K)) :
  Forall (fun x => P x = false) l1 -> List.find P (l1 ++ l2) = List.find P l2.
Proof. induction 1 as [|x l1 Hx _ IH]; simpl; [done|]. by rewrite Hx. Qed.

Lemma find_none (P : info K -> bool) (l : list (info K)) : Forall (fun x => P x = false) l -> List.find P l = None.
Proof. intros H. rewrite <-(app_nil_r l). by rewrite find_skip. Qed.

(** The first element from the hole on, and the last before it *)
Lemma find_first_after (P : info K -> bool) ctx :
  Forall (fun x => P x = false) (pre ctx) -> List.find P (pre ctx ++ post ctx) = List.find P (post ctx).
Proof. apply find_skip. Qed.

Lemma find_last_before (P : info K -> bool) ctx :
  Forall (fun x => P x = false) (post ctx) -> find_last P (pre ctx ++ post ctx) = find_last P (pre ctx).
Proof.
  intros H. unfold find_last. rewrite rev_app_distr. apply find_skip. by rewrite <-Permutation_rev.
Qed.

(** A position that may be missing *)
Definition is_position s (p : option position) (x : option (info K)) : Prop :=
  match x with
  | Some x => exists pp, p = Some pp /\ position_of s pp x
  | None => p = None
  end.

Lemma find_head P ctx :
  (forall x, x ∈ post ctx -> P x = true) -> is_position (plug ctx E) (fst <$> last_left ctx) (List.find P (post ctx)).
Proof.
  intros HP. pose proof (last_left_post ctx) as Hl. destruct (last_left ctx) as [[p x]|].
  - destruct Hl as (l & Hl & Hp). rewrite Hl in *. simpl. rewrite HP by set_solver. simpl. eauto.
  - by rewrite Hl.
Qed.

Lemma find_tail P ctx :
  (forall x, x ∈ pre ctx -> P x = true) -> is_position (plug ctx E) (fst <$> last_right ctx) (find_last P (pre ctx)).
Proof.
  intros HP. pose proof (last_right_pre ctx) as Hl. destruct (last_right ctx) as [[p x]|].
  - destruct Hl as (l & Hl & Hp). unfold find_last. rewrite Hl in *. rewrite rev_app_distr. simpl.
    rewrite HP by set_solver. simpl. eauto.
  - by rewrite Hl.
Qed.

Lemma find_head_equal cmp ctx :
  monotone cmp (pre ctx ++ post ctx) -> (forall x, x ∈ post ctx -> 0 <= cmp (x_key x)) ->
  is_position (plug ctx E) (if_equal cmp (last_left ctx)) (List.find (fun x => cmp (x_key x) =? 0) (post ctx)).
Proof.
  intros Hmono Hge. pose proof (last_left_post ctx) as Hl. destruct (last_left ctx) as [[p x]|]; [|by rewrite Hl].
  destruct Hl as (l & Hl & Hp). rewrite Hl in *. simpl. destruct (Z.eqb_spec (cmp (x_key x)) 0) as [|Hne]; simpl; [eauto|].
  rewrite find_none; [done|]. apply Forall_forall. intros y Hy. apply Z.eqb_neq.
  replace (pre ctx ++ x :: l) with ((pre ctx ++ [x]) ++ l) in Hmono by (by rewrite <-app_assoc).
  pose proof (monotone_app cmp _ _ x y Hmono ltac:(set_solver) Hy). specialize (Hge x ltac:(set_solver)). lia.
Qed.

Lemma find_tail_equal cmp ctx :
  monotone cmp (pre ctx ++ post ctx) -> (forall x, x ∈ pre ctx -> cmp (x_key x) <= 0) ->
  is_position (plug ctx E) (if_equal cmp (last_right ctx)) (find_last (fun x => cmp (x_key x) =? 0) (pre ctx)).
Proof.
  intros Hmono Hge. pose proof (last_right_pre ctx) as Hl. unfold find_last.
  destruct (last_right ctx) as [[p x]|]; [|by rewrite Hl].
  destruct Hl as (l & Hl & Hp). rewrite Hl in *. rewrite rev_app_distr. simpl.
  destruct (Z.eqb_spec (cmp (x_key x)) 0) as [|Hne]; simpl; [eauto|].
  rewrite find_none; [done|]. rewrite <-Permutation_rev. apply Forall_forall. intros y Hy. apply Z.eqb_neq.
  rewrite <-app_assoc in Hmono. pose proof (monotone_app cmp l _ y x Hmono Hy ltac:(set_solver)).
  specialize (Hge x ltac:(set_solver)). lia.
Qed.

(** The two sides of the hole, for the predicates of [search_spec] *)
Ltac sides :=
  match goal with
  | Hsplit : split_at _ _ _ |- _ => destruct Hsplit as [Hpre Hpost]; simpl in Hpre, Hpost;
      rewrite Forall_forall in Hpre, Hpost
  end.

Ltac solve_side :=
  lazymatch goal with |- Forall _ _ => apply Forall_forall | _ => idtac end; let y := fresh in let Hy := fresh in intros y Hy;
  match goal with
  | H : forall x, x ∈ pre _ -> _, Hy : _ ∈ pre _ |- _ => specialize (H _ Hy)
  | H : forall x, x ∈ post _ -> _, Hy : _ ∈ post _ |- _ => specialize (H _ Hy)
  end; simpl in *; lia.

Lemma result_correct cmp fl k ctx :
  monotone cmp (pre ctx ++ post ctx) -> kind fl = Some k -> split_at k cmp ctx ->
  exists p, result_position fl (state_of k cmp ctx) = Some p /\
    is_position (plug ctx E) p (search_spec fl cmp (pre ctx ++ post ctx)).
Proof.
  intros Hmono Hk Hsplit. destruct fl; try done; injection Hk as <-; sides; eexists; (split; [done|]); simpl search_spec.
  - rewrite find_first_after by solve_side. apply find_head_equal; [done|solve_side].
  - rewrite find_first_after by solve_side. simpl.
    pose proof (find_head (fun x => 0 <=? cmp (x_key x)) ctx ltac:(solve_side)) as Hh.
    destruct (last_left ctx) as [[p x]|]; [|done]. simpl in *. by destruct (cmp (x_key x) =? 0).
  - rewrite find_first_after, find_last_before by solve_side. simpl.
    pose proof (find_head_equal cmp ctx Hmono ltac:(solve_side)) as He.
    pose proof (find_tail (fun x => cmp (x_key x) <? 0) ctx ltac:(solve_side)) as Ht.
    destruct (List.find _ (post ctx)) as [x|]; simpl in *.
    + destruct He as (p & -> & Hp). simpl. eauto.
    + by rewrite He.
  - rewrite find_first_after by solve_side. by apply find_head; solve_side.
  - rewrite find_last_before by solve_side. by apply find_tail; solve_side.
  - rewrite find_last_before by solve_side. apply find_tail_equal; [done|solve_side].
  - rewrite find_last_before by solve_side. simpl.
    pose proof (find_tail (fun x => cmp (x_key x) <=? 0) ctx ltac:(solve_side)) as Hh.
    destruct (last_right ctx) as [[p x]|]; [|done]. simpl in *. by destruct (cmp (x_key x) =? 0).
Qed.

Lemma key_at_correct s t L p (o : option (info K)) :
  models t s L -> is_position s p o -> wp (key_at p) (fun k t' => t' = t /\ k = x_key <$> o) t.
Proof.
  intros Hm Hp. destruct o as [x|]; simpl in Hp; [|by subst; apply wp_ret].
  destruct Hp as (pp & -> & ctx & c & l & r & -> & ->). simpl.
  wp_read @wp_element_key ctx. by apply wp_ret.
Qed.

(** With a flag that is not supported, the search ends all the same. *)
Lemma search_key_loop_ends fuel cmp fl ctx s L t parents st :
  models t (plug ctx s) L -> (height s < fuel)%nat ->
  wp (search_key_loop fuel cmp fl (ptr_of s) parents st) (fun _ t' => t' = t) t.
Proof.
  revert fuel ctx parents st. induction s as [|c l IHl x r IHr]; intros fuel ctx parents st Hm Hf;
    (destruct fuel as [|fuel]; [simpl in Hf; lia|]); [by apply wp_ret|]. simpl in Hf. simpl search_key_loop.
  rewrite (proj2 (Nat.eqb_neq _ _) (models_not_null _ _ _ _ _ _ _ Hm)).
  wp_read @wp_element_key ctx. destruct (if cmp (x_key x) =? 0 then _ else _) as [[equal c0]|]; [|by apply wp_ret].
  apply wp_if; intros _.
  - wp_read @wp_get_right ctx. apply (IHr _ (FR c l x :: ctx)); [done|lia].
  - wp_read @wp_get_left ctx. apply (IHl _ (FL c x r :: ctx)); [done|lia].
Qed.

Lemma search_key_correct cmp fl last_pos s t :
  models t s [] -> (height s <= 62)%nat -> monotone cmp (elements s) ->
  wp (tree_search_key cmp last_pos fl)
     (fun res t' => t' = t /\
        if kind fl is Some _
        then res.1 = x_key <$> search_spec fl cmp (elements s) /\ is_position s res.2 (search_spec fl cmp (elements s))
        else res = (None, last_pos)) t.
Proof.
  intros Hm Hh Hmono. apply wp_bind, wp_get. rewrite (models_root _ _ _ Hm).
  destruct (kind fl) as [k|] eqn:Hk.
  - replace (mk_search None None None) with (state_of k cmp []) by (by destruct k).
    eapply wp_bind, wp_mono.
    { apply (search_key_loop_correct _ cmp fl k [] s [] t); [done|done|done|by split; constructor|unfold MAX_TREE_HEIGHT; lia]. }
    intros res t' (-> & ctx & Hp & Hsplit & ->). simpl in Hp. subst s.
    rewrite elements_plug in Hmono |- *. simpl in Hmono |- *.
    destruct (result_correct cmp fl k ctx Hmono Hk Hsplit) as (p & -> & Hp).
    eapply wp_bind, wp_mono; [by apply (key_at_correct (plug ctx E) t [] p)|].
    intros kk t' [-> ->]. by apply wp_ret.
  - eapply wp_bind, wp_mono; [by apply (search_key_loop_ends _ cmp fl [] s [] t); [|unfold MAX_TREE_HEIGHT; lia]|].
    intros [st|] t' ->; [|by apply wp_ret]. destruct fl; try done; by apply wp_ret.
Qed.

(** ** [tree_search] *)

Lemma tree_search_loop_correct fuel cmp ctx s L t :
  models t (plug ctx s) L -> monotone cmp (elements (plug ctx s)) -> (height s < fuel)%nat ->
  wp (tree_search_loop fuel cmp (ptr_of s))
     (fun res t' => t' = t /\
        match res with
        | Some k => exists x, x ∈ elements s /\ x_key x = k /\ cmp k = 0
        | None => forall x, x ∈ elements s -> cmp (x_key x) <> 0
        end) t.
Proof.
  revert fuel ctx. induction s as [|c l IHl x r IHr]; intros fuel ctx Hm Hmono Hf;
    (destruct fuel as [|fuel]; [simpl in Hf; lia|]).
  { apply wp_ret. split; [done|]. set_solver. }
  simpl in Hf. simpl tree_search_loop. simpl elements.
  rewrite (proj2 (Nat.eqb_neq _ _) (models_not_null _ _ _ _ _ _ _ Hm)).
  wp_read @wp_element_key ctx. destruct (Z.eqb_spec (cmp (x_key x)) 0) as [Heq|Hne].
  { apply wp_ret. split; [done|]. exists x. split_and!; [set_solver|done|done]. }
  pose proof Hmono as Hmono'. rewrite elements_plug in Hmono'. simpl in Hmono'. apply wp_if; intros Hc; bool_to_prop.
  - wp_read @wp_get_right ctx. eapply wp_mono; [apply (IHr _ (FR c l x :: ctx)); [done|done|lia]|].
    intros [k|] t' [-> Hres]; (split; [done|]); [destruct Hres as (y & Hy & ? & ?); exists y; set_solver|].
    intros y [Hy|[->|Hy]%elem_of_cons]%elem_of_app; [|done|by apply Hres].
    rewrite <-app_assoc, app_assoc in Hmono'.
    pose proof (monotone_app cmp _ _ y x Hmono' ltac:(set_solver) ltac:(set_solver)). lia.
  - wp_read @wp_get_left ctx. eapply wp_mono; [apply (IHl _ (FL c x r :: ctx)); [done|done|lia]|].
    intros [k|] t' [-> Hres]; (split; [done|]); [destruct Hres as (y & Hy & ? & ?); exists y; set_solver|].
    intros y [Hy|[->|Hy]%elem_of_cons]%elem_of_app; [by apply Hres|done|].
    replace (pre ctx ++ (elements l ++ x :: elements r) ++ post ctx)
      with ((pre ctx ++ elements l ++ [x]) ++ elements r ++ post ctx) in Hmono' by (by rewrite <-!app_assoc).
    pose proof (monotone_app cmp _ _ x y Hmono' ltac:(set_solver) ltac:(set_solver)). lia.
Qed.
End Search.
