(* ===== verification/TreeWalk.v ===== *)
(** * Red-black trees: walking, the test of the debug build, and the theorems on searching *)

From Stdlib Require Import Sorting.Sorted.
From S2P Require Import Prelude Tree TreeRep TreeRb TreeInsert TreeOps TreeProps TreeRemove TreeSearch.

#[local] Existing Instance M_bind.
#[local] Existing Instance M_ret.

Section Walk.
Context {K : Type}.
Implicit Types (s : tree K) (ctx : list (frame K)) (x y : info K) (t : TREE K) (L : list (ptr * TREE_ELEMENT K)).

(** ** Walking *)

Section Action.
Context {B : Type} (action : K -> Z -> B -> Z * B).

(** The action on the elements of a list, up to the first error *)
Fixpoint walk_list (l : list (info K)) (b : B) : Z * B :=
  match l with
  | [] => (0, b)
  | x :: l => let '(e, b) := action (x_key x) (x_count x) b in
              if negb (e =? 0) then (e, b) else walk_list l b
  end.

Lemma walk_list_app l1 l2 b :
  walk_list (l1 ++ l2) b =
  let '(e, b) := walk_list l1 b in if negb (e =? 0) then (e, b) else walk_list l2 b.
Proof.
  revert b. induction l1 as [|x l1 IH]; intros b; simpl; [done|].
  destruct (action _ _ b) as [e b']. destruct (Z.eqb_spec e 0) as [|Hne]; simpl; [apply IH|].
  by rewrite (proj2 (Z.eqb_neq _ _) Hne).
Qed.

Lemma null_left t ctx s L : models t (plug ctx s) L -> heap t !! null_ptr = Some null_element.
Proof. intros Hm. apply (rep_null _ _ _ _ Hm). Qed.

Lemma models_not_NULL t ctx s L : models t (plug ctx s) L -> ptr_of s <> NULL.
Proof.
  intros Hm Heq. destruct s as [|c l x r]; [done|]. apply models_focus in Hm as [_ Hnd _].
  apply NoDup_cons in Hnd as [[] _]. rewrite <-Heq. simpl. rewrite !elem_of_cons, fmap_app, elem_of_app. csimpl.
  rewrite elem_of_cons. auto.
Qed.

Lemma walk_left_correct fuel ctx s L t b :
  models t (plug ctx s) L -> (height s < fuel)%nat ->
  wp (tree_walk_left_root_right action fuel (ptr_of s) b) (fun res t' => t' = t /\ res = walk_list (elements s) b) t.
Proof.
  revert fuel ctx b. induction s as [|c l IHl x r IHr]; intros fuel ctx b Hm Hf;
    (destruct fuel as [|fuel]; [simpl in Hf; lia|]); simpl in Hf; simpl tree_walk_left_root_right; simpl elements.
  { apply wp_bind, wp_bind, (wp_load _ _ _ _ (null_left _ _ _ _ Hm)), wp_ret. by apply wp_ret. }
  wp_read @wp_get_left ctx.
  rewrite (proj2 (Nat.eqb_neq _ _) (models_not_NULL t (FL c x r :: ctx) l L Hm)), walk_list_app.
  eapply wp_bind, wp_mono; [apply (IHl fuel (FL c x r :: ctx) b Hm); lia|].
  intros res t' [-> ->]. destruct (walk_list (elements l) b) as [e b1].
  apply wp_if; intros He; rewrite He; [by apply wp_ret|].
  wp_read @wp_element_key ctx. wp_read @wp_get_count ctx. simpl. destruct (action _ _ b1) as [e2 b2].
  apply wp_if; intros He2; rewrite He2; [by apply wp_ret|].
  wp_read @wp_get_right ctx. apply (IHr fuel (FR c l x :: ctx) b2 Hm). lia.
Qed.

Lemma walk_right_correct fuel ctx s L t b :
  models t (plug ctx s) L -> (height s < fuel)%nat ->
  wp (tree_walk_right_root_left action fuel (ptr_of s) b) (fun res t' => t' = t /\ res = walk_list (rev (elements s)) b) t.
Proof.
  revert fuel ctx b. induction s as [|c l IHl x r IHr]; intros fuel ctx b Hm Hf;
    (destruct fuel as [|fuel]; [simpl in Hf; lia|]); simpl in Hf; simpl tree_walk_right_root_left; simpl elements.
  { apply wp_bind, wp_bind, (wp_load _ _ _ _ (null_left _ _ _ _ Hm)), wp_ret. by apply wp_ret. }
  wp_read @wp_get_right ctx. rewrite rev_app_distr. simpl rev. rewrite <-app_assoc.
  rewrite (proj2 (Nat.eqb_neq _ _) (models_not_NULL t (FR c l x :: ctx) r L Hm)), walk_list_app.
  eapply wp_bind, wp_mono; [apply (IHr fuel (FR c l x :: ctx) b Hm); lia|].
  intros res t' [-> ->]. destruct (walk_list (rev (elements r)) b) as [e b1].
  apply wp_if; intros He; rewrite He; [by apply wp_ret|].
  wp_read @wp_element_key ctx. wp_read @wp_get_count ctx. simpl. destruct (action _ _ b1) as [e2 b2].
  apply wp_if; intros He2; rewrite He2; [by apply wp_ret|].
  wp_read @wp_get_left ctx. apply (IHl fuel (FL c x r :: ctx) b2 Hm). lia.
Qed.

Definition walk_order (visit : TREE_WALK) : side :=
  match visit with left_root_right => left_side | right_root_left => right_side end.

Lemma walk_correct s t b visit :
  models t s [] -> (height s <= 62)%nat ->
  wp (tree_walk action b visit) (fun res t' => t' = t /\ res = walk_list (elems (walk_order visit) s) b) t.
Proof.
  intros Hm Hh. apply wp_bind, wp_get. rewrite (models_root _ _ _ Hm).
  destruct visit; [apply (walk_left_correct _ [] s [] t)|apply (walk_right_correct _ [] s [] t)]; try exact Hm;
    unfold MAX_TREE_HEIGHT; lia.
Qed.
End Action.

(** ** [test_rb_tree] *)

(** Colours are one bit. *)
Fixpoint coloured (s : tree K) : Prop :=
  match s with E => True | T c l _ r => (c = RED \/ c = BLACK) /\ coloured l /\ coloured r end.

Lemma rb_unique s n m : rb s n -> rb s m -> n = m.
Proof.
  revert n m. induction s as [|c l IHl x r IHr]; intros n m Hn Hm; inversion Hn; inversion Hm; subst; try done;
    [by eapply IHl|f_equal; by eapply IHl].
Qed.

(** The result of the test: the black height, or -1 if the tree is not a red-black tree *)
Definition test_result s (v : Z) : Prop :=
  (exists n, rb s n /\ v = Z.of_nat n) \/ ((forall n, ~ rb s n) /\ v = -1).

Lemma test_node c l x r v1 v2 :
  (c = RED \/ c = BLACK) -> test_result l v1 -> test_result r v2 ->
  (c = RED -> colour_of l = BLACK /\ colour_of r = BLACK) ->
  test_result (T c l x r)
    (if (0 <=? v1) && (0 <=? v2) && (v1 =? v2) then v1 + (if c =? BLACK then 1 else 0) else -1).
Proof.
  intros Hc [(n1 & H1 & ->)|(H1 & ->)] [(n2 & H2 & ->)|(H2 & ->)] Hred; simpl.
  - rewrite !(proj2 (Z.leb_le _ _)) by lia. simpl. destruct (Z.eqb_spec (Z.of_nat n1) (Z.of_nat n2)) as [Heq|Hne].
    + apply Nat2Z.inj in Heq. subst n2. left. destruct Hc as [-> | ->]; simpl.
      * exists n1. split; [|lia]. destruct Hred; [done|]. by constructor.
      * exists (S n1). split; [by constructor|lia].
    + right. split; [|done]. intros n Hn. apply Hne. f_equal.
      inversion Hn; subst; [rewrite (rb_unique l n1 n), (rb_unique r n2 n)|rewrite (rb_unique l n1 n0), (rb_unique r n2 n0)]; done.
  - rewrite andb_false_r. right. split; [|done]. intros n Hn. inversion Hn; subst; eapply H2; done.
  - right. split; [|done]. intros n Hn. inversion Hn; subst; eapply H1; done.
  - right. split; [|done]. intros n Hn. inversion Hn; subst; eapply H1; done.
Qed.

(** The test of the debug build accepts exactly the red-black trees, and returns their black height. *)
Lemma test_rb_tree_correct fuel ctx s L t :
  models t (plug ctx s) L -> coloured s -> (height s < fuel)%nat ->
  wp (test_rb_tree fuel (ptr_of s)) (fun v t' => t' = t /\ test_result s v) t.
Proof.
  revert fuel ctx. induction s as [|c l IHl x r IHr]; intros fuel ctx Hm Hcol Hf;
    (destruct fuel as [|fuel]; [simpl in Hf; lia|]); simpl in Hf; simpl test_rb_tree.
  { apply wp_bind, wp_bind, (wp_load _ _ _ _ (null_left _ _ _ _ Hm)), wp_ret. apply wp_ret.
    split; [done|left]. exists 0%nat. by split; [constructor|]. }
  destruct Hcol as (Hc & Hcl & Hcr).
  wp_read @wp_get_left ctx. rewrite (proj2 (Nat.eqb_neq _ _) (models_not_NULL t (FL c x r :: ctx) l L Hm)).
  wp_read @wp_get_right ctx. wp_read @wp_get_node_colour ctx.
  wp_read @wp_get_colour (FL c x r :: ctx). wp_read @wp_get_colour (FR c l x :: ctx).
  assert (Hbit : forall s, coloured s -> colour_of s = RED \/ colour_of s = BLACK) by (intros []; simpl; tauto).
  apply wp_if; intros Hrr.
  - apply wp_ret. split; [done|]. right. split; [|done]. intros n Hn.
    inversion Hn as [|? ? ? ? _ _ Hbl Hbr|]; subst; [|done]. by rewrite Hbl, Hbr in Hrr.
  - eapply wp_bind, wp_mono; [apply (IHl fuel (FL c x r :: ctx) Hm Hcl); lia|]. intros v1 t1 [-> H1].
    eapply wp_bind, wp_mono; [apply (IHr fuel (FR c l x :: ctx) Hm Hcr); lia|]. intros v2 t2 [-> H2].
    apply wp_ret. split; [done|]. apply test_node; try done. intros ->. simpl in Hrr.
    destruct (Hbit l Hcl) as [E1|E1], (Hbit r Hcr) as [E2|E2]; rewrite E1, E2 in Hrr; done.
Qed.

Lemma wp_result {A} (m : M A) (Q : A -> TREE K -> Prop) t :
  wp m (fun a t' => t' = t /\ Q a t) t -> exists a, m t = Some (a, t) /\ Q a t.
Proof. unfold wp. destruct (m t) as [[a t']|]; [|done]. intros [-> HQ]. eauto. Qed.
End Walk.

(** The comparison with a key goes up along the sorted list. *)
Lemma compare_monotone {K} (compare : K -> K -> Z) `{!TotalCompare compare} key l :
  sorted compare l -> monotone (fun k => compare k key) l.
Proof.
  unfold sorted, monotone. induction 1 as [|x l _ IH Hx]; constructor; [done|].
  eapply Forall_impl; [exact Hx|]. simpl. intros y Hxy.
  pose proof (cmp_lt_le compare _ _ key Hxy) as H1. pose proof (cmp_flip (x_key x) (x_key y)).
  destruct (decide (compare (x_key y) key <= 0)) as [Hy|Hy]; [specialize (H1 Hy)|]; lia.
Qed.

Lemma tree_search_spec {K} (compare : K -> K -> Z) t s cmp :
  tree_ok compare t s -> monotone cmp (elements s) ->
  (exists res, tree_search cmp t = Some (res, t) /\
     match res with
     | Some k => exists x, x ∈ elements s /\ x_key x = k /\ cmp k = 0
     | None => forall x, x ∈ elements s -> cmp (x_key x) <> 0
     end) /\
  (forall fl last_pos, exists res, tree_search_key cmp last_pos fl t = Some (res, t) /\
     if kind fl is Some _
     then res.1 = x_key <$> search_spec fl cmp (elements s) /\ is_position s res.2 (search_spec fl cmp (elements s))
     else res = (None, last_pos)).
Proof.
  intros Hok Hmono. pose proof (ok_height compare t s Hok) as Hh. destruct Hok as [Hm _ _ _ _ _]. split.
  - apply (wp_result _ (fun res _ => match res with Some k => _ | None => _ end)). apply wp_bind, wp_get.
    rewrite (models_root _ _ _ Hm).
    apply (tree_search_loop_correct _ cmp [] s [] t); [done|done|unfold MAX_TREE_HEIGHT; lia].
  - intros fl last_pos. apply (wp_result _ (fun res _ => if kind fl is Some _ then _ else _)).
    by apply (search_key_correct cmp fl last_pos s t).
Qed.

Lemma tree_scan_spec {K B} (compare : K -> K -> Z) (action : K -> Z -> B -> Z * B) t s d :
  tree_ok compare t s ->
  (exists res, tree_search_edge d t = Some (res, t) /\ at_head s (elems d s) res) /\
  (forall p x l1 l2, position_of s p x -> elems d s = l1 ++ x :: l2 ->
     exists res, tree_search_next p d (opp d) t = Some (res, t) /\ at_head s l2 res) /\
  tree_search_next outside d (opp d) t = Some ((None, outside), t) /\
  (forall b visit, tree_walk action b visit t = Some (walk_list action (elems (walk_order visit) s) b, t)).
Proof.
  intros Hok. pose proof (ok_height compare t s Hok) as Hh. destruct Hok as [Hm _ _ _ _ _]. split_and!.
  - apply (wp_result _ (fun res _ => at_head s (elems d s) res)). by apply search_edge_correct.
  - intros p x l1 l2 Hp He. apply (wp_result _ (fun res _ => at_head s l2 res)). by apply (search_next_split d t s p x l1).
  - done.
  - intros b visit. destruct (wp_result _ (fun res _ => res = walk_list action (elems (walk_order visit) s) b) t
      (walk_correct action s t b visit Hm Hh)) as (res & Hres & ->). done.
Qed.

(** C33: The searches in a tree in order, for every comparison that goes up along the sorted list (that
    with a key does, and so does that with a prefix, where several elements are equal).  [tree_search]
    finds an equal element if there is one.  [tree_search_key] finds for each flag the element that
    the flag asks for: the first equal, the first not less, the first greater, the last equal, the last not
    greater, the last less, or the first equal and else the last less; with its position, or NULL if there
    is none.  It returns NULL and keeps the position for the flags it does not support.
    Going through the tree from either side, [tree_search_edge] gives the first element,
    [tree_search_next] the element after the position, and both give NULL and the position outside at
    the end of the list; [tree_walk] calls the action on the elements in the order asked for, with their
    counts, up to the first error, which it returns.  None of them changes the tree. *)
Theorem tree_read_correct {K B} (compare : K -> K -> Z) (action : K -> Z -> B -> Z * B) t s :
  tree_ok compare t s ->
  (forall cmp, monotone cmp (elements s) ->
     (exists res, tree_search cmp t = Some (res, t) /\
        match res with
        | Some k => exists x, x ∈ elements s /\ x_key x = k /\ cmp k = 0
        | None => forall x, x ∈ elements s -> cmp (x_key x) <> 0
        end) /\
     (forall fl last_pos, exists res, tree_search_key cmp last_pos fl t = Some (res, t) /\
        if kind fl is Some _
        then res.1 = x_key <$> search_spec fl cmp (elements s) /\ is_position s res.2 (search_spec fl cmp (elements s))
        else res = (None, last_pos))) /\
  (forall d,
     (exists res, tree_search_edge d t = Some (res, t) /\ at_head s (elems d s) res) /\
     (forall p x l1 l2, position_of s p x -> elems d s = l1 ++ x :: l2 ->
        exists res, tree_search_next p d (opp d) t = Some (res, t) /\ at_head s l2 res) /\
     tree_search_next outside d (opp d) t = Some ((None, outside), t) /\
     (forall b visit, tree_walk action b visit t = Some (walk_list action (elems (walk_order visit) s) b, t))).
Proof.
  intros Hok. split; [intros cmp; by apply (tree_search_spec compare)|intros d; by apply (tree_scan_spec compare)].
Qed.

(** The key 6 in the example, and a walk that adds the keys up *)
Lemma tree_read_correct_witness :
  (exists res, tree_search (fun k => k - 6) tree_example = Some (res, tree_example) /\
     match res with
     | Some k => exists x, x ∈ elements tree_example_shape /\ x_key x = k /\ k - 6 = 0
     | None => forall x, x ∈ elements tree_example_shape -> x_key x - 6 <> 0
     end) /\
  (forall b visit, tree_walk (fun k n b => (0, b + k * n)) b visit tree_example =
     Some (walk_list (fun k n b => (0, b + k * n)) (elems (walk_order visit) tree_example_shape) b, tree_example)).
Proof.
  destruct (tree_read_correct Z.sub (fun k n b => (0, b + k * n)) tree_example tree_example_shape tree_example_ok)
    as [H1 H2]. split.
  - apply (H1 (fun k => k - 6)). by apply (compare_monotone Z.sub 6), tree_example_ok.
  - apply (H2 right_side).
Defined.
