(* ===== verification/Utf8.v ===== *)
(** * UTF-8: characters and strings

    strings/ctype-utf8.h and strings/ctype-utf8.c: the decoders, encoders and character lengths of
    utf8mb3 and utf8mb4; strings/ctype-mb.inl and strings/ctype-mb.c: well-formed prefixes, numbers
    and positions of characters, and copying with bad bytes replaced.  The bytes between two pointers
    are a list; a position in it is an offset. *)

From S2P Require Import Prelude Bytes.

(** ** Return codes *)

Definition MY_CS_ILSEQ : Z := 0.
Notation MY_CS_ILUNI := 0 (only parsing).
Definition MY_CS_TOOSMALL : Z := -101.
Definition MY_CS_TOOSMALLN (n : Z) : Z := -100 - n.
Notation MY_CS_TOOSMALL2 := (MY_CS_TOOSMALLN 2) (only parsing).
Notation MY_CS_TOOSMALL3 := (MY_CS_TOOSMALLN 3) (only parsing).
Notation MY_CS_TOOSMALL4 := (MY_CS_TOOSMALLN 4) (only parsing).

(** ** Bytes of characters *)

(** The conversion to [uchar] *)
Definition u8 (x : Z) : Z := x mod 2 ^ 8.

Definition IS_CONTINUATION_BYTE (c : Z) : bool := Z.lxor c 0x80 <? 0x40.

Definition IS_UTF8MB2_STEP2 (b0 b1 : Z) : bool := (b0 <? 0xE0) && IS_CONTINUATION_BYTE b1.

Definition IS_UTF8MB3_STEP2 (b0 b1 b2 : Z) : bool :=
  IS_CONTINUATION_BYTE b1 && IS_CONTINUATION_BYTE b2 && ((0xe1 <=? b0) || (0xa0 <=? b1)).

Definition IS_UTF8MB3_STEP3 (b0 b1 b2 : Z) : bool := (b0 <? 0xF0) && IS_UTF8MB3_STEP2 b0 b1 b2.

Definition IS_UTF8MB4_STEP2 (b0 b1 b2 b3 : Z) : bool :=
  IS_CONTINUATION_BYTE b1 && IS_CONTINUATION_BYTE b2 && IS_CONTINUATION_BYTE b3 &&
  ((0xf1 <=? b0) || (0x90 <=? b1)) && ((b0 <=? 0xf3) || (b1 <=? 0x8F)).

Definition IS_UTF8MB4_STEP3 (b0 b1 b2 b3 : Z) : bool :=
  (b0 <? 0xF5) && IS_UTF8MB4_STEP2 b0 b1 b2 b3.

Definition UTF8MB2_CODE (b0 b1 : Z) : Z :=
  Z.lor (Z.shiftl (Z.land b0 0x1f) 6) (Z.lxor b1 0x80).

Definition UTF8MB3_CODE (b0 b1 b2 : Z) : Z :=
  Z.lor (Z.lor (Z.shiftl (Z.land b0 0x0f) 12) (Z.shiftl (Z.lxor b1 0x80) 6)) (Z.lxor b2 0x80).

Definition UTF8MB4_CODE (b0 b1 b2 b3 : Z) : Z :=
  Z.lor (Z.lor (Z.lor (Z.shiftl (Z.land b0 0x07) 18) (Z.shiftl (Z.lxor b1 0x80) 12))
               (Z.shiftl (Z.lxor b2 0x80) 6)) (Z.lxor b3 0x80).

(** ** Decoding: the return code, and what is stored in [*pwc] *)

Definition my_mb_wc_utf8mb3_quick (s : list Z) : Z * option Z :=
  match s with
  | [] => (MY_CS_TOOSMALL, None)
  | c :: s1 =>
      if c <? 0x80 then (1, Some c)
      else if c <? 0xc2 then (MY_CS_ILSEQ, None)
      else if c <? 0xe0 then
        match s1 with
        | b1 :: _ =>
            if negb (IS_CONTINUATION_BYTE b1) then (MY_CS_ILSEQ, None)
            else (2, Some (UTF8MB2_CODE c b1))
        | _ => (MY_CS_TOOSMALL2, None)
        end
      else if c <? 0xf0 then
        match s1 with
        | b1 :: b2 :: _ =>
            if negb (IS_UTF8MB3_STEP2 c b1 b2) then (MY_CS_ILSEQ, None)
            else (3, Some (UTF8MB3_CODE c b1 b2))
        | _ => (MY_CS_TOOSMALL3, None)
        end
      else (MY_CS_ILSEQ, None)
  end.

Definition my_mb_wc_utf8mb4_quick (s : list Z) : Z * option Z :=
  match s with
  | [] => (MY_CS_TOOSMALL, None)
  | c :: s1 =>
      if c <? 0x80 then (1, Some c)
      else if c <? 0xc2 then (MY_CS_ILSEQ, None)
      else if c <? 0xe0 then
        match s1 with
        | b1 :: _ =>
            if negb (IS_CONTINUATION_BYTE b1) then (MY_CS_ILSEQ, None)
            else (2, Some (UTF8MB2_CODE c b1))
        | _ => (MY_CS_TOOSMALL2, None)
        end
      else if c <? 0xf0 then
        match s1 with
        | b1 :: b2 :: _ =>
            if negb (IS_UTF8MB3_STEP2 c b1 b2) then (MY_CS_ILSEQ, None)
            else (3, Some (UTF8MB3_CODE c b1 b2))
        | _ => (MY_CS_TOOSMALL3, None)
        end
      else if c <? 0xf5 then
        match s1 with
        | b1 :: b2 :: b3 :: _ =>
            if negb (IS_UTF8MB4_STEP2 c b1 b2 b3) then (MY_CS_ILSEQ, None)
            else (4, Some (UTF8MB4_CODE c b1 b2 b3))
        | _ => (MY_CS_TOOSMALL4, None)
        end
      else (MY_CS_ILSEQ, None)
  end.

Definition my_utf8mb3_uni := my_mb_wc_utf8mb3_quick.
Definition my_mb_wc_utf8mb4 := my_mb_wc_utf8mb4_quick.

(** ** Encoding into [room] bytes: the return code, and the bytes written *)

Definition my_uni_utf8mb3 (wc room : Z) : Z * list Z :=
  if wc <? 0x80 then
    if room <=? 0 then (MY_CS_TOOSMALL, []) else (1, [u8 wc])
  else if wc <? 0x800 then
    if room <? 2 then (MY_CS_TOOSMALLN 2, [])
    else (2, [u8 (Z.lor 0xC0 (Z.shiftr wc 6)); u8 (Z.lor 0x80 (Z.land wc 0x3F))])
  else if wc <? 0x10000 then
    if room <? 3 then (MY_CS_TOOSMALLN 3, [])
    else (3, [u8 (Z.lor 0xE0 (Z.shiftr wc 12)); u8 (Z.lor 0x80 (Z.land (Z.shiftr wc 6) 0x3f));
              u8 (Z.lor 0x80 (Z.land wc 0x3f))])
  else (MY_CS_ILUNI, []).

(** The cases of the switch of [my_wc_mb_utf8mb4], each falling through to the next one; [r] has the
    bytes already stored behind. *)
Definition wc_mb_case1 (wc : Z) (r : list Z) : list Z := u8 wc :: r.
Definition wc_mb_case2 (wc : Z) (r : list Z) : list Z :=
  wc_mb_case1 (Z.lor (Z.shiftr wc 6) 0xc0) (u8 (Z.lor 0x80 (Z.land wc 0x3f)) :: r).
Definition wc_mb_case3 (wc : Z) (r : list Z) : list Z :=
  wc_mb_case2 (Z.lor (Z.shiftr wc 6) 0x800) (u8 (Z.lor 0x80 (Z.land wc 0x3f)) :: r).
Definition wc_mb_case4 (wc : Z) (r : list Z) : list Z :=
  wc_mb_case3 (Z.lor (Z.shiftr wc 6) 0x10000) (u8 (Z.lor 0x80 (Z.land wc 0x3f)) :: r).

Definition my_wc_mb_utf8mb4 (wc room : Z) : Z * list Z :=
  if room <=? 0 then (MY_CS_TOOSMALL, []) else
  match (if wc <? 0x80 then Some (1, wc_mb_case1 wc [])
         else if wc <? 0x800 then Some (2, wc_mb_case2 wc [])
         else if wc <? 0x10000 then Some (3, wc_mb_case3 wc [])
         else if wc <? 0x200000 then Some (4, wc_mb_case4 wc [])
         else None) with
  | Some (count, r) => if room <? count then (MY_CS_TOOSMALLN count, []) else (count, r)
  | None => (MY_CS_ILUNI, [])
  end.

(** ** Lengths of characters *)

(** The caller has checked that the string is not empty. *)
Definition my_valid_mbcharlen_utf8mb3 (s : list Z) : Z :=
  let c := nth 0 s 0 in
  if c <? 0x80 then 1
  else if c <? 0xc2 then MY_CS_ILSEQ
  else if c <? 0xe0 then
    match s with
    | _ :: b1 :: _ => if negb (IS_CONTINUATION_BYTE b1) then MY_CS_ILSEQ else 2
    | _ => MY_CS_TOOSMALL2
    end
  else
    match s with
    | _ :: b1 :: b2 :: _ => if negb (IS_UTF8MB3_STEP2 c b1 b2) then MY_CS_ILSEQ else 3
    | _ => MY_CS_TOOSMALL3
    end.

Definition my_charlen_utf8mb3 (s : list Z) : Z :=
  match s with
  | [] => MY_CS_TOOSMALL
  | c :: _ => if c <? 0xf0 then my_valid_mbcharlen_utf8mb3 s else MY_CS_ILSEQ
  end.

Definition my_charlen_utf8mb4 (s : list Z) : Z :=
  match s with
  | [] => MY_CS_TOOSMALL
  | c :: s1 =>
      if c <? 0xf0 then my_valid_mbcharlen_utf8mb3 s
      else if c <? 0xf5 then
        match s1 with
        | b1 :: b2 :: b3 :: _ => if negb (IS_UTF8MB4_STEP2 c b1 b2 b3) then MY_CS_ILSEQ else 4
        | _ => MY_CS_TOOSMALL4
        end
      else MY_CS_ILSEQ
  end.

(** ** Strings *)

(** The part of a [MY_CHARSET_HANDLER] that the functions on strings use *)
Record MY_CHARSET_HANDLER := mk_handler {
  mb_wc : list Z -> Z * option Z;
  wc_mb : Z -> Z -> Z * list Z;
  charlen : list Z -> Z;
}.

Definition my_charset_utf8mb3_handler : MY_CHARSET_HANDLER :=
  mk_handler my_utf8mb3_uni my_uni_utf8mb3 my_charlen_utf8mb3.

Definition my_charset_utf8mb4_handler : MY_CHARSET_HANDLER :=
  mk_handler my_mb_wc_utf8mb4 my_wc_mb_utf8mb4 my_charlen_utf8mb4.

Record MY_STRCOPY_STATUS := mk_status {
  m_source_end_pos : Z;
  m_well_formed_error_pos : option Z;
}.

Section Strings.
Context (cset : MY_CHARSET_HANDLER).

(** Advancing a pointer *)
Definition skip (n : Z) (s : list Z) : list Z := drop (Z.to_nat n) s.

(** The loop of [well_formed_char_length]: the number of characters left, and the status.  [pos] is
    the offset of [b]. *)
Fixpoint well_formed_loop (b : list Z) (pos : Z) (nchars : nat) : nat * MY_STRCOPY_STATUS :=
  match nchars with
  | O => (O, mk_status pos None)
  | S nchars' =>
      let chlen := charlen cset b in
      if chlen <=? 0 then
        (nchars, mk_status pos (if (0 <? length b)%nat then Some pos else None))
      else well_formed_loop (skip chlen b) (pos + chlen) nchars'
  end.

Definition well_formed_char_length (b : list Z) (nchars : nat) : nat * MY_STRCOPY_STATUS :=
  let '(rest, status) := well_formed_loop b 0 nchars in ((nchars - rest)%nat, status).

Definition my_ismbchar (s : list Z) : Z :=
  let char_length := charlen cset s in if 1 <? char_length then char_length else 0.

(** The step of the loops of [my_numchars_mb] and [my_charpos_mb] *)
Definition char_step (pos : list Z) : Z :=
  let mb_len := my_ismbchar pos in if negb (mb_len =? 0) then mb_len else 1.

Fixpoint numchars_loop (fuel : nat) (pos : list Z) (count : nat) : nat :=
  match fuel, pos with
  | S fuel, _ :: _ => numchars_loop fuel (skip (char_step pos) pos) (S count)
  | _, _ => count
  end.

Definition my_numchars_mb (pos : list Z) : nat := numchars_loop (length pos) pos 0.

Fixpoint charpos_loop (pos : list Z) (offset : Z) (len : nat) : Z * nat :=
  match len, pos with
  | S len', _ :: _ => charpos_loop (skip (char_step pos) pos) (offset + char_step pos) len'
  | _, _ => (offset, len)
  end.

Definition my_charpos_mb (pos : list Z) (len : nat) : Z :=
  let '(offset, rest) := charpos_loop pos 0 len in
  if (0 <? rest)%nat then Z.of_nat (length pos) + 2 else offset.

(** The bytes appended and the new status.  [pos] is the offset of [from], [room] is
    [to_end - to], [err] the error position so far. *)
Fixpoint my_append_fix_badly_formed_tail (room : Z) (from : list Z) (pos : Z) (nchars : nat)
    (err : option Z) : list Z * MY_STRCOPY_STATUS :=
  match nchars with
  | O => ([], mk_status pos err)
  | S nchars' =>
      let chlen := charlen cset from in
      if 0 <? chlen then
        if room <? chlen then ([], mk_status pos err)
        else
          let '(tl, status) :=
            my_append_fix_badly_formed_tail (room - chlen) (skip chlen from) (pos + chlen) nchars' err in
          (take (Z.to_nat chlen) from ++ tl, status)
      else if negb (chlen =? MY_CS_ILSEQ) && (length from =? 0)%nat then ([], mk_status pos err)
      else
        let err' := match err with None => Some pos | Some _ => err end in
        let '(len, r) := wc_mb cset 0x3f room in
        if len <=? 0 then ([], mk_status pos err')
        else
          let '(tl, status) :=
            my_append_fix_badly_formed_tail (room - len) (skip 1 from) (pos + 1) nchars' err' in
          (r ++ tl, status)
  end.

(** The bytes in [dst] and the status *)
Definition my_copy_fix_mb (dst_length : nat) (src : list Z) (nchars : nat) : list Z * MY_STRCOPY_STATUS :=
  let min_length := Nat.min (length src) dst_length in
  let '(well_formed_nchars, status) := well_formed_char_length (take min_length src) nchars in
  let well_formed_length := Z.to_nat (m_source_end_pos status) in
  match m_well_formed_error_pos status with
  | None => (take well_formed_length src, status)
  | Some _ =>
      let '(fixed, status') :=
        my_append_fix_badly_formed_tail (Z.of_nat dst_length - Z.of_nat well_formed_length)
          (drop well_formed_length src) (Z.of_nat well_formed_length) (nchars - well_formed_nchars)
          (m_well_formed_error_pos status) in
      (take well_formed_length src ++ fixed, status')
  end.
End Strings.
