(* ===== verification/Utf8Props.v ===== *)
(** * UTF-8: correctness of the codec

    The encoders write the bytes that the definition of UTF-8 gives, the decoders read exactly these
    and nothing else, and [memcmp] orders the bytes of characters as their codes. *)

From S2P Require Import Prelude Bytes Utf8.

Notation bytes := (Forall byte_ok).

(** ** Bit operations as arithmetic *)

Lemma lor_low a k x : 0 <= k -> 0 <= a -> 0 <= x < 2 ^ k -> Z.lor (a * 2 ^ k) x = a * 2 ^ k + x.
Proof.
  intros Hk Ha Hx. rewrite <- Z.shiftl_mul_pow2 by done.
  pose proof (Z.add_lor_land (Z.shiftl a k) x) as E.
  replace (Z.land (Z.shiftl a k) x) with 0 in E; [lia|].
  symmetry. apply Z.bits_inj'. intros i Hi. rewrite Z.land_spec, Z.bits_0.
  destruct (Z.lt_ge_cases i k).
  - by rewrite Z.shiftl_spec_low.
  - destruct (Z.eq_dec x 0) as [->|]; [by rewrite Z.bits_0, andb_false_r|].
    rewrite (Z.bits_above_log2 x i), andb_false_r; [done|lia|]. apply Z.log2_lt_pow2; [lia|].
    assert (2 ^ k <= 2 ^ i) by (apply Z.pow_le_mono_r; lia). lia.
Qed.

Lemma lor_shift a k x : 0 <= k -> 0 <= a -> 0 <= x < 2 ^ k -> Z.lor (Z.shiftl a k) x = a * 2 ^ k + x.
Proof. intros. rewrite Z.shiftl_mul_pow2 by done. by apply lor_low. Qed.

Lemma land_3f x : Z.land x 0x3f = x mod 64.
Proof. change 0x3f with (Z.ones 6). by rewrite Z.land_ones. Qed.

Lemma shiftr_6 x : Z.shiftr x 6 = x / 64.
Proof. by rewrite Z.shiftr_div_pow2. Qed.

(** A statement on one byte holds if it does for each of the 256. *)
Lemma byte_cases (P : Z -> bool) b :
  forallb P (map Z.of_nat (seq 0 256)) = true -> byte_ok b -> P b = true.
Proof.
  intros H Hb. rewrite forallb_forall in H. apply H, in_map_iff. exists (Z.to_nat b).
  unfold byte_ok in Hb. rewrite in_seq. lia.
Qed.

Lemma continuation_spec b : byte_ok b ->
  IS_CONTINUATION_BYTE b = (0x80 <=? b) && (b <? 0xC0).
Proof.
  intros Hb. apply eqb_prop.
  by apply (byte_cases (fun b => Bool.eqb (IS_CONTINUATION_BYTE b) ((0x80 <=? b) && (b <? 0xC0)))).
Qed.

Lemma continuation_bits b : byte_ok b -> IS_CONTINUATION_BYTE b = true -> Z.lxor b 0x80 = b - 0x80.
Proof.
  intros Hb Hc. pose proof (byte_cases
    (fun b => negb (IS_CONTINUATION_BYTE b) || (Z.lxor b 0x80 =? b - 0x80)) b eq_refl Hb) as H.
  simpl in H. rewrite Hc in H. simpl in H. lia.
Qed.

Lemma lead_bits b : byte_ok b ->
  (0xC0 <= b < 0xE0 -> Z.land b 0x1f = b - 0xC0) /\
  (0xE0 <= b < 0xF0 -> Z.land b 0x0f = b - 0xE0) /\
  (0xF0 <= b < 0xF8 -> Z.land b 0x07 = b - 0xF0).
Proof.
  intros Hb. pose proof (byte_cases (fun b =>
    (negb ((0xC0 <=? b) && (b <? 0xE0)) || (Z.land b 0x1f =? b - 0xC0)) &&
    (negb ((0xE0 <=? b) && (b <? 0xF0)) || (Z.land b 0x0f =? b - 0xE0)) &&
    (negb ((0xF0 <=? b) && (b <? 0xF8)) || (Z.land b 0x07 =? b - 0xF0))) b eq_refl Hb) as H.
  simpl in H. lia.
Qed.

Lemma CODE2_spec b0 b1 : byte_ok b0 -> byte_ok b1 -> 0xC0 <= b0 < 0xE0 ->
  IS_CONTINUATION_BYTE b1 = true -> UTF8MB2_CODE b0 b1 = (b0 - 0xC0) * 64 + (b1 - 0x80).
Proof.
  intros H0 H1 Hr Hc. unfold UTF8MB2_CODE. destruct (lead_bits _ H0) as (-> & _); [|done].
  rewrite continuation_bits by done. rewrite continuation_spec in Hc by done.
  rewrite lor_shift; [reflexivity|lia|lia|change (2 ^ 6) with 64; lia].
Qed.

Lemma CODE3_spec b0 b1 b2 : byte_ok b0 -> byte_ok b1 -> byte_ok b2 -> 0xE0 <= b0 < 0xF0 ->
  IS_CONTINUATION_BYTE b1 = true -> IS_CONTINUATION_BYTE b2 = true ->
  UTF8MB3_CODE b0 b1 b2 = (b0 - 0xE0) * 4096 + (b1 - 0x80) * 64 + (b2 - 0x80).
Proof.
  intros H0 H1 H2 Hr Hc1 Hc2. unfold UTF8MB3_CODE. destruct (lead_bits _ H0) as (_ & -> & _); [|done].
  rewrite !continuation_bits by done. rewrite continuation_spec in Hc1, Hc2 by done.
  replace (Z.shiftl (b0 - 0xE0) 12) with (Z.shiftl ((b0 - 0xE0) * 2 ^ 6) 6)
    by (rewrite !Z.shiftl_mul_pow2 by lia; lia).
  rewrite <- Z.shiftl_lor, lor_low, lor_shift; [change (2 ^ 6) with 64; lia|change (2 ^ 6) with 64; lia..].
Qed.

Lemma CODE4_spec b0 b1 b2 b3 : byte_ok b0 -> byte_ok b1 -> byte_ok b2 -> byte_ok b3 ->
  0xF0 <= b0 < 0xF8 -> IS_CONTINUATION_BYTE b1 = true -> IS_CONTINUATION_BYTE b2 = true ->
  IS_CONTINUATION_BYTE b3 = true ->
  UTF8MB4_CODE b0 b1 b2 b3 = (b0 - 0xF0) * 262144 + (b1 - 0x80) * 4096 + (b2 - 0x80) * 64 + (b3 - 0x80).
Proof.
  intros H0 H1 H2 H3 Hr Hc1 Hc2 Hc3. unfold UTF8MB4_CODE.
  destruct (lead_bits _ H0) as (_ & _ & ->); [|done].
  rewrite !continuation_bits by done. rewrite continuation_spec in Hc1, Hc2, Hc3 by done.
  replace (Z.shiftl (b0 - 0xF0) 18) with (Z.shiftl ((b0 - 0xF0) * 2 ^ 6) 12)
    by (rewrite !Z.shiftl_mul_pow2 by lia; lia).
  rewrite <- Z.shiftl_lor, lor_low by (change (2 ^ 6) with 64; lia).
  replace (Z.shiftl ((b0 - 0xF0) * 2 ^ 6 + (b1 - 0x80)) 12)
    with (Z.shiftl (((b0 - 0xF0) * 2 ^ 6 + (b1 - 0x80)) * 2 ^ 6) 6)
    by (rewrite !Z.shiftl_mul_pow2 by lia; lia).
  rewrite <- Z.shiftl_lor, lor_low, lor_shift; change (2 ^ 6) with 64; lia.
Qed.

(** ** The definition of UTF-8 *)

Definition utf8_bytes (wc : Z) : list Z :=
  if wc <? 0x80 then [wc]
  else if wc <? 0x800 then [0xC0 + wc / 64; 0x80 + wc mod 64]
  else if wc <? 0x10000 then [0xE0 + wc / 4096; 0x80 + wc / 64 mod 64; 0x80 + wc mod 64]
  else [0xF0 + wc / 262144; 0x80 + wc / 4096 mod 64; 0x80 + wc / 64 mod 64; 0x80 + wc mod 64].

Definition utf8_length (wc : Z) : Z :=
  if wc <? 0x80 then 1 else if wc <? 0x800 then 2 else if wc <? 0x10000 then 3 else 4.

Lemma utf8_length_range wc : 1 <= utf8_length wc <= 4.
Proof. unfold utf8_length. repeat case_match; lia. Qed.

Lemma utf8_bytes_length wc : Z.of_nat (length (utf8_bytes wc)) = utf8_length wc.
Proof. unfold utf8_bytes, utf8_length. by repeat case_match. Qed.

(** Division and remainder of a code by powers of 64 *)
Ltac codes :=
  repeat match goal with
  | H : byte_ok _ |- _ => unfold byte_ok in H
  | x := _ : Z |- _ => subst x
  end;
  Z.to_euclidean_division_equations; lia.

Lemma utf8_bytes_ok wc : 0 <= wc < 0x200000 -> bytes (utf8_bytes wc).
Proof.
  intros H. unfold utf8_bytes. repeat case_match; bool_to_prop; repeat constructor; unfold byte_ok; codes.
Qed.

(** ** Encoding *)

Lemma tail_byte x : u8 (Z.lor 0x80 (Z.land x 0x3f)) = 0x80 + x mod 64.
Proof.
  rewrite land_3f. pose proof (Z.mod_pos_bound x 64). change 0x80 with (2 * 2 ^ 6) at 1.
  rewrite lor_low by (change (2 ^ 6) with 64; lia). unfold u8. rewrite Z.mod_small; lia.
Qed.

Lemma my_uni_utf8mb3_spec wc room : 0 <= wc ->
  my_uni_utf8mb3 wc room =
  if wc <? 0x10000 then
    if room <? utf8_length wc then (MY_CS_TOOSMALLN (utf8_length wc), [])
    else (utf8_length wc, utf8_bytes wc)
  else (MY_CS_ILUNI, []).
Proof.
  intros H0. unfold my_uni_utf8mb3, utf8_length, utf8_bytes. rewrite !tail_byte, shiftr_6.
  destruct (Z.ltb_spec wc 0x80), (Z.ltb_spec wc 0x800), (Z.ltb_spec wc 0x10000); try lia; try done.
  - destruct (Z.leb_spec room 0), (Z.ltb_spec room 1); try lia; [done|].
    unfold u8. by rewrite Z.mod_small by lia.
  - case_match; [done|]. change 0xC0 with (3 * 2 ^ 6) at 1.
    rewrite lor_low by (change (2 ^ 6) with 64; codes). unfold u8. rewrite Z.mod_small by codes. done.
  - case_match; [done|]. change 0xE0 with (14 * 2 ^ 4) at 1. rewrite Z.shiftr_div_pow2 by done.
    change (2 ^ 12) with 4096.
    rewrite lor_low by (change (2 ^ 4) with 16; codes). unfold u8. rewrite Z.mod_small by codes. done.
Qed.

Lemma lor_mark x k a : 0 <= k -> 0 <= a -> 0 <= x < 2 ^ k -> Z.lor x (a * 2 ^ k) = x + a * 2 ^ k.
Proof. intros. rewrite Z.lor_comm, lor_low by done. lia. Qed.

Lemma my_wc_mb_utf8mb4_spec wc room : 0 <= wc ->
  my_wc_mb_utf8mb4 wc room =
  if room <=? 0 then (MY_CS_TOOSMALL, []) else
  if wc <? 0x200000 then
    if room <? utf8_length wc then (MY_CS_TOOSMALLN (utf8_length wc), [])
    else (utf8_length wc, utf8_bytes wc)
  else (MY_CS_ILUNI, []).
Proof.
  intros H0. unfold my_wc_mb_utf8mb4, utf8_length, utf8_bytes. destruct (room <=? 0); [done|].
  unfold wc_mb_case4, wc_mb_case3, wc_mb_case2, wc_mb_case1. rewrite !tail_byte, !shiftr_6.
  destruct (Z.ltb_spec wc 0x80), (Z.ltb_spec wc 0x800), (Z.ltb_spec wc 0x10000),
    (Z.ltb_spec wc 0x200000); try lia; try done; case_match; try done; f_equal.
  - unfold u8. by rewrite Z.mod_small by lia.
  - change 0xc0 with (3 * 2 ^ 6) at 1. rewrite lor_mark by (change (2 ^ 6) with 64; codes).
    unfold u8. rewrite Z.mod_small by codes. f_equal. lia.
  - change 0x800 with (1 * 2 ^ 11) at 1 2. rewrite lor_mark by (change (2 ^ 11) with 2048; codes).
    change 0xc0 with (3 * 2 ^ 6) at 1. rewrite lor_mark by (change (2 ^ 6) with 64; codes).
    unfold u8. rewrite Z.mod_small by codes. f_equal; [codes|]. f_equal. codes.
  - change 0x10000 with (1 * 2 ^ 16) at 1 2 3. rewrite lor_mark by (change (2 ^ 16) with 65536; codes).
    change 0x800 with (1 * 2 ^ 11) at 1 2. rewrite lor_mark by (change (2 ^ 11) with 2048; codes).
    change 0xc0 with (3 * 2 ^ 6) at 1. rewrite lor_mark by (change (2 ^ 6) with 64; codes).
    unfold u8. rewrite Z.mod_small by codes. f_equal; [codes|]. f_equal; [codes|]. f_equal. codes.
Qed.

(** ** Decoding *)

Lemma IS_CONTINUATION_true b : byte_ok b -> IS_CONTINUATION_BYTE b = true -> 0x80 <= b < 0xC0.
Proof. intros Hb. rewrite continuation_spec by done. lia. Qed.

Lemma IS_CONTINUATION_tail x : 0 <= x < 64 -> IS_CONTINUATION_BYTE (0x80 + x) = true.
Proof. intros Hx. rewrite continuation_spec by (unfold byte_ok; lia). lia. Qed.

(** The two decoders differ only in the lead bytes of four-byte characters. *)
Lemma mb3_mb4 s :
  my_mb_wc_utf8mb3_quick s =
  if 0xf0 <=? nth 0 s 0 then (MY_CS_ILSEQ, None) else my_mb_wc_utf8mb4_quick s.
Proof.
  destruct s as [|c s]; [done|]. simpl nth. unfold my_mb_wc_utf8mb3_quick, my_mb_wc_utf8mb4_quick.
  destruct (Z.ltb_spec c 0x80), (Z.ltb_spec c 0xc2), (Z.ltb_spec c 0xe0), (Z.ltb_spec c 0xf0),
    (Z.leb_spec 0xf0 c); try lia; done.
Qed.

(** Replaces the tests of a decoder by what they say. *)
Ltac decoder_step :=
  match goal with
  | H : bytes (_ :: _) |- _ => apply Forall_cons in H as [? H]
  | H : context [negb ?b] |- _ => destruct b eqn:?; simpl in H
  | H : context [if ?b then _ else _] |- _ => destruct b eqn:?
  | H : context [match ?l with [] => _ | _ :: _ => _ end] |- _ => destruct l
  | H : (_, None) = (_, Some _) |- _ => discriminate H
  | H : (_, Some _) = (_, Some _) |- _ => injection H as <- <-
  end.

Lemma utf8_bytes_1 b : 0 <= b < 0x80 -> utf8_bytes b = [b].
Proof. intros. unfold utf8_bytes. by rewrite (proj2 (Z.ltb_lt b 0x80)) by lia. Qed.

Lemma utf8_bytes_2 wc b0 b1 : wc = (b0 - 0xC0) * 64 + (b1 - 0x80) -> 0xC2 <= b0 < 0xE0 ->
  0x80 <= b1 < 0xC0 -> utf8_bytes wc = [b0; b1] /\ 0x80 <= wc < 0x800.
Proof.
  intros E H0 H1. assert (0x80 <= wc < 0x800) as Hw by lia. split; [|done]. unfold utf8_bytes.
  rewrite (proj2 (Z.ltb_ge wc 0x80)), (proj2 (Z.ltb_lt wc 0x800)) by lia.
  f_equal; [codes|]. f_equal. codes.
Qed.

Lemma utf8_bytes_3 wc b0 b1 b2 : wc = (b0 - 0xE0) * 4096 + (b1 - 0x80) * 64 + (b2 - 0x80) ->
  0xE0 <= b0 < 0xF0 -> 0x80 <= b1 < 0xC0 -> 0x80 <= b2 < 0xC0 -> 0xe1 <= b0 \/ 0xa0 <= b1 ->
  utf8_bytes wc = [b0; b1; b2] /\ 0x800 <= wc < 0x10000.
Proof.
  intros E H0 H1 H2 Hm. assert (0x800 <= wc < 0x10000) as Hw by lia. split; [|done]. unfold utf8_bytes.
  rewrite (proj2 (Z.ltb_ge wc 0x80)), (proj2 (Z.ltb_ge wc 0x800)), (proj2 (Z.ltb_lt wc 0x10000)) by lia.
  f_equal; [codes|]. f_equal; [codes|]. f_equal. codes.
Qed.

Lemma utf8_bytes_4 wc b0 b1 b2 b3 :
  wc = (b0 - 0xF0) * 262144 + (b1 - 0x80) * 4096 + (b2 - 0x80) * 64 + (b3 - 0x80) ->
  0xF0 <= b0 < 0xF5 -> 0x80 <= b1 < 0xC0 -> 0x80 <= b2 < 0xC0 -> 0x80 <= b3 < 0xC0 ->
  0xf1 <= b0 \/ 0x90 <= b1 -> b0 <= 0xf3 \/ b1 <= 0x8F ->
  utf8_bytes wc = [b0; b1; b2; b3] /\ 0x10000 <= wc < 0x110000.
Proof.
  intros E H0 H1 H2 H3 Hm HM. assert (0x10000 <= wc < 0x110000) as Hw by lia. split; [|done].
  unfold utf8_bytes.
  rewrite (proj2 (Z.ltb_ge wc 0x80)), (proj2 (Z.ltb_ge wc 0x800)), (proj2 (Z.ltb_ge wc 0x10000)) by lia.
  f_equal; [codes|]. f_equal; [codes|]. f_equal; [codes|]. f_equal. codes.
Qed.

(** What the tests on three and four bytes say *)
Lemma STEP3_spec b0 b1 b2 : byte_ok b1 -> byte_ok b2 ->
  IS_UTF8MB3_STEP2 b0 b1 b2 = true <->
  (0x80 <= b1 < 0xC0 /\ 0x80 <= b2 < 0xC0 /\ (0xe1 <= b0 \/ 0xa0 <= b1)).
Proof. intros H1 H2. unfold IS_UTF8MB3_STEP2. rewrite !continuation_spec by done. lia. Qed.

Lemma STEP4_spec b0 b1 b2 b3 : byte_ok b1 -> byte_ok b2 -> byte_ok b3 ->
  IS_UTF8MB4_STEP2 b0 b1 b2 b3 = true <->
  (0x80 <= b1 < 0xC0 /\ 0x80 <= b2 < 0xC0 /\ 0x80 <= b3 < 0xC0 /\
   (0xf1 <= b0 \/ 0x90 <= b1) /\ (b0 <= 0xf3 \/ b1 <= 0x8F)).
Proof. intros H1 H2 H3. unfold IS_UTF8MB4_STEP2. rewrite !continuation_spec by done. lia. Qed.

Lemma IS_CONTINUATION_intro b : 0x80 <= b < 0xC0 -> IS_CONTINUATION_BYTE b = true.
Proof. intros Hb. rewrite continuation_spec by (unfold byte_ok; lia). lia. Qed.

Lemma mb4_sound s n wc : bytes s -> my_mb_wc_utf8mb4_quick s = (n, Some wc) ->
  0 <= wc < 0x110000 /\ n = utf8_length wc /\ exists r, s = utf8_bytes wc ++ r.
Proof.
  intros Hs H. rewrite <- utf8_bytes_length. unfold my_mb_wc_utf8mb4_quick in H.
  repeat decoder_step; bool_to_prop.
  - rewrite utf8_bytes_1 by (unfold byte_ok in *; lia). unfold byte_ok in *. split_and!; [lia|lia|done|by eexists].
  - edestruct utf8_bytes_2 as [-> Hw]; [by apply CODE2_spec; first [done|lia]|lia|by apply IS_CONTINUATION_true|].
    split_and!; [lia|lia|done|by eexists].
  - match goal with H : IS_UTF8MB3_STEP2 _ _ _ = true |- _ => apply STEP3_spec in H as (? & ? & ?); [|done..] end.
    edestruct utf8_bytes_3 as [-> Hw];
      [apply CODE3_spec; first [done|lia|by apply IS_CONTINUATION_intro]|lia|done..|].
    split_and!; [lia|lia|done|by eexists].
  - match goal with H : IS_UTF8MB4_STEP2 _ _ _ _ = true |- _ =>
      apply STEP4_spec in H as (? & ? & ? & ? & ?); [|done..] end.
    edestruct utf8_bytes_4 as [-> Hw];
      [apply CODE4_spec; first [done|lia|by apply IS_CONTINUATION_intro]|lia|done..|].
    split_and!; [lia|lia|done|by eexists].
Qed.

Lemma mb4_complete wc r : 0 <= wc < 0x110000 ->
  my_mb_wc_utf8mb4_quick (utf8_bytes wc ++ r) = (utf8_length wc, Some wc).
Proof.
  intros Hw. unfold my_mb_wc_utf8mb4_quick, utf8_bytes, utf8_length.
  destruct (Z.ltb_spec wc 0x80), (Z.ltb_spec wc 0x800), (Z.ltb_spec wc 0x10000); try lia; cbn [app]; cbv iota beta.
  - by rewrite (proj2 (Z.ltb_lt wc 0x80)).
  - set (b0 := 0xC0 + wc / 64). set (b1 := 0x80 + wc mod 64).
    assert (0xC2 <= b0 < 0xE0 /\ 0x80 <= b1 < 0xC0) as [H0' H1'] by codes.
    rewrite (proj2 (Z.ltb_ge b0 _)), (proj2 (Z.ltb_ge b0 _)), (proj2 (Z.ltb_lt b0 _)) by lia.
    rewrite IS_CONTINUATION_intro by done. simpl.
    rewrite CODE2_spec by (first [unfold byte_ok; lia|lia|by apply IS_CONTINUATION_intro]).
    do 2 f_equal. codes.
  - set (b0 := 0xE0 + wc / 4096). set (b1 := 0x80 + wc / 64 mod 64). set (b2 := 0x80 + wc mod 64).
    assert (0xE0 <= b0 < 0xF0 /\ 0x80 <= b1 < 0xC0 /\ 0x80 <= b2 < 0xC0 /\ (0xe1 <= b0 \/ 0xa0 <= b1))
      as (H0' & H1' & H2' & Hm) by codes.
    rewrite (proj2 (Z.ltb_ge b0 _)), (proj2 (Z.ltb_ge b0 _)), (proj2 (Z.ltb_ge b0 _)),
      (proj2 (Z.ltb_lt b0 _)) by lia.
    rewrite (proj2 (STEP3_spec b0 b1 b2 ltac:(unfold byte_ok; lia) ltac:(unfold byte_ok; lia))) by done. simpl.
    rewrite CODE3_spec by (first [unfold byte_ok; lia|lia|by apply IS_CONTINUATION_intro]).
    do 2 f_equal. codes.
  - set (b0 := 0xF0 + wc / 262144). set (b1 := 0x80 + wc / 4096 mod 64).
    set (b2 := 0x80 + wc / 64 mod 64). set (b3 := 0x80 + wc mod 64).
    assert (0xF0 <= b0 < 0xF5 /\ 0x80 <= b1 < 0xC0 /\ 0x80 <= b2 < 0xC0 /\ 0x80 <= b3 < 0xC0 /\
      (0xf1 <= b0 \/ 0x90 <= b1) /\ (b0 <= 0xf3 \/ b1 <= 0x8F))
      as (H0' & H1' & H2' & H3' & Hm & HM) by codes.
    rewrite (proj2 (Z.ltb_ge b0 _)), (proj2 (Z.ltb_ge b0 _)), (proj2 (Z.ltb_ge b0 _)),
      (proj2 (Z.ltb_ge b0 _)), (proj2 (Z.ltb_lt b0 _)) by lia.
    rewrite (proj2 (STEP4_spec b0 b1 b2 b3 ltac:(unfold byte_ok; lia) ltac:(unfold byte_ok; lia)
      ltac:(unfold byte_ok; lia))) by done. simpl.
    rewrite CODE4_spec by (first [unfold byte_ok; lia|lia|by apply IS_CONTINUATION_intro]).
    do 2 f_equal. codes.
Qed.

Lemma mb4_error s n : my_mb_wc_utf8mb4_quick s = (n, None) -> n <= 0.
Proof.
  unfold my_mb_wc_utf8mb4_quick. intros H. repeat case_match; simplify_eq; vm_compute; discriminate.
Qed.

(** The bytes of a character that is cut off *)
Lemma mb4_cut wc k : 0 <= wc < 0x110000 -> (k < length (utf8_bytes wc))%nat ->
  my_mb_wc_utf8mb4_quick (take k (utf8_bytes wc)) =
  (if (k =? 0)%nat then MY_CS_TOOSMALL else MY_CS_TOOSMALLN (utf8_length wc), None).
Proof.
  intros Hw. unfold utf8_bytes, utf8_length.
  destruct (Z.ltb_spec wc 0x80), (Z.ltb_spec wc 0x800), (Z.ltb_spec wc 0x10000); try lia; simpl length;
    intros Hk; destruct k as [|k]; try done; try lia; simpl take; unfold my_mb_wc_utf8mb4_quick.
  - rewrite (proj2 (Z.ltb_ge _ _)), (proj2 (Z.ltb_ge _ _)), (proj2 (Z.ltb_lt _ _)) by codes.
    destruct k as [|k]; [done|lia].
  - rewrite (proj2 (Z.ltb_ge _ _)), (proj2 (Z.ltb_ge _ _)), (proj2 (Z.ltb_ge _ _)),
      (proj2 (Z.ltb_lt _ _)) by codes.
    destruct k as [|[|k]]; [done|done|lia].
  - rewrite (proj2 (Z.ltb_ge _ _)), (proj2 (Z.ltb_ge _ _)), (proj2 (Z.ltb_ge _ _)),
      (proj2 (Z.ltb_ge _ _)), (proj2 (Z.ltb_lt _ _)) by codes.
    destruct k as [|[|[|k]]]; [done|done|done|lia].
Qed.

Lemma charlen_mb4 s : my_charlen_utf8mb4 s = (my_mb_wc_utf8mb4_quick s).1.
Proof.
  unfold my_charlen_utf8mb4, my_valid_mbcharlen_utf8mb3, my_mb_wc_utf8mb4_quick.
  destruct s as [|c s]; [done|]. simpl nth.
  destruct (Z.ltb_spec c 0x80), (Z.ltb_spec c 0xc2), (Z.ltb_spec c 0xe0), (Z.ltb_spec c 0xf0); try lia;
    repeat case_match; done.
Qed.

Lemma charlen_mb3 s : my_charlen_utf8mb3 s = (my_mb_wc_utf8mb3_quick s).1.
Proof.
  rewrite mb3_mb4. destruct s as [|c s]; [done|]. simpl nth. unfold my_charlen_utf8mb3.
  destruct (Z.ltb_spec c 0xf0), (Z.leb_spec 0xf0 c); try lia; [|done].
  rewrite <- charlen_mb4. unfold my_charlen_utf8mb4. by rewrite (proj2 (Z.ltb_lt c 0xf0)).
Qed.

(** ** The two character sets *)

(** What the functions on strings and the collations rely on: [mb_wc] decodes the bytes of the
    characters below [max] and nothing else. *)
Class Utf8Charset (cset : MY_CHARSET_HANDLER) (max : Z) : Prop := {
  utf8_max : 0x80 <= max <= 0x110000;
  utf8_sound s n wc : bytes s -> mb_wc cset s = (n, Some wc) ->
    0 <= wc < max /\ n = utf8_length wc /\ exists r, s = utf8_bytes wc ++ r;
  utf8_complete wc r : 0 <= wc < max -> mb_wc cset (utf8_bytes wc ++ r) = (utf8_length wc, Some wc);
  utf8_error s n : mb_wc cset s = (n, None) -> n <= 0;
  utf8_cut wc k : 0 <= wc < max -> (k < length (utf8_bytes wc))%nat ->
    mb_wc cset (take k (utf8_bytes wc)) =
    (if (k =? 0)%nat then MY_CS_TOOSMALL else MY_CS_TOOSMALLN (utf8_length wc), None);
  utf8_charlen s : charlen cset s = (mb_wc cset s).1;
  utf8_wc_mb wc room : 0 <= wc < max -> 0 < room ->
    wc_mb cset wc room = if room <? utf8_length wc then (MY_CS_TOOSMALLN (utf8_length wc), [])
                         else (utf8_length wc, utf8_bytes wc);
  utf8_no_room wc room : 0 <= wc < max -> room <= 0 -> (wc_mb cset wc room).1 <= 0;
}.

#[export] Instance utf8mb4_charset : Utf8Charset my_charset_utf8mb4_handler 0x110000.
Proof.
  split; simpl; [lia|exact mb4_sound|exact mb4_complete|exact mb4_error|exact mb4_cut|exact charlen_mb4|..];
    intros wc room Hw Hr; rewrite my_wc_mb_utf8mb4_spec by lia.
  - by rewrite (proj2 (Z.leb_gt room 0)), (proj2 (Z.ltb_lt wc 0x200000)) by lia.
  - by rewrite (proj2 (Z.leb_le room 0)) by lia.
Qed.

(** The lead byte tells the characters above U+FFFF. *)
Lemma lead_byte wc r : 0 <= wc < 0x110000 -> (0xf0 <=? nth 0 (utf8_bytes wc ++ r) 0) = (0x10000 <=? wc).
Proof.
  intros Hw. unfold utf8_bytes.
  destruct (Z.ltb_spec wc 0x80), (Z.ltb_spec wc 0x800), (Z.ltb_spec wc 0x10000), (Z.leb_spec 0x10000 wc);
    try lia; simpl nth; first [apply Z.leb_le|apply Z.leb_gt]; codes.
Qed.

#[export] Instance utf8mb3_charset : Utf8Charset my_charset_utf8mb3_handler 0x10000.
Proof.
  split; simpl; unfold my_utf8mb3_uni; [lia|..|exact charlen_mb3| |].
  - intros s n wc Hs H. rewrite mb3_mb4 in H. destruct (0xf0 <=? nth 0 s 0) eqn:El; [done|].
    destruct (mb4_sound s n wc Hs H) as (Hw & Hn & r & ->). rewrite lead_byte in El by done.
    split; [lia|]. by split; [|eexists].
  - intros wc r Hw. rewrite mb3_mb4, lead_byte by lia.
    rewrite (proj2 (Z.leb_gt 0x10000 wc)) by lia. apply mb4_complete. lia.
  - intros s n H. rewrite mb3_mb4 in H. case_match; [by simplify_eq|by eapply mb4_error].
  - intros wc k Hw Hk. rewrite mb3_mb4. pose proof (lead_byte wc [] ltac:(lia)) as El.
    rewrite app_nil_r in El. destruct k as [|k]; [done|].
    assert (nth 0 (take (S k) (utf8_bytes wc)) 0 = nth 0 (utf8_bytes wc) 0) as ->
      by (by destruct (utf8_bytes wc)).
    rewrite El, (proj2 (Z.leb_gt 0x10000 wc)) by lia. apply mb4_cut; [lia|done].
  - intros wc room Hw Hr. rewrite my_uni_utf8mb3_spec by lia.
    by rewrite (proj2 (Z.ltb_lt wc 0x10000)) by lia.
  - intros wc room Hw Hr. rewrite my_uni_utf8mb3_spec by lia.
    rewrite (proj2 (Z.ltb_lt wc 0x10000)) by lia. pose proof (utf8_length_range wc).
    rewrite (proj2 (Z.ltb_lt _ _)) by lia. simpl. unfold MY_CS_TOOSMALLN. lia.
Qed.

(** ** The order of characters *)

Lemma utf8_order a b : 0 <= a < 0x200000 -> 0 <= b < 0x200000 -> a < b ->
  memcmp (utf8_bytes a) (utf8_bytes b) = -1.
Proof.
  intros Ha Hb Hab. unfold utf8_bytes.
  destruct (Z.ltb_spec a 0x80), (Z.ltb_spec a 0x800), (Z.ltb_spec a 0x10000),
    (Z.ltb_spec b 0x80), (Z.ltb_spec b 0x800), (Z.ltb_spec b 0x10000); try lia; simpl;
    repeat match goal with
    | |- context [?x <? ?y] => destruct (Z.ltb_spec x y); try done; try (exfalso; codes)
    end.
Qed.

(** ** Correctness *)

(** Four bytes that encode no character: U+110000 to U+1FFFFF *)
Lemma mb4_above wc r : 0x110000 <= wc < 0x200000 ->
  my_mb_wc_utf8mb4_quick (utf8_bytes wc ++ r) = (MY_CS_ILSEQ, None).
Proof.
  intros Hw. unfold utf8_bytes.
  rewrite (proj2 (Z.ltb_ge wc 0x80)), (proj2 (Z.ltb_ge wc 0x800)), (proj2 (Z.ltb_ge wc 0x10000)) by lia.
  set (b0 := 0xF0 + wc / 262144). set (b1 := 0x80 + wc / 4096 mod 64).
  set (b2 := 0x80 + wc / 64 mod 64). set (b3 := 0x80 + wc mod 64).
  assert (0xF4 <= b0 < 0xF8 /\ 0x80 <= b1 < 0xC0 /\ 0x80 <= b2 < 0xC0 /\ 0x80 <= b3 < 0xC0 /\
    (0xF5 <= b0 \/ 0x90 <= b1)) as (H0 & H1 & H2 & H3 & H4) by codes.
  simpl app. unfold my_mb_wc_utf8mb4_quick.
  rewrite (proj2 (Z.ltb_ge b0 _)), (proj2 (Z.ltb_ge b0 _)), (proj2 (Z.ltb_ge b0 _)),
    (proj2 (Z.ltb_ge b0 _)) by lia.
  destruct (Z.ltb_spec b0 0xf5); [|done].
  replace (IS_UTF8MB4_STEP2 b0 b1 b2 b3) with false; [done|]. symmetry. apply not_true_iff_false.
  rewrite STEP4_spec by (unfold byte_ok; lia). lia.
Qed.

Lemma memcmp_prefix a b r1 r2 : memcmp a b = -1 -> memcmp (a ++ r1) (b ++ r2) = -1.
Proof.
  revert b. induction a as [|x a IH]; intros [|y b]; simpl; try done.
  destruct (x <? y), (y <? x); auto.
Qed.

(** C34: utf8mb3 encodes the characters up to U+FFFF, utf8mb4 those up to U+10FFFF.  Each is written as
    the bytes that UTF-8 gives it, if there is room for them; whatever follows them, they are decoded
    to the same character with the same length; and every sequence that is decoded is the one that its
    character is encoded as, so that no overlong or other form is accepted.  Everything else is an
    error code, a character cut off gives the number of bytes it needs, and [memcmp] orders characters
    by their codes.  Other characters cannot be encoded, but utf8mb4 encodes U+110000 to U+1FFFFF into
    bytes that it does not decode. *)
Theorem utf8_codec_correct (mb4 : bool) :
  let cset := if mb4 then my_charset_utf8mb4_handler else my_charset_utf8mb3_handler in
  let max := if mb4 then 0x110000 else 0x10000 in
  (forall wc room r, 0 <= wc < max -> utf8_length wc <= room ->
     wc_mb cset wc room = (utf8_length wc, utf8_bytes wc) /\
     mb_wc cset (utf8_bytes wc ++ r) = (utf8_length wc, Some wc)) /\
  (forall s n wc, bytes s -> mb_wc cset s = (n, Some wc) ->
     0 <= wc < max /\ wc_mb cset wc n = (n, take (Z.to_nat n) s)) /\
  (forall s, (mb_wc cset s).2 = None <-> (mb_wc cset s).1 <= 0) /\
  (forall s, charlen cset s = (mb_wc cset s).1) /\
  (forall wc k, 0 <= wc < max -> (0 < k < length (utf8_bytes wc))%nat ->
     mb_wc cset (take k (utf8_bytes wc)) = (MY_CS_TOOSMALLN (utf8_length wc), None)) /\
  (forall a b r1 r2, 0 <= a < max -> 0 <= b < max -> a < b ->
     memcmp (utf8_bytes a ++ r1) (utf8_bytes b ++ r2) = -1) /\
  (forall wc room, max <= wc -> 4 <= room ->
     wc_mb cset wc room =
       if mb4 && (wc <? 0x200000) then (4, utf8_bytes wc) else (MY_CS_ILUNI, [])) /\
  (forall wc r, 0x110000 <= wc < 0x200000 ->
     mb_wc my_charset_utf8mb4_handler (utf8_bytes wc ++ r) = (MY_CS_ILSEQ, None)).
Proof.
  intros cset max.
  assert (Utf8Charset cset max) as Hc by (destruct mb4; apply _).
  pose proof utf8_length_range as Hpos.
  pose proof (utf8_max (cset:=cset) (max:=max)) as Hmax.
  split_and!.
  - intros wc room r Hw Hr. specialize (Hpos wc). rewrite utf8_wc_mb, utf8_complete by (done || lia).
    by rewrite (proj2 (Z.ltb_ge _ _)) by done.
  - intros s n wc Hs H. destruct (utf8_sound s n wc Hs H) as (Hw & -> & r & ->). specialize (Hpos wc).
    rewrite utf8_wc_mb, Z.ltb_irrefl by (done || lia). split; [done|].
    by rewrite <- utf8_bytes_length, Nat2Z.id, take_app_length.
  - intros s. destruct (mb_wc cset s) as [n [wc|]] eqn:E; simpl; [|split; [intros _; by eapply utf8_error|done]].
    split; [done|]. intros Hn. exfalso. revert Hn. destruct mb4; simpl in E.
    + unfold my_mb_wc_utf8mb4, my_mb_wc_utf8mb4_quick in E. repeat case_match; simplify_eq; lia.
    + unfold my_utf8mb3_uni, my_mb_wc_utf8mb3_quick in E. repeat case_match; simplify_eq; lia.
  - apply utf8_charlen.
  - intros wc k Hw Hk. rewrite utf8_cut by (done || lia). by destruct k; [lia|].
  - intros a b r1 r2 Ha Hb Hab. apply memcmp_prefix, utf8_order; lia.
  - intros wc room Hw Hr. destruct mb4; simpl.
    + rewrite my_wc_mb_utf8mb4_spec, (proj2 (Z.leb_gt room 0)) by (unfold max in *; lia).
      destruct (wc <? 0x200000); [|done]. unfold utf8_length.
      rewrite (proj2 (Z.ltb_ge wc 0x80)), (proj2 (Z.ltb_ge wc 0x800)), (proj2 (Z.ltb_ge wc 0x10000)),
        (proj2 (Z.ltb_ge room 4)) by (unfold max in *; lia). done.
    + rewrite my_uni_utf8mb3_spec, (proj2 (Z.ltb_ge wc 0x10000)) by (unfold max in *; lia). done.
  - exact mb4_above.
Qed.

(** The euro sign, alone and cut off *)
Lemma utf8_codec_correct_witness :
  mb_wc my_charset_utf8mb4_handler ([0xE2; 0x82; 0xAC] ++ [0x20]) = (3, Some 0x20AC) /\
  mb_wc my_charset_utf8mb4_handler (take 2 [0xE2; 0x82; 0xAC]) = (-103, None) /\
  memcmp ([0xE2; 0x82; 0xAC] ++ []) ([0xF0; 0x9F; 0x98; 0x80] ++ []) = -1.
Proof.
  destruct (utf8_codec_correct true) as (H1 & _ & _ & _ & H2 & H3 & _).
  split; [|split].
  - apply (H1 0x20AC 3 [0x20]); [lia|vm_compute; discriminate].
  - apply (H2 0x20AC 2%nat); [lia|vm_compute; lia].
  - apply (H3 0x20AC 0x1F600 [] []); lia.
Defined.
