(* ===== verification/Utf8Strings.v ===== *)
(** * UTF-8: functions on strings

    A string is read as a sequence of characters and bad bytes ([scan]).  Against this reading: the
    functions of strings/ctype-mb.c that count characters and find positions, the length of the
    well-formed prefix, and the copy with bad bytes replaced by question marks. *)

From S2P Require Import Prelude Bytes Utf8 Utf8Props.

Inductive item := Char (wc : Z) | Bad (b : Z).

Definition item_bytes (i : item) : list Z :=
  match i with Char wc => utf8_bytes wc | Bad b => [b] end.

(** The bytes of the first items *)
Definition spell (l : list item) : list Z := concat (map item_bytes l).

Definition is_char (i : item) : bool := match i with Char _ => true | Bad _ => false end.

Section Scan.
Context (cset : MY_CHARSET_HANDLER).

Fixpoint scan_loop (fuel : nat) (s : list Z) : list item :=
  match fuel, s with
  | S fuel, b :: s' =>
      match mb_wc cset s with
      | (n, Some wc) => Char wc :: scan_loop fuel (skip n s)
      | (_, None) => Bad b :: scan_loop fuel s'
      end
  | _, _ => []
  end.

Definition scan (s : list Z) : list item := scan_loop (length s) s.
End Scan.

Section Charset.
Context (cset : MY_CHARSET_HANDLER) (max : Z) `{!Utf8Charset cset max}.

(** [scan] as a relation, for rule induction *)
Inductive scanned : list Z -> list item -> Prop :=
  | scanned_nil : scanned [] []
  | scanned_char wc r l : 0 <= wc < max -> scanned r l -> scanned (utf8_bytes wc ++ r) (Char wc :: l)
  | scanned_bad b r l n : mb_wc cset (b :: r) = (n, None) -> scanned r l -> scanned (b :: r) (Bad b :: l).

Lemma skip_char wc r : skip (utf8_length wc) (utf8_bytes wc ++ r) = r.
Proof. unfold skip. by rewrite <- utf8_bytes_length, Nat2Z.id, drop_app_length. Qed.

Lemma utf8_bytes_cons wc : exists b r, utf8_bytes wc = b :: r.
Proof.
  pose proof (utf8_length_range wc) as H. rewrite <- utf8_bytes_length in H.
  destruct (utf8_bytes wc) as [|b r]; simpl in H; [lia|eauto].
Qed.

Lemma scan_loop_scanned fuel s : bytes s -> (length s <= fuel)%nat -> scanned s (scan_loop cset fuel s).
Proof.
  revert s. induction fuel as [|fuel IH]; intros [|b s] Hs Hf; simpl in Hf; try lia; try by constructor.
  cbn [scan_loop]. destruct (mb_wc cset (b :: s)) as [n [wc|]] eqn:E.
  - destruct (utf8_sound _ n wc Hs E) as (Hw & -> & r & Er). rewrite Er, skip_char.
    rewrite Er in Hs. apply Forall_app in Hs as [_ Hr]. constructor; [done|]. apply IH; [done|].
    apply (f_equal length) in Er. destruct (utf8_bytes_cons wc) as (? & ? & Eb).
    rewrite Eb, length_app in Er. simpl in Er. lia.
  - apply Forall_cons in Hs as [_ Hs]. eapply scanned_bad; [done|]. apply IH; [done|lia].
Qed.

Lemma scan_scanned s : bytes s -> scanned s (scan cset s).
Proof. intros Hs. by apply scan_loop_scanned. Qed.

Lemma spell_scanned s l : scanned s l -> spell l = s.
Proof. induction 1 as [|wc r l Hw _ IH|b r l n E _ IH]; simpl; [done|..]; by rewrite <- IH. Qed.

(** ** One step *)

Lemma charlen_char wc r : 0 <= wc < max -> charlen cset (utf8_bytes wc ++ r) = utf8_length wc.
Proof. intros. by rewrite utf8_charlen, utf8_complete. Qed.

Lemma charlen_bad s n : mb_wc cset s = (n, None) -> charlen cset s <= 0.
Proof. intros E. rewrite utf8_charlen, E. by eapply utf8_error. Qed.

Lemma charlen_nil : charlen cset [] <= 0.
Proof.
  rewrite utf8_charlen. destruct (mb_wc cset []) as [n [wc|]] eqn:E; [|by eapply utf8_error].
  destruct (utf8_sound [] n wc ltac:(constructor) E) as (_ & _ & r & Er).
  destruct (utf8_bytes_cons wc) as (? & ? & Eb). by rewrite Eb in Er.
Qed.

Lemma char_step_item s i l : scanned s (i :: l) -> char_step cset s = Z.of_nat (length (item_bytes i)).
Proof.
  unfold char_step, my_ismbchar. inversion 1 as [|wc r l' Hw Hr|b r l' n E Hr]; subst; simpl.
  - rewrite charlen_char by done. rewrite utf8_bytes_length. pose proof (utf8_length_range wc).
    destruct (Z.ltb_spec 1 (utf8_length wc)); [|simpl; lia].
    by rewrite (proj2 (Z.eqb_neq (utf8_length wc) 0)) by lia.
  - pose proof (charlen_bad _ _ E). by rewrite (proj2 (Z.ltb_ge _ _)) by lia.
Qed.

Lemma skip_item s i l : scanned s (i :: l) ->
  skip (Z.of_nat (length (item_bytes i))) s = spell l /\ scanned (spell l) l /\ s = item_bytes i ++ spell l.
Proof.
  inversion 1 as [|wc r l' Hw Hr|b r l' n E Hr]; subst; simpl; rewrite (spell_scanned _ _ Hr).
  - rewrite utf8_bytes_length, skip_char. done.
  - done.
Qed.

Lemma scanned_cons_nonempty s i l : scanned s (i :: l) -> exists b r, s = b :: r.
Proof.
  inversion 1 as [|wc r l' Hw Hr|b r l' n E Hr]; subst; [|eauto].
  destruct (utf8_bytes_cons wc) as (b & r' & ->). by eexists _, _.
Qed.

Lemma item_length i : (1 <= length (item_bytes i))%nat.
Proof. destruct i as [wc|b]; simpl; [|lia]. destruct (utf8_bytes_cons wc) as (? & ? & ->). simpl. lia. Qed.

(** ** Counting *)

Lemma numchars_scanned fuel s l count :
  scanned s l -> (length l <= fuel)%nat -> numchars_loop cset fuel s count = (count + length l)%nat.
Proof.
  revert s l count. induction fuel as [|fuel IH]; intros s [|i l] count H Hf; simpl in Hf; try lia.
  - inversion H; subst; simpl; lia.
  - inversion H; subst; simpl; lia.
  - destruct (scanned_cons_nonempty s i l H) as (b & r & Es). cbn [numchars_loop].
    rewrite Es at 1. cbv iota beta.
    rewrite (char_step_item s i l H). destruct (skip_item s i l H) as (-> & Hl & _).
    rewrite (IH _ l) by (done || lia). simpl. lia.
Qed.

Lemma scanned_length s l : scanned s l -> (length l <= length s)%nat.
Proof.
  intros H. rewrite <- (spell_scanned _ _ H). clear H. unfold spell.
  induction l as [|i l IH]; simpl; [lia|]. rewrite length_app. pose proof (item_length i). lia.
Qed.

Lemma numchars_spec s : bytes s -> my_numchars_mb cset s = length (scan cset s).
Proof.
  intros Hs. pose proof (scan_scanned s Hs) as H. unfold my_numchars_mb.
  by rewrite (numchars_scanned _ _ _ _ H) by (by apply scanned_length).
Qed.

Lemma charpos_scanned s l off k :
  scanned s l ->
  charpos_loop cset s off k = (off + Z.of_nat (length (spell (take k l))), (k - length l)%nat).
Proof.
  revert s l off. induction k as [|k IH]; intros s l off H; [simpl; f_equal; lia|].
  destruct l as [|i l]; [inversion H; subst; simpl; f_equal; lia|].
  destruct (scanned_cons_nonempty s i l H) as (b & r & Es). cbn [charpos_loop].
  rewrite Es at 1. cbv iota beta.
  rewrite (char_step_item s i l H). destruct (skip_item s i l H) as (-> & Hl & _).
  rewrite (IH _ l) by done. simpl take. unfold spell. simpl. rewrite length_app. f_equal; lia.
Qed.

Lemma charpos_spec s k : bytes s ->
  my_charpos_mb cset s k =
  if (k <=? length (scan cset s))%nat then Z.of_nat (length (spell (take k (scan cset s))))
  else Z.of_nat (length s) + 2.
Proof.
  intros Hs. unfold my_charpos_mb. rewrite (charpos_scanned s (scan cset s)) by (by apply scan_scanned).
  destruct (Nat.leb_spec k (length (scan cset s))), (Nat.ltb_spec 0 (k - length (scan cset s))); lia.
Qed.

(** ** Well-formed prefixes *)

(** How many of the first [n] items fit in [k] bytes *)
Fixpoint fit (k n : nat) (l : list item) : nat :=
  match n, l with
  | S n, i :: l =>
      if (length (item_bytes i) <=? k)%nat then S (fit (k - length (item_bytes i)) n l) else O
  | _, _ => O
  end.

(** The number of characters before the first bad byte *)
Fixpoint lead (l : list item) : nat :=
  match l with Char _ :: l => S (lead l) | _ => O end.

Definition offset (c : nat) (l : list item) : nat := length (spell (take c l)).

Lemma offset_S c i l : offset (S c) (i :: l) = (length (item_bytes i) + offset c l)%nat.
Proof. unfold offset, spell. simpl. by rewrite length_app. Qed.

Lemma mb_wc_take k s n : bytes s -> mb_wc cset s = (n, None) -> charlen cset (take k s) <= 0.
Proof.
  intros Hs E. rewrite utf8_charlen. destruct (mb_wc cset (take k s)) as [n' [wc|]] eqn:E';
    [|by eapply utf8_error].
  destruct (utf8_sound _ n' wc (Forall_take _ _ _ Hs) E') as (Hw & _ & r & Er).
  rewrite <- (take_drop k s), Er, <- app_assoc, utf8_complete in E by done. done.
Qed.

Lemma charlen_cut wc k : 0 <= wc < max -> (k < length (utf8_bytes wc))%nat ->
  charlen cset (take k (utf8_bytes wc)) <= 0.
Proof.
  intros Hw Hk. rewrite utf8_charlen, utf8_cut by done. pose proof (utf8_length_range wc).
  destruct k; simpl; unfold MY_CS_TOOSMALL, MY_CS_TOOSMALLN; lia.
Qed.

(** The loop on the first [k] bytes of a string *)
Lemma well_formed_spec n s l k pos : scanned s l -> bytes s ->
  let c := lead (take (fit k n l) l) in
  well_formed_loop cset (take k s) pos n =
  ((n - c)%nat, mk_status (pos + Z.of_nat (offset c l))
     (if (c <? n)%nat && (offset c l <? Nat.min k (length s))%nat
      then Some (pos + Z.of_nat (offset c l)) else None)).
Proof.
  revert s l k pos. induction n as [|n IH]; intros s l k pos H Hs.
  { simpl. by rewrite Z.add_0_r. }
  cbn [well_formed_loop]. inversion H as [|wc r l' Hw Hr|b r l' m E Hr]; subst.
  - rewrite take_nil, (proj2 (Z.leb_le _ _)) by apply charlen_nil. simpl.
    by rewrite Nat.min_0_r, Z.add_0_r.
  - cbn [fit item_bytes]. destruct (Nat.leb_spec (length (utf8_bytes wc)) k) as [Hk|Hk].
    + rewrite take_app_ge, charlen_char by done. pose proof (utf8_length_range wc).
      rewrite (proj2 (Z.leb_gt _ _)), skip_char by lia.
      rewrite (IH r l' _ _ Hr) by (apply Forall_app in Hs; apply Hs). cbn [take lead].
      set (c := lead _). rewrite offset_S. cbn [item_bytes].
      rewrite length_app, Nat2Z.inj_add, utf8_bytes_length, <- Z.add_assoc.
      f_equal. f_equal. replace ((c <? n)%nat) with ((S c <? S n)%nat) by done.
      replace (offset c l' <? Nat.min (k - length (utf8_bytes wc)) (length r))%nat
        with (length (utf8_bytes wc) + offset c l' <? Nat.min k (length (utf8_bytes wc) + length r))%nat;
        [done|]. apply eq_true_iff_eq. rewrite !Nat.ltb_lt. lia.
    + rewrite take_app_le by lia. rewrite (proj2 (Z.leb_le _ _)) by (by apply charlen_cut).
      simpl. rewrite length_take, length_app, Z.add_0_r. change (offset 0 _) with O.
      by replace (Nat.min k (length (utf8_bytes wc))) with
        (Nat.min k (length (utf8_bytes wc) + length r)) by lia.
  - rewrite (proj2 (Z.leb_le _ _)) by (by eapply mb_wc_take).
    cbn [fit item_bytes]. destruct (_ <=? _)%nat; simpl lead; simpl offset.
    all: rewrite length_take, Z.add_0_r, Nat.sub_0_r; repeat f_equal; simpl.
    all: done.
Qed.

(** ** Copying *)

(** A bad byte becomes a question mark. *)
Definition fix_item (i : item) : item := match i with Char wc => Char wc | Bad _ => Char 0x3f end.

Lemma fix_item_length i : length (item_bytes (fix_item i)) = length (item_bytes i).
Proof. by destruct i. Qed.

Lemma charlen_empty : charlen cset [] = MY_CS_TOOSMALL.
Proof.
  pose proof (utf8_max (cset:=cset) (max:=max)) as Hm. pose proof (utf8_cut (cset:=cset) (max:=max) 0 0 ltac:(lia) ltac:(vm_compute; lia)) as H.
  rewrite utf8_charlen. simpl in H. by rewrite H.
Qed.

Lemma append_spec n s l room pos e : scanned s l -> 0 <= room ->
  let m := fit (Z.to_nat room) n l in
  my_append_fix_badly_formed_tail cset room s pos n (Some e) =
  (spell (map fix_item (take m l)), mk_status (pos + Z.of_nat (offset m l)) (Some e)).
Proof.
  revert s l room pos. induction n as [|n IH]; intros s l room pos H Hroom.
  { simpl. by rewrite Z.add_0_r. }
  cbn [my_append_fix_badly_formed_tail].
  inversion H as [|wc r l' Hw Hr|b r l' k E Hr]; subst.
  - rewrite charlen_empty. simpl. by rewrite Z.add_0_r.
  - rewrite charlen_char by done. pose proof (utf8_length_range wc). pose proof (utf8_bytes_length wc).
    rewrite (proj2 (Z.ltb_lt 0 _)) by lia. cbn [fit item_bytes].
    destruct (Nat.leb_spec (length (utf8_bytes wc)) (Z.to_nat room)).
    + rewrite (proj2 (Z.ltb_ge room _)), skip_char by lia. rewrite (IH r l') by (done || lia).
      replace (Z.to_nat (room - utf8_length wc)) with (Z.to_nat room - length (utf8_bytes wc))%nat by lia.
      replace (Z.to_nat (utf8_length wc)) with (length (utf8_bytes wc)) by lia.
      rewrite take_app_length. cbn [take map]. rewrite offset_S. cbn [item_bytes fix_item].
      f_equal. f_equal. lia.
    + rewrite (proj2 (Z.ltb_lt room _)) by lia. simpl. by rewrite Z.add_0_r.
  - pose proof (charlen_bad _ _ E). rewrite (proj2 (Z.ltb_ge 0 _)) by lia.
    replace (negb _ && (length (b :: r) =? 0)%nat) with false by (simpl; by rewrite andb_false_r).
    cbn [fit item_bytes length]. pose proof (utf8_max (cset:=cset) (max:=max)) as Hm.
    destruct (Nat.leb_spec 1 (Z.to_nat room)).
    + rewrite utf8_wc_mb by lia. change (utf8_length 0x3f) with 1. change (utf8_bytes 0x3f) with [0x3f].
      rewrite (proj2 (Z.ltb_ge room 1)) by lia. cbv iota beta. rewrite (proj2 (Z.leb_gt 1 0)) by lia.
      change (skip 1 (b :: r)) with (drop 0 r). rewrite drop_0, (IH r l') by (done || lia).
      replace (Z.to_nat (room - 1)) with (Z.to_nat room - 1)%nat by lia.
      cbn [take map]. rewrite offset_S. cbn [item_bytes fix_item length]. f_equal. f_equal. lia.
    + pose proof (utf8_no_room (cset:=cset) (max:=max) 0x3f room ltac:(lia) ltac:(lia)) as Hn.
      destruct (wc_mb cset 0x3f room) as [len r']. simpl in Hn. rewrite (proj2 (Z.leb_le len 0)) by done.
      simpl. by rewrite Z.add_0_r.
Qed.

(** The items that fit: first the leading characters, then the rest *)
Lemma fit_lead k n l :
  let c := lead (take (fit k n l) l) in
  (c <= n)%nat /\ (c <= length l)%nat /\ (offset c l <= k)%nat /\
  fit k n l = (c + fit (k - offset c l) (n - c) (drop c l))%nat /\
  Forall (fun i => is_char i = true) (take c l).
Proof.
  revert k l. induction n as [|n IH]; intros k l; [unfold offset; simpl; split_and!; lia || done|].
  destruct l as [|i l]; [unfold offset; simpl; split_and!; lia || done|]. cbn [fit].
  destruct (Nat.leb_spec (length (item_bytes i)) k) as [Hk|Hk]; cbn [take lead].
  - destruct i as [wc|b]; cbn [lead].
    + destruct (IH (k - length (utf8_bytes wc))%nat l) as (H1 & H2 & H3 & H4 & H5).
      cbn [item_bytes] in *. set (c := lead _) in *. cbn [length take drop]. rewrite offset_S. cbn [item_bytes].
      split_and!; try lia; [|by constructor].
      replace (k - (length (utf8_bytes wc) + offset c l))%nat
        with (k - length (utf8_bytes wc) - offset c l)%nat by lia. simpl. lia.
    + change (offset 0 _) with O. rewrite !Nat.sub_0_r, drop_0. cbn [fit].
      rewrite (proj2 (Nat.leb_le _ _)) by done. split_and!; done || lia.
  - change (offset 0 _) with O. rewrite !Nat.sub_0_r, drop_0. cbn [fit].
    rewrite (proj2 (Nat.leb_gt _ _)) by done. split_and!; done || lia.
Qed.

Lemma spell_split c l : spell l = spell (take c l) ++ spell (drop c l).
Proof. unfold spell. by rewrite <- concat_app, <- map_app, take_drop. Qed.

Lemma scanned_drop c s l : scanned s l ->
  take (offset c l) s = spell (take c l) /\ scanned (drop (offset c l) s) (drop c l).
Proof.
  intros H. rewrite <- (spell_scanned s l H) at 1. rewrite (spell_split c l). unfold offset.
  split; [apply take_app_length|]. revert s l H.
  induction c as [|c IH]; intros s l H; [by rewrite !drop_0|].
  destruct l as [|i l]; [by inversion H; subst; simpl; constructor|].
  destruct (skip_item s i l H) as (_ & Hl & ->). cbn [take drop]. unfold spell at 1. simpl.
  rewrite length_app, <- drop_drop, drop_app_length. by apply IH.
Qed.

Lemma fix_chars l : Forall (fun i => is_char i = true) l -> map fix_item l = l.
Proof. induction 1 as [|[wc|b] l Hi _ IH]; simpl; [done|by f_equal|done]. Qed.

Lemma fit_end k n l : spell l = [] -> fit k n l = O.
Proof.
  destruct l as [|i l]; intros E; [by destruct n|].
  apply (f_equal length) in E. unfold spell in E. simpl in E. rewrite length_app in E.
  pose proof (item_length i). lia.
Qed.

Lemma copy_spec dst s n : bytes s ->
  let l := scan cset s in
  let m := fit dst n l in
  let c := lead (take m l) in
  my_copy_fix_mb cset dst s n =
  (spell (map fix_item (take m l)),
   mk_status (Z.of_nat (offset m l))
     (if (c <? n)%nat && (offset c l <? Nat.min dst (length s))%nat
      then Some (Z.of_nat (offset c l)) else None)).
Proof.
  intros Hs l m c. pose proof (scan_scanned s Hs) as H. fold l in H.
  unfold my_copy_fix_mb, well_formed_char_length.
  replace (take (Nat.min (length s) dst) s) with (take dst s)
    by (rewrite Nat.min_comm, <- take_take; by rewrite (take_ge s (length s))).
  rewrite (well_formed_spec n s l dst 0 H Hs). fold m. fold c. cbv iota beta. cbn [m_source_end_pos m_well_formed_error_pos].
  rewrite !Z.add_0_l, Nat2Z.id.
  destruct (fit_lead dst n l) as (Hcn & Hcl & Hck & Hm & Hch). fold m in Hm, Hcn, Hcl, Hck, Hch. fold c in Hcn, Hcl, Hck, Hm, Hch.
  destruct (scanned_drop c s l H) as [Htake Hdrop]. replace (n - (n - c))%nat with c by lia.
  destruct ((c <? n)%nat && (offset c l <? Nat.min dst (length s))%nat) eqn:Ee.
  - rewrite (append_spec (n - c) _ _ _ _ _ Hdrop) by lia.
    replace (Z.to_nat (Z.of_nat dst - Z.of_nat (offset c l))) with (dst - offset c l)%nat by lia.
    set (m' := fit (dst - offset c l) (n - c) (drop c l)) in *.
    assert (Et : take m l = take c l ++ take m' (drop c l)) by (by rewrite Hm, <- take_take_drop).
    rewrite Htake, Et, map_app, (fix_chars _ Hch). unfold offset. rewrite Et.
    unfold spell. rewrite !map_app, !concat_app, length_app. f_equal. f_equal. lia.
  - assert (Hm' : m = c).
    { rewrite Hm. apply andb_false_iff in Ee as [Ee%Nat.ltb_ge|Ee%Nat.ltb_ge].
      - replace (n - c)%nat with O by lia. simpl. lia.
      - destruct (Nat.le_gt_cases dst (length s)).
        + replace (dst - offset c l)%nat with O by lia. destruct (n - c)%nat, (drop c l) as [|i d]; simpl; try lia.
          pose proof (item_length i). by rewrite (proj2 (Nat.leb_gt _ _)) by lia.
        + rewrite fit_end; [lia|]. rewrite (spell_scanned _ _ Hdrop). apply drop_ge. lia. }
    rewrite Hm', (fix_chars _ Hch), Htake. done.
Qed.

Lemma scanned_bytes s l : scanned s l -> Forall (fun i => match i with Char wc => 0 <= wc < max | _ => True end) l.
Proof. induction 1; constructor; done. Qed.

Lemma scan_chars l : Forall (fun i => match i with Char wc => 0 <= wc < max | _ => False end) l ->
  scan cset (spell l) = l.
Proof.
  intros Hl. enough (H : forall fuel, (length (spell l) <= fuel)%nat -> scan_loop cset fuel (spell l) = l)
    by (by apply H).
  induction Hl as [|[wc|b] l Hi _ IH]; intros fuel Hf; [by destruct fuel|..]; [|done].
  unfold spell in *. simpl in *. rewrite length_app in Hf. destruct (utf8_bytes_cons wc) as (b & r & Eb).
  destruct fuel as [|fuel]; [rewrite Eb in Hf; simpl in Hf; lia|].
  rewrite Eb. simpl app. cbn [scan_loop]. rewrite (app_comm_cons r), <- Eb.
  rewrite utf8_complete, skip_char by done. f_equal. apply IH. rewrite Eb in Hf. simpl in Hf. lia.
Qed.

Lemma fit_all k n l : (length (spell l) <= k)%nat -> fit k n l = Nat.min n (length l).
Proof.
  revert k n. induction l as [|i l IH]; intros k [|n] H; try done. cbn [fit].
  unfold spell in H. simpl in H. rewrite length_app in H.
  rewrite (proj2 (Nat.leb_le _ _)), IH by (unfold spell; lia). done.
Qed.

Lemma well_formed_char_length_spec s n : bytes s ->
  let l := scan cset s in
  let c := lead (take n l) in
  well_formed_char_length cset s n =
  (c, mk_status (Z.of_nat (offset c l))
     (if (c <? n)%nat && (c <? length l)%nat then Some (Z.of_nat (offset c l)) else None)).
Proof.
  intros Hs l c. pose proof (scan_scanned s Hs) as H. fold l in H. unfold well_formed_char_length.
  pose proof (well_formed_spec n s l (length s) 0 H Hs) as E. rewrite (take_ge s) in E by done.
  pose proof (fit_lead (length s) n l) as (Hc & _).
  rewrite fit_all in E, Hc by (by rewrite (spell_scanned s l H)).
  assert (Et : take (Nat.min n (length l)) l = take n l)
    by (rewrite <- take_take; by rewrite (take_ge l (length l))).
  rewrite Et in E, Hc. fold c in E, Hc. rewrite E, Z.add_0_l, Nat.min_id.
  replace (n - (n - c))%nat with c by lia. destruct (scanned_drop c s l H) as [Ht Hd].
  pose proof (f_equal length (spell_scanned s l H)) as Hlen. rewrite (spell_split c l), length_app in Hlen.
  fold (offset c l) in Hlen.
  replace (offset c l <? length s)%nat with (c <? length l)%nat; [done|].
  apply eq_true_iff_eq. rewrite !Nat.ltb_lt. split; intros Hlt.
  - destruct (drop c l) as [|i d] eqn:Ed; [apply (f_equal length) in Ed; rewrite length_drop in Ed; simpl in Ed; lia|].
    unfold spell in Hlen. simpl in Hlen. rewrite length_app in Hlen. pose proof (item_length i). lia.
  - destruct (Nat.lt_ge_cases c (length l)) as [|Hge]; [done|]. rewrite drop_ge in Hlen by done. simpl in Hlen. lia.
Qed.
End Charset.

(** C35: a string of bytes reads in one way as a sequence of characters and bad bytes.
    [my_numchars_mb] counts them, [my_charpos_mb] gives the position of the one with a given number, or
    two bytes past the end, and [well_formed_char_length] gives the characters before the first bad
    byte.  [my_copy_fix_mb] copies as many of the first [n] of them as fit whole in the destination,
    with a question mark for each bad byte; the copy is well formed.  The error position is that of the
    first bad byte; but when the first thing that does not fit is a character of which some bytes would,
    it is the position of that character, although everything that was copied is well formed. *)
Theorem utf8_strings_correct (mb4 : bool) s :
  let cset := if mb4 then my_charset_utf8mb4_handler else my_charset_utf8mb3_handler in
  let l := scan cset s in
  bytes s ->
  spell l = s /\
  my_numchars_mb cset s = length l /\
  (forall k, my_charpos_mb cset s k =
     if (k <=? length l)%nat then Z.of_nat (offset k l) else Z.of_nat (length s) + 2) /\
  (forall n, let c := lead (take n l) in
     well_formed_char_length cset s n =
     (c, mk_status (Z.of_nat (offset c l))
        (if (c <? n)%nat && (c <? length l)%nat then Some (Z.of_nat (offset c l)) else None))) /\
  (forall dst n, let m := fit dst n l in let c := lead (take m l) in
     let copy := spell (map fix_item (take m l)) in
     my_copy_fix_mb cset dst s n =
       (copy, mk_status (Z.of_nat (offset m l))
          (if (c <? n)%nat && (offset c l <? Nat.min dst (length s))%nat
           then Some (Z.of_nat (offset c l)) else None)) /\
     (length copy <= dst)%nat /\ scan cset copy = map fix_item (take m l)).
Proof.
  intros cset l Hs. set (max := if mb4 then 0x110000 else 0x10000).
  assert (Utf8Charset cset max) as Hc by (unfold cset, max; destruct mb4; apply _).
  pose proof (scan_scanned cset max s Hs) as H.
  split_and!.
  - by eapply spell_scanned.
  - by eapply numchars_spec.
  - intros k. by eapply charpos_spec.
  - intros n. by eapply well_formed_char_length_spec.
  - intros dst n m c copy. split; [by eapply copy_spec|]. split.
    + unfold copy, m. clear -l. generalize l as l'. clear. revert dst. induction n as [|n IH]; intros dst [|i l]; simpl; try lia.
      destruct (Nat.leb_spec (length (item_bytes i)) dst); simpl; [|lia].
      unfold spell. simpl. rewrite length_app, fix_item_length. specialize (IH (dst - length (item_bytes i))%nat l).
      unfold spell in IH. lia.
    + eapply scan_chars; [done|]. apply Forall_map. apply (Forall_impl _ _ _ (Forall_take _ _ _ (scanned_bytes _ _ _ _ H))).
      pose proof (utf8_max (cset:=cset) (max:=max)). intros [wc|b] Hi; simpl; [done|lia].
Qed.

(** A bad byte between a letter and a euro sign, and the euro sign copied into two bytes *)
Lemma utf8_strings_correct_witness :
  my_numchars_mb my_charset_utf8mb4_handler [0x61; 0xFF; 0xE2; 0x82; 0xAC] = 3%nat /\
  my_copy_fix_mb my_charset_utf8mb4_handler 5 [0x61; 0xFF; 0xE2; 0x82; 0xAC] 9 =
    ([0x61; 0x3F; 0xE2; 0x82; 0xAC], mk_status 5 (Some 1)) /\
  my_copy_fix_mb my_charset_utf8mb4_handler 2 [0xE2; 0x82; 0xAC] 1 = ([], mk_status 0 (Some 0)).
Proof.
  assert (H1 : bytes [0x61; 0xFF; 0xE2; 0x82; 0xAC]) by (repeat constructor; by_decide).
  assert (H2 : bytes [0xE2; 0x82; 0xAC]) by (repeat constructor; by_decide).
  destruct (utf8_strings_correct true _ H1) as (_ & -> & _ & _ & H3).
  destruct (utf8_strings_correct true _ H2) as (_ & _ & _ & _ & H4).
  split; [reflexivity|]. split; [exact (proj1 (H3 5%nat 9%nat))|exact (proj1 (H4 2%nat 1%nat))].
Defined.
