(* ===== verification/Collation.v ===== *)
(** * Comparison of strings in the Unicode collations

    strings/strcoll.inl, the template that strings/ctype-utf8.c includes once per collation, and
    strings/ctype-ascii.h, its shortcut for four and eight ASCII bytes at a time (on 64-bit platforms).
    What an inclusion defines is a record; the including sections of ctype-utf8.c are its values. *)

From S2P Require Import Prelude Bytes Utf8 Weights.

Definition MY_CS_REPLACEMENT_CHARACTER : Z := 0xFFFD.

(** ** ASCII bytes, eight at a time *)

Definition MY_ASCII_20_IS_SET_IF_NOT_LETTER_MAGIC (i : Z) : Z :=
  Z.shiftr (u64 (Z.land (u64 (i + 0x1F1F1F1F1F1F1F1F)) 0x1F1F1F1F1F1F1F1F * 5)) 2.

Definition MY_ASCII_20_IS_SET_IF_RANGE_60_7F_OR_E0_FF (i : Z) : Z := Z.land (Z.shiftr i 1) i.

Definition MY_ASCII_20_IF_IS_LOWER_LETTER (i : Z) : Z :=
  Z.land (Z.land (MY_ASCII_20_IS_SET_IF_RANGE_60_7F_OR_E0_FF i)
                 (u64 (Z.lnot (MY_ASCII_20_IS_SET_IF_NOT_LETTER_MAGIC i))))
         0x2020202020202020.

Definition MY_ASCII_TOUPPER_MAGIC (i : Z) : Z := Z.lxor i (MY_ASCII_20_IF_IS_LOWER_LETTER i).

Definition my_ascii_to_upper_magic_uint64 (i : Z) : Z := MY_ASCII_TOUPPER_MAGIC i.

(** Little-endian and big-endian integers at the beginning of a string *)
Definition uint4korr (a : list Z) : Z := be256 (rev (take 4 a)).
Definition mi_uint4korr (a : list Z) : Z := be256 (take 4 a).
Definition mi_uint8korr (a : list Z) : Z := be256 (take 8 a).

Definition my_strcoll_ascii_4bytes_found (a b : list Z) : bool :=
  (4 <=? length a)%nat && (4 <=? length b)%nat &&
  (Z.land (uint4korr b) 0x80808080 =? 0) && (Z.land (uint4korr a) 0x80808080 =? 0).

Definition my_strcoll_ascii_toupper_4bytes (a b : list Z) : Z :=
  let abn := Z.lor (u64 (Z.shiftl (mi_uint4korr a) 32)) (mi_uint4korr b) in
  let abn := my_ascii_to_upper_magic_uint64 abn in
  if u32 (Z.shiftr abn 32) =? u32 abn then 0
  else if u32 (Z.shiftr abn 32) <? u32 abn then -1 else 1.

Definition my_strcoll_ascii_toupper_8bytes (a b : list Z) : Z :=
  let an := my_ascii_to_upper_magic_uint64 (mi_uint8korr a) in
  let bn := my_ascii_to_upper_magic_uint64 (mi_uint8korr b) in
  if an =? bn then 0 else if an <? bn then -1 else 1.

Definition my_strcoll_mb7_bin_4bytes (a b : list Z) : Z :=
  let an := mi_uint4korr a in
  let bn := mi_uint4korr b in
  if an =? bn then 0 else if an <? bn then -1 else 1.

Definition my_strcoll_mb7_bin_8bytes (a b : list Z) : Z :=
  let an := mi_uint8korr a in
  let bn := mi_uint8korr b in
  if an =? bn then 0 else if an <? bn then -1 else 1.

(** ** What an inclusion of strcoll.inl defines *)

Inductive strcoll_mb7 := STRCOLL_MB7_BIN | STRCOLL_MB7_TOUPPER.

Record collation := mk_collation {
  has_mb4 : bool;   (** whether IS_MB4_CHAR is defined *)
  WEIGHT_MB1 : Z -> Z;
  WEIGHT_MB2 : Z -> Z -> Z;
  WEIGHT_MB3 : Z -> Z -> Z -> Z;
  WEIGHT_MB4 : Z -> Z -> Z -> Z -> Z;
  mb7 : strcoll_mb7;
}.

Notation WEIGHT_PAD_SPACE := 0x20 (only parsing).
Definition WEIGHT_ILSEQ (x : Z) : Z := 0xFF0000 + x.

Definition IS_MB1_CHAR (x : Z) : bool := x <? 0x80.
Definition IS_MB1_MBHEAD_UNUSED_GAP (x : Z) : bool := x <? 0xC2.
Notation IS_MB2_CHAR := IS_UTF8MB2_STEP2 (only parsing).
Notation IS_MB3_CHAR := IS_UTF8MB3_STEP3 (only parsing).
Notation IS_MB4_CHAR := IS_UTF8MB4_STEP3 (only parsing).

Section Strcoll.
Context (c : collation).

(** The weight and the number of bytes scanned *)
Definition scan_weight (str : list Z) : Z * Z :=
  match str with
  | [] => (WEIGHT_PAD_SPACE, 0)
  | b0 :: str1 =>
      let bad := (WEIGHT_ILSEQ b0, 1) in
      if IS_MB1_CHAR b0 then (WEIGHT_MB1 c b0, 1)
      else if IS_MB1_MBHEAD_UNUSED_GAP b0 then bad
      else
        match str1 with
        | [] => bad
        | b1 :: str2 =>
            if IS_MB2_CHAR b0 b1 then (WEIGHT_MB2 c b0 b1, 2)
            else
              match str2 with
              | [] => bad
              | b2 :: str3 =>
                  if IS_MB3_CHAR b0 b1 b2 then (WEIGHT_MB3 c b0 b1 b2, 3)
                  else if negb (has_mb4 c) then bad
                  else
                    match str3 with
                    | [] => bad
                    | b3 :: _ =>
                        if IS_MB4_CHAR b0 b1 b2 b3 then (WEIGHT_MB4 c b0 b1 b2 b3, 4) else bad
                    end
              end
        end
  end.

Definition MY_STRCOLL_MB7_4BYTES (a b : list Z) : Z :=
  match mb7 c with
  | STRCOLL_MB7_BIN => my_strcoll_mb7_bin_4bytes a b
  | STRCOLL_MB7_TOUPPER => my_strcoll_ascii_toupper_4bytes a b
  end.

Definition MY_STRCOLL_MB7_8BYTES (a b : list Z) : Z :=
  match mb7 c with
  | STRCOLL_MB7_BIN => my_strcoll_mb7_bin_8bytes a b
  | STRCOLL_MB7_TOUPPER => my_strcoll_ascii_toupper_8bytes a b
  end.

(** The loop of [strnncoll]: the result and [*b_is_prefix].  The argument [b_is_prefix] says whether
    the pointer is given. *)
Fixpoint strnncoll_loop (fuel : nat) (a b : list Z) (b_is_prefix : bool) : option (Z * bool) :=
  match fuel with
  | O => None
  | S fuel =>
      let '(a_weight, a_wlen) := scan_weight a in
      if (a_wlen =? 1) && my_strcoll_ascii_4bytes_found a b then
        if my_strcoll_ascii_4bytes_found (skip 4 a) (skip 4 b) then
          let res := MY_STRCOLL_MB7_8BYTES a b in
          if negb (res =? 0) then Some (res, false)
          else strnncoll_loop fuel (skip 8 a) (skip 8 b) b_is_prefix
        else
          let res := MY_STRCOLL_MB7_4BYTES a b in
          if negb (res =? 0) then Some (res, false)
          else strnncoll_loop fuel (skip 4 a) (skip 4 b) b_is_prefix
      else
        let '(b_weight, b_wlen) := scan_weight b in
        if a_wlen =? 0 then Some ((if negb (b_wlen =? 0) then -1 else 0), false)
        else if b_wlen =? 0 then
          if b_is_prefix then Some (0, true) else Some (1, false)
        else
          let res := a_weight - b_weight in
          if negb (res =? 0) then Some (res, false)
          else strnncoll_loop fuel (skip a_wlen a) (skip b_wlen b) b_is_prefix
  end.

Definition strnncoll (a b : list Z) (b_is_prefix : bool) : option (Z * bool) :=
  strnncoll_loop (S (length a)) a b b_is_prefix.

(** [strnncollsp] with NO PAD *)
Definition strnncollsp_nopad (a b : list Z) : option Z := fst <$> strnncoll a b false.

(** [strnncollsp] with PAD SPACE *)
Fixpoint strnncollsp_loop (fuel : nat) (a b : list Z) : option Z :=
  match fuel with
  | O => None
  | S fuel =>
      let '(a_weight, a_wlen) := scan_weight a in
      if (a_wlen =? 1) && my_strcoll_ascii_4bytes_found a b then
        if my_strcoll_ascii_4bytes_found (skip 4 a) (skip 4 b) then
          let res := MY_STRCOLL_MB7_8BYTES a b in
          if negb (res =? 0) then Some res else strnncollsp_loop fuel (skip 8 a) (skip 8 b)
        else
          let res := MY_STRCOLL_MB7_4BYTES a b in
          if negb (res =? 0) then Some res else strnncollsp_loop fuel (skip 4 a) (skip 4 b)
      else
        let '(b_weight, b_wlen) := scan_weight b in
        let res := a_weight - b_weight in
        if negb (res =? 0) then Some res
        else if (a_wlen =? 0) && (b_wlen =? 0) then Some 0
        else strnncollsp_loop fuel (skip a_wlen a) (skip b_wlen b)
  end.

Definition strnncollsp (a b : list Z) : option Z :=
  strnncollsp_loop (S (length a + length b)) a b.

(** [flags] is not used: shorter strings are always continued with spaces. *)
Fixpoint strnncollsp_nchars (a b : list Z) (nchars : nat) (flags : Z) : Z :=
  match nchars with
  | O => 0
  | S nchars =>
      let '(a_weight, a_wlen) := scan_weight a in
      let '(b_weight, b_wlen) := scan_weight b in
      let res := a_weight - b_weight in
      if negb (res =? 0) then res
      else if (a_wlen =? 0) && (b_wlen =? 0) then 0
      else strnncollsp_nchars (skip a_wlen a) (skip b_wlen b) nchars flags
  end.
End Strcoll.

(** ** Weights *)

(** A page of a table of pages; [None] is NULL *)
Definition page_of (index : list (option (list Z))) (n : Z) : option (list Z) := nth (Z.to_nat n) index None.
Definition page_entry (page : list Z) (n : Z) : Z := nth (Z.to_nat n) page 0.

Definition my_general_ci_bmp_char_to_weight (wc : Z) : Z :=
  match page_of weight_general_ci_index (Z.shiftr wc 8) with
  | Some page => page_entry page (Z.land wc 0xFF)
  | None => wc
  end.

Definition my_general_ci_char_to_weight (wc : Z) : Z :=
  if Z.shiftr wc 8 <? Z.of_nat (length weight_general_ci_index)
  then my_general_ci_bmp_char_to_weight wc else MY_CS_REPLACEMENT_CHARACTER.

Definition my_weight_mb1_utf8mb3_general_ci (b : Z) : Z :=
  page_entry weight_general_ci_page00 (Z.land b 0xFF).

(** The pages of two-byte characters are never NULL. *)
Definition my_weight_mb2_utf8mb3_general_ci (b0 b1 : Z) : Z :=
  let wc := UTF8MB2_CODE b0 b1 in
  page_entry (default [] (page_of weight_general_ci_index (Z.shiftr wc 8))) (Z.land wc 0xFF).

Definition my_weight_mb3_utf8mb3_general_ci (b0 b1 b2 : Z) : Z :=
  my_general_ci_bmp_char_to_weight (u16 (UTF8MB3_CODE b0 b1 b2)).

Definition my_weight_mb1_utf8mb3_general_mysql500_ci (b : Z) : Z :=
  page_entry weight_general_mysql500_ci_page00 (Z.land b 0xFF).

Definition my_weight_mb2_utf8mb3_general_mysql500_ci (b0 b1 : Z) : Z :=
  let wc := UTF8MB2_CODE b0 b1 in
  page_entry (default [] (page_of weight_general_mysql500_ci_index (Z.shiftr wc 8))) (Z.land wc 0xFF).

Definition my_weight_mb3_utf8mb3_general_mysql500_ci (b0 b1 b2 : Z) : Z :=
  let wc := UTF8MB3_CODE b0 b1 b2 in
  match page_of weight_general_mysql500_ci_index (Z.shiftr wc 8) with
  | Some page => page_entry page (Z.land wc 0xFF)
  | None => wc
  end.

Definition my_wc_weight_utf8mb3_general_mysql500_ci (wc : Z) : Z :=
  match page_of weight_general_mysql500_ci_index (Z.shiftr wc 8) with
  | Some page => page_entry page (Z.land wc 0xFF)
  | None => wc
  end.

(** ** The collations *)

Definition utf8mb3_general_ci : collation :=
  mk_collation false my_weight_mb1_utf8mb3_general_ci my_weight_mb2_utf8mb3_general_ci
    my_weight_mb3_utf8mb3_general_ci (fun _ _ _ _ => 0) STRCOLL_MB7_TOUPPER.

Definition utf8mb3_general_mysql500_ci : collation :=
  mk_collation false my_weight_mb1_utf8mb3_general_mysql500_ci my_weight_mb2_utf8mb3_general_mysql500_ci
    my_weight_mb3_utf8mb3_general_mysql500_ci (fun _ _ _ _ => 0) STRCOLL_MB7_TOUPPER.

Definition utf8mb3_bin : collation :=
  mk_collation false (fun x => x) UTF8MB2_CODE UTF8MB3_CODE (fun _ _ _ _ => 0) STRCOLL_MB7_BIN.

Definition utf8mb4_general_ci : collation :=
  mk_collation true my_weight_mb1_utf8mb3_general_ci my_weight_mb2_utf8mb3_general_ci
    my_weight_mb3_utf8mb3_general_ci (fun _ _ _ _ => MY_CS_REPLACEMENT_CHARACTER) STRCOLL_MB7_TOUPPER.

Definition utf8mb4_bin : collation :=
  mk_collation true (fun x => x) UTF8MB2_CODE UTF8MB3_CODE UTF8MB4_CODE STRCOLL_MB7_BIN.
