(* ===== verification/CollationAscii.v ===== *)
(** * ASCII bytes, eight at a time

    The expressions of strings/ctype-ascii.h on 64-bit numbers do to each of eight bytes what a loop
    over the bytes would do: they convert lower case letters to upper case, and compare. *)

From S2P Require Import Prelude Bytes Utf8 Utf8Props Collation.

Definition ascii (b : Z) : Prop := 0 <= b < 0x80.

(** Upper case of one byte *)
Definition toupper (b : Z) : Z := if (0x61 <=? b) && (b <=? 0x7A) then b - 0x20 else b.

(** ** Bits of a number with its last byte split off *)

Lemma testbit_split h lo i : 0 <= lo < 256 -> 0 <= i ->
  Z.testbit (h * 256 + lo) i = if i <? 8 then Z.testbit lo i else Z.testbit h (i - 8).
Proof.
  intros Hlo Hi. destruct (Z.ltb_spec i 8).
  - rewrite <- (Z.mod_pow2_bits_low (h * 256 + lo) 8 i) by lia. change (2 ^ 8) with 256.
    rewrite Z.add_comm, Z.mod_add, Z.mod_small by lia. done.
  - replace i with (i - 8 + 8) at 1 by lia. rewrite <- Z.div_pow2_bits by lia. change (2 ^ 8) with 256.
    rewrite Z.add_comm, Z.div_add, Z.div_small by lia. done.
Qed.

Lemma land_range a b : 0 <= b < 256 -> 0 <= Z.land a b < 256.
Proof.
  intros Hb. replace (Z.land a b) with (Z.land a b mod 2 ^ 8); [apply Z.mod_pos_bound; lia|].
  rewrite <- Z.land_ones, <- Z.land_assoc, Z.land_ones by lia. by rewrite (Z.mod_small b) by done.
Qed.

Lemma land_split h1 l1 h2 l2 : 0 <= l1 < 256 -> 0 <= l2 < 256 ->
  Z.land (h1 * 256 + l1) (h2 * 256 + l2) = Z.land h1 h2 * 256 + Z.land l1 l2.
Proof.
  intros H1 H2. pose proof (land_range l1 l2 H2).
  apply Z.bits_inj'. intros i Hi. rewrite Z.land_spec, !testbit_split by done.
  case_match; by rewrite Z.land_spec.
Qed.

(** ** The bytes of a number *)

Lemma be256_snoc p b : be256 (p ++ [b]) = be256 p * 256 + b.
Proof. rewrite be256_app. simpl. change (bpow 1) with 256. lia. Qed.

(** The number with the same byte [n] times *)
Definition rep (n : nat) (x : Z) : Z := be256 (replicate n x).

Lemma rep_S n x : rep (S n) x = rep n x * 256 + x.
Proof. unfold rep. by rewrite replicate_S_end, be256_snoc. Qed.

(** The magic expression before its last shift, for one byte *)
Definition magic_byte (b : Z) : Z := Z.land (b + 0x1F) 0x1F * 5.

Lemma magic_byte_range b : 0 <= magic_byte b < 256.
Proof.
  unfold magic_byte. rewrite (Z.land_ones (b + 31) 5 ltac:(lia) : Z.land (b + 31) 31 = _).
  pose proof (Z.mod_pos_bound (b + 31) (2 ^ 5) ltac:(lia)). lia.
Qed.

Lemma magic_bytes p : Forall ascii p ->
  Z.land (be256 p + rep (length p) 0x1F) (rep (length p) 0x1F) * 5 = be256 (map magic_byte p).
Proof.
  induction p as [|b p IH] using rev_ind; intros H; [done|].
  apply Forall_app in H as [Hp Hb]. apply Forall_cons in Hb as [Hb _].
  rewrite map_app, length_app, Nat.add_comm. cbn [length Nat.add map]. rewrite rep_S, !be256_snoc.
  replace (be256 p * 256 + b + (rep (length p) 31 * 256 + 31))
    with ((be256 p + rep (length p) 31) * 256 + (b + 31)) by lia.
  unfold ascii in Hb. rewrite land_split by lia. rewrite Z.mul_add_distr_r, <- (IH Hp).
  unfold magic_byte. lia.
Qed.

(** The bits that are flipped *)
Definition lower_bit (b : Z) : Z :=
  Z.land (Z.land (Z.land (Z.shiftr b 1) b) (Z.lnot (Z.shiftr (magic_byte b) 2))) 0x20.

Definition lower_bits (x m : Z) (n : nat) : Z :=
  Z.land (Z.land (Z.land (Z.shiftr x 1) x) (Z.lnot (Z.shiftr m 2))) (rep n 0x20).

Lemma testbit_20 i : 0 <= i -> Z.testbit 0x20 i = (i =? 5).
Proof. intros Hi. change 0x20 with (2 ^ 5). rewrite Z.pow2_bits_eqb by lia. apply Z.eqb_sym. Qed.

Lemma lower_bits_bytes p : Forall ascii p ->
  lower_bits (be256 p) (be256 (map magic_byte p)) (length p) = be256 (map lower_bit p).
Proof.
  induction p as [|b p IH] using rev_ind; intros H; [done|].
  apply Forall_app in H as [Hp Hb]. apply Forall_cons in Hb as [Hb _]. unfold ascii in Hb.
  rewrite !map_app, length_app, Nat.add_comm. cbn [length Nat.add map]. unfold lower_bits.
  rewrite rep_S, !be256_snoc, <- (IH Hp). pose proof (magic_byte_range b).
  assert (0 <= lower_bit b < 256) by (by apply land_range).
  apply Z.bits_inj'. intros i Hi. rewrite (testbit_split _ (lower_bit b)) by done.
  unfold lower_bits, lower_bit.
  rewrite !Z.land_spec, !Z.lnot_spec, !Z.shiftr_spec, !testbit_split by lia.
  destruct (Z.ltb_spec i 8).
  - rewrite !testbit_20 by done.
    destruct (Z.eqb_spec i 5) as [->|]; [done|by rewrite !andb_false_r].
  - rewrite !Z.lnot_spec, !Z.shiftr_spec by lia.
    rewrite (proj2 (Z.ltb_ge (i + 1) 8)), (proj2 (Z.ltb_ge (i + 2) 8)) by lia.
    by replace (i + 1 - 8) with (i - 8 + 1) by lia; replace (i + 2 - 8) with (i - 8 + 2) by lia.
Qed.

Lemma ascii_cases (P : Z -> bool) b :
  forallb P (map Z.of_nat (seq 0 128)) = true -> ascii b -> P b = true.
Proof.
  intros H Hb. rewrite forallb_forall in H. apply H, in_map_iff. exists (Z.to_nat b).
  unfold ascii in Hb. rewrite in_seq. lia.
Qed.

Lemma toupper_bit b : ascii b -> Z.lxor b (lower_bit b) = toupper b /\ ascii (toupper b).
Proof.
  intros Hb. split.
  - apply Z.eqb_eq. by apply (ascii_cases (fun b => Z.lxor b (lower_bit b) =? toupper b)).
  - unfold toupper, ascii in *. case_match; bool_to_prop; lia.
Qed.

Lemma lxor_split h1 l1 h2 l2 : 0 <= l1 < 256 -> 0 <= l2 < 256 ->
  Z.lxor (h1 * 256 + l1) (h2 * 256 + l2) = Z.lxor h1 h2 * 256 + Z.lxor l1 l2.
Proof.
  intros H1 H2. assert (0 <= Z.lxor l1 l2 < 256).
  { replace (Z.lxor l1 l2) with (Z.lxor l1 l2 mod 2 ^ 8); [apply Z.mod_pos_bound; lia|].
    rewrite <- (Z.mod_small l1 (2 ^ 8)), <- (Z.mod_small l2 (2 ^ 8)) at 2 by lia.
    rewrite <- !Z.land_ones by lia. apply Z.bits_inj'. intros i _.
    rewrite !Z.land_spec, !Z.lxor_spec, !Z.land_spec. by destruct (Z.testbit l1 i), (Z.testbit l2 i), (Z.testbit _ i). }
  apply Z.bits_inj'. intros i Hi. rewrite Z.lxor_spec, !testbit_split by done.
  case_match; by rewrite Z.lxor_spec.
Qed.

Lemma toupper_bytes p : Forall ascii p ->
  Z.lxor (be256 p) (be256 (map lower_bit p)) = be256 (map toupper p).
Proof.
  induction p as [|b p IH] using rev_ind; intros H; [done|].
  apply Forall_app in H as [Hp Hb]. apply Forall_cons in Hb as [Hb _].
  rewrite !map_app. cbn [map]. rewrite !be256_snoc, lxor_split, (IH Hp).
  - by destruct (toupper_bit b Hb) as [-> _].
  - unfold ascii in Hb. lia.
  - by apply land_range.
Qed.

Lemma ascii_bytes p : Forall ascii p -> Forall byte_ok p.
Proof. intros H. eapply Forall_impl; [exact H|]. unfold ascii, byte_ok. lia. Qed.

Lemma u64_be256 p : length p = 8%nat -> Forall byte_ok p -> u64 (be256 p) = be256 p.
Proof.
  intros Hl Hp. pose proof (be256_bound p Hp) as Hb. rewrite Hl in Hb. apply Z.mod_small. exact Hb.
Qed.

(** [my_ascii_to_upper_magic_uint64] converts each of eight ASCII bytes to upper case. *)
Lemma magic_correct p : length p = 8%nat -> Forall ascii p ->
  my_ascii_to_upper_magic_uint64 (be256 p) = be256 (map toupper p).
Proof.
  intros Hl Hp. rewrite <- (toupper_bytes p Hp), <- (lower_bits_bytes p Hp).
  unfold my_ascii_to_upper_magic_uint64, MY_ASCII_TOUPPER_MAGIC. f_equal.
  unfold MY_ASCII_20_IF_IS_LOWER_LETTER, MY_ASCII_20_IS_SET_IF_RANGE_60_7F_OR_E0_FF, lower_bits.
  rewrite Hl. change (rep 8 0x20) with 0x2020202020202020.
  assert (Hm : MY_ASCII_20_IS_SET_IF_NOT_LETTER_MAGIC (be256 p) = Z.shiftr (be256 (map magic_byte p)) 2).
  { unfold MY_ASCII_20_IS_SET_IF_NOT_LETTER_MAGIC. f_equal.
    pose proof (magic_bytes p Hp) as Hmb. rewrite Hl in Hmb. change (rep 8 0x1F) with 0x1F1F1F1F1F1F1F1F in Hmb.
    assert (Hsum : u64 (be256 p + 0x1F1F1F1F1F1F1F1F) = be256 p + 0x1F1F1F1F1F1F1F1F).
    { apply Z.mod_small. destruct p as [|b p]; [done|]. apply Forall_cons in Hp as [Hb Hp]. injection Hl as Hl.
      pose proof (be256_bound p (ascii_bytes p Hp)) as Hbd. cbn [be256].
      rewrite Hl in Hbd |- *. change (bpow 7) with (2 ^ 56) in Hbd. change (256 ^ Z.of_nat 7) with (2 ^ 56).
      unfold ascii in Hb. lia. }
    rewrite Hsum, Hmb. apply u64_be256; [by rewrite length_map|].
    apply Forall_map, Forall_forall. intros b _. apply magic_byte_range. }
  rewrite Hm. apply Z.bits_inj'. intros i Hi. rewrite !Z.land_spec.
  destruct (Z.testbit 0x2020202020202020 i) eqn:E; [|by rewrite !andb_false_r]. do 2 f_equal.
  unfold u64. apply Z.mod_pow2_bits_low.
  destruct (Z.lt_ge_cases i 64); [done|]. rewrite Z.bits_above_log2 in E; [done|lia|].
  apply Z.lt_le_trans with 64; [by vm_compute|done].
Qed.

(** ** Comparing *)

Definition mb7_char (m : strcoll_mb7) (b : Z) : Z :=
  match m with STRCOLL_MB7_BIN => b | STRCOLL_MB7_TOUPPER => toupper b end.

Lemma mb7_char_ascii m b : ascii b -> ascii (mb7_char m b).
Proof. destruct m; [done|]. apply toupper_bit. Qed.

Lemma mb7_chars_ok m p : Forall ascii p -> Forall byte_ok (map (mb7_char m) p).
Proof.
  intros H. apply ascii_bytes, Forall_map. eapply Forall_impl; [exact H|]. apply mb7_char_ascii.
Qed.

Lemma compare_numbers x y :
  (if x =? y then 0 else if x <? y then -1 else 1) = match x ?= y with Lt => -1 | Eq => 0 | Gt => 1 end.
Proof.
  destruct (Z.compare_spec x y), (Z.eqb_spec x y), (Z.ltb_spec x y); lia.
Qed.

Lemma compare_bytes p q : Forall byte_ok p -> Forall byte_ok q -> length p = length q ->
  (if be256 p =? be256 q then 0 else if be256 p <? be256 q then -1 else 1) = memcmp p q.
Proof. intros. by rewrite compare_numbers, memcmp_be256. Qed.


Lemma be256_halves p q : length q = 4%nat -> Forall byte_ok p -> Forall byte_ok q ->
  Z.lor (Z.shiftl (be256 p) 32) (be256 q) = be256 (p ++ q) /\
  Z.shiftr (be256 (p ++ q)) 32 = be256 p /\ (be256 (p ++ q)) mod 2 ^ 32 = be256 q.
Proof.
  intros Lq Hp Hq. pose proof (be256_bound p Hp) as Bp. pose proof (be256_bound q Hq) as Bq.
  rewrite be256_app, Lq in *. change (bpow 4) with (2 ^ 32) in *. rewrite Z.shiftr_div_pow2 by lia.
  split_and!.
  - apply lor_shift; lia.
  - rewrite Z.div_add_l, Z.div_small by lia. lia.
  - rewrite Z.add_comm, Z.mod_add, Z.mod_small by lia. done.
Qed.

Lemma land_80 b : byte_ok b -> Z.land b 0x80 = 0 -> ascii b.
Proof.
  intros Hb E. pose proof (byte_cases (fun b => negb (Z.land b 0x80 =? 0) || (b <? 0x80)) b eq_refl Hb) as H.
  simpl in H. rewrite E in H. unfold ascii, byte_ok in *. simpl in H. lia.
Qed.

Lemma mb7_8bytes c p q ra rb : length p = 8%nat -> length q = 8%nat -> Forall ascii p -> Forall ascii q ->
  MY_STRCOLL_MB7_8BYTES c (p ++ ra) (q ++ rb) = memcmp (map (mb7_char (mb7 c)) p) (map (mb7_char (mb7 c)) q).
Proof.
  intros Lp Lq Hp Hq.
  assert (Ta : mi_uint8korr (p ++ ra) = be256 p) by (unfold mi_uint8korr; by rewrite take_app_length').
  assert (Tb : mi_uint8korr (q ++ rb) = be256 q) by (unfold mi_uint8korr; by rewrite take_app_length').
  rewrite <- compare_bytes by (rewrite ?length_map; congruence || by apply mb7_chars_ok).
  unfold MY_STRCOLL_MB7_8BYTES, my_strcoll_mb7_bin_8bytes, my_strcoll_ascii_toupper_8bytes, mb7_char.
  rewrite Ta, Tb. destruct (mb7 c); [by rewrite !map_id|by rewrite !magic_correct].
Qed.

Lemma mb7_4bytes c p q ra rb : length p = 4%nat -> length q = 4%nat -> Forall ascii p -> Forall ascii q ->
  MY_STRCOLL_MB7_4BYTES c (p ++ ra) (q ++ rb) = memcmp (map (mb7_char (mb7 c)) p) (map (mb7_char (mb7 c)) q).
Proof.
  intros Lp Lq Hp Hq.
  assert (Ta : mi_uint4korr (p ++ ra) = be256 p) by (unfold mi_uint4korr; by rewrite take_app_length').
  assert (Tb : mi_uint4korr (q ++ rb) = be256 q) by (unfold mi_uint4korr; by rewrite take_app_length').
  rewrite <- compare_bytes by (rewrite ?length_map; congruence || by apply mb7_chars_ok).
  unfold MY_STRCOLL_MB7_4BYTES, my_strcoll_mb7_bin_4bytes, my_strcoll_ascii_toupper_4bytes, mb7_char.
  rewrite Ta, Tb. destruct (mb7 c); [by rewrite !map_id|].
  destruct (be256_halves p q Lq (ascii_bytes p Hp) (ascii_bytes q Hq)) as (E1 & _ & _).
  pose proof (be256_bound p (ascii_bytes p Hp)) as Bp. rewrite Lp in Bp. change (bpow 4) with (2 ^ 32) in Bp.
  assert (Eu : u64 (Z.shiftl (be256 p) 32) = Z.shiftl (be256 p) 32).
  { apply Z.mod_small. rewrite Z.shiftl_mul_pow2 by lia. lia. }
  rewrite Eu, E1, magic_correct, map_app; [|by rewrite length_app, Lp, Lq|by apply Forall_app].
  destruct (be256_halves (map toupper p) (map toupper q)) as (_ & E2 & E3);
    [by rewrite length_map|by apply (mb7_chars_ok STRCOLL_MB7_TOUPPER)..|].
  unfold u32. rewrite E2, E3.
  pose proof (be256_bound (map toupper p) (mb7_chars_ok STRCOLL_MB7_TOUPPER p Hp)) as Bu.
  rewrite length_map, Lp in Bu. change (bpow 4) with (2 ^ 32) in Bu. by rewrite (Z.mod_small (be256 (map toupper p))).
Qed.

(** What the test finds: four ASCII bytes in each string *)
Lemma uint4_ascii a : bytes a -> (4 <= length a)%nat -> Z.land (uint4korr a) 0x80808080 = 0 ->
  exists p r, a = p ++ r /\ length p = 4%nat /\ Forall ascii p.
Proof.
  intros Ha Hl E. destruct a as [|a0 [|a1 [|a2 [|a3 r]]]]; simpl in Hl; try lia.
  exists [a0; a1; a2; a3], r. split; [done|]. split; [done|].
  repeat match goal with H : bytes (_ :: _) |- _ => apply Forall_cons in H as [? H] end.
  unfold uint4korr in E. simpl rev in E.
  replace (be256 [a3; a2; a1; a0]) with (((a3 * 256 + a2) * 256 + a1) * 256 + a0) in E by (simpl; lia).
  change 0x80808080 with (((0x80 * 256 + 0x80) * 256 + 0x80) * 256 + 0x80) in E.
  unfold byte_ok in *. rewrite !land_split in E by lia.
  pose proof (land_range a3 0x80 ltac:(lia)). pose proof (land_range a2 0x80 ltac:(lia)).
  pose proof (land_range a1 0x80 ltac:(lia)). pose proof (land_range a0 0x80 ltac:(lia)).
  repeat constructor; apply land_80; try done; lia.
Qed.

Lemma found_ascii a b : bytes a -> bytes b -> my_strcoll_ascii_4bytes_found a b = true ->
  exists p ra q rb, a = p ++ ra /\ b = q ++ rb /\ length p = 4%nat /\ length q = 4%nat /\
    Forall ascii p /\ Forall ascii q.
Proof.
  intros Ha Hb E. unfold my_strcoll_ascii_4bytes_found in E.
  apply andb_true_iff in E as [[[E1%Nat.leb_le E2%Nat.leb_le]%andb_true_iff E3%Z.eqb_eq]%andb_true_iff E4%Z.eqb_eq].
  destruct (uint4_ascii a Ha E1 E4) as (p & ra & -> & ? & ?).
  destruct (uint4_ascii b Hb E2 E3) as (q & rb & -> & ? & ?). by exists p, ra, q, rb.
Qed.
