(* ===== verification/CollationProps.v ===== *)
(** * Collations: correctness of the comparison

    A string is the list of the weights that [scan_weight] finds in it.  The comparison functions, with
    their shortcut for ASCII, compare these lists; and the weights are those of the characters. *)

From S2P Require Import Prelude Bytes Utf8 Utf8Props Utf8Strings Weights Collation CollationAscii.

(** ** Lists of weights *)

Fixpoint compare_weights (a b : list Z) : Z :=
  match a, b with
  | [], [] => 0
  | [], _ :: _ => -1
  | _ :: _, [] => 1
  | x :: a, y :: b => if x <? y then -1 else if y <? x then 1 else compare_weights a b
  end.

(** The comparison with as many spaces as it takes behind the shorter list *)
Fixpoint compare_space (a : list Z) : Z :=
  match a with
  | [] => 0
  | x :: a => if x <? 0x20 then -1 else if 0x20 <? x then 1 else compare_space a
  end.

Fixpoint compare_padded (a b : list Z) : Z :=
  match a, b with
  | [], _ => - compare_space b
  | _, [] => compare_space a
  | x :: a, y :: b => if x <? y then -1 else if y <? x then 1 else compare_padded a b
  end.

Lemma compare_weights_app p q a b : length p = length q ->
  compare_weights (p ++ a) (q ++ b) = if memcmp p q =? 0 then compare_weights a b else memcmp p q.
Proof.
  revert q. induction p as [|x p IH]; intros [|y q] H; simplify_eq; [done|]. simpl.
  destruct (x <? y), (y <? x); simpl; auto.
Qed.

Lemma compare_padded_app p q a b : length p = length q ->
  compare_padded (p ++ a) (q ++ b) = if memcmp p q =? 0 then compare_padded a b else memcmp p q.
Proof.
  revert q. induction p as [|x p IH]; intros [|y q] H; simplify_eq; [done|]. simpl.
  destruct (x <? y), (y <? x); simpl; auto.
Qed.

Lemma compare_padded_step a b : (a <> [] \/ b <> []) ->
  compare_padded a b =
  if hd 0x20 a <? hd 0x20 b then -1 else if hd 0x20 b <? hd 0x20 a then 1 else compare_padded (tl a) (tl b).
Proof.
  destruct a as [|x a], b as [|y b]; intros H; try done; simpl.
  - destruct (Z.ltb_spec y 0x20), (Z.ltb_spec 0x20 y); simpl; lia.
  - repeat case_match; try done. by destruct a.
Qed.

Lemma hd_take n (l : list Z) : hd 0x20 (take (S n) l) = hd 0x20 l.
Proof. by destruct l. Qed.

Lemma take_S_nil n (l : list Z) : take (S n) l = [] -> l = [].
Proof. by destruct l. Qed.

Lemma tl_take n (l : list Z) : tl (take (S n) l) = take n (tl l).
Proof. destruct l; [symmetry; apply take_nil|done]. Qed.

(** [b] is a prefix of [a] and not all of it. *)
Definition proper_prefix (b a : list Z) : bool := bool_decide (b `prefix_of` a) && (length b <? length a)%nat.

Lemma memcmp_sgn p q : Z.sgn (memcmp p q) = memcmp p q.
Proof. revert q. induction p as [|x p IH]; intros [|y q]; simpl; repeat case_match; try done. Qed.

Lemma proper_prefix_app p q a b : length p = length q ->
  proper_prefix (q ++ b) (p ++ a) = (memcmp p q =? 0) && proper_prefix b a.
Proof.
  intros L. unfold proper_prefix. rewrite !length_app. destruct (Z.eqb_spec (memcmp p q) 0) as [E|E].
  - apply memcmp_eq in E as ->; [|done]. simpl. f_equal.
    + apply bool_decide_ext. split; [apply prefix_app_inv|apply prefix_app].
    + destruct (Nat.ltb_spec (length b) (length a)), (Nat.ltb_spec (length q + length b) (length q + length a)); lia.
  - rewrite bool_decide_eq_false_2; [done|]. intros [k Hk]. rewrite <- app_assoc in Hk.
    apply app_inj_1 in Hk as [-> _]; [|done]. by rewrite memcmp_refl in E.
Qed.

(** ** The weights of a string *)

Section Weights.
Context (c : collation).

Fixpoint weights_loop (fuel : nat) (s : list Z) : list Z :=
  match fuel, s with
  | S fuel, _ :: _ => let '(w, n) := scan_weight c s in w :: weights_loop fuel (skip n s)
  | _, _ => []
  end.

Definition weights (s : list Z) : list Z := weights_loop (length s) s.

Lemma scan_weight_length b s : exists n, (scan_weight c (b :: s)).2 = Z.of_nat (S n) /\ (n <= length s)%nat.
Proof.
  unfold scan_weight. repeat case_match; subst; simpl;
    first [exists 0%nat; simpl; lia|exists 1%nat; simpl; lia|exists 2%nat; simpl; lia|exists 3%nat; simpl; lia].
Qed.

Lemma scan_weight_nil : scan_weight c [] = (0x20, 0).
Proof. done. Qed.
#[local] Arguments scan_weight : simpl never.

Lemma weights_loop_fuel f1 f2 s : (length s <= f1)%nat -> (length s <= f2)%nat ->
  weights_loop f1 s = weights_loop f2 s.
Proof.
  revert f2 s. induction f1 as [|f1 IH]; intros [|f2] [|b s] H1 H2; try done; [simpl in *; lia..|].
  cbn [length] in H1, H2. cbn [weights_loop].
  destruct (scan_weight_length b s) as (n & En & Hn). destruct (scan_weight c (b :: s)) as [w k].
  simpl in En. subst k. f_equal. apply IH; unfold skip; rewrite Nat2Z.id; simpl; rewrite length_drop; lia.
Qed.

Lemma weights_cons b s w n : scan_weight c (b :: s) = (w, n) ->
  weights (b :: s) = w :: weights (skip n (b :: s)).
Proof.
  intros E. unfold weights at 1. cbn [length weights_loop]. rewrite E. f_equal.
  destruct (scan_weight_length b s) as (k & Ek & Hk). rewrite E in Ek. simpl in Ek. subst n.
  apply weights_loop_fuel; [|done]. unfold skip. rewrite Nat2Z.id. simpl. rewrite length_drop. lia.
Qed.

(** ** Laws of the collations *)

(** ASCII characters have the weights that the shortcut assumes, and no weight is negative. *)
Class AsciiWeights : Prop := {
  ascii_weight b : ascii b -> WEIGHT_MB1 c b = mb7_char (mb7 c) b;
}.
Context `{!AsciiWeights}.

Lemma scan_weight_ascii b s : ascii b -> scan_weight c (b :: s) = (mb7_char (mb7 c) b, 1).
Proof.
  intros Hb. unfold scan_weight, IS_MB1_CHAR. unfold ascii in Hb. rewrite (proj2 (Z.ltb_lt b 0x80)) by lia.
  by rewrite ascii_weight.
Qed.

Lemma weights_ascii p s : Forall ascii p -> weights (p ++ s) = map (mb7_char (mb7 c)) p ++ weights s.
Proof.
  induction 1 as [|b p Hb _ IH]; [done|]. simpl. rewrite (weights_cons _ _ _ _ (scan_weight_ascii b _ Hb)).
  f_equal. exact IH.
Qed.

(** What the shortcut finds, and what it does to the weights *)
Lemma shortcut a b : bytes a -> bytes b -> my_strcoll_ascii_4bytes_found a b = true ->
  exists p q ra rb, a = p ++ ra /\ b = q ++ rb /\ length p = length q /\ (0 < length p)%nat /\
    weights a = map (mb7_char (mb7 c)) p ++ weights ra /\
    weights b = map (mb7_char (mb7 c)) q ++ weights rb /\
    let res := memcmp (map (mb7_char (mb7 c)) p) (map (mb7_char (mb7 c)) q) in
    if my_strcoll_ascii_4bytes_found (skip 4 a) (skip 4 b)
    then MY_STRCOLL_MB7_8BYTES c a b = res /\ skip 8 a = ra /\ skip 8 b = rb
    else MY_STRCOLL_MB7_4BYTES c a b = res /\ skip 4 a = ra /\ skip 4 b = rb.
Proof.
  intros Ha Hb E. destruct (found_ascii a b Ha Hb E) as (p & ra & q & rb & -> & -> & Lp & Lq & Hp & Hq).
  assert (Sa : skip 4 (p ++ ra) = ra) by (unfold skip; by rewrite drop_app_length').
  assert (Sb : skip 4 (q ++ rb) = rb) by (unfold skip; by rewrite drop_app_length').
  rewrite Sa, Sb. apply Forall_app in Ha as [_ Ha], Hb as [_ Hb].
  destruct (my_strcoll_ascii_4bytes_found ra rb) eqn:E2.
  - destruct (found_ascii ra rb Ha Hb E2) as (p' & ra' & q' & rb' & -> & -> & Lp' & Lq' & Hp' & Hq').
    exists (p ++ p'), (q ++ q'), ra', rb'. rewrite <- !app_assoc. rewrite !length_app.
    split_and!; try done; try lia.
    + rewrite !app_assoc. apply weights_ascii. by apply Forall_app.
    + rewrite !app_assoc. apply weights_ascii. by apply Forall_app.
    + rewrite !app_assoc. split_and!.
      * apply mb7_8bytes; [rewrite length_app; lia..|by apply Forall_app|by apply Forall_app].
      * unfold skip. apply drop_app_length'. rewrite length_app. lia.
      * unfold skip. apply drop_app_length'. rewrite length_app. lia.
  - exists p, q, ra, rb. split_and!; try done; try lia; [by apply weights_ascii..|].
    split_and!; [by apply mb7_4bytes|done..].
Qed.

(** ** Comparing without padding *)

Lemma bytes_skip n s : bytes s -> bytes (skip n s).
Proof. apply Forall_drop. Qed.

(** What [strnncoll] returns for the sign and the flag *)
Definition strnncoll_result (b_is_prefix : bool) (wa wb : list Z) : Z * bool :=
  if b_is_prefix && proper_prefix wb wa then (0, true) else (compare_weights wa wb, false).

Lemma strnncoll_result_app bp p q a b : length p = length q ->
  strnncoll_result bp (p ++ a) (q ++ b) =
  if memcmp p q =? 0 then strnncoll_result bp a b else (memcmp p q, false).
Proof.
  intros L. unfold strnncoll_result. rewrite compare_weights_app, proper_prefix_app by done.
  by destruct (memcmp p q =? 0), bp.
Qed.

Lemma strnncoll_result_cons bp x y a b : strnncoll_result bp (x :: a) (y :: b) =
  if x <? y then (-1, false) else if y <? x then (1, false) else strnncoll_result bp a b.
Proof. etrans; [exact (strnncoll_result_app bp [x] [y] a b eq_refl)|]. simpl. by destruct (x <? y), (y <? x). Qed.

Lemma strnncoll_result_nil_l bp y b : strnncoll_result bp [] (y :: b) = (-1, false).
Proof. unfold strnncoll_result, proper_prefix. simpl. by rewrite !andb_false_r. Qed.

Lemma strnncoll_result_nil_r bp x a : strnncoll_result bp (x :: a) [] = if bp then (0, true) else (1, false).
Proof.
  unfold strnncoll_result, proper_prefix. rewrite bool_decide_eq_true_2 by apply prefix_nil. by destruct bp.
Qed.

Lemma strnncoll_loop_spec fuel bp a b : bytes a -> bytes b -> (length a < fuel)%nat ->
  exists r, strnncoll_loop c fuel a b bp = Some r /\
    (Z.sgn r.1, r.2) = strnncoll_result bp (weights a) (weights b).
Proof.
  revert a b. induction fuel as [|fuel IH]; intros a b Ha Hb Hf; [lia|]. cbn [strnncoll_loop].
  destruct (scan_weight c a) as [wa na] eqn:Ea.
  destruct ((na =? 1) && my_strcoll_ascii_4bytes_found a b) eqn:F.
  - apply andb_true_iff in F as [_ F].
    destruct (shortcut a b Ha Hb F) as (p & q & ra & rb & -> & -> & L & L0 & -> & -> & R). simpl in R.
    rewrite strnncoll_result_app by by rewrite !length_map.
    apply Forall_app in Ha as [_ Ha], Hb as [_ Hb]. rewrite length_app in Hf.
    case_match; destruct R as (-> & -> & ->); (case_match; [case_match; [lia|]|case_match; [|lia]];
      [eexists; split; [reflexivity|]; simpl; by rewrite memcmp_sgn|apply IH; [done..|lia]]).
  - clear F. destruct (scan_weight c b) as [wb nb] eqn:Eb.
    destruct a as [|x a], b as [|y b]; rewrite ?scan_weight_nil in Ea; rewrite ?scan_weight_nil in Eb; simplify_eq/=.
    + exists (0, false). by destruct bp.
    + destruct (scan_weight_length y b) as (n & En & Hn). rewrite Eb in En. simpl in En.
      rewrite (weights_cons _ _ _ _ Eb). eexists. split; [done|].
      by rewrite (proj2 (Z.eqb_neq nb 0)), strnncoll_result_nil_l by lia.
    + destruct (scan_weight_length x a) as (n & En & Hn). rewrite Ea in En. simpl in En.
      rewrite (weights_cons _ _ _ _ Ea), (proj2 (Z.eqb_neq na 0)) by lia. simpl.
      rewrite strnncoll_result_nil_r. destruct bp; eexists; (split; [reflexivity|done]).
    + destruct (scan_weight_length x a) as (n & En & Hn), (scan_weight_length y b) as (k & Ek & Hk).
      rewrite Ea in En. rewrite Eb in Ek. simpl in En, Ek.
      rewrite (weights_cons _ _ _ _ Ea), (weights_cons _ _ _ _ Eb), !(proj2 (Z.eqb_neq _ 0)) by lia.
      rewrite strnncoll_result_cons. simpl.
      destruct (Z.ltb_spec wa wb), (Z.ltb_spec wb wa); try lia;
        (destruct (Z.eqb_spec (wa - wb) 0); try lia); simpl.
      * eexists. split; [reflexivity|]. simpl. f_equal. lia.
      * eexists. split; [reflexivity|]. simpl. f_equal. lia.
      * apply IH; [by apply bytes_skip..|]. subst na. unfold skip. rewrite Nat2Z.id. simpl in *.
        rewrite length_drop. lia.
Qed.
(** ** Comparing with padding *)

Lemma weights_step s w n : scan_weight c s = (w, n) ->
  hd 0x20 (weights s) = w /\ tl (weights s) = weights (skip n s) /\
  (length (skip n s) + Z.to_nat n = length s)%nat /\ 0 <= n /\ (n = 0 <-> weights s = []).
Proof.
  intros E. destruct s as [|b s]; [rewrite scan_weight_nil in E; by simplify_eq|].
  rewrite (weights_cons _ _ _ _ E). destruct (scan_weight_length b s) as (k & Ek & Hk).
  rewrite E in Ek. simpl in Ek. subst n. unfold skip. rewrite length_drop, Nat2Z.id.
  split_and!; try done; cbn [length]; lia.
Qed.

Lemma strnncollsp_loop_spec fuel a b : bytes a -> bytes b -> (length a + length b < fuel)%nat ->
  exists r, strnncollsp_loop c fuel a b = Some r /\ Z.sgn r = compare_padded (weights a) (weights b).
Proof.
  revert a b. induction fuel as [|fuel IH]; intros a b Ha Hb Hf; [lia|]. cbn [strnncollsp_loop].
  destruct (scan_weight c a) as [wa na] eqn:Ea.
  destruct ((na =? 1) && my_strcoll_ascii_4bytes_found a b) eqn:F.
  - apply andb_true_iff in F as [_ F].
    destruct (shortcut a b Ha Hb F) as (p & q & ra & rb & -> & -> & L & L0 & -> & -> & R). simpl in R.
    rewrite compare_padded_app by by rewrite !length_map.
    apply Forall_app in Ha as [_ Ha], Hb as [_ Hb]. rewrite !length_app in Hf.
    case_match; destruct R as (-> & -> & ->); (case_match; [case_match; [lia|]|case_match; [|lia]];
      [eexists; split; [reflexivity|]; simpl; by rewrite memcmp_sgn|apply IH; [done..|lia]]).
  - clear F. destruct (scan_weight c b) as [wb nb] eqn:Eb.
    destruct (weights_step _ _ _ Ea) as (Wa & Ta & La & Na & Za), (weights_step _ _ _ Eb) as (Wb & Tb & Lb & Nb & Zb).
    destruct (decide (na = 0 /\ nb = 0)) as [[-> ->]|N].
    + rewrite (proj1 Za), (proj1 Zb) in * by done. simpl in *. subst wa wb. exists 0. done.
    + rewrite compare_padded_step by (destruct (decide (na = 0)); [right|left]; tauto).
      rewrite Wa, Wb, Ta, Tb.
      destruct (Z.ltb_spec wa wb), (Z.ltb_spec wb wa); try lia;
        (destruct (Z.eqb_spec (wa - wb) 0); try lia); simpl.
      * eexists. split; [reflexivity|]. lia.
      * eexists. split; [reflexivity|]. lia.
      * destruct (Z.eqb_spec na 0), (Z.eqb_spec nb 0); simpl; try tauto;
          (apply IH; [by apply bytes_skip..|lia]).
Qed.
Lemma strnncollsp_nchars_spec n flags a b :
  Z.sgn (strnncollsp_nchars c a b n flags) = compare_padded (take n (weights a)) (take n (weights b)).
Proof.
  revert a b. induction n as [|n IH]; intros a b; [done|]. cbn [strnncollsp_nchars].
  destruct (scan_weight c a) as [wa na] eqn:Ea, (scan_weight c b) as [wb nb] eqn:Eb.
  destruct (weights_step _ _ _ Ea) as (Wa & Ta & _ & Na & Za), (weights_step _ _ _ Eb) as (Wb & Tb & _ & Nb & Zb).
  destruct (decide (na = 0 /\ nb = 0)) as [[-> ->]|N].
  - rewrite (proj1 Za), (proj1 Zb) in * by done. simpl in *. by subst wa wb.
  - rewrite compare_padded_step, !hd_take, !tl_take by
      (destruct (decide (na = 0)); [right|left]; intros ?%take_S_nil; tauto).
    rewrite Wa, Wb, Ta, Tb, <- IH.
    destruct (Z.ltb_spec wa wb), (Z.ltb_spec wb wa); try lia;
      (destruct (Z.eqb_spec (wa - wb) 0); try lia); simpl; try lia.
    destruct (Z.eqb_spec na 0), (Z.eqb_spec nb 0); simpl; tauto.
Qed.
End Weights.
