(* ===== verification/CollationChars.v ===== *)
(** * Collations: the weights of characters

    The weights that the comparison finds in a string are those of its characters and bad bytes, as
    the decoder of the character set reads them; with one exception in the four-byte collations. *)

From S2P Require Import Prelude Bytes Utf8 Utf8Props Utf8Strings Weights Collation CollationAscii CollationProps.

Definition charset_of (c : collation) : MY_CHARSET_HANDLER :=
  if has_mb4 c then my_charset_utf8mb4_handler else my_charset_utf8mb3_handler.
Definition max_of (c : collation) : Z := if has_mb4 c then 0x110000 else 0x10000.

#[export] Instance charset_of_utf8 c : Utf8Charset (charset_of c) (max_of c).
Proof. unfold charset_of, max_of. destruct (has_mb4 c); apply _. Qed.

(** The weight of each character is a function of its code. *)
Class CharWeights (c : collation) (w : Z -> Z) : Prop := {
  char_weight_ascii :: AsciiWeights c;
  char_weight1 b : 0 <= b < 0x80 -> WEIGHT_MB1 c b = w b;
  char_weight2 b0 b1 : 0x80 <= UTF8MB2_CODE b0 b1 < 0x800 -> WEIGHT_MB2 c b0 b1 = w (UTF8MB2_CODE b0 b1);
  char_weight3 b0 b1 b2 : 0x800 <= UTF8MB3_CODE b0 b1 b2 < 0x10000 ->
    WEIGHT_MB3 c b0 b1 b2 = w (UTF8MB3_CODE b0 b1 b2);
  char_weight4 b0 b1 b2 b3 : has_mb4 c = true -> 0x10000 <= UTF8MB4_CODE b0 b1 b2 b3 ->
    WEIGHT_MB4 c b0 b1 b2 b3 = w (UTF8MB4_CODE b0 b1 b2 b3);
  char_weight_range wc : 0 <= wc < max_of c -> 0 <= w wc < 0x110000;
}.

(** The bytes E0 [90..9F] [80..BF] [80..BF]: an overlong three-byte sequence and one more byte *)
Definition overlong (s : list Z) : bool :=
  match s with
  | b0 :: b1 :: b2 :: b3 :: _ =>
      (b0 =? 0xE0) && (0x90 <=? b1) && (b1 <? 0xA0) && IS_CONTINUATION_BYTE b2 && IS_CONTINUATION_BYTE b3
  | _ => false
  end.

(** Nowhere in [s] *)
Fixpoint no_overlong (s : list Z) : bool :=
  negb (overlong s) && match s with [] => true | _ :: s' => no_overlong s' end.

Section Chars.
Context (c : collation) (w : Z -> Z) `{!CharWeights c w}.

Definition item_weight (i : item) : Z := match i with Char wc => w wc | Bad b => WEIGHT_ILSEQ b end.

(** The conditions of the decoders and of [scan_weight] on the lead byte *)
Ltac lead b0 :=
  unfold scan_weight, IS_MB1_CHAR, IS_MB1_MBHEAD_UNUSED_GAP,
    IS_UTF8MB2_STEP2, IS_UTF8MB3_STEP3, IS_UTF8MB4_STEP3 in *;
  destruct (Z.ltb_spec b0 0x80), (Z.ltb_spec b0 0xC2), (Z.ltb_spec b0 0xE0), (Z.ltb_spec b0 0xF0),
    (Z.ltb_spec b0 0xF5); try lia; cbn [andb] in *.

Lemma length_code wc n : n = utf8_length wc -> 0 <= wc < max_of c ->
  (n = 1 -> 0 <= wc < 0x80) /\ (n = 2 -> 0x80 <= wc < 0x800) /\ (n = 3 -> 0x800 <= wc < 0x10000) /\
  (n = 4 -> 0x10000 <= wc).
Proof. intros -> H. unfold utf8_length. repeat case_match; bool_to_prop; lia. Qed.

Lemma scan_weight_some s n wc : bytes s -> mb_wc (charset_of c) s = (n, Some wc) -> scan_weight c s = (w wc, n).
Proof.
  intros Hs E. destruct (utf8_sound s n wc Hs E) as (Hw & En & _).
  destruct (length_code wc n En Hw) as (R1 & R2 & R3 & R4). clear En Hs. unfold charset_of, max_of in *.
  destruct s as [|b0 s]; [by destruct (has_mb4 c)|].
  destruct (has_mb4 c) eqn:Hm; simpl in E;
    unfold my_mb_wc_utf8mb4, my_utf8mb3_uni, my_mb_wc_utf8mb4_quick, my_mb_wc_utf8mb3_quick in E; lead b0; try done;
    repeat case_match; simplify_eq/=; try congruence; try (by rewrite Hm in *);
    f_equal; first [apply char_weight1; tauto|apply char_weight2; tauto|apply char_weight3; tauto
                   |apply char_weight4; tauto].
Qed.

Lemma scan_weight_none b0 s n : bytes (b0 :: s) -> mb_wc (charset_of c) (b0 :: s) = (n, None) ->
  (has_mb4 c = true -> overlong (b0 :: s) = false) -> scan_weight c (b0 :: s) = (WEIGHT_ILSEQ b0, 1).
Proof.
  intros Hs E Ho. unfold charset_of in *. apply Forall_cons in Hs as [H0 Hs]. unfold byte_ok in H0.
  destruct (has_mb4 c) eqn:Hm; simpl in E;
    unfold my_mb_wc_utf8mb4, my_utf8mb3_uni, my_mb_wc_utf8mb4_quick, my_mb_wc_utf8mb3_quick in E; lead b0; try done;
    destruct s as [|b1 [|b2 [|b3 s]]]; try done; rewrite ?Hm; try done;
    unfold overlong, IS_UTF8MB3_STEP2, IS_UTF8MB4_STEP2 in *;
    destruct (IS_CONTINUATION_BYTE b1); try destruct (IS_CONTINUATION_BYTE b2); try destruct (IS_CONTINUATION_BYTE b3);
    cbn [andb negb] in *; try done;
    revert E; destruct ((0xe1 <=? b0) || (0xa0 <=? b1)) eqn:E1; try done; repeat case_match; try done;
    specialize (Ho eq_refl); lia.
Qed.
Lemma no_overlong_app p s : no_overlong (p ++ s) = true -> no_overlong s = true.
Proof. induction p as [|b p IH]; [done|]. intros [_ H]%andb_true_iff. auto. Qed.

Lemma no_overlong_head s : no_overlong s = true -> overlong s = false.
Proof. destruct s; [done|]. intros [H _]%andb_true_iff. by destruct (overlong _). Qed.

(** Only where a bad byte is can there be an overlong sequence. *)
Lemma weights_scanned s l : bytes s -> scanned (charset_of c) (max_of c) s l ->
  (has_mb4 c = true -> no_overlong s = true \/ forallb is_char l = true) ->
  weights c s = map item_weight l.
Proof.
  intros Hs H. induction H as [|wc r l Hw _ IH|b r l n E _ IH]; intros Ho; [done|..].
  - pose proof (utf8_complete (cset:=charset_of c) (max:=max_of c) wc r Hw) as E.
    apply scan_weight_some in E; [|done]. apply Forall_app in Hs as [_ Hr]. simpl. rewrite <- IH; [|done|].
    + destruct (utf8_bytes_cons wc) as (b & t & Eb). rewrite <- (skip_char wc r) at 2.
      rewrite Eb in *. by apply weights_cons.
    + intros Hm. destruct (Ho Hm) as [?%no_overlong_app|?]; [by left|by right].
  - assert (Ho' : has_mb4 c = true -> no_overlong (b :: r) = true).
    { intros Hm. by destruct (Ho Hm). }
    pose proof (scan_weight_none b r n Hs E (fun Hm => no_overlong_head _ (Ho' Hm))) as E'.
    rewrite (weights_cons _ _ _ _ _ E'). simpl. f_equal. apply Forall_cons in Hs as [_ Hs]. apply IH; [done|].
    intros Hm. left. apply (no_overlong_app [b]). auto.
Qed.

Lemma scanned_chars wcs : Forall (fun wc => 0 <= wc < max_of c) wcs ->
  scanned (charset_of c) (max_of c) (concat (map utf8_bytes wcs)) (map Char wcs).
Proof. induction 1; simpl; constructor; done. Qed.

Lemma chars_bytes wcs : Forall (fun wc => 0 <= wc < max_of c) wcs -> bytes (concat (map utf8_bytes wcs)).
Proof.
  intros H. apply Forall_concat, Forall_map. eapply Forall_impl; [exact H|]. intros wc Hw. apply utf8_bytes_ok.
  unfold max_of in Hw. case_match; lia.
Qed.

(** The weights of a well-formed string are those of its characters. *)
Lemma weights_chars wcs : Forall (fun wc => 0 <= wc < max_of c) wcs ->
  weights c (concat (map utf8_bytes wcs)) = map w wcs.
Proof.
  intros H. rewrite (weights_scanned _ (map Char wcs)).
  - by rewrite map_map.
  - by apply chars_bytes.
  - by apply scanned_chars.
  - intros _. right. clear H. by induction wcs.
Qed.
End Chars.

(** ** The weights of the collations *)

Definition ascii_check (c : collation) : bool :=
  forallb (fun n => WEIGHT_MB1 c (Z.of_nat n) =? mb7_char (mb7 c) (Z.of_nat n)) (seq 0 128).

Lemma ascii_weights c : ascii_check c = true -> AsciiWeights c.
Proof.
  intros H. split. intros b Hb. unfold ascii_check, ascii in *. rewrite forallb_forall in H.
  specialize (H (Z.to_nat b)). rewrite Z2Nat.id in H by lia. apply Z.eqb_eq, H, in_seq. lia.
Qed.

(** A table of weights by pages: entries are 16-bit, and the first eight pages are not NULL. *)
Definition table_check (index : list (option (list Z))) : bool :=
  forallb (fun p => forallb (fun x => (0 <=? x) && (x <? 0x10000)) (default [] p)) index &&
  forallb (fun p => if p is Some _ then true else false) (take 8 index) && (length index =? 256)%nat.

Definition table_weight (index : list (option (list Z))) (wc : Z) : Z :=
  match page_of index (Z.shiftr wc 8) with Some page => page_entry page (Z.land wc 0xFF) | None => wc end.

Section Table.
Context (index : list (option (list Z))) (Hindex : table_check index = true).

Lemma forallb_nth {A} (f : A -> bool) l n d : forallb f l = true -> f d = true -> f (nth n l d) = true.
Proof.
  intros H Hd. destruct (nth_in_or_default n l d) as [Hi| ->]; [|done]. rewrite forallb_forall in H. auto.
Qed.

Lemma table_range wc : 0 <= wc < 0x10000 -> 0 <= table_weight index wc < 0x10000.
Proof using Hindex.
  intros Hw. unfold table_weight, page_of, page_entry.
  apply andb_true_iff in Hindex as [[H _]%andb_true_iff _].
  pose proof (forallb_nth _ _ (Z.to_nat (Z.shiftr wc 8)) None H eq_refl) as Hp.
  destruct (nth _ index None) as [page|]; [|done]. simpl in Hp.
  pose proof (forallb_nth _ _ (Z.to_nat (Z.land wc 0xFF)) 0 Hp eq_refl) as He. simpl in He. lia.
Qed.

Lemma table_page wc : 0 <= wc < 0x800 -> exists page, page_of index (Z.shiftr wc 8) = Some page.
Proof using Hindex.
  intros Hw. apply andb_true_iff in Hindex as [[_ H]%andb_true_iff L%Nat.eqb_eq].
  rewrite Z.shiftr_div_pow2 by done. change (2 ^ 8) with 256. unfold page_of.
  assert (Z.to_nat (wc / 256) < 8)%nat by codes.
  rewrite <- (take_drop 8 index), app_nth1 by (rewrite length_take; lia).
  rewrite forallb_forall in H. specialize (H (nth (Z.to_nat (wc / 256)) (take 8 index) None)).
  destruct (nth _ (take 8 index) None) eqn:E; [eauto|]. discriminate H. rewrite <- E. apply nth_In.
  rewrite length_take. lia.
Qed.
End Table.

Lemma general_ci_table : table_check weight_general_ci_index = true.
Proof. by vm_compute. Qed.
Lemma mysql500_table : table_check weight_general_mysql500_ci_index = true.
Proof. by vm_compute. Qed.

Lemma shiftr_8 wc : Z.shiftr wc 8 = wc / 256.
Proof. by rewrite Z.shiftr_div_pow2. Qed.

Lemma general_ci_bmp wc : 0 <= wc < 0x10000 ->
  my_general_ci_char_to_weight wc = table_weight weight_general_ci_index wc.
Proof.
  intros Hw. unfold my_general_ci_char_to_weight. change (Z.of_nat _) with 256. rewrite shiftr_8.
  by rewrite (proj2 (Z.ltb_lt (wc / 256) 256)) by codes.
Qed.

Lemma general_ci_supplementary wc : 0x10000 <= wc -> my_general_ci_char_to_weight wc = MY_CS_REPLACEMENT_CHARACTER.
Proof.
  intros Hw. unfold my_general_ci_char_to_weight. change (Z.of_nat _) with 256. rewrite shiftr_8.
  by rewrite (proj2 (Z.ltb_ge (wc / 256) 256)) by codes.
Qed.

Lemma general_ci_weights c : WEIGHT_MB1 c = my_weight_mb1_utf8mb3_general_ci ->
  WEIGHT_MB2 c = my_weight_mb2_utf8mb3_general_ci -> WEIGHT_MB3 c = my_weight_mb3_utf8mb3_general_ci ->
  (has_mb4 c = true -> WEIGHT_MB4 c = fun _ _ _ _ => MY_CS_REPLACEMENT_CHARACTER) ->
  mb7 c = STRCOLL_MB7_TOUPPER -> CharWeights c my_general_ci_char_to_weight.
Proof.
  intros E1 E2 E3 E4 E7. split.
  - apply ascii_weights. unfold ascii_check. rewrite E1, E7. by vm_compute.
  - intros b Hb. rewrite E1, general_ci_bmp by lia. unfold table_weight. rewrite shiftr_8, Z.div_small by lia. done.
  - intros b0 b1 Hw. rewrite E2, general_ci_bmp by lia. unfold my_weight_mb2_utf8mb3_general_ci, table_weight.
    destruct (table_page _ general_ci_table (UTF8MB2_CODE b0 b1)) as [page ->]; [lia|done].
  - intros b0 b1 b2 Hw. rewrite E3, general_ci_bmp by lia. unfold my_weight_mb3_utf8mb3_general_ci, u16.
    by rewrite Z.mod_small by lia.
  - intros b0 b1 b2 b3 Hm Hw. by rewrite E4, general_ci_supplementary.
  - intros wc Hw. destruct (Z.lt_ge_cases wc 0x10000) as [|H].
    + rewrite general_ci_bmp by lia. pose proof (table_range _ general_ci_table wc). lia.
    + rewrite general_ci_supplementary by lia. done.
Qed.

#[export] Instance utf8mb3_general_ci_weights : CharWeights utf8mb3_general_ci my_general_ci_char_to_weight.
Proof. by apply general_ci_weights. Qed.
#[export] Instance utf8mb4_general_ci_weights : CharWeights utf8mb4_general_ci my_general_ci_char_to_weight.
Proof. by apply general_ci_weights. Qed.

#[export] Instance utf8mb3_general_mysql500_ci_weights :
  CharWeights utf8mb3_general_mysql500_ci my_wc_weight_utf8mb3_general_mysql500_ci.
Proof.
  split; simpl; [by apply ascii_weights; vm_compute| | |done|done|].
  - intros b Hb. unfold my_wc_weight_utf8mb3_general_mysql500_ci. by rewrite shiftr_8, Z.div_small by lia.
  - intros b0 b1 Hw. unfold my_weight_mb2_utf8mb3_general_mysql500_ci, my_wc_weight_utf8mb3_general_mysql500_ci.
    destruct (table_page _ mysql500_table (UTF8MB2_CODE b0 b1)) as [page ->]; [lia|done].
  - intros wc Hw. pose proof (table_range _ mysql500_table wc Hw) as H. unfold table_weight in H.
    unfold my_wc_weight_utf8mb3_general_mysql500_ci. lia.
Qed.

(** The weights of the binary collations are the codes. *)
#[export] Instance utf8mb3_bin_weights : CharWeights utf8mb3_bin id.
Proof. split; simpl; try done. unfold max_of. simpl. lia. Qed.
#[export] Instance utf8mb4_bin_weights : CharWeights utf8mb4_bin id.
Proof. by split. Qed.
