(* ===== verification/CollationOrder.v ===== *)
(** * Collations: order

    Comparing strings of weights, with and without padding, is a total preorder; so is the comparison
    of strings of bytes by each collation.  Strings that differ in trailing spaces only are equal with
    padding, and the binary collations have the order of the bytes. *)

From S2P Require Import Prelude Bytes Utf8 Utf8Props Utf8Strings Weights Collation CollationAscii CollationProps CollationChars.

(** ** Lists of weights *)

Lemma compare_weights_antisym a b : compare_weights b a = - compare_weights a b.
Proof.
  revert b. induction a as [|x a IH]; intros [|y b]; simpl; try done.
  destruct (Z.ltb_spec x y), (Z.ltb_spec y x); try lia. auto.
Qed.

Lemma compare_weights_refl a : compare_weights a a = 0.
Proof. pose proof (compare_weights_antisym a a). lia. Qed.

Lemma compare_weights_eq a b : compare_weights a b = 0 -> a = b.
Proof.
  revert b. induction a as [|x a IH]; intros [|y b]; simpl; try done.
  destruct (Z.ltb_spec x y), (Z.ltb_spec y x); try done. intros E. f_equal; [lia|auto].
Qed.

Lemma compare_weights_trans a b c :
  compare_weights a b <= 0 -> compare_weights b c <= 0 -> compare_weights a c <= 0.
Proof.
  revert b c. induction a as [|x a IH]; intros [|y b] [|z c]; simpl; try lia.
  destruct (Z.ltb_spec x y), (Z.ltb_spec y x), (Z.ltb_spec y z), (Z.ltb_spec z y),
    (Z.ltb_spec x z), (Z.ltb_spec z x); try lia. apply IH.
Qed.

(** Padded to the same length, the lists are compared without padding. *)
Definition pad (n : nat) (a : list Z) : list Z := a ++ replicate (n - length a) 0x20.

Lemma compare_padded_pad n a b : (length a <= n)%nat -> (length b <= n)%nat ->
  compare_padded a b = compare_weights (pad n a) (pad n b).
Proof.
  revert a b. induction n as [|n IH]; intros a b La Lb.
  { destruct a, b; simpl in *; try lia. }
  assert (forall l, (length l <= S n)%nat -> pad (S n) l = hd 0x20 l :: pad n (tl l)) as E.
  { intros [|x l] L; unfold pad; simpl in *; [by rewrite Nat.sub_0_r|done]. }
  rewrite !E by done. simpl. rewrite <- IH by (destruct a, b; simpl in *; lia).
  destruct a as [|x a], b as [|y b]; [done|..]; apply compare_padded_step; auto.
Qed.

Lemma compare_padded_antisym a b : compare_padded b a = - compare_padded a b.
Proof.
  rewrite !(compare_padded_pad (length a + length b)) by lia. apply compare_weights_antisym.
Qed.

Lemma compare_padded_refl a : compare_padded a a = 0.
Proof. pose proof (compare_padded_antisym a a). lia. Qed.

Lemma compare_padded_trans a b c :
  compare_padded a b <= 0 -> compare_padded b c <= 0 -> compare_padded a c <= 0.
Proof.
  rewrite !(compare_padded_pad (length a + length b + length c)) by lia. apply compare_weights_trans.
Qed.

Lemma compare_padded_spaces a n : compare_padded (a ++ replicate n 0x20) a = 0.
Proof.
  induction a as [|x a IH]; simpl; [|by rewrite Z.ltb_irrefl].
  assert (compare_space (replicate n 0x20) = 0) by (by induction n). by destruct n.
Qed.

(** ** Trailing spaces *)

Section Spaces.
Context (c : collation) `{!AsciiWeights c}.

Lemma scan_weight_spaces b s n : scan_weight c ((b :: s) ++ replicate n 0x20) = scan_weight c (b :: s).
Proof.
  unfold scan_weight. destruct n as [|n]; [by rewrite app_nil_r|].
  assert (IS_CONTINUATION_BYTE 0x20 = false) as E by done.
  unfold IS_UTF8MB2_STEP2, IS_UTF8MB3_STEP3, IS_UTF8MB4_STEP3,
    IS_UTF8MB3_STEP2, IS_UTF8MB4_STEP2.
  destruct s as [|b1 [|b2 [|b3 s]]]; simpl app; cbv iota; try done;
    [destruct n as [|[|n]]|destruct n as [|n]|]; simpl replicate; cbv iota; rewrite ?E, ?andb_false_r; cbn [andb];
    by repeat case_match.
Qed.

Lemma weights_spaces s n : weights c (s ++ replicate n 0x20) = weights c s ++ replicate n 0x20.
Proof.
  induction s as [s IH] using (well_founded_induction (well_founded_ltof _ (@length Z))).
  destruct s as [|b s].
  - rewrite app_nil_l. clear IH. change (weights c []) with (@nil Z). rewrite app_nil_l. induction n as [|n IHn]; [done|].
    assert (ascii 0x20) as A by (unfold ascii; lia). simpl replicate.
    rewrite (weights_cons _ _ _ _ _ (scan_weight_ascii c 0x20 _ A)).
    assert (mb7_char (mb7 c) 0x20 = 0x20) as -> by (by destruct (mb7 c)). f_equal. exact IHn.
  - destruct (scan_weight c (b :: s)) as [w k] eqn:E. rewrite (weights_cons _ _ _ _ _ E).
    pose proof E as E'. rewrite <- (scan_weight_spaces b s n) in E'.
    rewrite <- app_comm_cons in *. rewrite (weights_cons _ _ _ _ _ E'). simpl. f_equal.
    destruct (scan_weight_length c b s) as (m & Em & Hm). rewrite E in Em. simpl in Em. subst k.
    unfold skip. rewrite Nat2Z.id. simpl. rewrite drop_app_le by done. apply IH.
    unfold ltof. simpl. rewrite length_drop. lia.
Qed.
End Spaces.

(** ** The binary collations *)

Lemma compare_weights_memcmp a b r1 r2 : memcmp a b = -1 -> compare_weights (a ++ r1) (b ++ r2) = -1.
Proof.
  revert b. induction a as [|x a IH]; intros [|y b]; simpl; try done.
  destruct (x <? y), (y <? x); auto.
Qed.

(** The order of the codes is that of the bytes. *)
Lemma compare_codes l1 l2 : Forall (fun wc => 0 <= wc < 0x110000) l1 -> Forall (fun wc => 0 <= wc < 0x110000) l2 ->
  compare_weights l1 l2 = compare_weights (concat (map utf8_bytes l1)) (concat (map utf8_bytes l2)).
Proof.
  intros H1. revert l2. induction H1 as [|x l1 Hx _ IH]; intros l2 H2.
  - destruct l2 as [|y l2]; [done|]. simpl. by destruct (utf8_bytes_cons y) as (b & r & ->).
  - destruct H2 as [|y l2 Hy H2]; simpl.
    + by destruct (utf8_bytes_cons x) as (b & r & ->).
    + destruct (Z.ltb_spec x y); [symmetry; by apply compare_weights_memcmp, utf8_order; lia|].
      destruct (Z.ltb_spec y x).
      * rewrite compare_weights_antisym, compare_weights_memcmp; [done|]. apply utf8_order; lia.
      * assert (x = y) as -> by lia. rewrite compare_weights_app, memcmp_refl by done. simpl. auto.
Qed.

Lemma codes_below c l : Forall (fun wc => 0 <= wc < max_of c) l -> Forall (fun wc => 0 <= wc < 0x110000) l.
Proof. intros H. eapply Forall_impl; [exact H|]. intros wc. unfold max_of. case_match; lia. Qed.

(** ** Correctness *)

(** The value of a comparison that returns *)
Definition sign (r : option Z) : option Z := Z.sgn <$> r.

Lemma strnncollsp_sign c `{!AsciiWeights c} a b : bytes a -> bytes b ->
  sign (strnncollsp c a b) = Some (compare_padded (weights c a) (weights c b)).
Proof.
  intros Ha Hb. unfold strnncollsp, sign.
  destruct (strnncollsp_loop_spec c (S (length a + length b)) a b Ha Hb ltac:(lia)) as (r & -> & <-). done.
Qed.

Lemma strnncoll_sign c `{!AsciiWeights c} a b bp : bytes a -> bytes b ->
  (fun r => (Z.sgn r.1, r.2)) <$> strnncoll c a b bp = Some (strnncoll_result bp (weights c a) (weights c b)).
Proof.
  intros Ha Hb. unfold strnncoll.
  destruct (strnncoll_loop_spec c (S (length a)) bp a b Ha Hb ltac:(lia)) as (r & -> & <-). done.
Qed.

Lemma strnncollsp_nopad_sign c `{!AsciiWeights c} a b : bytes a -> bytes b ->
  sign (strnncollsp_nopad c a b) = Some (compare_weights (weights c a) (weights c b)).
Proof.
  intros Ha Hb. pose proof (strnncoll_sign c a b false Ha Hb) as H. unfold strnncollsp_nopad, sign.
  destruct (strnncoll c a b false) as [[r f]|]; [|done]. unfold strnncoll_result in H. simpl in *. congruence.
Qed.

Lemma weights_scan c w `{!CharWeights c w} s : bytes s -> (has_mb4 c = true -> no_overlong s = true) ->
  weights c s = map (item_weight w) (scan (charset_of c) s).
Proof. intros Hs Ho. apply weights_scanned; [done..|by apply (scan_scanned _ (max_of c))|auto]. Qed.

(** The collations of utf8mb3 and utf8mb4, each with the weight of a character *)
Definition collations : list (collation * (Z -> Z)) :=
  [(utf8mb3_general_ci, my_general_ci_char_to_weight);
   (utf8mb3_general_mysql500_ci, my_wc_weight_utf8mb3_general_mysql500_ci);
   (utf8mb3_bin, id);
   (utf8mb4_general_ci, my_general_ci_char_to_weight);
   (utf8mb4_bin, id)].

Lemma collations_weights c w : In (c, w) collations -> CharWeights c w.
Proof. simpl. intros H. repeat destruct H as [[= <- <-]|H]; [apply _..|done]. Qed.

(** C36: in each collation, strings of any bytes (for utf8mb4 without the ill-formed sequences
    E0 [90..9F] [80..BF] [80..BF], which the comparison takes for one character) are compared by the
    weights of their characters, a bad byte having a weight of its own: [strnncoll] and the NO PAD comparison lexicographically, the PAD SPACE comparison
    as if the shorter string were continued with spaces, [strnncollsp_nchars] likewise on the first
    characters only, whatever its flags.  The shortcut that compares four or eight ASCII characters at once, changing their
    case by arithmetic on whole words, makes no difference.  With [b_is_prefix], a proper prefix counts
    as equal and is reported. *)
Theorem collation_compare_correct c w a b :
  In (c, w) collations -> bytes a -> bytes b ->
  (has_mb4 c = true -> no_overlong a = true /\ no_overlong b = true) ->
  let wa := map (item_weight w) (scan (charset_of c) a) in
  let wb := map (item_weight w) (scan (charset_of c) b) in
  (forall b_is_prefix, (fun r => (Z.sgn r.1, r.2)) <$> strnncoll c a b b_is_prefix =
     Some (strnncoll_result b_is_prefix wa wb)) /\
  sign (strnncollsp_nopad c a b) = Some (compare_weights wa wb) /\
  sign (strnncollsp c a b) = Some (compare_padded wa wb) /\
  (forall n flags, Z.sgn (strnncollsp_nchars c a b n flags) = compare_padded (take n wa) (take n wb)).
Proof.
  intros Hc%collations_weights Ha Hb Ho. rewrite <- !weights_scan by (done || by intros ?; apply Ho).
  assert (AsciiWeights c) as HA by (by destruct Hc).
  split_and!.
  - intros bp. by apply strnncoll_sign.
  - by apply strnncollsp_nopad_sign.
  - by apply strnncollsp_sign.
  - intros n flags. apply strnncollsp_nchars_spec.
Qed.

(** Letters of both cases, one with an accent, and eight of them at once *)
Lemma collation_compare_correct_witness :
  sign (strnncollsp utf8mb4_general_ci [0x41; 0xC3; 0xA4] [0x61; 0x41; 0x20]) = Some 0 /\
  sign (strnncollsp_nopad utf8mb3_bin [0x4D; 0x61; 0x72; 0x69; 0x61; 0x44; 0x42; 0x21]
                                      [0x4D; 0x61; 0x72; 0x69; 0x61; 0x64; 0x62; 0x21]) = Some (-1) /\
  (fun r => (Z.sgn r.1, r.2)) <$> strnncoll utf8mb4_bin [0x61; 0x62] [0x61] true = Some (0, true).
Proof.
  split; [|split].
  - apply (collation_compare_correct utf8mb4_general_ci my_general_ci_char_to_weight);
      [simpl; tauto|repeat constructor; by_decide..|split; reflexivity].
  - apply (collation_compare_correct utf8mb3_bin id);
      [simpl; tauto|repeat constructor; by_decide..|done].
  - destruct (collation_compare_correct utf8mb4_bin id [0x61; 0x62] [0x61]) as [H _];
      [simpl; tauto|repeat constructor; by_decide..|split; reflexivity|exact (H true)].
Defined.

(** A comparison of byte strings that always returns and is a total preorder *)
Record compares (cmp : list Z -> list Z -> option Z) : Prop := {
  compares_refl a : bytes a -> sign (cmp a a) = Some 0;
  compares_antisym a b : bytes a -> bytes b -> exists s, sign (cmp a b) = Some s /\ sign (cmp b a) = Some (- s);
  compares_trans a b d s t : bytes a -> bytes b -> bytes d ->
    sign (cmp a b) = Some s -> s <= 0 -> sign (cmp b d) = Some t -> t <= 0 ->
    exists u, sign (cmp a d) = Some u /\ u <= 0;
}.

Lemma compares_by (cmp : list Z -> list Z -> option Z) (w : list Z -> list Z) (f : list Z -> list Z -> Z) :
  (forall a b, bytes a -> bytes b -> sign (cmp a b) = Some (f (w a) (w b))) ->
  (forall a b, f b a = - f a b) -> (forall a b c, f a b <= 0 -> f b c <= 0 -> f a c <= 0) -> compares cmp.
Proof.
  intros H A T. split.
  - intros a Ha. rewrite H by done. pose proof (A (w a) (w a)). f_equal. lia.
  - intros a b Ha Hb. rewrite !H by done. rewrite (A (w a)). eauto.
  - intros a b d s t Ha Hb Hd. rewrite !H by done. intros [= <-] Hs [= <-] Ht. eauto.
Qed.

(** C37: in each collation, both comparisons return for all strings of bytes, well formed or not, and are
    total preorders, so that strings can be sorted and indexed by them.  With PAD SPACE, trailing spaces
    make no difference.  Every character is before every bad byte.  Well-formed strings compare by the
    binary collations as their bytes do.  But the four-byte collations take E0 90 80 80, which the decoder
    rejects, for one character: by utf8mb4_bin it is equal to F0 90 80 80, U+10000. *)
Theorem collation_order c w :
  In (c, w) collations ->
  compares (strnncollsp c) /\ compares (strnncollsp_nopad c) /\
  (forall a n, bytes a -> sign (strnncollsp c (a ++ replicate n 0x20) a) = Some 0) /\
  (forall wc x, 0 <= wc < max_of c -> byte_ok x -> 0 <= w wc < WEIGHT_ILSEQ x) /\
  (c = utf8mb3_bin \/ c = utf8mb4_bin -> forall l1 l2,
     Forall (fun wc => 0 <= wc < max_of c) l1 -> Forall (fun wc => 0 <= wc < max_of c) l2 ->
     let a := concat (map utf8_bytes l1) in let b := concat (map utf8_bytes l2) in
     sign (strnncollsp_nopad c a b) = Some (compare_weights a b)) /\
  (mb_wc my_charset_utf8mb4_handler [0xE0; 0x90; 0x80; 0x80] = (MY_CS_ILSEQ, None) /\
   utf8_bytes 0x10000 = [0xF0; 0x90; 0x80; 0x80] /\
   strnncollsp utf8mb4_bin [0xE0; 0x90; 0x80; 0x80] [0xF0; 0x90; 0x80; 0x80] = Some 0).
Proof.
  intros Hin. pose proof (collations_weights _ _ Hin) as Hc. assert (AsciiWeights c) as HA by (by destruct Hc).
  split_and!; try done.
  - eapply (compares_by _ (weights c) compare_padded);
      [apply strnncollsp_sign|apply compare_padded_antisym|apply compare_padded_trans]; done.
  - eapply (compares_by _ (weights c) compare_weights);
      [apply strnncollsp_nopad_sign|apply compare_weights_antisym|apply compare_weights_trans]; done.
  - intros a n Ha. rewrite strnncollsp_sign, weights_spaces, compare_padded_spaces; [done..| |done].
    apply Forall_app. split; [done|]. by apply Forall_replicate.
  - intros wc x Hw Hx. pose proof (char_weight_range (c:=c) wc Hw). unfold WEIGHT_ILSEQ, byte_ok in *. lia.
  - intros Hbin l1 l2 H1 H2 a b.
    assert (CharWeights c id) as Hid by (destruct Hbin as [->| ->]; apply _).
    unfold a, b. rewrite strnncollsp_nopad_sign by (done || by apply (chars_bytes c)).
    rewrite !(weights_chars c id), !map_id by done. f_equal. apply compare_codes; by apply (codes_below c).
Qed.

(** Transitivity on three spellings of a letter *)
Lemma collation_order_witness :
  (exists u, sign (strnncollsp utf8mb3_general_ci [0x61] [0xC3; 0xA4; 0x20]) = Some u /\ u <= 0) /\
  sign (strnncollsp utf8mb3_general_ci ([0x61] ++ replicate 3 0x20) [0x61]) = Some 0.
Proof.
  destruct (collation_order utf8mb3_general_ci my_general_ci_char_to_weight) as (H & _ & Hs & _); [simpl; tauto|].
  split; [|apply Hs; repeat constructor; by_decide].
  apply (compares_trans _ H [0x61] [0x41] [0xC3; 0xA4; 0x20] 0 0);
    first [repeat constructor; by_decide|vm_compute; reflexivity|lia].
Defined.
