(* ===== verification/SortKey.v ===== *)
(** * Sort keys

    strings/strcoll.inl, strings/ctype-utf8.c and strings/ctype-simple.c: the transformation of a string
    into bytes that memcmp orders, as ORDER BY uses it: two bytes for each weight, or three in
    utf8mb4_bin.  [room] is the number of bytes left in the destination; what is written is a list. *)

From S2P Require Import Prelude Bytes Utf8 Weights Collation.

Notation WEIGHT_SIZE := 2%nat (only parsing).
Notation MY_STRNXFRM_TRUNCATED_WEIGHT_TRAILING_SPACE := 1 (only parsing).
Notation MY_STRNXFRM_TRUNCATED_WEIGHT_REAL_CHAR := 2 (only parsing).
Notation MY_STRXFRM_PAD_WITH_SPACE := 0x40 (only parsing).
Notation MY_STRXFRM_PAD_TO_MAXLEN := 0x80 (only parsing).
Notation MY_STRXFRM_DESC_LEVEL1 := 0x100 (only parsing).
Notation MY_STRXFRM_REVERSE_LEVEL1 := 0x10000 (only parsing).

(** The length of [m_result] is [m_result_length]. *)
Record my_strnxfrm_ret_t := mk_ret {
  m_result : list Z;
  m_source_length_used : nat;
  m_warnings : Z;
}.

Definition is_set (flags flag : Z) : bool := negb (Z.land flags flag =? 0).

(** ** Padding *)

Fixpoint my_strxfrm_pad_nweights_unicode_be2 (nweights room : nat) : list Z :=
  match nweights, room with
  | S n, S (S r) => 0x00 :: 0x20 :: my_strxfrm_pad_nweights_unicode_be2 n r
  | S _, S O => [0x00]
  | _, _ => []
  end.

Fixpoint my_strxfrm_pad_unicode_be2 (room : nat) : list Z :=
  match room with
  | S (S r) => 0x00 :: 0x20 :: my_strxfrm_pad_unicode_be2 r
  | S O => [0x00]
  | O => []
  end.

(** ** Order and direction: level 0 *)

(** [~] on a byte *)
Definition not8 (x : Z) : Z := Z.lxor x 0xFF.

(** The loops that swap bytes from both ends; [fin] is one more than the offset of [strend], and [more]
    is the condition of the loop. *)
Fixpoint swap_loop (fuel : nat) (more : nat -> nat -> bool) (f : Z -> Z) (str fin : nat) (s : list Z) : list Z :=
  match fuel with
  | S fuel =>
      if more str fin then
        let tmp := nth str s 0 in
        let s := <[str := f (nth (fin - 1) s 0)]> s in
        swap_loop fuel more f (S str) (fin - 1) (<[(fin - 1)%nat := f tmp]> s)
      else s
  | O => s
  end.

Definition my_strxfrm_desc_and_reverse (flags : Z) (s : list Z) : list Z :=
  if is_set flags MY_STRXFRM_DESC_LEVEL1 then
    if is_set flags MY_STRXFRM_REVERSE_LEVEL1
    then swap_loop (length s) (fun str fin => str <? fin)%nat not8 0 (length s) s
    else map not8 s
  else if is_set flags MY_STRXFRM_REVERSE_LEVEL1
  then swap_loop (length s) (fun str fin => str <? fin - 1)%nat id 0 (length s) s
  else s.

(** [uint] arithmetic: the number of bytes of as many weights *)
Definition uint_mul (nweights : nat) (size : Z) : nat := Z.to_nat (u32 (Z.of_nat nweights * size)).

(** ** Two bytes for each weight *)

Definition PUT_WC_BE2_HAVE_1BYTE (room : nat) (wc : Z) : list Z :=
  u8 (Z.shiftr wc 8) :: (if (1 <? room)%nat then [u8 (Z.land wc 0xFF)] else []).

Section Strnxfrm.
Context (MY_MB_WC : list Z -> Z * option Z) (WEIGHT_MB1 MY_WC_WEIGHT : Z -> Z).

(** What is written, [*nweights], the rest of the source, and the warnings *)
Fixpoint strnxfrm_loop (nweights room : nat) (src : list Z) : list Z * nat * list Z * Z :=
  match nweights, src with
  | S n, b :: src1 =>
      let put wc src :=
        let out := PUT_WC_BE2_HAVE_1BYTE room wc in
        let '(out', n', src', warnings) := strnxfrm_loop n (room - length out) src in
        (out ++ out', n', src',
         Z.lor (if (room <? WEIGHT_SIZE)%nat then MY_STRNXFRM_TRUNCATED_WEIGHT_REAL_CHAR else 0) warnings) in
      if (room =? 0)%nat then ([], nweights, src, 0)
      else if b <=? 0x7F then put (WEIGHT_MB1 b) src1
      else
        match MY_MB_WC src with
        | (res, Some wc) => put (MY_WC_WEIGHT wc) (skip res src)
        | _ => ([], nweights, src, 0)
        end
  | _, _ => ([], nweights, src, 0)
  end.

Definition strnxfrm_internal (nweights room : nat) (src : list Z) : my_strnxfrm_ret_t * nat :=
  let '(out, n, rest, warnings) := strnxfrm_loop nweights room src in
  (mk_ret out (length src - length rest)
     (Z.lor warnings (match rest with _ :: _ => MY_STRNXFRM_TRUNCATED_WEIGHT_REAL_CHAR | [] => 0 end)), n).

Definition strnxfrm (dstlen nweights : nat) (src : list Z) (flags : Z) : my_strnxfrm_ret_t :=
  let '(rc, nweights) := strnxfrm_internal nweights dstlen src in
  let room := (dstlen - length (m_result rc))%nat in
  let '(dst, warnings) :=
    if negb (nweights =? 0)%nat && is_set flags MY_STRXFRM_PAD_WITH_SPACE then
      (m_result rc ++ my_strxfrm_pad_nweights_unicode_be2 nweights room,
       Z.lor (m_warnings rc) (if (nweights * 2 <=? room)%nat then 0 else MY_STRNXFRM_TRUNCATED_WEIGHT_TRAILING_SPACE))
    else (m_result rc, m_warnings rc) in
  let dst := my_strxfrm_desc_and_reverse flags dst in
  let dst :=
    if is_set flags MY_STRXFRM_PAD_TO_MAXLEN && (length dst <? dstlen)%nat
    then dst ++ my_strxfrm_pad_unicode_be2 (dstlen - length dst) else dst in
  mk_ret dst (m_source_length_used rc) warnings.

Definition strnxfrm_nopad (dstlen nweights : nat) (src : list Z) (flags : Z) : my_strnxfrm_ret_t :=
  let '(rc, nweights) := strnxfrm_internal nweights dstlen src in
  let len := (dstlen - length (m_result rc))%nat in
  let '(dst, warnings) :=
    if negb (nweights =? 0)%nat && is_set flags MY_STRXFRM_PAD_WITH_SPACE then
      (m_result rc ++ replicate (Nat.min len (uint_mul nweights 2)) 0x00,
       Z.lor (m_warnings rc) (if (len <? uint_mul nweights 2)%nat then MY_STRNXFRM_TRUNCATED_WEIGHT_TRAILING_SPACE else 0))
    else (m_result rc, m_warnings rc) in
  let dst := my_strxfrm_desc_and_reverse flags dst in
  let dst :=
    if is_set flags MY_STRXFRM_PAD_TO_MAXLEN && (length dst <? dstlen)%nat
    then dst ++ replicate (dstlen - length dst) 0x00 else dst in
  mk_ret dst (m_source_length_used rc) warnings.
End Strnxfrm.

(** The macros of the inclusions; the weight of a character in DEFINE_STRNXFRM_UNICODE_BIN2 *)
Definition wc_weight_bin2 (wc : Z) : Z := if 0xFFFF <? wc then MY_CS_REPLACEMENT_CHARACTER else wc.

(** ** Three bytes for each weight *)

Definition put_be3 (room : nat) (wc : Z) : list Z :=
  u8 (Z.shiftr wc 16) ::
  (if (1 <? room)%nat then u8 (Z.land (Z.shiftr wc 8) 0xFF) :: (if (2 <? room)%nat then [u8 (Z.land wc 0xFF)] else [])
   else []).

(** The loop returns when there is a character but no weight left. *)
Fixpoint full_bin_loop (nweights room : nat) (src : list Z) : list Z * nat * list Z :=
  match room, my_mb_wc_utf8mb4 src with
  | S _, (res, Some wc) =>
      match nweights with
      | O => ([], O, src)
      | S n =>
          let out := put_be3 room wc in
          let '(out', n', src') := full_bin_loop n (room - length out) (skip res src) in (out ++ out', n', src')
      end
  | _, _ => ([], nweights, src)
  end.

Definition my_strnxfrm_unicode_full_bin_internal (nweights room : nat) (src : list Z) : my_strnxfrm_ret_t * nat :=
  let '(out, n, rest) := full_bin_loop nweights room src in
  (mk_ret out (length src - length rest)
     (match rest with _ :: _ => MY_STRNXFRM_TRUNCATED_WEIGHT_REAL_CHAR | [] => 0 end), n).

(** The loops of my_strnxfrm_unicode_full_bin that put spaces *)
Fixpoint full_bin_pad (nweights room : nat) : list Z :=
  match nweights, room with
  | S n, S (S (S r)) => 0x00 :: 0x00 :: 0x20 :: full_bin_pad n r
  | S _, S (S O) => [0x00; 0x00]
  | S _, S O => [0x00]
  | _, _ => []
  end.

Definition my_strnxfrm_unicode_full_bin (dstlen nweights : nat) (src : list Z) (flags : Z) : my_strnxfrm_ret_t :=
  let '(rc, nweights) := my_strnxfrm_unicode_full_bin_internal nweights dstlen src in
  let room := (dstlen - length (m_result rc))%nat in
  let '(dst, warnings) :=
    if is_set flags MY_STRXFRM_PAD_WITH_SPACE then
      (m_result rc ++ full_bin_pad nweights room,
       Z.lor (m_warnings rc) (if u32 (Z.of_nat room) <? u32 (Z.of_nat nweights * 3) then MY_STRNXFRM_TRUNCATED_WEIGHT_TRAILING_SPACE else 0))
    else (m_result rc, m_warnings rc) in
  let dst := my_strxfrm_desc_and_reverse flags dst in
  let dst :=
    if is_set flags MY_STRXFRM_PAD_TO_MAXLEN
    then dst ++ full_bin_pad (dstlen - length dst) (dstlen - length dst) else dst in
  mk_ret dst (m_source_length_used rc) warnings.

Definition my_strnxfrm_unicode_full_nopad_bin (dstlen nweights : nat) (src : list Z) (flags : Z) : my_strnxfrm_ret_t :=
  let '(rc, nweights) := my_strnxfrm_unicode_full_bin_internal nweights dstlen src in
  let len := (dstlen - length (m_result rc))%nat in
  let '(dst, warnings) :=
    if negb (nweights =? 0)%nat && is_set flags MY_STRXFRM_PAD_WITH_SPACE then
      (m_result rc ++ replicate (Nat.min len (uint_mul nweights 3)) 0x00,
       Z.lor (m_warnings rc) (if (len <? uint_mul nweights 3)%nat then MY_STRNXFRM_TRUNCATED_WEIGHT_TRAILING_SPACE else 0))
    else (m_result rc, m_warnings rc) in
  let dst := my_strxfrm_desc_and_reverse flags dst in
  let dst :=
    if is_set flags MY_STRXFRM_PAD_TO_MAXLEN && (length dst <? dstlen)%nat
    then dst ++ replicate (dstlen - length dst) 0x00 else dst in
  mk_ret dst (m_source_length_used rc) warnings.
