(* ===== verification/SortKeyProps.v ===== *)
(** * Sort keys: correctness

    A sort key is the weights of the first characters and of spaces, in bytes, cut off where the
    destination ends; memcmp of two keys is the comparison of the strings by as many characters. *)

From S2P Require Import Prelude Bytes Utf8 Utf8Props Utf8Strings Weights Collation CollationAscii CollationProps CollationChars CollationOrder SortKey.

(** ** Numbers of a fixed width *)

Definition be2 (w : Z) : list Z := [w / 256; w mod 256].
Definition be3 (w : Z) : list Z := [w / 65536; w / 256 mod 256; w mod 256].

(** An encoding of the numbers below [max] in [k] bytes that memcmp orders *)
Class FixedWidth (k : nat) (max : Z) (enc : Z -> list Z) : Prop := {
  fw_pos : (0 < k)%nat;
  fw_length x : length (enc x) = k;
  fw_order x y : 0 <= x < max -> 0 <= y < max ->
    memcmp (enc x) (enc y) = if x <? y then -1 else if y <? x then 1 else 0;
}.

#[export] Instance be2_width : FixedWidth 2 0x10000 be2.
Proof.
  split; [lia|done|]. intros x y Hx Hy. unfold be2. simpl.
  repeat match goal with |- context [?a <? ?b] => destruct (Z.ltb_spec a b) end; try done; exfalso; codes.
Qed.

#[export] Instance be3_width : FixedWidth 3 0x1000000 be3.
Proof.
  split; [lia|done|]. intros x y Hx Hy. unfold be3. simpl.
  repeat match goal with |- context [?a <? ?b] => destruct (Z.ltb_spec a b) end; try done; exfalso; codes.
Qed.

Lemma memcmp_cut d x y : memcmp (take d x) (take d y) <> 0 -> memcmp (take d x) (take d y) = memcmp x y.
Proof.
  revert x y. induction d as [|d IH]; intros [|a x] [|b y]; simpl; try done.
  destruct (a <? b), (b <? a); try done. apply IH.
Qed.

Section Width.
Context (k : nat) (max : Z) (enc : Z -> list Z) `{!FixedWidth k max enc}.

Definition keys (ws : list Z) : list Z := concat (map enc ws).

Lemma keys_app a b : keys (a ++ b) = keys a ++ keys b.
Proof. unfold keys. by rewrite map_app, concat_app. Qed.

Lemma keys_length ws : length (keys ws) = (k * length ws)%nat.
Proof using FixedWidth0.
  induction ws as [|x ws IH]; [simpl; lia|]. unfold keys in *. simpl. rewrite length_app, IH, fw_length. lia.
Qed.

Lemma keys_compare a b : length a = length b ->
  Forall (fun w => 0 <= w < max) a -> Forall (fun w => 0 <= w < max) b ->
  memcmp (keys a) (keys b) = compare_weights a b.
Proof using FixedWidth0.
  revert b. induction a as [|x a IH]; intros [|y b] L Ha Hb; simplify_eq/=; [done|].
  apply Forall_cons in Ha as [Hx Ha], Hb as [Hy Hb]. unfold keys in *. simpl.
  rewrite memcmp_app, fw_order by (done || by rewrite !fw_length).
  destruct (x <? y), (y <? x); simpl; auto.
Qed.

(** The weight that fills the key: a space, or zero in the NO PAD collations *)
Context (fill : Z) (Hfill : 0 <= fill < max).

Definition spaces (n : nat) : list Z := keys (replicate n fill).
Definition padded (n : nat) (l : list Z) : list Z := l ++ replicate (n - length l) fill.

Lemma spaces_length n : length (spaces n) = (k * n)%nat.
Proof using FixedWidth0. unfold spaces. by rewrite keys_length, length_replicate. Qed.

Lemma spaces_take r n m : (r <= k * n)%nat -> (r <= k * m)%nat -> take r (spaces n) = take r (spaces m).
Proof using FixedWidth0.
  assert (H : forall n m, (n <= m)%nat -> (r <= k * n)%nat -> take r (spaces n) = take r (spaces m)).
  { intros n' m' L Hr. unfold spaces. replace m' with (n' + (m' - n'))%nat by lia.
    rewrite replicate_add, keys_app, take_app_le; [done|]. rewrite keys_length, length_replicate. lia. }
  intros Hn Hm. destruct (Nat.le_ge_cases n m); [|symmetry]; by apply H.
Qed.

(** The key of [dstlen] bytes of the first [n] weights *)
Definition sort_key (dstlen n : nat) (ws : list Z) : list Z :=
  take dstlen (keys (take n ws) ++ spaces dstlen).

Lemma sort_key_length dstlen n ws : length (sort_key dstlen n ws) = dstlen.
Proof using FixedWidth0.
  unfold sort_key. rewrite length_take, length_app, keys_length, spaces_length.
  pose proof fw_pos. nia.
Qed.

(** How the functions make it: the weights, spaces for the weights that are left, and spaces to the end *)
Lemma sort_key_steps dstlen n ws j : let out := take dstlen (keys (take n ws)) in
  let r := (dstlen - length out)%nat in let out2 := out ++ take r (spaces j) in
  out2 ++ take (dstlen - length out2) (spaces (dstlen - length out2)) = sort_key dstlen n ws.
Proof using FixedWidth0.
  intros out r out2. unfold sort_key, out2. rewrite take_app. fold out. rewrite <- app_assoc. f_equal.
  replace (dstlen - length (keys (take n ws)))%nat with r by (unfold r, out; rewrite length_take; lia).
  rewrite length_app. pose proof fw_pos as Hk. assert (r <= dstlen)%nat by (unfold r; lia).
  set (y := take r (spaces j)). replace (dstlen - (length out + length y))%nat with (r - length y)%nat by (unfold r; lia).
  assert (Ly : length y = Nat.min r (k * j)) by (unfold y; by rewrite length_take, spaces_length).
  destruct (Nat.le_gt_cases r (k * j)) as [L|L].
  - replace (r - length y)%nat with 0%nat by lia. simpl. rewrite app_nil_r. unfold y. apply spaces_take; nia.
  - assert (y = spaces j) as -> by (unfold y; rewrite take_ge; [done|]; rewrite spaces_length; lia).
    rewrite spaces_length.
    rewrite (spaces_take r dstlen (j + (r - k * j))) by nia.
    unfold spaces at 3. rewrite replicate_add, keys_app, take_app. fold (spaces j). f_equal.
    + symmetry. apply take_ge. rewrite spaces_length. lia.
    + f_equal. rewrite spaces_length. lia.
Qed.
(** ** Comparing keys *)

Lemma sort_key_pad dstlen n ws : (k * n <= dstlen)%nat ->
  sort_key dstlen n ws = keys (padded n (take n ws)) ++ take (dstlen - k * n) (spaces dstlen).
Proof using FixedWidth0.
  intros L. pose proof fw_pos as Hk. unfold sort_key, padded. set (l := take n ws).
  assert (Ll : (length l <= n)%nat) by (unfold l; rewrite length_take; lia).
  rewrite take_app, take_ge, keys_app, <- app_assoc by (rewrite keys_length; nia). f_equal.
  rewrite keys_length, (spaces_take _ dstlen ((n - length l) + dstlen)) by nia.
  unfold spaces at 1. rewrite replicate_add, keys_app, take_app, take_ge by (rewrite keys_length, length_replicate; nia).
  f_equal. rewrite keys_length, length_replicate. fold (spaces dstlen). f_equal. nia.
Qed.

Notation small := (Forall (fun w => 0 <= w < max)).

Lemma padded_small n l : small l -> small (padded n l).
Proof using Hfill. intros H. apply Forall_app. split; [done|]. by apply Forall_replicate. Qed.

Definition compare_filled (n : nat) (wa wb : list Z) : Z :=
  compare_weights (padded n (take n wa)) (padded n (take n wb)).

Lemma sort_key_compare dstlen n wa wb : small wa -> small wb -> (k * n <= dstlen)%nat ->
  memcmp (sort_key dstlen n wa) (sort_key dstlen n wb) = compare_filled n wa wb.
Proof using FixedWidth0 Hfill.
  intros Ha Hb L. unfold compare_filled.
  assert (P : forall l, length (padded n (take n l)) = n).
  { intros l. unfold padded. rewrite length_app, length_replicate, length_take. lia. }
  rewrite !sort_key_pad, memcmp_app, memcmp_refl by (done || by rewrite !keys_length, !P).
  rewrite keys_compare by (rewrite ?P; done || by apply padded_small, Forall_take).
  by destruct (Z.eqb_spec (compare_weights (padded n (take n wa)) (padded n (take n wb))) 0).
Qed.

Lemma sort_key_cut d D n ws : (d <= D)%nat -> sort_key d n ws = take d (sort_key D n ws).
Proof using FixedWidth0.
  intros L. pose proof fw_pos as Hk. unfold sort_key. rewrite take_take, Nat.min_l by done.
  rewrite !take_app. f_equal. apply spaces_take; nia.
Qed.

(** Where a key is too short, it still does not put strings in the wrong order. *)
Lemma sort_key_prefix dstlen n wa wb : small wa -> small wb ->
  memcmp (sort_key dstlen n wa) (sort_key dstlen n wb) <> 0 ->
  memcmp (sort_key dstlen n wa) (sort_key dstlen n wb) = compare_filled n wa wb.
Proof using FixedWidth0 Hfill.
  intros Ha Hb. set (D := (dstlen + k * n)%nat).
  rewrite (sort_key_cut dstlen D n wa), (sort_key_cut dstlen D n wb) by (unfold D; lia).
  intros H. rewrite memcmp_cut by done. apply sort_key_compare; [done..|unfold D; lia].
Qed.
End Width.

Lemma filled_spaces n wa wb : compare_filled 0x20 n wa wb = compare_padded (take n wa) (take n wb).
Proof. symmetry. apply compare_padded_pad; rewrite length_take; lia. Qed.

(** Zeros behind weights that are not zero *)
Lemma filled_zeros n wa wb : Forall (fun w => 0 < w) wa -> Forall (fun w => 0 < w) wb ->
  compare_filled 0 n wa wb = compare_weights (take n wa) (take n wb).
Proof.
  intros Ha Hb. unfold compare_filled, padded. revert wa wb Ha Hb.
  induction n as [|n IH]; intros wa wb Ha Hb; [done|].
  destruct Ha as [|x wa Hx Ha], Hb as [|y wb Hy Hb]; simpl.
  - apply compare_weights_refl.
  - by rewrite (proj2 (Z.ltb_lt 0 y)).
  - by rewrite (proj2 (Z.ltb_ge x 0)), (proj2 (Z.ltb_lt 0 x)) by lia.
  - destruct (x <? y), (y <? x); try done. by apply IH.
Qed.

(** ** Two bytes for each weight *)

(** What an inclusion of strcoll.inl defines for the keys, for a collation with 16-bit weights *)
Class SortMacros (c : collation) (w : Z -> Z) (MY_MB_WC : list Z -> Z * option Z) (MB1 WC_WEIGHT : Z -> Z) : Prop := {
  sm_weights :: CharWeights c w;
  sm_decode s : MY_MB_WC s = mb_wc (charset_of c) s;
  sm_mb1 b : 0 <= b < 0x80 -> MB1 b = w b;
  sm_weight wc : 0x80 <= wc < max_of c -> WC_WEIGHT wc = w wc;
  sm_small wc : 0 <= wc < max_of c -> 0 <= w wc < 0x10000;
}.

Lemma put_be2 room w : 0 <= w < 0x10000 -> (0 < room)%nat -> PUT_WC_BE2_HAVE_1BYTE room w = take room (be2 w).
Proof.
  intros Hw Hr. unfold PUT_WC_BE2_HAVE_1BYTE, be2, u8. rewrite shiftr_8, land_255.
  change (2 ^ 8) with 256. rewrite Z.mod_mod, (Z.mod_small (w / 256)) by (done || codes).
  destruct room as [|[|r]]; [lia|done|simpl; by rewrite take_nil].
Qed.

Definition half_up (n : nat) : nat := Nat.div2 (S n).

Section Keys2.
Context (c : collation) (w : Z -> Z) (MY_MB_WC : list Z -> Z * option Z) (MB1 WC_WEIGHT : Z -> Z).
Context `{!SortMacros c w MY_MB_WC MB1 WC_WEIGHT}.
Notation encode := (fun l => concat (map utf8_bytes l)).
Notation chars := (Forall (fun wc => 0 <= wc < max_of c)).
Notation loop := (strnxfrm_loop MY_MB_WC MB1 WC_WEIGHT).

Lemma loop_char n room wc l : 0 <= wc < max_of c -> (0 < room)%nat ->
  loop (S n) room (utf8_bytes wc ++ l) =
  let out := take room (be2 (w wc)) in
  let '(out', n', src', warnings) := loop n (room - length out) l in
  (out ++ out', n', src', Z.lor (if (room <? 2)%nat then 2 else 0) warnings).
Proof using SortMacros0.
  intros Hw Hr. destruct (utf8_bytes_cons wc) as (b & t & Eb). rewrite Eb. simpl app. cbn [strnxfrm_loop].
  rewrite (proj2 (Nat.eqb_neq room 0)) by lia.
  destruct (Z.leb_spec b 0x7F) as [Hb|Hb].
  - assert (wc = b /\ t = []) as [-> ->].
    { unfold utf8_bytes in Eb. unfold max_of in Hw. revert Hw.
      repeat case_match; intros; bool_to_prop; simplify_eq; try done; exfalso; codes. }
    assert (0 <= b) by lia. rewrite sm_mb1 by lia. by rewrite put_be2 by (done || by apply sm_small).
  - assert (0x80 <= wc). { unfold utf8_bytes in Eb. repeat case_match; bool_to_prop; simplify_eq; lia. }
    rewrite app_comm_cons, <- Eb, sm_decode, utf8_complete, skip_char by done.
    rewrite sm_weight by (split; [done|apply Hw]). by rewrite put_be2 by (done || by apply sm_small).
Qed.

(** The number of weights of which something is stored *)
Definition stored (n room : nat) (l : list Z) : nat := Nat.min (Nat.min n (length l)) (half_up room).

Lemma stored_0 n l : stored n 0 l = 0%nat.
Proof. unfold stored. change (half_up 0) with 0%nat. lia. Qed.
Lemma stored_1 n x l : stored (S n) 1 (x :: l) = 1%nat.
Proof. unfold stored. change (half_up 1) with 1%nat. simpl length. lia. Qed.
Lemma stored_SS n r x l : stored (S n) (S (S r)) (x :: l) = S (stored n r l).
Proof. done. Qed.

Lemma strnxfrm_loop_spec n room l : chars l ->
  loop n room (encode l) =
  (take room (keys be2 (take n (map w l))), (n - stored n room l)%nat, encode (drop (stored n room l) l),
   if (room <? 2 * stored n room l)%nat then 2 else 0).
Proof using SortMacros0.
  intros Hl. revert n room. induction Hl as [|wc l Hw Hl IH]; intros n room.
  { unfold stored. rewrite Nat.min_0_r. simpl. rewrite Nat.sub_0_r. unfold keys. destruct n; simpl; by rewrite take_nil. }
  destruct n as [|n].
  { unfold keys. simpl. by rewrite take_nil. }
  destruct room as [|[|r]].
  - rewrite stored_0. cbn [map concat drop]. destruct (utf8_bytes_cons wc) as (b & t & ->). done.
  - rewrite stored_1. cbn [map concat]. rewrite loop_char by (done || lia). cbv zeta. simpl length. simpl Nat.sub.
    rewrite IH, stored_0. simpl. by rewrite Nat.sub_0_r.
  - rewrite stored_SS. cbn [map concat]. rewrite loop_char by (done || lia). cbv zeta.
    assert (take (S (S r)) (be2 (w wc)) = be2 (w wc)) as -> by (simpl; by rewrite take_nil).
    replace (S (S r) - length (be2 (w wc)))%nat with r by (simpl; lia). rewrite IH.
    replace (S (S r) <? 2 * S (stored n r l))%nat with (r <? 2 * stored n r l)%nat
      by (destruct (Nat.ltb_spec r (2 * stored n r l)), (Nat.ltb_spec (S (S r)) (2 * S (stored n r l))); lia).
    done.
Qed.
Lemma pad_nweights_spaces n room : my_strxfrm_pad_nweights_unicode_be2 n room = take room (spaces be2 0x20 n).
Proof.
  revert room. induction n as [|n IH]; intros room; [by destruct room|].
  destruct room as [|[|r]]; [done..|]. simpl. by rewrite IH.
Qed.

Lemma pad_spaces room : my_strxfrm_pad_unicode_be2 room = take room (spaces be2 0x20 room).
Proof.
  cut (forall n r, (r <= n)%nat -> my_strxfrm_pad_unicode_be2 r = take r (spaces be2 0x20 n)).
  { intros H. by apply H. }
  induction n as [|n IH]; intros [|[|r]] Hr; simpl; try done; try (exfalso; lia). by rewrite (IH r) by lia.
Qed.

(** A warning is due if a weight is not stored or not wholly stored. *)
Lemma warned dstlen n l :
  Z.testbit (Z.lor (if (dstlen <? 2 * stored n dstlen l)%nat then 2 else 0)
    (match encode (drop (stored n dstlen l) l) with _ :: _ => 2 | [] => 0 end)) 1 =
  (n <? length l)%nat || (dstlen <? 2 * length l)%nat.
Proof.
  assert (H : (2 * half_up dstlen <= dstlen + 1 < 2 * half_up dstlen + 2)%nat).
  { unfold half_up. rewrite Nat.div2_div. pose proof (Nat.div_mod (S dstlen) 2). 
    pose proof (Nat.mod_upper_bound (S dstlen) 2). lia. }
  assert (E : encode (drop (stored n dstlen l) l) = [] <-> (length l <= stored n dstlen l)%nat).
  { destruct (drop (stored n dstlen l) l) as [|x t] eqn:Ed; simpl.
    - split; [|done]. intros _. apply (f_equal length) in Ed. rewrite length_drop in Ed. simpl in Ed. lia.
    - destruct (utf8_bytes_cons x) as (b & t' & ->). split; [done|]. intros L.
      apply (f_equal length) in Ed. rewrite length_drop in Ed. simpl in Ed. lia. }
  rewrite Z.lor_spec. unfold stored in *.
  destruct (concat (map utf8_bytes (drop _ l))) as [|b t].
  - pose proof (proj1 E eq_refl). rewrite orb_false_r.
    destruct (Nat.ltb_spec n (length l)), (Nat.ltb_spec dstlen (2 * length l)),
      (Nat.ltb_spec dstlen (2 * Nat.min (Nat.min n (length l)) (half_up dstlen))); try done; lia.
  - assert (~ (length l <= Nat.min (Nat.min n (length l)) (half_up dstlen))%nat) by (by rewrite <- E).
    rewrite orb_true_r. destruct (Nat.ltb_spec n (length l)), (Nat.ltb_spec dstlen (2 * length l)); try done. lia.
Qed.

Notation key := (strnxfrm MY_MB_WC MB1 WC_WEIGHT).

(** The steps of the function, with the bytes that it has before the last padding *)
Lemma strnxfrm_steps flags dstlen n l : chars l -> is_set flags 0x40 = true -> is_set flags 0x80 = true ->
  let out := take dstlen (keys be2 (take n (map w l))) in
  let dst := my_strxfrm_desc_and_reverse flags
    (out ++ take (dstlen - length out) (spaces be2 0x20 (n - stored n dstlen l))) in
  (length dst <= dstlen)%nat ->
  m_result (key dstlen n (encode l) flags) =
    dst ++ take (dstlen - length dst) (spaces be2 0x20 (dstlen - length dst)).
Proof using SortMacros0.
  intros Hl F1 F2 out dst Hd. unfold strnxfrm, strnxfrm_internal. rewrite strnxfrm_loop_spec by done.
  cbn [m_result m_warnings m_source_length_used]. fold out. rewrite F1, F2, andb_true_r.
  set (j := (n - stored n dstlen l)%nat) in *.
  assert (T : forall d, (length d <= dstlen)%nat ->
    (if true && (length d <? dstlen)%nat then d ++ my_strxfrm_pad_unicode_be2 (dstlen - length d) else d) =
    d ++ take (dstlen - length d) (spaces be2 0x20 (dstlen - length d))).
  { intros d L. rewrite pad_spaces. destruct (Nat.ltb_spec (length d) dstlen); [done|].
    replace (dstlen - length d)%nat with 0%nat by lia. by rewrite app_nil_r. }
  destruct (Nat.eqb_spec j 0) as [Ej|Ej]; simpl negb; cbn [andb]; cbv iota beta; cbn [m_result].
  - rewrite <- (T dst) by done. unfold dst. rewrite Ej. change (spaces be2 0x20 0) with (@nil Z). by rewrite take_nil, app_nil_r.
  - rewrite <- (T dst) by done. unfold dst. by rewrite pad_nweights_spaces.
Qed.
Lemma strnxfrm_key dstlen n l : chars l ->
  m_result (key dstlen n (encode l) 0xC0) = sort_key be2 0x20 dstlen n (map w l).
Proof using SortMacros0.
  intros Hl. rewrite <- (sort_key_steps 2 _ be2 0x20 dstlen n (map w l) (n - stored n dstlen l)).
  apply strnxfrm_steps; try done. change (my_strxfrm_desc_and_reverse 0xC0 ?x) with x.
  rewrite length_app, !length_take. lia.
Qed.

Lemma strnxfrm_warning dstlen n l flags : chars l ->
  Z.testbit (m_warnings (key dstlen n (encode l) flags)) 1 = (n <? length l)%nat || (dstlen <? 2 * length l)%nat.
Proof using SortMacros0.
  intros Hl. rewrite <- warned. unfold strnxfrm, strnxfrm_internal. rewrite strnxfrm_loop_spec by done.
  cbn [m_result m_warnings m_source_length_used]. destruct (_ && is_set flags 0x40); simpl m_warnings; [|done].
  rewrite (Z.lor_spec (Z.lor _ _)). destruct (_ * 2 <=? _)%nat; by rewrite orb_false_r.
Qed.
End Keys2.
