(* ===== verification/SortKeyOrder.v ===== *)
(** * Sort keys: direction, NO PAD, and the order of the strings

    The keys of DESC and REVERSE, the keys of NO PAD collations, the keys of three bytes for each weight,
    and the theorem that the keys order strings as the collation compares them. *)

From S2P Require Import Prelude Bytes Utf8 Utf8Props Utf8Strings Weights Collation CollationAscii CollationProps CollationChars CollationOrder SortKey SortKeyProps.

(** ** Order and direction *)

Lemma insert_middle (a b : list Z) x y : <[length a := y]> (a ++ x :: b) = a ++ y :: b.
Proof. by rewrite insert_app_r_alt, Nat.sub_diag by lia. Qed.

Lemma nth_middle' (a b : list Z) x : nth (length a) (a ++ x :: b) 0 = x.
Proof. apply nth_middle. Qed.

(** Swapping from both ends reverses what is between them; the byte in the middle may be left alone if the
    function on the bytes is the identity. *)
Lemma swap_loop_spec more f : 
  (forall i j, (S i < j)%nat -> more i j = true) -> (forall i j, (j <= i)%nat -> more i j = false) ->
  (forall i, more i (S i) = true \/ (forall x, f x = x)) ->
  forall fuel a m b, (length m <= fuel)%nat ->
  swap_loop fuel more f (length a) (length a + length m) (a ++ m ++ b) = a ++ map f (rev m) ++ b.
Proof.
  intros H1 H2 H3. induction fuel as [|fuel IH]; intros a m b L.
  { destruct m; [done|]. simpl in L. lia. }
  cbn [swap_loop]. destruct m as [|x m]; [rewrite H2 by (simpl; lia); done|].
  destruct m as [|y m _] using rev_ind.
  - simpl length. rewrite Nat.add_1_r, Nat.sub_1_r. cbn [Nat.pred app rev map].
    destruct (more (length a) (S (length a))) eqn:Em.
    + rewrite !nth_middle', !insert_middle. destruct fuel; cbn [swap_loop]; [done|]. by rewrite H2 by lia.
    + destruct (H3 (length a)) as [?|Hf]; [congruence|]. by rewrite Hf.
  - rewrite H1 by (simpl; rewrite length_app; simpl; lia).
    replace (length a + length (x :: m ++ [y]) - 1)%nat with (length (a ++ x :: m))
      by (simpl; rewrite !length_app; simpl; lia).
    cbn [app]. rewrite nth_middle', insert_middle.
    replace (a ++ x :: (m ++ [y]) ++ b) with ((a ++ x :: m) ++ y :: b) by (simpl; rewrite <- !app_assoc; done).
    rewrite nth_middle'.
    replace (a ++ f y :: (m ++ [y]) ++ b) with ((a ++ f y :: m) ++ y :: b) by (rewrite <- !app_assoc; done).
    replace (length (a ++ x :: m)) with (length (a ++ f y :: m)) by (rewrite !length_app; done).
    rewrite insert_middle.
    replace (S (length a)) with (length (a ++ [f y])) by (rewrite length_app; simpl; lia).
    replace (length (a ++ f y :: m)) with (length (a ++ [f y]) + length m)%nat by (rewrite !length_app; simpl; lia).
    replace ((a ++ f y :: m) ++ f x :: b) with ((a ++ [f y]) ++ m ++ (f x :: b)) by (rewrite <- !app_assoc; done).
    rewrite IH by (simpl in L; rewrite length_app in L; simpl in L; lia).
    simpl. rewrite rev_app_distr, !map_app, <- !app_assoc. done.
Qed.

Definition direction (flags : Z) (s : list Z) : list Z :=
  let s := if is_set flags 0x100 then map not8 s else s in if is_set flags 0x10000 then rev s else s.

Lemma desc_and_reverse_spec flags s : my_strxfrm_desc_and_reverse flags s = direction flags s.
Proof.
  unfold my_strxfrm_desc_and_reverse, direction.
  destruct (is_set flags 0x100), (is_set flags 0x10000); try done.
  - pose proof (swap_loop_spec (fun str fin => str <? fin)%nat not8) as H.
    specialize (H ltac:(intros; apply Nat.ltb_lt; lia) ltac:(intros; apply Nat.ltb_ge; lia)
      ltac:(intros; left; apply Nat.ltb_lt; lia) (length s) [] s [] ltac:(lia)).
    simpl in H. rewrite !app_nil_r in H. by rewrite H, map_rev.
  - pose proof (swap_loop_spec (fun str fin => str <? fin - 1)%nat id) as H.
    specialize (H ltac:(intros; apply Nat.ltb_lt; lia) ltac:(intros; apply Nat.ltb_ge; lia)
      ltac:(intros; by right) (length s) [] s [] ltac:(lia)).
    simpl in H. rewrite !app_nil_r in H. by rewrite H, map_id.
Qed.

Lemma direction_length flags s : length (direction flags s) = length s.
Proof. unfold direction. destruct (is_set flags 0x100), (is_set flags 0x10000); by rewrite ?length_rev, ?length_map. Qed.

Lemma not8_byte x : byte_ok x -> not8 x = 255 - x.
Proof.
  intros Hx. unfold byte_ok in Hx.
  assert (H : forallb (fun n => not8 (Z.of_nat n) =? 255 - Z.of_nat n) (seq 0 256) = true) by by vm_compute.
  rewrite forallb_forall in H. specialize (H (Z.to_nat x)). rewrite Z2Nat.id in H by lia.
  apply Z.eqb_eq, H, in_seq. lia.
Qed.

Lemma memcmp_not8 a b : length a = length b -> bytes a -> bytes b -> memcmp (map not8 a) (map not8 b) = - memcmp a b.
Proof.
  intros L Ha. revert b L. induction Ha as [|x a Hx _ IH]; intros [|y b] L Hb; simplify_eq/=; [done|].
  apply Forall_cons in Hb as [Hy Hb]. rewrite !not8_byte by done.
  destruct (Z.ltb_spec x y), (Z.ltb_spec (255 - x) (255 - y)), (Z.ltb_spec y x), (Z.ltb_spec (255 - y) (255 - x));
    auto; lia.
Qed.

(** ** Keys with a direction and keys of NO PAD collations *)

Section Steps.
Context (k : nat) (max : Z) (enc : Z -> list Z) `{!FixedWidth k max enc}.

(** Where the weights fill the destination, the direction applies to the whole key. *)
Lemma sort_key_direction flags dstlen n ws j : (dstlen <= k * n)%nat -> (n - length ws <= j)%nat ->
  let out := take dstlen (keys enc (take n ws)) in
  let dst := direction flags (out ++ take (dstlen - length out) (spaces enc 0x20 j)) in
  dst ++ take (dstlen - length dst) (spaces enc 0x20 (dstlen - length dst)) =
  direction flags (sort_key enc 0x20 dstlen n ws).
Proof using FixedWidth0.
  intros L Lj out dst. pose proof fw_pos as Hk.
  assert (Lo : length (out ++ take (dstlen - length out) (spaces enc 0x20 j)) = dstlen).
  { rewrite length_app, length_take, (spaces_length k max) by done. unfold out.
    rewrite length_take, (keys_length k max), length_take by done. nia. }
  unfold dst. rewrite direction_length, Lo, Nat.sub_diag. simpl. rewrite app_nil_r. f_equal.
  rewrite <- (sort_key_steps k max enc 0x20 dstlen n ws j). cbv zeta. fold out.
  rewrite Lo, Nat.sub_diag. simpl. by rewrite app_nil_r.
Qed.

Lemma zeros_key dstlen n ws : enc 0 = replicate k 0 ->
  let out := take dstlen (keys enc (take n ws)) in
  out ++ replicate (dstlen - length out) 0 = sort_key enc 0 dstlen n ws.
Proof using FixedWidth0.
  intros H0 out. pose proof fw_pos as Hk.
  assert (Hz : forall m, spaces enc 0 m = replicate (k * m) 0).
  { unfold spaces, keys. induction m as [|m IH]; simpl; [by rewrite Nat.mul_0_r|].
    rewrite IH, H0, <- replicate_add. f_equal. lia. }
  unfold sort_key. rewrite take_app, Hz. fold out. f_equal. rewrite take_replicate. f_equal.
  unfold out. rewrite length_take. nia.
Qed.

Lemma zeros_fill dstlen out (p : bool) x : (length out <= dstlen)%nat -> (x <= dstlen - length out)%nat ->
  let dst := if p then out ++ replicate x 0 else out in
  (if true && (length dst <? dstlen)%nat then dst ++ replicate (dstlen - length dst) 0 else dst) =
  out ++ replicate (dstlen - length out) 0.
Proof using.
  intros L Lx dst. assert (D : exists y, dst = out ++ replicate y 0 /\ (y <= dstlen - length out)%nat).
  { unfold dst. destruct p; [eauto|]. exists 0%nat. rewrite app_nil_r. split; [done|lia]. }
  destruct D as (y & -> & Ly). rewrite length_app, length_replicate. simpl andb.
  destruct (Nat.ltb_spec (length out + y) dstlen).
  - rewrite <- app_assoc, <- replicate_add. f_equal. f_equal. lia.
  - f_equal. f_equal. lia.
Qed.
End Steps.

Section Directed2.
Context (c : collation) (w : Z -> Z) (MY_MB_WC : list Z -> Z * option Z) (MB1 WC_WEIGHT : Z -> Z).
Context `{!SortMacros c w MY_MB_WC MB1 WC_WEIGHT}.
Notation encode := (fun l => concat (map utf8_bytes l)).
Notation chars := (Forall (fun wc => 0 <= wc < max_of c)).

Lemma strnxfrm_direction flags dstlen n l : chars l -> is_set flags 0x40 = true -> is_set flags 0x80 = true ->
  (dstlen <= 2 * n)%nat ->
  m_result (strnxfrm MY_MB_WC MB1 WC_WEIGHT dstlen n (encode l) flags) =
  direction flags (sort_key be2 0x20 dstlen n (map w l)).
Proof using SortMacros0.
  intros Hl F1 F2 L.
  rewrite <- (sort_key_direction 2 0x10000 be2 flags dstlen n (map w l) (n - stored n dstlen l))
    by (done || (rewrite length_map; unfold stored; lia)).
  rewrite <- desc_and_reverse_spec. apply (strnxfrm_steps c); try done.
  rewrite desc_and_reverse_spec, direction_length, length_app, !length_take. lia.
Qed.

Lemma strnxfrm_nopad_key dstlen n l : chars l ->
  m_result (strnxfrm_nopad MY_MB_WC MB1 WC_WEIGHT dstlen n (encode l) 0xC0) = sort_key be2 0 dstlen n (map w l).
Proof using SortMacros0.
  intros Hl. rewrite <- (zeros_key 2 0x10000 be2 dstlen n (map w l) eq_refl). cbv zeta.
  unfold strnxfrm_nopad, strnxfrm_internal. rewrite (strnxfrm_loop_spec c w) by done.
  cbn [m_result m_warnings m_source_length_used].
  change (is_set 0xC0 0x40) with true. change (is_set 0xC0 0x80) with true. rewrite andb_true_r.
  set (out := take dstlen _). set (j := (n - stored n dstlen l)%nat).
  rewrite <- (zeros_fill dstlen out (negb (j =? 0)%nat) (Nat.min (dstlen - length out) (uint_mul j 2)))
    by (unfold out; rewrite length_take; lia).
  by destruct (negb (j =? 0)%nat).
Qed.
End Directed2.

(** ** Three bytes for each weight *)

Notation encode l := (concat (map utf8_bytes l)).
Notation chars4 := (Forall (fun wc => 0 <= wc < 0x110000)).

Lemma put_be3_spec room w : 0 <= w < 0x1000000 -> (0 < room)%nat -> put_be3 room w = take room (be3 w).
Proof.
  intros Hw Hr. unfold put_be3, be3, u8. rewrite !land_255, shiftr_8, Z.shiftr_div_pow2 by done.
  change (2 ^ 8) with 256. change (2 ^ 16) with 65536.
  rewrite !Z.mod_mod, (Z.mod_small (w / 65536)) by (done || codes).
  destruct room as [|[|[|r]]]; [lia|done..|simpl; by rewrite take_nil].
Qed.

(** The number of weights of which something is stored *)
Definition stored3 (n room : nat) (l : list Z) : nat := Nat.min (Nat.min n (length l)) ((room + 2) / 3).

Lemma stored3_step n r x l : stored3 (S n) (S r) (x :: l) = S (stored3 n (S r - 3) l).
Proof.
  unfold stored3. simpl length.
  replace ((S r + 2) / 3)%nat with (S ((S r - 3 + 2) / 3)).
  - lia.
  - destruct r as [|[|r]]; [done..|]. replace (S (S (S r)) + 2)%nat with (r + 2 + 1 * 3)%nat by lia.
    rewrite Nat.div_add by done. replace (S (S (S r)) - 3)%nat with r by lia. lia.
Qed.

Lemma full_bin_loop_spec n room l : chars4 l ->
  full_bin_loop n room (encode l) =
  (take room (keys be3 (take n l)), (n - stored3 n room l)%nat, encode (drop (stored3 n room l) l)).
Proof.
  intros Hl. revert n room. induction Hl as [|wc l Hw Hl IH]; intros n room.
  { assert (stored3 n room [] = 0%nat) as -> by (unfold stored3; simpl; lia).
    rewrite take_nil, Nat.sub_0_r. unfold keys. simpl. rewrite take_nil. by destruct n, room. }
  assert (E : my_mb_wc_utf8mb4 (encode (wc :: l)) = (utf8_length wc, Some wc)).
  { exact (utf8_complete (cset:=my_charset_utf8mb4_handler) (max:=0x110000) wc (encode l) Hw). }
  destruct room as [|r].
  { assert (stored3 n 0 (wc :: l) = 0%nat) as -> by (unfold stored3; simpl; lia).
    rewrite Nat.sub_0_r. by destruct n. }
  destruct n as [|n].
  { unfold keys. simpl. change (concat (map utf8_bytes (wc :: l))) with (encode (wc :: l)).
    by destruct (my_mb_wc_utf8mb4 _) as [? [?|]]. }
  rewrite stored3_step. cbn [full_bin_loop]. rewrite E. cbn [map concat]. rewrite skip_char, put_be3_spec by lia.
  assert (length (take (S r) (be3 wc)) = Nat.min (S r) 3) as -> by (by rewrite length_take).
  replace (S r - Nat.min (S r) 3)%nat with (S r - 3)%nat by lia. rewrite IH.
  cbn [take drop]. unfold keys. cbn [map concat]. by rewrite (take_app (be3 wc)).
Qed.

Lemma full_bin_pad_spaces n room : full_bin_pad n room = take room (spaces be3 0x20 n).
Proof.
  revert room. induction n as [|n IH]; intros room; [by destruct room|].
  destruct room as [|[|[|r]]]; [done..|]. simpl. by rewrite IH.
Qed.

Lemma full_bin_steps flags dstlen n l : chars4 l -> is_set flags 0x40 = true -> is_set flags 0x80 = true ->
  let out := take dstlen (keys be3 (take n l)) in
  let dst := my_strxfrm_desc_and_reverse flags
    (out ++ take (dstlen - length out) (spaces be3 0x20 (n - stored3 n dstlen l))) in
  m_result (my_strnxfrm_unicode_full_bin dstlen n (encode l) flags) =
    dst ++ take (dstlen - length dst) (spaces be3 0x20 (dstlen - length dst)).
Proof.
  intros Hl F1 F2. unfold my_strnxfrm_unicode_full_bin, my_strnxfrm_unicode_full_bin_internal.
  rewrite full_bin_loop_spec by done. cbn [m_result m_warnings m_source_length_used].
  rewrite F1, F2. cbn [m_result]. by rewrite !full_bin_pad_spaces.
Qed.

Lemma full_bin_key dstlen n l : chars4 l ->
  m_result (my_strnxfrm_unicode_full_bin dstlen n (encode l) 0xC0) = sort_key be3 0x20 dstlen n l.
Proof.
  intros Hl. rewrite full_bin_steps by done. change (my_strxfrm_desc_and_reverse 0xC0 ?x) with x.
  apply (sort_key_steps 3 0x1000000 be3 0x20 dstlen n l).
Qed.

Lemma full_bin_direction flags dstlen n l : chars4 l -> is_set flags 0x40 = true -> is_set flags 0x80 = true ->
  (dstlen <= 3 * n)%nat ->
  m_result (my_strnxfrm_unicode_full_bin dstlen n (encode l) flags) =
  direction flags (sort_key be3 0x20 dstlen n l).
Proof.
  intros Hl F1 F2 L. rewrite full_bin_steps, desc_and_reverse_spec by done.
  apply (sort_key_direction 3 0x1000000 be3 flags dstlen n l); [done|]. unfold stored3. lia.
Qed.

Lemma full_nopad_bin_key dstlen n l : chars4 l ->
  m_result (my_strnxfrm_unicode_full_nopad_bin dstlen n (encode l) 0xC0) = sort_key be3 0 dstlen n l.
Proof.
  intros Hl. rewrite <- (zeros_key 3 0x1000000 be3 dstlen n l eq_refl). cbv zeta.
  unfold my_strnxfrm_unicode_full_nopad_bin, my_strnxfrm_unicode_full_bin_internal.
  rewrite full_bin_loop_spec by done. cbn [m_result m_warnings m_source_length_used].
  change (is_set 0xC0 0x40) with true. change (is_set 0xC0 0x80) with true. rewrite andb_true_r.
  set (out := take dstlen _). set (j := (n - stored3 n dstlen l)%nat).
  rewrite <- (zeros_fill dstlen out (negb (j =? 0)%nat) (Nat.min (dstlen - length out) (uint_mul j 3)))
    by (unfold out; rewrite length_take; lia).
  by destruct (negb (j =? 0)%nat).
Qed.

(** Here a weight that is stored in part gives no warning. *)
Lemma full_bin_warning dstlen n l flags : chars4 l ->
  Z.testbit (m_warnings (my_strnxfrm_unicode_full_bin dstlen n (encode l) flags)) 1 =
  (n <? length l)%nat || (dstlen + 2 <? 3 * length l)%nat.
Proof.
  intros Hl. unfold my_strnxfrm_unicode_full_bin, my_strnxfrm_unicode_full_bin_internal.
  rewrite full_bin_loop_spec by done. cbn [m_result m_warnings m_source_length_used].
  set (rest := encode (drop (stored3 n dstlen l) l)).
  transitivity (Z.testbit (match rest with _ :: _ => 2 | [] => 0 end) 1).
  { destruct (is_set flags 0x40); simpl m_warnings; [|done]. rewrite Z.lor_spec.
    destruct (_ <? _); by rewrite orb_false_r. }
  pose proof (Nat.div_mod (dstlen + 2) 3 ltac:(done)) as H.
  pose proof (Nat.mod_upper_bound (dstlen + 2) 3 ltac:(done)) as H'.
  pose proof (length_drop l (stored3 n dstlen l)) as Ld. unfold stored3 in *.
  destruct (drop _ l) as [|x t] eqn:E; subst rest; cbn [length] in Ld.
  - change (false = (n <? length l)%nat || (dstlen + 2 <? 3 * length l)%nat). symmetry.
    apply orb_false_iff. rewrite !Nat.ltb_ge. lia.
  - cbn [map concat]. destruct (utf8_bytes_cons x) as (b & r & ->). simpl. symmetry.
    apply orb_true_iff. rewrite !Nat.ltb_lt. lia.
Qed.

(** ** The collations *)

Notation xfrm := (nat -> nat -> list Z -> Z -> my_strnxfrm_ret_t).

(** What the key functions of a collation do: [f], and [g] of its NO PAD variant if it has one.  The
    weights are below [max] and stored by [enc] in [k] bytes. *)
Class KeyFunctions (c : collation) (w : Z -> Z) (k : nat) (max : Z) (enc : Z -> list Z) (f : xfrm) (g : option xfrm)
    : Prop := {
  kf_weights :: CharWeights c w;
  kf_width :: FixedWidth k max enc;
  kf_bytes x : 0 <= x < max -> bytes (enc x);
  kf_space : 0x20 < max;
  kf_small wc : 0 <= wc < max_of c -> 0 <= w wc < max;
  kf_key dstlen n l : Forall (fun wc => 0 <= wc < max_of c) l ->
    m_result (f dstlen n (encode l) 0xC0) = sort_key enc 0x20 dstlen n (map w l);
  kf_direction flags dstlen n l : Forall (fun wc => 0 <= wc < max_of c) l ->
    is_set flags 0x40 = true -> is_set flags 0x80 = true -> (dstlen <= k * n)%nat ->
    m_result (f dstlen n (encode l) flags) = direction flags (sort_key enc 0x20 dstlen n (map w l));
  kf_warning dstlen n l : Forall (fun wc => 0 <= wc < max_of c) l ->
    Z.testbit (m_warnings (f dstlen n (encode l) 0xC0)) 1 =
    (n <? length l)%nat || ((if k =? 2 then dstlen else dstlen + 2) <? k * length l)%nat;
  kf_nopad h dstlen n l : g = Some h -> Forall (fun wc => 0 <= wc < max_of c) l ->
    m_result (h dstlen n (encode l) 0xC0) = sort_key enc 0 dstlen n (map w l);
}.

Lemma key_functions2 c w MY_MB_WC MB1 WC_WEIGHT g : SortMacros c w MY_MB_WC MB1 WC_WEIGHT ->
  g = None \/ g = Some (strnxfrm_nopad MY_MB_WC MB1 WC_WEIGHT) ->
  KeyFunctions c w 2 0x10000 be2 (strnxfrm MY_MB_WC MB1 WC_WEIGHT) g.
Proof.
  intros H Hg. split; [apply H|apply _| |done|apply H|..].
  - intros x Hx. unfold be2. repeat constructor; codes.
  - intros. by apply (strnxfrm_key c).
  - intros. by apply (strnxfrm_direction c).
  - intros. by apply (strnxfrm_warning c w).
  - intros h dstlen n l ->. destruct Hg as [?|[= ->]]; [done|]. by apply (strnxfrm_nopad_key c).
Qed.

Lemma general_ci_macros c MY_MB_WC WC : CharWeights c my_general_ci_char_to_weight ->
  (forall s, MY_MB_WC s = mb_wc (charset_of c) s) ->
  (forall wc, 0x80 <= wc < max_of c -> WC wc = my_general_ci_char_to_weight wc) ->
  SortMacros c my_general_ci_char_to_weight MY_MB_WC my_weight_mb1_utf8mb3_general_ci WC.
Proof.
  intros H D W. split; [done|done| |done|].
  - intros b Hb. rewrite general_ci_bmp by lia. unfold table_weight. by rewrite shiftr_8, Z.div_small by lia.
  - intros wc Hw. destruct (Z.lt_ge_cases wc 0x10000).
    + rewrite general_ci_bmp by lia. apply (table_range _ general_ci_table). lia.
    + by rewrite general_ci_supplementary.
Qed.

Lemma mysql500_macros : SortMacros utf8mb3_general_mysql500_ci my_wc_weight_utf8mb3_general_mysql500_ci
  my_mb_wc_utf8mb3_quick my_weight_mb1_utf8mb3_general_mysql500_ci my_wc_weight_utf8mb3_general_mysql500_ci.
Proof.
  split; [apply _|done| |done|].
  - intros b Hb. unfold my_wc_weight_utf8mb3_general_mysql500_ci. by rewrite shiftr_8, Z.div_small by lia.
  - intros wc Hw. apply (table_range _ mysql500_table). apply Hw.
Qed.

Lemma bin_macros : SortMacros utf8mb3_bin id my_mb_wc_utf8mb3_quick id wc_weight_bin2.
Proof.
  split; [apply _|done|done| |by unfold max_of].
  intros wc Hw. unfold wc_weight_bin2. by rewrite (proj2 (Z.ltb_ge 0xFFFF wc)) by (unfold max_of in Hw; simpl in Hw; lia).
Qed.

Lemma bin_functions : KeyFunctions utf8mb4_bin id 3 0x1000000 be3 my_strnxfrm_unicode_full_bin
  (Some my_strnxfrm_unicode_full_nopad_bin).
Proof.
  split; [apply _|apply _| |done| |intros; rewrite ?map_id..].
  - intros x Hx. unfold be3. repeat constructor; codes.
  - intros wc Hw. unfold max_of in Hw. simpl in *. lia.
  - by apply full_bin_key.
  - by apply full_bin_direction.
  - by apply full_bin_warning.
  - simplify_eq. by apply full_nopad_bin_key.
Qed.

(** The collations, each with the weight of a character, how a weight is stored, and the key functions *)
Definition key_functions : list (collation * (Z -> Z) * (nat * Z * (Z -> list Z)) * (xfrm * option xfrm)) :=
  let general3 := (strnxfrm my_mb_wc_utf8mb3_quick my_weight_mb1_utf8mb3_general_ci my_general_ci_bmp_char_to_weight,
    Some (strnxfrm_nopad my_mb_wc_utf8mb3_quick my_weight_mb1_utf8mb3_general_ci my_general_ci_bmp_char_to_weight)) in
  let general4 := (strnxfrm my_mb_wc_utf8mb4_quick my_weight_mb1_utf8mb3_general_ci my_general_ci_char_to_weight,
    Some (strnxfrm_nopad my_mb_wc_utf8mb4_quick my_weight_mb1_utf8mb3_general_ci my_general_ci_char_to_weight)) in
  [(utf8mb3_general_ci, my_general_ci_char_to_weight, (2%nat, 0x10000, be2), general3);
   (utf8mb3_general_mysql500_ci, my_wc_weight_utf8mb3_general_mysql500_ci, (2%nat, 0x10000, be2),
    (strnxfrm my_mb_wc_utf8mb3_quick my_weight_mb1_utf8mb3_general_mysql500_ci
       my_wc_weight_utf8mb3_general_mysql500_ci, None));
   (utf8mb3_bin, id, (2%nat, 0x10000, be2),
    (strnxfrm my_mb_wc_utf8mb3_quick id wc_weight_bin2, Some (strnxfrm_nopad my_mb_wc_utf8mb3_quick id wc_weight_bin2)));
   (utf8mb4_general_ci, my_general_ci_char_to_weight, (2%nat, 0x10000, be2), general4);
   (utf8mb4_bin, id, (3%nat, 0x1000000, be3),
    (my_strnxfrm_unicode_full_bin, Some my_strnxfrm_unicode_full_nopad_bin))].

Lemma key_functions_correct c w k max enc f g :
  In (c, w, (k, max, enc), (f, g)) key_functions -> KeyFunctions c w k max enc f g.
Proof.
  simpl. intros H. repeat destruct H as [[= <- <- <- <- <- <- <-]|H].
  - apply key_functions2; [|by right]. apply general_ci_macros; [apply _|done|].
    intros wc Hw. unfold max_of in Hw. simpl in Hw. by rewrite general_ci_bmp by lia.
  - apply key_functions2; [apply mysql500_macros|by left].
  - apply key_functions2; [apply bin_macros|by right].
  - apply key_functions2; [|by right]. by apply general_ci_macros; [apply _|..].
  - apply bin_functions.
  - done.
Qed.

Lemma keys_bytes k max enc ws : FixedWidth k max enc -> (forall x, 0 <= x < max -> bytes (enc x)) ->
  Forall (fun w => 0 <= w < max) ws -> bytes (keys enc ws).
Proof.
  intros _ He. unfold keys. induction 1 as [|x ws Hx _ IH]; [constructor|]. simpl. apply Forall_app. auto.
Qed.

Section Order.
Context (c : collation) (w : Z -> Z) (k : nat) (max : Z) (enc : Z -> list Z) (f : xfrm) (g : option xfrm).
Context `{!KeyFunctions c w k max enc f g}.
Notation chars := (Forall (fun wc => 0 <= wc < max_of c)).

Lemma chars_small l : chars l -> Forall (fun x => 0 <= x < max) (map w l).
Proof using KeyFunctions0. intros H. apply Forall_map. eapply Forall_impl; [exact H|]. apply kf_small. Qed.

Lemma sort_key_bytes dstlen n l : chars l -> bytes (sort_key enc 0x20 dstlen n (map w l)).
Proof using KeyFunctions0.
  intros H. apply Forall_take, Forall_app. pose proof kf_space. split; apply (keys_bytes k max); try apply _;
    try apply kf_bytes; [apply Forall_take; by apply chars_small|apply Forall_replicate; lia].
Qed.

Lemma key_desc dstlen n la lb : chars la -> chars lb -> (dstlen <= k * n)%nat ->
  memcmp (m_result (f dstlen n (encode la) 0x1C0)) (m_result (f dstlen n (encode lb) 0x1C0)) =
  - memcmp (sort_key enc 0x20 dstlen n (map w la)) (sort_key enc 0x20 dstlen n (map w lb)).
Proof using KeyFunctions0.
  intros Ha Hb L. rewrite !kf_direction by done.
  change (direction 0x1C0 ?x) with (map not8 x). apply memcmp_not8; [|by apply sort_key_bytes..].
  assert (FixedWidth k max enc) by (by destruct KeyFunctions0). by rewrite !(sort_key_length k max).
Qed.

Lemma nchars_filled n flags la lb : chars la -> chars lb ->
  Z.sgn (strnncollsp_nchars c (encode la) (encode lb) n flags) = compare_filled 0x20 n (map w la) (map w lb).
Proof using KeyFunctions0.
  intros Ha Hb. rewrite filled_spaces, <- !(weights_chars c w) by done. apply strnncollsp_nchars_spec.
Qed.
End Order.

(** C38: the sort key of a string of characters is the weights of the first [nweights] characters, most
    significant byte first, then spaces, cut off at the length of the destination.  If the destination has
    room for [nweights] weights, memcmp of two keys is the comparison of the strings by their first
    [nweights] characters, and by the PAD SPACE comparison if the strings are no longer than that.  Keys
    that are too short may be equal, but never misorder two strings.  DESC keys that fill the destination
    compare the other way round; REVERSE reverses the bytes of the key, not only its weights.  NO PAD keys, filled with zeros, order strings without zero weights by
    the NO PAD comparison.  A warning that a character was cut off is exact for keys of two bytes per
    weight; with three, a weight stored in part gives none. *)
Theorem sort_key_correct c w k max enc f g la lb dstlen n flags :
  In (c, w, (k, max, enc), (f, g)) key_functions ->
  Forall (fun wc => 0 <= wc < max_of c) la -> Forall (fun wc => 0 <= wc < max_of c) lb ->
  let a := encode la in let b := encode lb in
  let key s := m_result (f dstlen n s 0xC0) in
  let desc s := m_result (f dstlen n s 0x1C0) in
  let fits := (length la <= n)%nat /\ (length lb <= n)%nat in
  key a = take dstlen (concat (map enc (take n (map w la))) ++ concat (map enc (replicate dstlen 0x20))) /\
  length (key a) = dstlen /\
  ((k * n <= dstlen)%nat -> memcmp (key a) (key b) = Z.sgn (strnncollsp_nchars c a b n flags)) /\
  ((k * n <= dstlen)%nat -> fits -> Some (memcmp (key a) (key b)) = sign (strnncollsp c a b)) /\
  (memcmp (key a) (key b) <> 0 -> memcmp (key a) (key b) = Z.sgn (strnncollsp_nchars c a b n flags)) /\
  ((dstlen <= k * n)%nat -> memcmp (desc a) (desc b) = - memcmp (key a) (key b)) /\
  ((dstlen <= k * n)%nat -> m_result (f dstlen n a 0x100C0) = rev (key a)) /\
  (forall h, g = Some h -> (k * n <= dstlen)%nat -> fits ->
     Forall (fun x => 0 < x) (map w la) -> Forall (fun x => 0 < x) (map w lb) ->
     Some (memcmp (m_result (h dstlen n a 0xC0)) (m_result (h dstlen n b 0xC0))) = sign (strnncollsp_nopad c a b)) /\
  Z.testbit (m_warnings (f dstlen n a 0xC0)) 1 =
    (n <? length la)%nat || ((if k =? 2 then dstlen else dstlen + 2) <? k * length la)%nat.
Proof.
  intros Hin Ha Hb a b key desc fits. pose proof (key_functions_correct _ _ _ _ _ _ _ Hin) as HK.
  assert (FixedWidth k max enc) as HF by (by destruct HK). assert (CharWeights c w) as HC by (by destruct HK).
  assert (AsciiWeights c) as HA by (by destruct HC).
  assert (0x20 < max) by (by destruct HK). assert (Hs : 0 <= 0x20 < max) by lia.
  pose proof (chars_small c w k max enc f g la Ha) as Sa. pose proof (chars_small c w k max enc f g lb Hb) as Sb.
  assert (Ka : key a = sort_key enc 0x20 dstlen n (map w la)) by (by apply (kf_key (KeyFunctions:=HK))).
  assert (Kb : key b = sort_key enc 0x20 dstlen n (map w lb)) by (by apply (kf_key (KeyFunctions:=HK))).
  assert (Bl : forall l, Forall (fun wc => 0 <= wc < max_of c) l -> bytes (encode l)) by (intros; by apply (chars_bytes c)).
  assert (T : fits -> take n (map w la) = map w la /\ take n (map w lb) = map w lb).
  { intros [? ?]. split; apply take_ge; by rewrite length_map. }
  rewrite !Ka, !Kb. split_and!.
  - done.
  - by apply (sort_key_length k max).
  - intros L. unfold a, b. rewrite (nchars_filled c w k max enc f g) by done. by apply (sort_key_compare k max).
  - intros L Hf. unfold a, b. rewrite strnncollsp_sign, !(weights_chars c w) by auto.
    rewrite (sort_key_compare k max), filled_spaces by done. by destruct (T Hf) as [-> ->].
  - intros L. unfold a, b. rewrite (nchars_filled c w k max enc f g) by done. by apply (sort_key_prefix k max).
  - intros L. by apply (key_desc c w k max enc f g).
  - intros L. by apply (kf_direction (KeyFunctions:=HK) 0x100C0).
  - intros h Hh L Hf Pa Pb. unfold a, b. rewrite !(kf_nopad (KeyFunctions:=HK) h) by done.
    rewrite strnncollsp_nopad_sign, !(weights_chars c w) by auto.
    rewrite (sort_key_compare k max), filled_zeros by (done || lia). by destruct (T Hf) as [-> ->].
  - by apply (kf_warning (KeyFunctions:=HK)).
Qed.

(** "a" and "B" in keys of three weights, ascending and descending; a cut weight of utf8mb4_bin *)
Lemma sort_key_correct_witness :
  let f := strnxfrm my_mb_wc_utf8mb4_quick my_weight_mb1_utf8mb3_general_ci my_general_ci_char_to_weight in
  Some (memcmp (m_result (f 6%nat 3%nat [0x61] 0xC0)) (m_result (f 6%nat 3%nat [0x42] 0xC0))) =
    sign (strnncollsp utf8mb4_general_ci [0x61] [0x42]) /\
  memcmp (m_result (f 6%nat 3%nat [0x61] 0x1C0)) (m_result (f 6%nat 3%nat [0x42] 0x1C0)) = 1 /\
  Z.testbit (m_warnings (my_strnxfrm_unicode_full_bin 5 2 [0x61; 0x42] 0xC0)) 1 = false.
Proof.
  intros f.
  destruct (sort_key_correct utf8mb4_general_ci my_general_ci_char_to_weight 2 0x10000 be2 f
    (Some (strnxfrm_nopad my_mb_wc_utf8mb4_quick my_weight_mb1_utf8mb3_general_ci my_general_ci_char_to_weight))
    [0x61] [0x42] 6 3 0) as (_ & _ & _ & Hp & _ & Hd & _);
    [unfold f; simpl; tauto|repeat constructor; by_decide..|].
  destruct (sort_key_correct utf8mb4_bin id 3 0x1000000 be3 my_strnxfrm_unicode_full_bin
    (Some my_strnxfrm_unicode_full_nopad_bin) [0x61; 0x42] [] 5 2 0) as (_ & _ & _ & _ & _ & _ & _ & _ & Hw);
    [simpl; tauto|repeat constructor; by_decide..|].
  split; [|split; [|exact Hw]].
  - apply Hp; [simpl; lia|split; simpl; lia].
  - refine (eq_trans (Hd _) _); [simpl; lia|vm_compute; reflexivity].
Defined.
