(* ===== verification/HashSort.v ===== *)
(** * Hash values of strings

    strings/ctype-utf8.c, strings/ctype-mb.c and strings/strings_def.h: the functions that hash a string
    according to its collation, with the hash of strings/hasher-mysql5x.c, and [my_hash_sort] of
    mysys/hash.c.  [ulong] has 64 bits. *)

From S2P Require Import Prelude Bytes Utf8 Weights Collation.

(** ** Trailing spaces *)

Notation SIZEOF_INT := 4 (only parsing).
Notation SPACE_INT := 0x20202020 (only parsing).

(** [while (end > lim && end[-1] == 0x20) end--]; pointers into [s] are offsets. *)
Fixpoint skip_bytes (s : list Z) (lim fin : nat) : nat :=
  match fin with
  | O => O
  | S e => if (lim <? fin)%nat && (nth e s 0 =? 0x20) then skip_bytes s lim e else fin
  end.

(** The same for the words between [start_words] and [end], four bytes at a time *)
Fixpoint skip_words (fuel : nat) (s : list Z) (lim fin : nat) : nat :=
  match fuel with
  | S fuel =>
      if (lim <? fin)%nat && (uint4korr (drop (fin - 4) s) =? SPACE_INT)
      then skip_words fuel s lim (fin - 4) else fin
  | O => fin
  end.

(** The string is at the address [ptr]; the offset of the new end *)
Definition skip_trailing_space (ptr : Z) (s : list Z) : nat :=
  let len := length s in
  let fin :=
    if (20 <? len)%nat then
      let end_words := (ptr + Z.of_nat len) / SIZEOF_INT * SIZEOF_INT in
      let start_words := (ptr + SIZEOF_INT - 1) / SIZEOF_INT * SIZEOF_INT in
      if ptr <? end_words then
        let fin := skip_bytes s (Z.to_nat (end_words - ptr)) len in
        if (nth (fin - 1) s 0 =? 0x20) && (start_words <? end_words)
        then skip_words len s (Z.to_nat (start_words - ptr)) fin else fin
      else len
    else len in
  skip_bytes s 0 fin.

(** ** The hasher *)

Record my_hasher_st := mk_hasher { m_nr1 : Z; m_nr2 : Z }.

Definition my_hasher_mysql5x : my_hasher_st := mk_hasher 1 4.

Definition MY_HASH_ADD_MARIADB (h : my_hasher_st) (value : Z) : my_hasher_st :=
  mk_hasher (Z.lxor (m_nr1 h) (u64 ((Z.land (m_nr1 h) 63 + m_nr2 h) * value + Z.shiftl (m_nr1 h) 8)))
            (u64 (m_nr2 h + 3)).

Definition MY_HASH_ADD (h : my_hasher_st) (value : Z) : my_hasher_st := MY_HASH_ADD_MARIADB h (u8 value).

Definition MY_HASH_ADD_STR (h : my_hasher_st) (key : list Z) : my_hasher_st := foldl MY_HASH_ADD_MARIADB h key.

Definition MY_HASH_ADD_16 (h : my_hasher_st) (value : Z) : my_hasher_st :=
  MY_HASH_ADD (MY_HASH_ADD h (Z.land value 0xFF)) (Z.shiftr value 8).

(** ** Weights *)

Record MY_CASEFOLD_INFO := mk_casefold { maxchar : Z; simple_weight : list (option (list Z)) }.

Definition my_casefold_default := mk_casefold 0xFFFF weight_general_ci_index.
Definition my_casefold_mysql500 := mk_casefold 0xFFFF weight_general_mysql500_ci_index.

Definition my_tosort_unicode (uni_plane : MY_CASEFOLD_INFO) (wc : Z) : Z :=
  if wc <=? maxchar uni_plane then
    match page_of (simple_weight uni_plane) (Z.shiftr wc 8) with
    | Some page => page_entry page (Z.land wc 0xFF)
    | None => wc
    end
  else MY_CS_REPLACEMENT_CHARACTER.

(** ** Strings *)

Section HashSort.
Context (uni_plane : MY_CASEFOLD_INFO).

Fixpoint hash_sort_utf8mb3_loop (fuel : nat) (hasher : my_hasher_st) (s : list Z) : my_hasher_st :=
  match fuel, my_utf8mb3_uni s with
  | S fuel, (res, Some wc) =>
      hash_sort_utf8mb3_loop fuel (MY_HASH_ADD_16 hasher (my_tosort_unicode uni_plane wc)) (skip res s)
  | _, _ => hasher
  end.

Definition my_hash_sort_utf8mb3_nopad (hasher : my_hasher_st) (s : list Z) : my_hasher_st :=
  hash_sort_utf8mb3_loop (length s) hasher s.

Definition my_hash_sort_utf8mb3 (ptr : Z) (hasher : my_hasher_st) (s : list Z) : my_hasher_st :=
  my_hash_sort_utf8mb3_nopad hasher (take (skip_trailing_space ptr s) s).

Fixpoint hash_sort_utf8mb4_loop (fuel : nat) (hasher : my_hasher_st) (s : list Z) : my_hasher_st :=
  match fuel, my_mb_wc_utf8mb4 s with
  | S fuel, (res, Some wc) =>
      let wc := my_tosort_unicode uni_plane wc in
      let hasher := MY_HASH_ADD_16 hasher (Z.land wc 0xFFFF) in
      let hasher := if 0xFFFF <? wc then MY_HASH_ADD hasher (Z.land (Z.shiftr wc 16) 0xFF) else hasher in
      hash_sort_utf8mb4_loop fuel hasher (skip res s)
  | _, _ => hasher
  end.

Definition my_hash_sort_utf8mb4_nopad (hasher : my_hasher_st) (s : list Z) : my_hasher_st :=
  hash_sort_utf8mb4_loop (length s) hasher s.

Definition my_hash_sort_utf8mb4 (ptr : Z) (hasher : my_hasher_st) (s : list Z) : my_hasher_st :=
  my_hash_sort_utf8mb4_nopad hasher (take (skip_trailing_space ptr s) s).
End HashSort.

Definition my_hash_sort_mb_nopad_bin (hasher : my_hasher_st) (key : list Z) : my_hasher_st :=
  MY_HASH_ADD_STR hasher key.

Definition my_hash_sort_mb_bin (ptr : Z) (hasher : my_hasher_st) (key : list Z) : my_hasher_st :=
  my_hash_sort_mb_nopad_bin hasher (take (skip_trailing_space ptr key) key).

(** [my_hash_sort] of mysys/hash.c; [hash_sort] is the function of the collation. *)
Definition my_hash_sort (hash_sort : my_hasher_st -> list Z -> my_hasher_st) (key : list Z) : Z :=
  u32 (m_nr1 (hash_sort my_hasher_mysql5x key)).
