(* ===== verification/HashSortProps.v ===== *)
(** * Hash values of strings: correctness

    Strings that a collation holds to be equal have the same hash value: by [skip_trailing_space], which
    takes off exactly the trailing spaces, and because the hash is a function of the weights. *)

From S2P Require Import Prelude Bytes Utf8 Utf8Props Utf8Strings Weights Collation CollationAscii CollationProps CollationChars CollationOrder HashSort HashProps.

(** ** Trailing spaces *)

(** The string without its trailing spaces *)
Fixpoint strip (s : list Z) : list Z :=
  match s with
  | [] => []
  | b :: s => match strip s with [] => if b =? 0x20 then [] else [b] | s' => b :: s' end
  end.

Lemma strip_app s : exists n, s = strip s ++ replicate n 0x20.
Proof.
  induction s as [|b s [n IH]]; [by exists 0%nat|]. simpl. destruct (strip s) as [|x t] eqn:E.
  - destruct (Z.eqb_spec b 0x20) as [->|]; [exists (S n)|exists n]; simpl in *; by rewrite <- IH.
  - exists n. simpl in *. by rewrite <- IH.
Qed.

Lemma strip_snoc s b : strip (s ++ [b]) = if b =? 0x20 then strip s else s ++ [b].
Proof.
  induction s as [|x s IH]; simpl; [by case_match|]. rewrite IH. destruct (b =? 0x20); [done|].
  by destruct s.
Qed.

Lemma strip_last s t : strip s <> t ++ [0x20].
Proof.
  revert t. induction s as [|b s IH]; intros t; simpl; [by destruct t|].
  destruct (strip s) as [|x r] eqn:E.
  - destruct (Z.eqb_spec b 0x20); [by destruct t|]. destruct t as [|? [|]]; simpl; congruence.
  - destruct t as [|y t]; simpl; [congruence|]. intros [= _ H]. by destruct (IH t).
Qed.

(** An end of [s] that only spaces follow *)
Definition good_end (s : list Z) (e : nat) : Prop := (length (strip s) <= e <= length s)%nat.

Lemma nth_replicate n k (x : Z) : (k < n)%nat -> nth k (replicate n x) 0 = x.
Proof. revert k. induction n as [|n IH]; intros [|k] H; simpl; [lia..|done|]. apply IH. lia. Qed.

Lemma nth_space s e : good_end s (S e) -> (nth e s 0 = 0x20 <-> good_end s e).
Proof.
  unfold good_end. intros [H1 H2]. destruct (strip_app s) as [n Es].
  destruct (decide (length (strip s) <= e)%nat) as [L|L].
  - split; [lia|]. intros _. rewrite Es, app_nth2 by lia. rewrite Es, length_app, length_replicate in H2.
    by rewrite nth_replicate by lia.
  - split; [|lia]. intros E. exfalso. assert (Le : length (strip s) = S e) by lia.
    destruct (@exists_last _ (strip s)) as (t & x & Et); [by intros E0; rewrite E0 in Le|].
    rewrite Et, length_app in Le. simpl in Le. rewrite Es, Et, <- app_assoc, app_nth2 in E by lia.
    replace (e - length t)%nat with 0%nat in E by lia. simpl in E. subst x. by eapply strip_last.
Qed.

Lemma skip_bytes_good s lim fin : good_end s fin -> good_end s (skip_bytes s lim fin).
Proof.
  induction fin as [|e IH]; [done|]. intros H. cbn [skip_bytes]. destruct (_ <? _)%nat; [|done].
  destruct (Z.eqb_spec (nth e s 0) 0x20); [|done]. by apply IH, nth_space.
Qed.

Lemma skip_bytes_all s fin : good_end s fin -> skip_bytes s 0 fin = length (strip s).
Proof.
  induction fin as [|e IH]; intros H; [unfold good_end in H; simpl; lia|]. cbn [skip_bytes].
  destruct (Nat.ltb_spec 0 (S e)); [|lia]. destruct (Z.eqb_spec (nth e s 0) 0x20) as [E|E].
  - by apply IH, nth_space.
  - rewrite (nth_space s e H) in E. unfold good_end in *. simpl. lia.
Qed.

(** It stops at a space only if it has come to the limit. *)
Lemma skip_bytes_limit s lim fin : (0 < lim <= fin)%nat ->
  nth (skip_bytes s lim fin - 1) s 0 = 0x20 -> skip_bytes s lim fin = lim.
Proof.
  induction fin as [|e IH]; [lia|]. intros H. cbn [skip_bytes]. destruct (Nat.ltb_spec lim (S e)); [|simpl; lia].
  destruct (Z.eqb_spec (nth e s 0) 0x20); [|simpl; rewrite Nat.sub_0_r; congruence].
  simpl. apply IH. lia.
Qed.

Lemma space_word s : bytes s -> (4 <= length s)%nat -> uint4korr s = SPACE_INT -> take 4 s = replicate 4 0x20.
Proof.
  intros Hs L E. destruct s as [|a [|b [|c [|d s]]]]; simpl in L; try lia.
  unfold uint4korr in E. simpl rev in E.
  replace (be256 [d; c; b; a]) with (((d * 256 + c) * 256 + b) * 256 + a) in E by (simpl; lia).
  repeat match goal with H : bytes (_ :: _) |- _ => apply Forall_cons in H as [? H] end. unfold byte_ok in *.
  assert (a = 0x20 /\ b = 0x20 /\ c = 0x20 /\ d = 0x20) as (-> & -> & -> & ->) by lia. done.
Qed.

Lemma skip_words_good fuel s lim fin k : bytes s -> fin = (lim + 4 * k)%nat -> good_end s fin ->
  good_end s (skip_words fuel s lim fin).
Proof.
  intros Hs. revert fin k. induction fuel as [|fuel IH]; intros fin k Ef H; [done|]. cbn [skip_words].
  destruct (Nat.ltb_spec lim fin); [|done]. destruct (Z.eqb_spec (uint4korr (drop (fin - 4) s)) SPACE_INT) as [E|]; [|done].
  simpl. apply (IH _ (k - 1)%nat); [lia|]. destruct H as [H1 H2].
  apply space_word in E; [|by apply Forall_drop|rewrite length_drop; lia].
  assert (Sp : forall j, (j < 4)%nat -> nth (fin - 4 + j) s 0 = 0x20).
  { intros j Hj. rewrite <- nth_skipn, <- (take_drop 4 (drop _ s)), E, app_nth1 by (rewrite length_replicate; lia).
    by apply nth_replicate. }
  assert (G : good_end s (fin - 4 + 4)) by (split; lia).
  do 4 (match goal with G : good_end s (?f + S ?j) |- _ =>
    rewrite Nat.add_succ_r in G; pose proof (proj1 (nth_space _ _ G) (Sp j ltac:(lia))); clear G end).
  by rewrite Nat.add_0_r in *.
Qed.

Lemma skip_trailing_space_spec ptr s : bytes s -> 0 <= ptr -> skip_trailing_space ptr s = length (strip s).
Proof.
  intros Hs Hp. unfold skip_trailing_space. apply skip_bytes_all.
  assert (G : good_end s (length s)) by (destruct (strip_app s) as [n E]; apply (f_equal length) in E;
    rewrite length_app in E; split; lia).
  destruct (20 <? length s)%nat; [|done]. case_match eqn:E1; [|done]. apply Z.ltb_lt in E1.
  set (e := (ptr + Z.of_nat (length s)) / 4 * 4) in *. set (b := (ptr + 4 - 1) / 4 * 4) in *.
  case_match eqn:E2; [|by apply skip_bytes_good]. apply andb_true_iff in E2 as [E2%Z.eqb_eq E3%Z.ltb_lt].
  assert (Hl : (0 < Z.to_nat (e - ptr) <= length s)%nat) by (unfold e in *; clear -E1; codes).
  pose proof (skip_bytes_good s (Z.to_nat (e - ptr)) (length s) G) as G'.
  rewrite (skip_bytes_limit _ _ _ Hl E2) in *.
  apply (skip_words_good _ _ _ _ (Z.to_nat ((ptr + Z.of_nat (length s)) / 4 - (ptr + 4 - 1) / 4))); [done|codes|done].
Qed.

Lemma take_strip ptr s : bytes s -> 0 <= ptr -> take (skip_trailing_space ptr s) s = strip s.
Proof.
  intros Hs Hp. rewrite skip_trailing_space_spec by done. destruct (strip_app s) as [n E].
  rewrite E at 2. by rewrite take_app_length.
Qed.

Lemma strip_bytes s : bytes s -> bytes (strip s).
Proof. destruct (strip_app s) as [n E]. rewrite E at 1. by intros [? _]%Forall_app. Qed.

(** ** The hash as a function of the weights *)

(** The common form of the loops *)
Section Decode.
Context (cset : MY_CHARSET_HANDLER) (f : my_hasher_st -> Z -> my_hasher_st).

Fixpoint decode_fold (fuel : nat) (h : my_hasher_st) (s : list Z) : my_hasher_st :=
  match fuel, mb_wc cset s with
  | S fuel, (res, Some wc) => decode_fold fuel (f h wc) (skip res s)
  | _, _ => h
  end.
End Decode.

(** The characters before the first bad byte *)
Fixpoint char_prefix (l : list item) : list Z :=
  match l with Char wc :: l => wc :: char_prefix l | _ => [] end.

Lemma decode_fold_spec cset max `{!Utf8Charset cset max} f fuel h s l :
  scanned cset max s l -> (length s <= fuel)%nat -> decode_fold cset f fuel h s = foldl f h (char_prefix l).
Proof.
  intros H. revert fuel h. induction H as [|wc r l Hw _ IH|b r l n E _ IH]; intros fuel h Hf; simpl.
  - destruct fuel as [|fuel]; [done|]. simpl. destruct (mb_wc cset []) as [n [wc|]] eqn:E; [|done].
    destruct (utf8_sound [] n wc ltac:(constructor) E) as (_ & _ & r & Er).
    destruct (utf8_bytes_cons wc) as (? & ? & Eb). by rewrite Eb in Er.
  - rewrite length_app in Hf. destruct (utf8_bytes_cons wc) as (b & t & Eb). rewrite Eb in Hf. simpl in Hf.
    destruct fuel as [|fuel]; [lia|]. cbn [decode_fold]. rewrite utf8_complete, skip_char by done. apply IH. lia.
  - destruct fuel as [|fuel]; [done|]. cbn [decode_fold]. by rewrite E.
Qed.

Definition item_ok (max : Z) (i : item) : Prop :=
  match i with Char wc => 0 <= wc < max | Bad b => byte_ok b end.

Lemma scanned_ok cset max s l : bytes s -> scanned cset max s l -> Forall (item_ok max) l.
Proof.
  intros Hs H. induction H as [|wc r l Hw _ IH|b r l n E _ IH]; constructor; try done.
  - apply IH. by apply Forall_app in Hs as [_ ?].
  - by apply Forall_cons in Hs as [? _].
  - apply IH. by apply Forall_cons in Hs as [_ ?].
Qed.

(** The weights before the first one of a bad byte: those of characters are smaller. *)
Fixpoint char_weights (l : list Z) : list Z :=
  match l with
  | x :: l => if x <? 0x110000 then x :: char_weights l else []
  | [] => []
  end.

Lemma char_prefix_weights w max l : (forall wc, 0 <= wc < max -> 0 <= w wc < 0x110000) ->
  Forall (item_ok max) l -> map w (char_prefix l) = char_weights (map (item_weight w) l).
Proof.
  intros Hw. induction 1 as [|[wc|b] l Hi _ IH]; simpl in *; [done|..].
  - specialize (Hw _ Hi). rewrite (proj2 (Z.ltb_lt _ _)) by lia. by rewrite IH.
  - unfold WEIGHT_ILSEQ, byte_ok in *. by rewrite (proj2 (Z.ltb_ge _ _)) by lia.
Qed.

(** What the hash functions promise: strings with the same weights have the same hash. *)
Class HashWeights (c : collation) (w : Z -> Z) (hash_sort : my_hasher_st -> list Z -> my_hasher_st) : Prop :=
  hash_weights h a b : bytes a -> bytes b ->
    map (item_weight w) (scan (charset_of c) a) = map (item_weight w) (scan (charset_of c) b) ->
    hash_sort h a = hash_sort h b.

Lemma hash_by_weights c w f hash_sort `{!CharWeights c w} :
  (forall h s, hash_sort h s = decode_fold (charset_of c) f (length s) h s) ->
  (forall h wc, 0 <= wc < max_of c -> f h wc = MY_HASH_ADD_16 h (w wc)) -> HashWeights c w hash_sort.
Proof.
  intros Hf Hw h a b Ha Hb E.
  assert (forall s, bytes s -> hash_sort h s = foldl MY_HASH_ADD_16 h (char_weights (map (item_weight w) (scan (charset_of c) s)))) as H.
  { intros s Hs. pose proof (scan_scanned (charset_of c) (max_of c) s Hs) as Sc.
    rewrite Hf, (decode_fold_spec _ _ _ _ _ _ _ Sc) by done. pose proof (scanned_ok _ _ _ _ Hs Sc) as Ok.
    rewrite <- (char_prefix_weights w (max_of c)) by (done || apply char_weight_range).
    clear -Hw Ok. revert h. induction Ok as [|[wc|x] l Hi _ IH]; intros h; [done| |done]. simpl.
    rewrite Hw by done. apply IH. }
  by rewrite !H, E.
Qed.

(** ** The collations *)

#[export] Instance utf8mb3_general_ci_hash :
  HashWeights utf8mb3_general_ci my_general_ci_char_to_weight (my_hash_sort_utf8mb3_nopad my_casefold_default).
Proof.
  eapply (hash_by_weights _ _ (fun h wc => MY_HASH_ADD_16 h (my_tosort_unicode my_casefold_default wc))); [apply _|done|].
  intros h wc Hw. unfold max_of in Hw. simpl in Hw. rewrite general_ci_bmp by done. unfold my_tosort_unicode. simpl.
  by rewrite (proj2 (Z.leb_le _ _)) by lia.
Qed.

#[export] Instance utf8mb3_general_mysql500_ci_hash :
  HashWeights utf8mb3_general_mysql500_ci my_wc_weight_utf8mb3_general_mysql500_ci
    (my_hash_sort_utf8mb3_nopad my_casefold_mysql500).
Proof.
  eapply (hash_by_weights _ _ (fun h wc => MY_HASH_ADD_16 h (my_tosort_unicode my_casefold_mysql500 wc))); [apply _|done|].
  intros h wc Hw. unfold max_of in Hw. simpl in Hw. unfold my_tosort_unicode. simpl.
  by rewrite (proj2 (Z.leb_le _ _)) by lia.
Qed.

(** The weights have 16 bits, so that the characters of both character sets hash alike. *)
Lemma tosort_16 wc : 0 <= wc < 0x110000 ->
  my_tosort_unicode my_casefold_default wc = my_general_ci_char_to_weight wc /\
  0 <= my_general_ci_char_to_weight wc < 0x10000.
Proof.
  intros Hw. unfold my_tosort_unicode. simpl. destruct (Z.leb_spec wc 0xFFFF).
  - rewrite general_ci_bmp by lia. split; [done|]. apply table_range; [apply general_ci_table|lia].
  - by rewrite general_ci_supplementary by lia.
Qed.

#[export] Instance utf8mb4_general_ci_hash :
  HashWeights utf8mb4_general_ci my_general_ci_char_to_weight (my_hash_sort_utf8mb4_nopad my_casefold_default).
Proof.
  eapply (hash_by_weights _ _ (fun h wc =>
    let wc := my_tosort_unicode my_casefold_default wc in
    let hasher := MY_HASH_ADD_16 h (Z.land wc 0xFFFF) in
    if 0xFFFF <? wc then MY_HASH_ADD hasher (Z.land (Z.shiftr wc 16) 0xFF) else hasher)); [apply _|done|].
  intros h wc Hw. destruct (tosort_16 wc Hw) as [-> R]. cbv zeta. rewrite (proj2 (Z.ltb_ge _ _)) by lia.
  change 0xFFFF with (Z.ones 16). by rewrite Z.land_ones, Z.mod_small by (done || lia).
Qed.

Lemma item_weight_inj max l1 l2 : max <= 0x110000 -> Forall (item_ok max) l1 -> Forall (item_ok max) l2 ->
  map (item_weight id) l1 = map (item_weight id) l2 -> l1 = l2.
Proof.
  intros Hm H1. revert l2. induction H1 as [|i l1 Hi _ IH]; intros [|j l2] H2 E; try done.
  apply Forall_cons in H2 as [Hj H2]. injection E as E1 E2. f_equal; [|by apply IH].
  destruct i, j; simpl in *; unfold WEIGHT_ILSEQ, byte_ok, id in *; first [f_equal; lia|lia].
Qed.

Lemma bin_hash c `{!CharWeights c id} : HashWeights c id my_hash_sort_mb_nopad_bin.
Proof.
  intros h a b Ha Hb E. pose proof (scan_scanned (charset_of c) (max_of c) a Ha) as Sa.
  pose proof (scan_scanned (charset_of c) (max_of c) b Hb) as Sb.
  apply (item_weight_inj (max_of c)) in E;
    [|unfold max_of; case_match; lia|exact (scanned_ok _ _ _ _ Ha Sa)|exact (scanned_ok _ _ _ _ Hb Sb)].
  apply spell_scanned in Sa, Sb. congruence.
Qed.

#[export] Instance utf8mb3_bin_hash : HashWeights utf8mb3_bin id my_hash_sort_mb_nopad_bin.
Proof. apply bin_hash, _. Qed.
#[export] Instance utf8mb4_bin_hash : HashWeights utf8mb4_bin id my_hash_sort_mb_nopad_bin.
Proof. apply bin_hash, _. Qed.

(** Only a space has the weight of a space. *)
Definition space_check (index : list (option (list Z))) : bool :=
  let other := forallb (fun x => negb (x =? 0x20)) in
  let page00 := default [] (hd None index) in
  forallb (fun p => other (default [] p)) (tl index) && other (take 32 page00) && other (drop 33 page00).

Lemma table_space index wc : space_check index = true -> 0 <= wc < 0x10000 -> table_weight index wc = 0x20 -> wc = 0x20.
Proof.
  intros [[H1 H2]%andb_true_iff H3]%andb_true_iff Hw. unfold table_weight, page_of, page_entry.
  rewrite shiftr_8, land_255. destruct (Z.to_nat (wc / 256)) as [|k] eqn:Ek.
  - assert (wc = wc mod 256) as Em by codes. destruct index as [|[page|] index]; simpl; [lia| |lia].
    simpl in H2, H3. rewrite <- Em. intros E. destruct (Z.lt_trichotomy wc 0x20) as [L|[L|L]]; [exfalso|done|exfalso].
    + pose proof (forallb_nth _ _ (Z.to_nat wc) 0 H2 eq_refl) as H. simpl in H.
      rewrite nth_firstn in H. destruct (Nat.ltb_spec (Z.to_nat wc) 32); lia.
    + pose proof (forallb_nth _ _ (Z.to_nat wc - 33) 0 H3 eq_refl) as H. simpl in H.
      rewrite nth_skipn in H. replace (33 + (Z.to_nat wc - 33))%nat with (Z.to_nat wc) in H by lia. lia.
  - pose proof (forallb_nth _ _ k None H1 eq_refl) as H. destruct index as [|p index]; simpl in *; [lia|].
    destruct (nth k index None) as [page|]; [|lia]. simpl in H.
    pose proof (forallb_nth _ _ (Z.to_nat (wc mod 256)) 0 H eq_refl) as He. simpl in He. lia.
Qed.

Lemma general_ci_space wc : 0 <= wc < 0x110000 -> my_general_ci_char_to_weight wc = 0x20 -> wc = 0x20.
Proof.
  intros Hw. destruct (Z.lt_ge_cases wc 0x10000); [rewrite general_ci_bmp by lia|by rewrite general_ci_supplementary].
  by apply table_space; [vm_compute|lia].
Qed.

Lemma mysql500_space wc : 0 <= wc < 0x10000 -> my_wc_weight_utf8mb3_general_mysql500_ci wc = 0x20 -> wc = 0x20.
Proof. intros Hw. by apply (table_space weight_general_mysql500_ci_index); [vm_compute|]. Qed.

(** ** Strings that are equal with padding *)

Lemma compare_space_zero a : compare_space a = 0 -> a = replicate (length a) 0x20.
Proof.
  induction a as [|x a IH]; simpl; [done|]. destruct (Z.ltb_spec x 0x20), (Z.ltb_spec 0x20 x); try done.
  intros H1. f_equal; [lia|auto].
Qed.

Lemma compare_padded_zero a b : compare_padded a b = 0 ->
  exists p n m, a = p ++ replicate n 0x20 /\ b = p ++ replicate m 0x20.
Proof.
  revert b. induction a as [|x a IH]; intros b Hp.
  - exists [], 0%nat, (length b). split; [done|]. apply compare_space_zero. simpl in Hp. lia.
  - destruct b as [|y b].
    + exists [], (length (x :: a)), 0%nat. split; [|done]. by apply compare_space_zero.
    + simpl in Hp. destruct (Z.ltb_spec x y), (Z.ltb_spec y x); try done.
      destruct (IH b Hp) as (p & n & m & -> & ->). exists (x :: p), n, m. replace y with x by lia. done.
Qed.

Lemma compare_padded_strip x n y : compare_padded (x ++ replicate n 0x20) y = compare_padded x y.
Proof.
  rewrite !(compare_padded_pad (length x + n + length y)) by (rewrite ?length_app, ?length_replicate; lia).
  f_equal. unfold pad. rewrite <- app_assoc, <- replicate_add. f_equal. f_equal.
  rewrite length_app, length_replicate. lia.
Qed.

Lemma no_trailing (x y p : list Z) n m : (forall t, x <> t ++ [0x20]) -> (forall t, y <> t ++ [0x20]) ->
  x = p ++ replicate n 0x20 -> y = p ++ replicate m 0x20 -> x = y.
Proof.
  intros Hx Hy Ex Ey.
  assert (forall k z, z = p ++ replicate k 0x20 -> (forall t, z <> t ++ [0x20]) -> z = p) as H.
  { intros [|k] z -> Hz; [apply app_nil_r|]. exfalso. apply (Hz (p ++ replicate k 0x20)).
    by rewrite replicate_S_end, app_assoc. }
  by rewrite (H n x Ex Hx), (H m y Ey Hy).
Qed.

Lemma no_overlong_prefix p s : no_overlong (p ++ s) = true -> no_overlong p = true.
Proof.
  induction p as [|b p IH]; [done|]. intros [H1 H2]%andb_true_iff. apply andb_true_iff. split; [|auto].
  destruct p as [|b1 [|b2 [|b3 p]]]; done.
Qed.

Section Padded.
Context (c : collation) (w : Z -> Z) `{!CharWeights c w}.
Context (space : forall wc, 0 <= wc < max_of c -> w wc = 0x20 -> wc = 0x20).

Definition clean (s : list Z) : Prop := bytes s /\ (has_mb4 c = true -> no_overlong s = true).

Lemma clean_strip s : clean s -> clean (strip s).
Proof.
  intros [Hs Ho]. split; [by apply strip_bytes|]. intros Hm. destruct (strip_app s) as [n E].
  specialize (Ho Hm). rewrite E in Ho. by eapply no_overlong_prefix.
Qed.

Lemma strip_weights s t : clean s -> weights c (strip s) <> t ++ [0x20].
Proof using CharWeights0 space.
  intros [Hs Ho]%clean_strip E. rewrite (weights_scan c w) in E by done.
  pose proof (scan_scanned (charset_of c) (max_of c) _ Hs) as Sc. pose proof (scanned_ok _ _ _ _ Hs Sc) as Ok.
  apply spell_scanned in Sc.
  destruct (scan _ (strip s)) as [|i l _] using rev_ind; [by destruct t|].
  rewrite map_app in E. apply app_inj_tail in E as [_ E]. apply Forall_app in Ok as [_ Ok].
  apply Forall_cons in Ok as [Hi _]. destruct i as [wc|b]; simpl in *.
  - apply space in E as ->; [|done]. unfold spell in Sc. rewrite map_app, concat_app in Sc. by destruct (strip_last s _ (eq_sym Sc)).
  - unfold WEIGHT_ILSEQ, byte_ok in *. lia.
Qed.

(** Equal with padding: the weights are the same without the trailing spaces. *)
Lemma strip_equal a b : clean a -> clean b -> compare_padded (weights c a) (weights c b) = 0 ->
  weights c (strip a) = weights c (strip b).
Proof using CharWeights0 space.
  intros Ha Hb E. assert (AsciiWeights c) as HA by (by destruct CharWeights0).
  destruct (strip_app a) as [n Ea], (strip_app b) as [m Eb]. rewrite Ea, Eb, !weights_spaces in E by done.
  rewrite compare_padded_strip, compare_padded_antisym, compare_padded_strip, compare_padded_antisym in E.
  destruct (compare_padded_zero (weights c (strip a)) (weights c (strip b))) as (p & k & k' & E1 & E2); [lia|].
  eapply no_trailing; [intros t; by apply strip_weights..|done|done].
Qed.
End Padded.

(** ** Correctness *)

(** The hash functions of the collations, without and with PAD SPACE; the latter depend on the address
    of the string. *)
Record hash_fns := mk_hash_fns {
  hash_nopad : my_hasher_st -> list Z -> my_hasher_st;
  hash_pad : Z -> my_hasher_st -> list Z -> my_hasher_st;
}.

Definition utf8mb3_hash (p : MY_CASEFOLD_INFO) : hash_fns :=
  mk_hash_fns (my_hash_sort_utf8mb3_nopad p) (my_hash_sort_utf8mb3 p).
Definition utf8mb4_hash (p : MY_CASEFOLD_INFO) : hash_fns :=
  mk_hash_fns (my_hash_sort_utf8mb4_nopad p) (my_hash_sort_utf8mb4 p).
Definition mb_bin_hash : hash_fns := mk_hash_fns my_hash_sort_mb_nopad_bin my_hash_sort_mb_bin.

Definition hashes : list (collation * (Z -> Z) * hash_fns) :=
  [(utf8mb3_general_ci, my_general_ci_char_to_weight, utf8mb3_hash my_casefold_default);
   (utf8mb3_general_mysql500_ci, my_wc_weight_utf8mb3_general_mysql500_ci, utf8mb3_hash my_casefold_mysql500);
   (utf8mb3_bin, id, mb_bin_hash);
   (utf8mb4_general_ci, my_general_ci_char_to_weight, utf8mb4_hash my_casefold_default);
   (utf8mb4_bin, id, mb_bin_hash)].

Lemma hashes_ok c w f : In (c, w, f) hashes ->
  CharWeights c w /\ HashWeights c w (hash_nopad f) /\
  (forall wc, 0 <= wc < max_of c -> w wc = 0x20 -> wc = 0x20) /\
  (forall ptr h s, hash_pad f ptr h s = hash_nopad f h (take (skip_trailing_space ptr s) s)).
Proof.
  simpl. intros H. repeat destruct H as [[= <- <- <-]|H]; try done; split_and!; try done; try apply _.
  - intros wc Hw. unfold max_of in Hw. simpl in Hw. apply general_ci_space. lia.
  - exact mysql500_space.
  - exact general_ci_space.
Qed.

Lemma sign_zero r : sign r = Some 0 <-> r = Some 0.
Proof. unfold sign. destruct r as [z|]; [|done]. simpl. split; intros [= E]; f_equal; lia. Qed.

Section Compatible.
Context (c : collation) (w : Z -> Z) (f : hash_fns) (Hin : In (c, w, f) hashes).

Lemma nopad_compatible h a b : clean c a -> clean c b -> weights c a = weights c b -> hash_nopad f h a = hash_nopad f h b.
Proof using Hin.
  destruct (hashes_ok _ _ _ Hin) as (Hc & Hh & _ & _). intros [Ha Oa] [Hb Ob] E.
  apply (hash_weights (c:=c) (w:=w)); [done..|]. by rewrite <- !weights_scan.
Qed.

Lemma pad_compatible h p q a b : clean c a -> clean c b -> 0 <= p -> 0 <= q ->
  compare_padded (weights c a) (weights c b) = 0 -> hash_pad f p h a = hash_pad f q h b.
Proof using Hin.
  destruct (hashes_ok _ _ _ Hin) as (Hc & _ & Hs & Hp). intros Ha Hb P Q E.
  rewrite !Hp, !take_strip by (done || apply Ha || apply Hb).
  apply nopad_compatible; [by apply clean_strip..|]. by eapply strip_equal.
Qed.
End Compatible.

(** The comparison of keys in a hash table; a key is a list of bytes. *)
Definition key_equal (c : collation) (a b : list Z) : bool :=
  match strnncoll c (map u8 a) (map u8 b) false with Some (r, _) => r =? 0 | None => false end.

Lemma u8_bytes l : bytes (map u8 l).
Proof. apply Forall_map, Forall_true. intros x. unfold byte_ok, u8. by apply Z.mod_pos_bound. Qed.

Lemma key_equal_weights c w `{!CharWeights c w} a b :
  key_equal c a b = true -> weights c (map u8 a) = weights c (map u8 b).
Proof.
  intros E. assert (AsciiWeights c) as HA by (by destruct CharWeights0).
  pose proof (strnncoll_sign c _ _ false (u8_bytes a) (u8_bytes b)) as H. unfold key_equal in E.
  destruct (strnncoll c _ _ false) as [[r g]|]; [|done]. apply Z.eqb_eq in E as ->.
  unfold strnncoll_result in H. simpl in H. apply compare_weights_eq. congruence.
Qed.

(** C39: strings that compare as equal by a collation of utf8mb3 or utf8mb4 have the same hash value, with
    and without PAD SPACE, wherever they are in memory: [skip_trailing_space], which looks at whole words
    in the middle of a long string, takes off exactly the trailing spaces, and no other character has the
    weight of a space.  So the character sets of three bytes keep what a hash table asks of its hash
    function.  The four-byte ones keep it but for strings with an overlong sequence: E0 90 80 80 and
    U+10000 are equal by utf8mb4_bin and have different hash values. *)
Theorem hash_sort_correct c w f :
  In (c, w, f) hashes ->
  (forall ptr s, bytes s -> 0 <= ptr -> take (skip_trailing_space ptr s) s = strip s) /\
  (forall h a b, clean c a -> clean c b ->
     strnncollsp_nopad c a b = Some 0 -> hash_nopad f h a = hash_nopad f h b) /\
  (forall h p q a b, clean c a -> clean c b -> 0 <= p -> 0 <= q ->
     strnncollsp c a b = Some 0 -> hash_pad f p h a = hash_pad f q h b) /\
  (has_mb4 c = false -> forall ptr, 0 <= ptr ->
     KeyHash (fun k => my_hash_sort (hash_pad f ptr) (map u8 k)) (key_equal c) /\
     KeyHash (fun k => my_hash_sort (hash_nopad f) (map u8 k)) (key_equal c)) /\
  (strnncollsp utf8mb4_bin [0xE0; 0x90; 0x80; 0x80] [0xF0; 0x90; 0x80; 0x80] = Some 0 /\
   my_hash_sort (my_hash_sort_mb_bin 0) [0xE0; 0x90; 0x80; 0x80] <>
   my_hash_sort (my_hash_sort_mb_bin 0) [0xF0; 0x90; 0x80; 0x80]).
Proof.
  intros Hin. destruct (hashes_ok _ _ _ Hin) as (Hc & _). assert (AsciiWeights c) as HA by (by destruct Hc).
  assert (K : forall k, has_mb4 c = false -> clean c (map u8 k)).
  { intros k Hm. split; [apply u8_bytes|]. by rewrite Hm. }
  split_and!; [exact take_strip|..|done|by vm_compute].
  - intros h a b Ha Hb E. apply (nopad_compatible c w); [done..|]. apply compare_weights_eq.
    rewrite <- sign_zero, strnncollsp_nopad_sign in E by (done || apply Ha || apply Hb). congruence.
  - intros h p q a b Ha Hb P Q E. apply (pad_compatible c w); [done..|].
    rewrite <- sign_zero, strnncollsp_sign in E by (done || apply Ha || apply Hb). congruence.
  - intros Hm ptr P. split; intros a b E%(key_equal_weights c w); unfold my_hash_sort; do 2 f_equal.
    + apply (pad_compatible c w); auto. rewrite E. apply compare_padded_refl.
    + apply (nopad_compatible c w); auto.
Qed.

(** Two spellings of a name, one with a space behind it *)
Lemma hash_sort_correct_witness :
  my_hash_sort_utf8mb3 my_casefold_default 0 my_hasher_mysql5x [0x4D; 0xC3; 0xA4; 0x20] =
  my_hash_sort_utf8mb3 my_casefold_default 8 my_hasher_mysql5x [0x6D; 0x41].
Proof.
  destruct (hash_sort_correct utf8mb3_general_ci my_general_ci_char_to_weight (utf8mb3_hash my_casefold_default))
    as (_ & _ & H & _); [simpl; tauto|].
  apply (H my_hasher_mysql5x 0 8);
    first [split; [repeat constructor; by_decide|done]|lia|vm_compute; reflexivity].
Defined.
