(* ===== verification/Wildcmp.v ===== *)
(** * LIKE

    strings/ctype-wildcmp.inl: matching a string with a pattern of wildcards, as included for utf8mb3 and
    utf8mb4.  The decoder and the equality of characters are parameters, as in the source, and so is the
    function that guards the stack.  A loop returns [None] only when its fuel is exhausted. *)

From S2P Require Import Prelude Bytes Utf8 Weights Collation HashSort.

Definition my_casefold_char_eq_general_ci (casefold : MY_CASEFOLD_INFO) (wc1 wc2 : Z) : bool :=
  my_tosort_unicode casefold wc1 =? my_tosort_unicode casefold wc2.

Section Wildcmp.
Context (MY_MB_WC : list Z -> Z * option Z) (MY_CHAR_EQ : Z -> Z -> bool).
Context (escape w_one w_many : Z) (my_string_stack_guard : option (nat -> bool)).

(** The loop that skips until the first character of the pattern is found; the string is left behind it. *)
Inductive char_search := Broken | AtEnd | Found (str : list Z).

Fixpoint find_char (fuel : nat) (w_wc : Z) (str : list Z) : option char_search :=
  match fuel, str with
  | O, _ => None
  | S _, [] => Some AtEnd
  | S fuel, _ =>
      match MY_MB_WC str with
      | (scan, Some s_wc) =>
          if MY_CHAR_EQ s_wc w_wc then Some (Found (skip scan str)) else find_char fuel w_wc (skip scan str)
      | _ => Some Broken
      end
  end.

(** The loop that tries the rest of the pattern behind each such character, by a recursive call *)
Fixpoint wild_search (fuel : nat) (wildcmp : list Z -> list Z -> option Z) (w_wc : Z) (str wildstr : list Z)
    : option Z :=
  match fuel with
  | O => None
  | S fuel =>
      f ← find_char (S (length str)) w_wc str;
      match f with
      | Broken => Some 1
      | AtEnd => Some (-1)
      | Found str =>
          result ← wildcmp str wildstr;
          if result <=? 0 then Some result else wild_search fuel wildcmp w_wc str wildstr
      end
  end.

(** The loop that takes '%' and '_' off the pattern behind a '%': [Some None] is [return 1]. *)
Fixpoint skip_wild (fuel : nat) (str wildstr : list Z) : option (option (list Z * list Z)) :=
  match fuel, wildstr with
  | O, _ => None
  | S _, [] => Some (Some (str, []))
  | S fuel, _ =>
      match MY_MB_WC wildstr with
      | (scan, Some w_wc) =>
          if w_wc =? w_many then skip_wild fuel str (skip scan wildstr)
          else if w_wc =? w_one then
            match MY_MB_WC str with
            | (s_scan, Some _) => skip_wild fuel (skip s_scan str) (skip scan wildstr)
            | _ => Some None
            end
          else Some (Some (str, wildstr))
      | _ => Some None
      end
  end.

(** What is done at a '%' *)
Definition found_w_many (wildcmp : list Z -> list Z -> option Z) (str wildstr : list Z) : option Z :=
  r ← skip_wild (S (length wildstr)) str wildstr;
  match r with
  | None => Some 1
  | Some (_, []) => Some 0
  | Some ([], _) => Some (-1)
  | Some (str, wildstr) =>
      match MY_MB_WC wildstr with
      | (scan, Some w_wc) =>
          let wildstr := skip scan wildstr in
          match wildstr with
          | _ :: _ =>
              if w_wc =? escape then
                match MY_MB_WC wildstr with
                | (scan, Some w_wc) => wild_search (S (length str)) wildcmp w_wc str (skip scan wildstr)
                | _ => Some 1
                end
              else wild_search (S (length str)) wildcmp w_wc str wildstr
          | [] => wild_search (S (length str)) wildcmp w_wc str wildstr
          end
      | _ => Some 1
      end
  end.

(** The loop over the characters before a '%' *)
Fixpoint match_loop (fuel : nat) (wildcmp : list Z -> list Z -> option Z) (str wildstr : list Z) : option Z :=
  match fuel with
  | O => None
  | S fuel =>
      match MY_MB_WC wildstr with
      | (scan, Some w_wc) =>
          if w_wc =? w_many then found_w_many wildcmp str wildstr
          else
            let wildstr := skip scan wildstr in
            let next :=
              if (w_wc =? escape) && negb (bool_decide (wildstr = [])) then
                match MY_MB_WC wildstr with
                | (scan, Some w_wc) => Some (w_wc, skip scan wildstr, true)
                | _ => None
                end
              else Some (w_wc, wildstr, false) in
            match next, MY_MB_WC str with
            | Some (w_wc, wildstr, escaped), (scan, Some s_wc) =>
                let str := skip scan str in
                if (negb escaped && (w_wc =? w_one)) || MY_CHAR_EQ s_wc w_wc then
                  if bool_decide (wildstr = []) then Some (if bool_decide (str = []) then 0 else 1)
                  else match_loop fuel wildcmp str wildstr
                else Some 1
            | _, _ => Some 1
            end
      | _ => Some 1
      end
  end.

Fixpoint wildcmp (fuel : nat) (recurse_level : nat) (str wildstr : list Z) : option Z :=
  match fuel with
  | O => None
  | S fuel =>
      if (if my_string_stack_guard is Some guard then guard recurse_level else false) then Some 1
      else if bool_decide (wildstr = []) then Some (if bool_decide (str = []) then 0 else 1)
      else match_loop (S (length wildstr)) (wildcmp fuel (S recurse_level)) str wildstr
  end.
End Wildcmp.

(** Every recursive call has a shorter pattern. *)
Definition my_wildcmp_utf8mb3 (casefold : MY_CASEFOLD_INFO) (guard : option (nat -> bool))
    (escape w_one w_many : Z) (str wildstr : list Z) : option Z :=
  wildcmp my_mb_wc_utf8mb3_quick (my_casefold_char_eq_general_ci casefold) escape w_one w_many guard
    (S (length wildstr)) 1 str wildstr.

Definition my_wildcmp_utf8mb4 (casefold : MY_CASEFOLD_INFO) (guard : option (nat -> bool))
    (escape w_one w_many : Z) (str wildstr : list Z) : option Z :=
  wildcmp my_mb_wc_utf8mb4_quick (my_casefold_char_eq_general_ci casefold) escape w_one w_many guard
    (S (length wildstr)) 1 str wildstr.
