(* ===== verification/WildcmpProps.v ===== *)
(** * LIKE: correctness

    What a pattern means is given by its tokens and the relation [like]; [wildcmp] returns 0 on
    well-formed strings exactly when they are related. *)

From S2P Require Import Prelude Bytes Utf8 Utf8Props Utf8Strings Weights Collation CollationChars HashSort Wildcmp.

Inductive token := Many | One | Lit (wc : Z).

Section Like.
Context (eq : Z -> Z -> bool) (escape w_one w_many : Z).

Fixpoint tokens (p : list Z) : list token :=
  match p with
  | [] => []
  | x :: p =>
      if x =? w_many then Many :: tokens p
      else if x =? escape then match p with y :: p => Lit y :: tokens p | [] => [Lit x] end
      else if x =? w_one then One :: tokens p
      else Lit x :: tokens p
  end.

Inductive like : list token -> list Z -> Prop :=
  | like_nil : like [] []
  | like_one p x s : like p s -> like (One :: p) (x :: s)
  | like_lit p c x s : eq x c = true -> like p s -> like (Lit c :: p) (x :: s)
  | like_many p s1 s2 : like p s2 -> like (Many :: p) (s1 ++ s2).

Lemma like_many_inv p s : like (Many :: p) s -> exists s1 s2, s = s1 ++ s2 /\ like p s2.
Proof. inversion 1; subst; eauto. Qed.

(** A '%' takes what is put before the string. *)
Lemma like_many_app p s1 s : like (Many :: p) s -> like (Many :: p) (s1 ++ s).
Proof. intros (s2 & s3 & -> & H)%like_many_inv. rewrite app_assoc. by constructor. Qed.

Lemma like_many_drop p k s : like (Many :: p) (drop k s) -> like (Many :: p) s.
Proof. rewrite <- (take_drop k s) at 2. apply like_many_app. Qed.

Lemma like_many_many p s : like (Many :: Many :: p) s <-> like (Many :: p) s.
Proof.
  split; [|apply (like_many _ [])]. intros (s1 & s2 & -> & H)%like_many_inv. by apply like_many_app.
Qed.

Lemma like_many_one p s : like (Many :: One :: p) s <-> exists x s', s = x :: s' /\ like (Many :: p) s'.
Proof.
  split.
  - intros (s1 & s2 & -> & H)%like_many_inv. inversion H as [|? x s H'| |]; subst. destruct s1 as [|y s1]; simpl.
    + exists x, s. split; [done|]. by apply (like_many _ []).
    + exists y, (s1 ++ x :: s). split; [done|]. apply like_many_app, (like_many _ [x]), H'.
  - intros (x & s' & -> & (s1 & s2 & -> & H)%like_many_inv). rewrite app_comm_cons.
    destruct (@exists_last _ (x :: s1)) as (t & y & ->); [done|]. rewrite <- app_assoc. by do 2 constructor.
Qed.

Lemma like_many_lit c p s :
  like (Many :: Lit c :: p) s <-> exists s1 x s2, s = s1 ++ x :: s2 /\ eq x c = true /\ like p s2.
Proof.
  split.
  - intros (s1 & s2 & -> & H)%like_many_inv. inversion H; subst. eauto 6.
  - intros (s1 & x & s2 & -> & E & H). by do 2 constructor.
Qed.

Lemma like_many_nil s : like [Many] s.
Proof. rewrite <- (app_nil_r s). constructor. constructor. Qed.
End Like.

(** ** Well-formed strings *)

Section Correct.
Context (cset : MY_CHARSET_HANDLER) (max : Z) `{!Utf8Charset cset max}.
Context (eq : Z -> Z -> bool) (escape w_one w_many : Z) (guard : option (nat -> bool)).
Context (Hescape : escape <> w_one).

Notation chars := (Forall (fun wc => 0 <= wc < max)).
Definition encode (l : list Z) : list Z := concat (map utf8_bytes l).
Notation toks := (tokens escape w_one w_many).
Notation lk := (like eq).

Lemma decode_cons x l : 0 <= x < max ->
  exists n, mb_wc cset (encode (x :: l)) = (n, Some x) /\ skip n (encode (x :: l)) = encode l.
Proof. intros H. exists (utf8_length x). unfold encode. simpl. by rewrite utf8_complete, skip_char. Qed.

Lemma decode_nil : exists n, mb_wc cset [] = (n, None).
Proof.
  destruct (mb_wc cset []) as [n [wc|]] eqn:E; [|eauto].
  destruct (utf8_sound [] n wc ltac:(constructor) E) as (_ & _ & r & Er).
  destruct (utf8_bytes_cons wc) as (? & ? & Eb). by rewrite Eb in Er.
Qed.

Lemma encode_cons x l : exists b r, encode (x :: l) = b :: r.
Proof. unfold encode. simpl. destruct (utf8_bytes_cons x) as (b & r & ->). simpl. eauto. Qed.

Lemma encode_empty l : encode l = [] <-> l = [].
Proof. destruct l as [|x l]; [done|]. destruct (encode_cons x l) as (b & r & ->). done. Qed.

Lemma encode_length l : (length l <= length (encode l))%nat.
Proof.
  induction l as [|x l IH]; [done|]. unfold encode in *. simpl. rewrite length_app.
  destruct (utf8_bytes_cons x) as (b & r & ->). simpl. lia.
Qed.

Lemma find_char_spec fuel c s : chars s -> (length s < fuel)%nat ->
  (find_char (mb_wc cset) eq fuel c (encode s) = Some AtEnd /\ Forall (fun x => eq x c = false) s) \/
  (exists s1 x s2, s = s1 ++ x :: s2 /\ eq x c = true /\ Forall (fun x => eq x c = false) s1 /\
     find_char (mb_wc cset) eq fuel c (encode s) = Some (Found (encode s2))).
Proof.
  intros Hs. revert fuel. induction Hs as [|x s Hx Hs IH]; intros [|fuel] Hf; simpl in Hf; try lia; [by left|].
  destruct (decode_cons x s Hx) as (n & E1 & E2), (encode_cons x s) as (b & r & E). cbn [find_char].
  rewrite E in *. rewrite E1, E2. destruct (eq x c) eqn:Ex.
  - right. exists [], x, s. done.
  - destruct (IH fuel ltac:(lia)) as [[-> H]|(s1 & y & s2 & -> & Ey & H & ->)]; [left; by split; [|constructor]|].
    right. exists (x :: s1), y, s2. split_and!; try done. by constructor.
Qed.
(** The stack guard, if any, lets every call pass. *)
Definition quiet : Prop := forall n, (if guard is Some g then g n else false) = false.

(** What a call returns: 0 if the pattern matches, -1 if it matches no end of the string either *)
Definition result_ok (r : Z) (p : list token) (s : list Z) : Prop :=
  -1 <= r <= 1 /\ (r = 0 -> lk p s) /\ (quiet -> r = 1 -> ~ lk p s) /\
  (quiet -> r = -1 -> forall k, ~ lk p (drop k s)).

(** ** One token *)

Definition token_ok (t : token) (x : Z) : bool := match t with One => true | Lit c => eq x c | Many => false end.

Lemma like_token t p s : t <> Many -> lk (t :: p) s <-> exists x s', s = x :: s' /\ token_ok t x = true /\ lk p s'.
Proof.
  intros Ht. split.
  - inversion 1; subst; simpl; eauto 6. done.
  - intros (x & s' & -> & E & H). destruct t; [done|by constructor..].
Qed.

Lemma consume t p x s r : t <> Many -> token_ok t x = true -> result_ok r p s -> result_ok r (t :: p) (x :: s).
Proof.
  intros Ht E (H & H0 & H1 & H2). split_and!; [lia|lia|..].
  - intros ?. apply like_token; eauto 6.
  - intros Q ?. rewrite like_token by done. intros (? & ? & [= <- <-] & _ & ?). by apply H1.
  - intros Q ? k. rewrite like_token by done. intros (y & s' & Ed & _ & Hl). apply (H2 Q ltac:(done) k).
    replace (drop k s) with s'; [done|]. change (drop k s) with (drop (S k) (x :: s)).
    replace (S k) with (k + 1)%nat by lia. by rewrite <- drop_drop, Ed.
Qed.

Lemma consume_fail t p x s : t <> Many -> token_ok t x = false -> result_ok 1 (t :: p) (x :: s).
Proof.
  intros Ht E. split_and!; try lia. intros _ _. rewrite like_token by done. intros (? & ? & [= <- <-] & ? & _). congruence.
Qed.

Lemma consume_nil t p : t <> Many -> result_ok 1 (t :: p) [].
Proof. intros Ht. split_and!; try lia. intros _ _. rewrite like_token by done. by intros (? & ? & ? & _). Qed.

Lemma result_end s : result_ok (if bool_decide (s = []) then 0 else 1) [] s.
Proof.
  case_bool_decide; subst; split_and!; try lia; try done; [constructor|]. intros _ _. by inversion 1.
Qed.

(** ** Behind a '%' *)

Lemma like_search c p x s : lk (Many :: Lit c :: p) (x :: s) ->
  (eq x c = true /\ lk p s) \/ lk (Many :: Lit c :: p) s.
Proof.
  intros ([|y s1] & x' & s2 & [= -> ->] & E & H)%like_many_lit; [by left|].
  right. apply like_many_lit. eauto 6.
Qed.

Lemma like_search_app c p s1 s : Forall (fun x => eq x c = false) s1 -> lk (Many :: Lit c :: p) (s1 ++ s) ->
  lk (Many :: Lit c :: p) s.
Proof. induction 1 as [|x s1 E _ IH]; [done|]. simpl. intros [[? _]|?]%like_search; [congruence|auto]. Qed.

(** What the recursive calls promise, for patterns with fewer than [n] characters *)
Definition rec_ok (n : nat) (rec : list Z -> list Z -> option Z) : Prop :=
  forall s p, chars s -> chars p -> (length p < n)%nat ->
    exists r, rec (encode s) (encode p) = Some r /\ result_ok r (toks p) s.

(** The result of a search that goes on to the end of the string *)
Definition search_ok (r : Z) (p : list token) (s : list Z) : Prop :=
  -1 <= r <= 1 /\ (r = 0 -> lk p s) /\ (quiet -> r <> 0 -> ~ lk p s).

Lemma search_result r p s : search_ok r (Many :: p) s -> result_ok r (Many :: p) s.
Proof.
  intros (H & H0 & H1). split_and!; [lia..|done| |]; [intros Q ->; by apply H1|].
  intros Q -> k ?%like_many_drop. by apply H1.
Qed.

Lemma search_spec fuel n rec c s p : rec_ok n rec -> chars s -> chars p -> (length p < n)%nat ->
  (length s < fuel)%nat ->
  exists r, wild_search (mb_wc cset) eq fuel rec c (encode s) (encode p) = Some r /\
    search_ok r (Many :: Lit c :: toks p) s.
Proof.
  intros Hrec Hs Hp Hn. revert s Hs. induction fuel as [|fuel IH]; intros s Hs Hf; [lia|]. cbn [wild_search].
  pose proof (encode_length s) as Le.
  destruct (find_char_spec (S (length (encode s))) c s Hs ltac:(lia)) as [[-> H]|(s1 & x & s2 & -> & Ex & H & ->)]; simpl.
  - exists (-1). split; [done|]. split_and!; try lia. intros _ _ Hl.
    rewrite <- (app_nil_r s) in Hl. apply like_search_app in Hl; [|done].
    by apply like_many_lit in Hl as ([] & ? & ? & ? & _).
  - apply Forall_app in Hs as [_ Hs2]. apply Forall_cons in Hs2 as [_ Hs2].
    rewrite length_app in Hf. simpl in Hf.
    destruct (Hrec s2 p Hs2 Hp Hn) as (r & -> & R & R0 & R1 & R2). simpl.
    assert (E0 : lk (toks p) s2 -> lk (Many :: Lit c :: toks p) (s1 ++ x :: s2)) by (intros; apply like_many_lit; eauto 6).
    assert (E1 : lk (Many :: Lit c :: toks p) (s1 ++ x :: s2) -> lk (toks p) s2 \/ lk (Many :: Lit c :: toks p) s2).
    { intros Hl%like_search_app; [|done]. apply like_search in Hl as [[_ ?]|?]; auto. }
    destruct (Z.leb_spec r 0).
    + exists r. split; [done|]. split; [lia|]. split; [auto|]. intros Q Hr [Hl|Hl]%E1.
      * apply (R2 Q ltac:(lia) 0%nat Hl).
      * apply like_many_lit in Hl as (t1 & y & t2 & -> & _ & Hl). apply (R2 Q ltac:(lia) (length t1 + 1)%nat).
        by rewrite <- drop_drop, drop_app_length.
    + destruct (IH s2 Hs2 ltac:(lia)) as (r' & -> & R' & R0' & R1'). exists r'. split; [done|]. split; [lia|]. split.
      * intros Hr. specialize (R0' Hr). apply (like_many_app _ _ (s1 ++ [x])) in R0'. by rewrite <- app_assoc in R0'.
      * intros Q Hr [Hl|Hl]%E1; [apply R1 in Hl; [done..|lia]|by apply R1' in Hl].
Qed.
Lemma skip_wild_spec fuel s p : chars s -> chars p -> (length p < fuel)%nat ->
  (skip_wild (mb_wc cset) w_one w_many fuel (encode s) (encode p) = Some None /\ ~ lk (Many :: toks p) s) \/
  (exists s' p', skip_wild (mb_wc cset) w_one w_many fuel (encode s) (encode p) = Some (Some (encode s', encode p')) /\
     chars s' /\ chars p' /\ (length p' <= length p)%nat /\ (lk (Many :: toks p) s <-> lk (Many :: toks p') s') /\
     (forall x p0, p' = x :: p0 -> x <> w_many /\ x <> w_one)).
Proof using Utf8Charset0 Hescape.
  intros Hs Hp. revert s p Hs Hp. induction fuel as [|fuel IH]; intros s p Hs Hp Hf; [lia|].
  destruct Hp as [|x p Hx Hp]; [right; exists s, []; by split_and!|].
  destruct (decode_cons x p Hx) as (n & E1 & E2), (encode_cons x p) as (b & r & E). cbn [skip_wild].
  rewrite E in *. rewrite E1, E2. cbn [tokens length] in *.
  destruct (Z.eqb_spec x w_many) as [->|Nm]; [|destruct (Z.eqb_spec x w_one) as [->|No]].
  - setoid_rewrite (like_many_many eq (toks p) s).
    destruct (IH s p Hs Hp ltac:(lia)) as [H|(s' & p' & H & ? & ? & ? & ? & ?)]; [by left|].
    right. exists s', p'. split_and!; try done. lia.
  - rewrite (proj2 (Z.eqb_neq w_one escape)) by congruence. setoid_rewrite (like_many_one eq (toks p) s).
    destruct Hs as [|y s Hy Hs].
    + change (encode []) with (@nil Z). destruct decode_nil as [k ->]. left. split; [done|]. by intros (? & ? & ? & _).
    + destruct (decode_cons y s Hy) as (m & -> & ->).
      assert (L : (exists y0 s', y :: s = y0 :: s' /\ lk (Many :: toks p) s') <-> lk (Many :: toks p) s).
      { split; [by intros (? & ? & [= <- <-] & ?)|eauto]. }
      setoid_rewrite L.
      destruct (IH s p Hs Hp ltac:(lia)) as [H|(s' & p' & H & ? & ? & ? & ? & ?)]; [by left|].
      right. exists s', p'. split_and!; try done. lia.
  - right. exists s, (x :: p). cbn [tokens]. rewrite E, (proj2 (Z.eqb_neq x w_many)), (proj2 (Z.eqb_neq x w_one)) by done.
    split_and!; try done; [by constructor|]. by intros x0 p0 [= <- <-].
Qed.

(** The token of a character that is no wildcard *)
Lemma literal x p : x <> w_many -> x <> w_one -> exists c p1, toks (x :: p) = Lit c :: toks p1 /\
  ((c = x /\ p1 = p /\ (p = [] \/ x <> escape)) \/ (x = escape /\ p = c :: p1)).
Proof.
  intros Nm No. simpl. rewrite (proj2 (Z.eqb_neq x w_many)) by done.
  destruct (Z.eqb_spec x escape) as [->|]; [destruct p as [|y p]|rewrite (proj2 (Z.eqb_neq x w_one)) by done].
  - exists escape, []. split; [done|auto].
  - exists y, p. split; [done|auto].
  - exists x, p. split; [done|auto].
Qed.

Lemma found_spec n rec s p : rec_ok n rec -> chars s -> chars p -> (length p <= n)%nat -> hd_error p = Some w_many ->
  exists r, found_w_many (mb_wc cset) eq escape w_one w_many rec (encode s) (encode p) = Some r /\ result_ok r (toks p) s.
Proof using Utf8Charset0 Hescape.
  intros Hrec Hs Hp Hn Hd. assert (T : exists P, toks p = Many :: P).
  { destruct p as [|x p]; [done|]. injection Hd as ->. simpl. rewrite Z.eqb_refl. eauto. }
  destruct T as [P T].
  cut (exists r, found_w_many (mb_wc cset) eq escape w_one w_many rec (encode s) (encode p) = Some r /\
        search_ok r (Many :: toks p) s).
  { intros (r & E & H). exists r. split; [done|]. rewrite T in *. apply search_result.
    pose proof (like_many_many eq P s) as M. destruct H as (H & H0 & H1). split; [lia|].
    split; [by intros ?%H0%M|]. intros Q Hr Hl%M. by apply (H1 Q Hr). }
  clear Hd T P. unfold found_w_many. pose proof (encode_length p) as Lp.
  destruct (skip_wild_spec (S (length (encode p))) s p Hs Hp ltac:(lia))
    as [[-> H]|(s' & p' & -> & Hs' & Hp' & L & Hl & Hh)]; cbn [mbind option_bind].
  { exists 1. split; [done|]. split; [lia|]. by split. }
  unfold search_ok. setoid_rewrite Hl. clear Hl Hs s Hp Lp.
  destruct Hp' as [|x p' Hx Hp'].
  { exists 0. split; [by destruct (encode s')|]. split; [lia|]. split; [intros _; apply like_many_nil|done]. }
  destruct (Hh x p' eq_refl) as [Nm No]. cbn [length] in *.
  destruct (decode_cons x p' Hx) as (k & E1 & E2), (encode_cons x p') as (b & t & E). rewrite E in *.
  destruct s' as [|y s'].
  { exists (-1). split; [done|]. split; [lia|]. split; [done|]. intros _ _.
    destruct (literal x p' Nm No) as (c & p1 & -> & _). by intros ([] & ? & ? & ? & _)%like_many_lit. }
  destruct (encode_cons y s') as (b' & t' & E'). pose proof (encode_length (y :: s')) as Ls. rewrite E', E1, E2 in *.
  destruct (literal x p' Nm No) as (c & p1 & -> & [(-> & -> & Ne)|(-> & ->)]).
  - destruct (search_spec (S (length (b' :: t'))) n rec x (y :: s') p' Hrec Hs' Hp' ltac:(lia) ltac:(lia)) as (r & Er & H).
    rewrite E' in Er. exists r. split; [|exact H]. destruct (encode p') as [|b0 t0] eqn:Ep; [done|].
    destruct Ne as [->| ->%Z.eqb_neq]; done.
  - apply Forall_cons in Hp' as [Hc Hp1]. cbn [length] in *.
    destruct (search_spec (S (length (b' :: t'))) n rec c (y :: s') p1 Hrec Hs' Hp1 ltac:(lia) ltac:(simpl; lia)) as (r & Er & H).
    rewrite E' in Er. exists r. split; [|exact H]. destruct (decode_cons c p1 Hc) as (k' & E3 & E4), (encode_cons c p1) as (b0 & t0 & Ep).
    rewrite Ep in *. by rewrite Z.eqb_refl, E3, E4.
Qed.

(** ** The whole pattern *)

(** The first token, if it is not a '%', as the loop reads it *)
Lemma next_token x p : x <> w_many -> chars p ->
  exists t c p1 e, toks (x :: p) = t :: toks p1 /\ t <> Many /\ chars p1 /\ (length p1 <= length p)%nat /\
    (forall y, (negb e && (c =? w_one)) || eq y c = token_ok t y) /\
    (if (x =? escape) && negb (bool_decide (encode p = [])) then
       match mb_wc cset (encode p) with (scan, Some w_wc) => Some (w_wc, skip scan (encode p), true) | _ => None end
     else Some (x, encode p, false)) = Some (c, encode p1, e).
Proof using Utf8Charset0 Hescape.
  intros Nm Hp. cbn [tokens]. rewrite (proj2 (Z.eqb_neq x w_many)) by done.
  rewrite (bool_decide_ext _ _ (encode_empty p)).
  destruct (Z.eqb_spec x escape) as [->|Ne]; [destruct Hp as [|y p Hy Hp]|].
  - exists (Lit escape), escape, [], false. split_and!; try done. intros y. simpl.
    by rewrite (proj2 (Z.eqb_neq escape w_one)).
  - destruct (decode_cons y p Hy) as (k & -> & ->). exists (Lit y), y, p, true. split_and!; try done. simpl. lia.
  - destruct (Z.eqb_spec x w_one) as [->|No].
    + exists One, w_one, p, false. split_and!; try done. intros y. simpl. by rewrite Z.eqb_refl.
    + exists (Lit x), x, p, false. split_and!; try done. intros y. simpl. by rewrite (proj2 (Z.eqb_neq x w_one)).
Qed.

Lemma match_loop_spec fuel n rec s p : rec_ok n rec -> chars s -> chars p -> (length p <= n)%nat ->
  (length p < fuel)%nat -> p <> [] ->
  exists r, match_loop (mb_wc cset) eq escape w_one w_many fuel rec (encode s) (encode p) = Some r /\ result_ok r (toks p) s.
Proof using Utf8Charset0 Hescape.
  intros Hrec. revert s p. induction fuel as [|fuel IH]; intros s p Hs Hp Hn Hf Hne; [lia|].
  destruct p as [|x p]; [done|]. pose proof Hp as Hxp. apply Forall_cons in Hp as [Hx Hp]. cbn [match_loop].
  destruct (decode_cons x p Hx) as (k & -> & Ek). rewrite Ek.
  destruct (Z.eqb_spec x w_many) as [->|Nm]; [by eapply found_spec|].
  destruct (next_token x p Nm Hp) as (t & c & p1 & e & -> & Ht & Hp1 & Lp & Hok & ->).
  destruct Hs as [|y s Hy Hs].
  { change (encode []) with (@nil Z). destruct decode_nil as [j ->]. exists 1. split; [done|by apply consume_nil]. }
  destruct (decode_cons y s Hy) as (j & -> & ->). rewrite Hok.
  destruct (token_ok t y) eqn:Et; [|exists 1; split; [done|by apply consume_fail]].
  destruct (bool_decide (encode p1 = [])) eqn:E1.
  - apply bool_decide_eq_true, encode_empty in E1 as ->. eexists. split; [done|].
    apply consume; [done..|]. rewrite (bool_decide_ext _ _ (encode_empty s)). apply result_end.
  - apply bool_decide_eq_false in E1. cbn [length] in *.
    destruct (IH s p1 Hs Hp1 ltac:(lia) ltac:(lia)) as (r & -> & H); [by intros ->|].
    exists r. split; [done|]. by apply consume.
Qed.

Lemma wildcmp_spec fuel level : rec_ok fuel (wildcmp (mb_wc cset) eq escape w_one w_many guard fuel level).
Proof using Utf8Charset0 Hescape.
  revert level. induction fuel as [|fuel IH]; intros level s p Hs Hp Hf; [lia|]. cbn [wildcmp].
  destruct (if guard is Some g then g level else false) eqn:G.
  { exists 1. split; [done|]. split; [lia|]. split; [done|]. split; [|done]. intros Q. by rewrite Q in G. }
  rewrite (bool_decide_ext _ _ (encode_empty p)), (bool_decide_ext _ _ (encode_empty s)).
  case_bool_decide as Ep.
  { subst p. eexists. split; [done|apply result_end]. }
  pose proof (encode_length p). apply (match_loop_spec _ fuel); [apply IH|done|done|lia|lia|done].
Qed.
End Correct.

(** C40: whether a string is LIKE a pattern, for well-formed strings of utf8mb3 and utf8mb4: the function
    returns for all of them, and 0 means that the pattern, read as wildcards and characters that may be
    escaped, matches the string with characters equal if their weights are.  If the stack guard stops no
    call, it returns 0, and never 1, for every string that matches, with wildcards or not: that the search is given up when a recursive call
    has come to the end of the string (-1) loses no match.  The escape character must not be the wildcard
    of one character: behind a '%' that is then taken for the wildcard, although escaped. *)
Theorem wildcmp_correct (mb4 : bool) casefold guard escape w_one w_many s p :
  let max := if mb4 then 0x110000 else 0x10000 in
  let cmp := if mb4 then my_wildcmp_utf8mb4 else my_wildcmp_utf8mb3 in
  let matches := like (my_casefold_char_eq_general_ci casefold) (tokens escape w_one w_many p) s in
  escape <> w_one -> Forall (fun wc => 0 <= wc < max) s -> Forall (fun wc => 0 <= wc < max) p ->
  (exists r, cmp casefold guard escape w_one w_many (encode s) (encode p) = Some r /\
     -1 <= r <= 1 /\ (r = 0 -> matches) /\ (quiet guard -> matches -> r = 0)) /\
  (my_wildcmp_utf8mb4 casefold None 0x5F 0x5F 0x25 (encode [0x61; 0x62]) (encode [0x25; 0x5F; 0x5F]) = Some 0 /\
   tokens 0x5F 0x5F 0x25 [0x25; 0x5F; 0x5F] = [Many; Lit 0x5F]).
Proof.
  intros max cmp matches He Hs Hp. split; [|done].
  set (cset := if mb4 then my_charset_utf8mb4_handler else my_charset_utf8mb3_handler).
  assert (Utf8Charset cset max) as Hc by (unfold cset, max; destruct mb4; apply _).
  pose proof (encode_length p) as L.
  destruct (wildcmp_spec cset max (my_casefold_char_eq_general_ci casefold) escape w_one w_many guard He
    (S (length (encode p))) 1 s p Hs Hp ltac:(lia)) as (r & E & R & R0 & R1 & R2).
  exists r. split_and!; try lia; [by destruct mb4|done|]. intros Q M.
  assert (r = -1 \/ r = 0 \/ r = 1) as [Hr|[Hr|Hr]] by lia; [|done|].
  - by destruct (R2 Q Hr 0%nat).
  - by destruct (R1 Q Hr).
Qed.

(** A name with two wildcards, and an escaped one *)
Lemma wildcmp_correct_witness :
  (exists r, my_wildcmp_utf8mb4 my_casefold_default None 0x5C 0x5F 0x25 (encode [0x4D; 0xE4; 0x72; 0x7A])
     (encode [0x6D; 0x25; 0x7A]) = Some r /\ r = 0) /\
  exists r, my_wildcmp_utf8mb4 my_casefold_default None 0x5C 0x5F 0x25 (encode [0x61; 0x62])
     (encode [0x25; 0x5C; 0x5F]) = Some r /\ r <> 0.
Proof.
  split.
  - destruct (wildcmp_correct true my_casefold_default None 0x5C 0x5F 0x25 [0x4D; 0xE4; 0x72; 0x7A] [0x6D; 0x25; 0x7A])
      as [(r & E & _ & _ & H) _]; [done|repeat constructor; lia..|].
    exists r. split; [exact E|]. apply H; [by intros ?|].
    apply like_lit; [vm_compute; reflexivity|]. apply (like_many _ _ [0xE4; 0x72] [0x7A]).
    apply like_lit; [vm_compute; reflexivity|constructor].
  - destruct (wildcmp_correct true my_casefold_default None 0x5C 0x5F 0x25 [0x61; 0x62] [0x25; 0x5C; 0x5F])
      as [(r & E & _ & H & _) _]; [done|repeat constructor; lia..|].
    exists r. split; [exact E|]. intros M%H. apply like_many_lit in M as (s1 & x & s2 & Es & Ex & _).
    destruct s1 as [|? [|? [|]]]; simplify_eq/=.
Defined.
